(* ===== verification/_CoqProject ===== *)
-Q . S2P
Prelude.v
GoStr.v
GoNet.v
Frames.v
Gate.v
Relay.v
Process.v
Lifecycle.v
System.v
Sidecars.v
BoxContext.v
Probe.v
Tunnels.v
ProbeClients.v
TestEnv.v
SpeedTest.v
BoxLife.v
WinIpcfg.v
WinTypes.v
WinCalls.v
WinApi.v
WinConsts.v
BoxDns.v
VpnStatus.v
Warp.v
Dashboard.v
ProcessWin.v
MobileLog.v
MobileCore.v
MobileTest.v
MobileNet.v
MobileCommand.v
MobilePlatform.v
Diagnostics.v
RpcMisc.v
XrayDns.v
Parent.v
Core.v
