(* ===== verification/Prelude.v ===== *)
(** * nunya-core: a verification library

    nunya-core is the process that does the networking for the Nunya client: it runs a
    sing-box instance and, where a profile needs it, an Xray sidecar behind a lazy gate and
    a helper program; the client drives it over a framed connection. This library models
    the parts whose logic is the program's own and proves what makes them correct.

    ** How the parts fit together

    [Serve] (internal/rpc/dispatch.go) reads request frames and runs one handler per
    request; the handlers start and stop the profile (lifecycle.go), which builds a box
    (internal/boxmain, internal/boxbox), an Xray gate (internal/xray) and the helper
    (internal/process), publishes them in the pointers of state.go and takes them down
    again. Test handlers (testenv.go, urltest.go, speedtest.go) build instances of their
    own and run batches of probes through them (internal/probe). Others report on or drive
    the running profile (vpnstatus.go, autoselector.go, connections.go, rulesets.go,
    stats.go, diagnostics.go), or act on the machine (boxdns, winipcfg, sysdns,
    dashboard.go) and on a remote service (internal/warp). main.go checks who started the
    process and connects to it before it serves. On a phone there is no framed connection:
    package mobile gives the application instances, tests and commands as objects and calls
    back into the platform.

    ** The files

    - [Prelude]: fallible results, programs over a shared state with errors and panics
      ([prog]) and their small program logic ([wp], [wp_step]), machine integers, step
      relations with their invariant rule, pools of live resources, lists.
    - [GoStr], [GoNet]: the functions of Go's strings, strconv and net/netip the sources
      use, with their laws.
    - [Frames] (internal/rpc/dispatch.go): the frame codec, [Serve], the handler wrapper,
      and the responses written under [writeMu].
    - [Gate] (internal/xray/gate.go): the gate's operations and, as [gate_step], every
      interleaving of its goroutines; the remapping of the inbounds. [Relay]: the bytes of
      one connection, each direction copied by a goroutine of its own.
    - [Process] (process.go, process_unix.go): the helper program, the file its
      configuration is handed over in, and the privileges it runs with; [ProcessWin]
      (process_windows.go): the same on Windows, a search for a token without privileges
      over the handles that are open.
    - [Lifecycle] (lifecycle.go, state.go, xray.go, egress.go, boxmain/create.go): Start
      and Stop over a [core] of instance pointers and pools of what is alive.
    - [System]: [Frames] and [Lifecycle] together, every interleaving of the read loop, the
      request goroutines, both mutexes and the interface callback, against the requests
      served one after the other. What it needs of the lifecycle is the class
      [ProfileService], which [Lifecycle]'s theorems discharge. [Sidecars] (rpc/xray.go): the
      gates a profile opens beside that loop, each running as in [Gate], closed by the request
      that stops the profile.
    - [BoxContext] (internal/boxmain): who owns the files of a box, the configuration it is
      made of, and the signals that arrive while it starts.
    - [Probe], [Tunnels] (internal/probe): test sessions and their reporter, the concurrent
      batch, the dialer that owns its connections, the walk over dependencies, URL tests;
      [ProbeClients]: the clients of the tests and who closes them.
    - [TestEnv], [SpeedTest]: the test handlers and the measurements.
    - [BoxLife] (internal/boxbox, boxmain/check.go): what a box is made of, and the order
      in which its managers start and close.
    - [WinIpcfg], [WinTypes], [WinCalls], [WinApi], [WinConsts] (internal/winipcfg):
      interface addresses, routes and DNS; the memory layout of what is handed to Windows on
      either word size; the queries and table copies; the generated bindings beside the
      declarations they come from; the constants and the accessors of strings. [BoxDns]
      (boxdns, sysdns, rpc/systemdns): the manager that takes the system's DNS over.
    - [VpnStatus] (rpc/vpnstatus.go): VPN endpoints' status, waiting for it, challenges.
    - [Warp] (internal/warp, rpc/warp.go): keys and the registration of a device.
    - [Dashboard] (rpc/dashboard.go, dashboard_unix.go): installing an archive, and handing
      it to the user who invoked a setuid core.
    - [Diagnostics] (rpc/diagnostics.go): a capture with its profilers, its record, the
      names and histograms in it; [RpcMisc]: a module per small handler file; [XrayDns]
      (internal/xraydns, internal/xray/constructor.go): the lookups of Xray through the
      box's DNS, and making an instance.
    - [Parent] (internal/parentcheck, internal/ipc, main.go): the check of the parent, the
      connection to it behind the interface [Connector], the memory watchdog. [Core]: the
      process from main to its end, over [Parent] and [System].
    - [MobileLog], [MobileCore], [MobileTest], [MobileNet], [MobileCommand],
      [MobilePlatform] (mobile/): the log pump, instances with their Xray stack and the
      shared protector, tests, sockets' owners with the interface monitor and the tunnel,
      the commands, and several boxes with the platform they share.

    Each definition has the name it has in the source, or that of the part of a function it
    is cut from; state a function shares is a record with the source's fields.

    ** What the theorems show

    - Nothing leaks: along every run of starts and stops, of gate goroutines, of dialer
      calls, of tests, whatever is alive is named by somebody who will take it down
      ([lifecycle_leaks_nothing], [instances_have_one_owner], [connections_have_one_owner],
      [closed_dialer_holds_nothing], [process_leaves_nothing], [Test_leaves_no_trace],
      [mobile_leaks_nothing], [test_leaves_no_trace], [tests_close_their_clients],
      [capture_leaves_nothing_running]);
      stopping undoes starting and errors on the way leave nothing half done
      ([stop_undoes_start], [prepareTestEnv_all_or_nothing], [Start_complete_or_closed],
      [Close_exactly_once], [Start_Close_once], [StartGate_releases_ports]).
    - The whole loop: answers and core are those of serving the requests one after the other
      in the order they took the mutex ([requests_linearizable]); a client that waits for its
      answers leaks nothing, and its sessions leave the system as it was
      ([waiting_client_leaks_nothing], [stopped_session_restores_os]); the goroutines always
      drain ([requests_drain]); the gates never hold a request up, are open only for the
      profile that runs, and empty after it ([gates_never_block], [gates_follow_the_core],
      [stopped_gates_drain]); the process serves its parent and nobody else
      ([core_serves_its_parent]).
    - Every request is answered once and the answers never interleave
      ([serve_answers_every_request], [serve_frames_never_interleave]); a gated connection
      passes on all of both directions and ends, within what the gate's own theorems are
      about ([relay_delivers_both_directions], [relay_ends], [relay_refines_gate]); a
      capture's archive accounts for itself ([archive_accounts_for_itself]); batches and
      queries reply in order under every schedule ([runBatch_results], [QueryVPNStatus_rows],
      [BatchSpeedTest_in_order], [UpdateRuleSets_deterministic]); a waiter misses no change
      ([awaitVPNStatus_no_lost_wakeup]); queued log lines are delivered and the queue stays
      within its limit ([queued_lines_delivered], [queue_bounded]).
    - Only the client is served ([served_only_to_parent]); the helper of a setuid or
      elevated core is unprivileged ([extra_process_unprivileged],
      [startChild_unelevated]); an archive is extracted nowhere else
      ([InstallDashboard_safe]), and what is extracted or made for an ordinary user is that
      user's ([dashboard_is_invoking_users], [files_owner_exact]); an attachment cannot leave
      its directory ([attachmentName_plain]); an update of the default interface refreshes
      the box it was for ([update_refreshes_own_box]); a signal while a box starts ends the
      process only when the start hangs ([startup_signals]); a device is registered at most once
      ([register_at_most_one]).
    - Equivalence with a reference: the generated Windows bindings and their declarations
      ([bindings_follow_declarations]), structures padded by hand and the compiler's layout
      ([layouts_portable]), quantiles and the list of observations
      ([histogramQuantile_reference]), the owner of a socket and the kernel's table
      ([resolve_finds_owner]).
    - Round trips and exact effects: [read_request_exact], [set_restore_roundtrip],
      [GeneratePrivateKey_scalar], [SetAddrPort_roundtrip], the table operations of
      [WinIpcfg], [tunnelEndpoints_exact], [New_creates_every_entry].
    - Where the code does not do what it means to, the theorem states what it does:
      [second_start_orphans_box], [sweeper_closes_instance_in_use],
      [HandleSystemDNS_switches], [interface_change_missed], [dropped_peer_orphans_helper],
      [pipelined_stop_overtakes_start], [signal_cancels_started_box],
      [flags_on_the_wrong_interface], the last clause of [InstallDashboard_safe]; smaller ones
      are examples ([duplicate_tag_left_behind], [ipv6_first_keeps_local], [prefix_taken],
      [trailing_slash], [select_depends_on_order], [tenth_volume], [overtaken_sample]).

    ** Bounds and fuel

    Recursion that is not structural takes fuel that is proved enough: reading frames, the
    bytes of the input ([read_loop_fuel]); the dependency walk, one unit per dependency of
    a known tag ([walk_spec]); the adapter query, the bytes its buffer can still grow by
    below 2^32 ([adapters_loop_total]); connecting, the ten attempts the code makes
    ([connect_loop_spec]). Splitting and replacing in strings take the
    string's length, which every cut shortens. Integers whose width matters are wrapped
    ([wrap_unsigned], [wrap_signed]).

    ** What is a parameter, and what is left out

    sing-box, Xray, the operating system's calls, the JSON and protobuf codecs, TLS and
    HTTP, cryptography and clocks are parameters of the sections that use them, with the
    behaviour relied on as named laws, each shown to be satisfiable by a concrete instance
    that a witness computes with. A mutex's critical section is one step; goroutines
    interleave between steps. Symbolic links, file modes other than those named and the
    contents of log lines are not modelled.

    In [System], Start and Stop act in one step while they hold [lifecycleMu]; the other
    handlers answer anything and leave the core alone. In [Relay], a failed read or write may
    happen at any point. In [MobilePlatform], sing-box's network manager is a parameter that
    asks the wrapper it was made with.

    Not modelled, as there is no logic of the program's own in them: the registration of
    sing-box's types (distro/all), the memory report of a debug build, the settings of HTTP
    transports, the formatting of rates, platform no-ops, the schema generator and the
    tests. *)

From Stdlib Require Export ZArith Lia String Ascii.
From stdpp Require Export base tactics list numbers option strings gmap sets sorting.

#[export] Set Warnings "-clear-no-such-hyp".

Create HintDb nunya.

(** ** Fallible results

    A Go function that returns [(T, error)] is modelled by [result T]; the error
    value is its message. *)

Inductive result (A : Type) : Type :=
| Ok (a : A)
| Err (e : string).
Arguments Ok {A} a.
Arguments Err {A} e.

#[export] Instance result_ret : MRet result := fun A a => Ok a.
#[export] Instance result_bind : MBind result := fun A B f m =>
  match m with Ok a => f a | Err e => Err e end.
#[export] Instance result_fmap : FMap result := fun A B f m =>
  match m with Ok a => Ok (f a) | Err e => Err e end.

Definition is_ok {A} (r : result A) : bool :=
  match r with Ok _ => true | Err _ => false end.

Definition result_error {A} (r : result A) : option string :=
  match r with Ok _ => None | Err e => Some e end.

(** ** Programs: a shared state, Go errors and panics

    A function that reads and writes shared state is a [prog]: it returns a value,
    fails with an error, or panics. *)

Inductive outcome (A : Type) : Type :=
| Returns (a : A)
| Fails (e : string)
| Panics (e : string).
Arguments Returns {A} a.
Arguments Fails {A} e.
Arguments Panics {A} e.

Definition prog (S A : Type) : Type := S -> outcome A * S.

#[export] Instance prog_ret {S} : MRet (prog S) := fun A a s => (Returns a, s).
#[export] Instance prog_bind {S} : MBind (prog S) := fun A B f m s =>
  match m s with
  | (Returns a, s') => f a s'
  | (Fails e, s') => (Fails e, s')
  | (Panics e, s') => (Panics e, s')
  end.

Definition gets {S A} (f : S -> A) : prog S A := fun s => (Returns (f s), s).
Definition modify {S} (f : S -> S) : prog S unit := fun s => (Returns tt, f s).
Definition throw {S A} (e : string) : prog S A := fun s => (Fails e, s).
Definition panic {S A} (e : string) : prog S A := fun s => (Panics e, s).

(** A dereference of a pointer field; nil panics. *)
Definition deref {S A} (p : option A) : prog S A := fun s =>
  match p with
  | Some a => (Returns a, s)
  | None => (Panics "runtime error: invalid memory address or nil pointer dereference", s)
  end.

(** A call whose only effect is its result. *)
Definition lift_result {S A} (r : result A) : prog S A := fun s =>
  match r with Ok a => (Returns a, s) | Err e => (Fails e, s) end.

(** [if err != nil { cleanup(); return err }]. *)
Definition on_error {S A} (m : prog S A) (cleanup : S -> S) : prog S A := fun s =>
  match m s with
  | (Fails e, s') => (Fails e, cleanup s')
  | r => r
  end.

Definition when {S} (b : bool) (m : prog S unit) : prog S unit := fun s =>
  if b then m s else (Returns tt, s).

(** [E.Cause(err, msg)] of the result of a call. *)
Definition cause {S A} (msg : string) (m : prog S A) : prog S A := fun s =>
  match m s with
  | (Fails e, s') => (Fails (msg ++ ": " ++ e)%string, s')
  | r => r
  end.

(** A deferred call: it runs however the rest ends, a panic included. *)
Definition deferred {S A} (cleanup : S -> S) (m : prog S A) : prog S A := fun s =>
  let '(r, s') := m s in (r, cleanup s').

Lemma bind_returns {S A B} (m : prog S A) (f : A -> prog S B) s b s' :
  (m ≫= f) s = (Returns b, s') -> exists a s1, m s = (Returns a, s1) /\ f a s1 = (Returns b, s').
Proof. unfold mbind, prog_bind. destruct (m s) as [[a|e|e] s1]; [eauto | done | done]. Qed.

(** [wp m Q F s]: run from [s], [m] does not panic; a value it returns satisfies [Q],
    an error [F], each with the state left. *)
Definition wp {S A} (m : prog S A) (Q : A -> S -> Prop) (F : string -> S -> Prop) (s : S) : Prop :=
  match m s with
  | (Returns a, s') => Q a s'
  | (Fails e, s') => F e s'
  | (Panics _, _) => False
  end.

Section Wp.
  Context {S A : Type}.
  Implicit Types (m : prog S A) (Q : A -> S -> Prop) (F : string -> S -> Prop).

Lemma wp_mono m Q Q' F F' s :
  wp m Q F s -> (forall a s', Q a s' -> Q' a s') -> (forall e s', F e s' -> F' e s') -> wp m Q' F' s.
Proof. unfold wp. destruct (m s) as [[a|e|e] s']; auto. Qed.

Lemma wp_returns m Q F s a s' : m s = (Returns a, s') -> Q a s' -> wp m Q F s.
Proof. unfold wp. by intros ->. Qed.

Lemma wp_bind {B} (m : prog S B) (f : B -> prog S A) Q F s :
  wp m (fun b s' => wp (f b) Q F s') F s -> wp (m ≫= f) Q F s.
Proof. unfold wp, mbind, prog_bind. by destruct (m s) as [[b|e|e] s']. Qed.

Lemma wp_ret (a : A) Q F s : Q a s -> wp (mret a) Q F s.
Proof. done. Qed.

Lemma wp_gets (f : S -> A) Q F s : Q (f s) s -> wp (gets f) Q F s.
Proof. done. Qed.

Lemma wp_throw e Q F s : F e s -> wp (throw e) Q F s.
Proof. done. Qed.

Lemma wp_deref (p : option A) Q F s a : p = Some a -> Q a s -> wp (deref p) Q F s.
Proof. by intros ->. Qed.

Lemma wp_lift_result (r : result A) Q F s :
  (forall a, r = Ok a -> Q a s) -> (forall e, r = Err e -> F e s) -> wp (lift_result r) Q F s.
Proof. unfold wp, lift_result. destruct r; auto. Qed.

Lemma wp_on_error m cleanup Q F s :
  wp m Q (fun e s' => F e (cleanup s')) s -> wp (on_error m cleanup) Q F s.
Proof. unfold wp, on_error. by destruct (m s) as [[a|e|e] s']. Qed.

Lemma wp_cause msg m Q F s :
  wp m Q (fun e => F (msg ++ ": " ++ e)%string) s -> wp (cause msg m) Q F s.
Proof. unfold wp, cause. by destruct (m s) as [[a|e|e] s']. Qed.
End Wp.

Lemma wp_deferred {S A} (cleanup : S -> S) (m : prog S A) (Q : A -> S -> Prop) F s :
  wp m (fun a s' => Q a (cleanup s')) (fun e s' => F e (cleanup s')) s -> wp (deferred cleanup m) Q F s.
Proof. unfold wp, deferred. by destruct (m s) as [[a|e|e] s']. Qed.

Lemma wp_modify {S} (f : S -> S) (Q : unit -> S -> Prop) F s : Q tt (f s) -> wp (modify f) Q F s.
Proof. done. Qed.

Lemma wp_when {S} (b : bool) (m : prog S unit) (Q : unit -> S -> Prop) F s :
  (b = true -> wp m Q F s) -> (b = false -> Q tt s) -> wp (when b m) Q F s.
Proof. intros H1 H2. destruct b; [by apply H1 | by apply H2]. Qed.

(** One step of a program logic proof. *)
Ltac wp_step :=
  lazymatch goal with
  | |- wp (mbind _ _) _ _ _ => apply wp_bind
  | |- wp (mret _) _ _ _ => apply wp_ret
  | |- wp (gets _) _ _ _ => apply wp_gets
  | |- wp (modify _) _ _ _ => apply wp_modify
  | |- wp (throw _) _ _ _ => apply wp_throw
  | |- wp (on_error _ _) _ _ _ => apply wp_on_error
  | |- wp (cause _ _) _ _ _ => apply wp_cause
  | |- wp (deferred _ _) _ _ _ => apply wp_deferred
  | |- wp (lift_result _) _ _ _ => apply wp_lift_result; [intros ? ? | intros ? ?]
  | |- wp (when _ _) _ _ _ => apply wp_when; intros ?
  end; cbv beta.

(** A relation the state keeps to however a program ends. *)
Definition keeps {S A} (R : S -> S -> Prop) (m : prog S A) : Prop := forall s, R s (m s).2.

Section Keeps.
  Context {S : Type} (R : S -> S -> Prop) `{!PreOrder R}.
  Implicit Types f g : S -> S.

Lemma keeps_bind {A B} (m : prog S A) (f : A -> prog S B) :
  keeps R m -> (forall a, keeps R (f a)) -> keeps R (m ≫= f).
Proof.
  intros Hm Hf s. specialize (Hm s). unfold mbind, prog_bind. destruct (m s) as [[a|e|e] s']; cbn in *; [|done..].
  etrans; [exact Hm | apply Hf].
Qed.

Lemma keeps_ret {A} (a : A) : keeps R (mret a).
Proof. by intros s. Qed.

Lemma keeps_gets {A} (f : S -> A) : keeps R (gets f).
Proof. by intros s. Qed.

Lemma keeps_throw {A} e : keeps R (throw (A := A) e).
Proof. by intros s. Qed.

Lemma keeps_deref {A} (p : option A) : keeps R (deref p).
Proof. intros s. by destruct p. Qed.

Lemma keeps_lift_result {A} (r : result A) : keeps R (lift_result r).
Proof. intros s. by destruct r. Qed.

Lemma keeps_modify f : (forall s, R s (f s)) -> keeps R (modify f).
Proof. by intros H s. Qed.

Lemma keeps_on_error {A} (m : prog S A) f : keeps R m -> (forall s, R s (f s)) -> keeps R (on_error m f).
Proof.
  intros Hm Hf s. specialize (Hm s). unfold on_error. destruct (m s) as [[a|e|e] s']; cbn in *; [done| |done].
  etrans; [exact Hm | apply Hf].
Qed.

Lemma keeps_cause {A} msg (m : prog S A) : keeps R m -> keeps R (cause msg m).
Proof. intros Hm s. specialize (Hm s). unfold cause. by destruct (m s) as [[a|e|e] s']. Qed.

Lemma keeps_when b (m : prog S unit) : (b = true -> keeps R m) -> keeps R (when b m).
Proof. intros Hm s. destruct b; [by apply Hm | done]. Qed.

Lemma keeps_deferred {A} f (m : prog S A) : (forall s, R s (f s)) -> keeps R m -> keeps R (deferred f m).
Proof.
  intros Hf Hm s. specialize (Hm s). unfold deferred. destruct (m s) as [r s']; cbn in *. etrans; [exact Hm | apply Hf].
Qed.
End Keeps.

(** Down to the programs that are no combinator. *)
Ltac keeps_steps :=
  repeat match goal with
  | |- forall _, _ => intros ?
  | |- keeps _ (mbind _ _) => apply keeps_bind
  | |- keeps _ (mret _) => apply keeps_ret
  | |- keeps _ (gets _) => apply keeps_gets
  | |- keeps _ (throw _) => apply keeps_throw
  | |- keeps _ (deref _) => apply keeps_deref
  | |- keeps _ (lift_result _) => apply keeps_lift_result
  | |- keeps _ (modify _) => apply keeps_modify
  | |- keeps _ (on_error _ _) => apply keeps_on_error
  | |- keeps _ (cause _ _) => apply keeps_cause
  | |- keeps _ (when _ _) => apply keeps_when
  | |- keeps _ (deferred _ _) => apply keeps_deferred
  | |- PreOrder _ => exact _
  end.

(** A program that does the same, and leaves related states, from related states. *)
Definition agrees {S A} (R : S -> S -> Prop) (m : prog S A) : Prop :=
  forall s1 s2, R s1 s2 -> (m s1).1 = (m s2).1 /\ R (m s1).2 (m s2).2.

Section Agrees.
  Context {S : Type} (R : S -> S -> Prop).
  Implicit Types f : S -> S.

Lemma agrees_bind {A B} (m : prog S A) (f : A -> prog S B) :
  agrees R m -> (forall a, agrees R (f a)) -> agrees R (m ≫= f).
Proof.
  intros Hm Hf s1 s2 H. destruct (Hm s1 s2 H) as [He Hr]. unfold mbind, prog_bind.
  destruct (m s1) as [[a|e|e] t1], (m s2) as [[a'|e'|e'] t2]; cbn in *; simplify_eq; try done. by apply Hf.
Qed.

Lemma agrees_ret {A} (a : A) : agrees R (mret a).
Proof. by intros s1 s2. Qed.

Lemma agrees_gets {A} (f : S -> A) : (forall s1 s2, R s1 s2 -> f s1 = f s2) -> agrees R (gets f).
Proof. intros H s1 s2 Hr. unfold gets. cbn. by rewrite (H s1 s2 Hr). Qed.

Lemma agrees_throw {A} e : agrees R (throw (A := A) e).
Proof. by intros s1 s2. Qed.

Lemma agrees_deref {A} (p : option A) : agrees R (deref p).
Proof. intros s1 s2 H. by destruct p. Qed.

Lemma agrees_lift_result {A} (r : result A) : agrees R (lift_result r).
Proof. intros s1 s2 H. by destruct r. Qed.

Lemma agrees_modify f : (forall s1 s2, R s1 s2 -> R (f s1) (f s2)) -> agrees R (modify f).
Proof. intros H s1 s2 Hr. split; [done | by apply H]. Qed.

Lemma agrees_on_error {A} (m : prog S A) f :
  agrees R m -> (forall s1 s2, R s1 s2 -> R (f s1) (f s2)) -> agrees R (on_error m f).
Proof.
  intros Hm Hf s1 s2 H. destruct (Hm s1 s2 H) as [He Hr]. unfold on_error.
  destruct (m s1) as [[a|e|e] t1], (m s2) as [[a'|e'|e'] t2]; cbn in *; simplify_eq; auto.
Qed.

Lemma agrees_cause {A} msg (m : prog S A) : agrees R m -> agrees R (cause msg m).
Proof.
  intros Hm s1 s2 H. destruct (Hm s1 s2 H) as [He Hr]. unfold cause.
  destruct (m s1) as [[a|e|e] t1], (m s2) as [[a'|e'|e'] t2]; cbn in *; simplify_eq; auto.
Qed.

Lemma agrees_when b (m : prog S unit) : agrees R m -> agrees R (when b m).
Proof. intros Hm. by destruct b; [apply Hm|]. Qed.
End Agrees.

Ltac agrees_steps :=
  repeat match goal with
  | |- forall _, _ => intros ?
  | |- agrees _ (mbind _ _) => apply agrees_bind
  | |- agrees _ (mret _) => apply agrees_ret
  | |- agrees _ (gets _) => apply agrees_gets
  | |- agrees _ (throw _) => apply agrees_throw
  | |- agrees _ (deref _) => apply agrees_deref
  | |- agrees _ (lift_result _) => apply agrees_lift_result
  | |- agrees _ (modify _) => apply agrees_modify
  | |- agrees _ (on_error _ _) => apply agrees_on_error
  | |- agrees _ (cause _ _) => apply agrees_cause
  | |- agrees _ (when _ _) => apply agrees_when
  end.

(** ** Machine integers

    A w-bit Go integer is a [Z]; conversions wrap as the language does. *)

Definition wrap_unsigned (w z : Z) : Z := z mod 2 ^ w.
Definition wrap_signed (w z : Z) : Z := (z + 2 ^ (w - 1)) mod 2 ^ w - 2 ^ (w - 1).

Abbreviation uint8 := (wrap_unsigned 8).
Abbreviation uint16 := (wrap_unsigned 16).
Abbreviation uint32 := (wrap_unsigned 32).
Abbreviation int32 := (wrap_signed 32).
Abbreviation int64 := (wrap_signed 64).

Lemma wrap_unsigned_small w z : (0 <= z < 2 ^ w)%Z -> wrap_unsigned w z = z.
Proof. intros. unfold wrap_unsigned. by apply Z.mod_small. Qed.

Lemma wrap_unsigned_range w z : (0 <= w)%Z -> (0 <= wrap_unsigned w z < 2 ^ w)%Z.
Proof. intros. apply Z.mod_pos_bound. by apply Z.pow_pos_nonneg. Qed.

Lemma wrap_signed_small w z :
  (0 < w)%Z -> (- 2 ^ (w - 1) <= z < 2 ^ (w - 1))%Z -> wrap_signed w z = z.
Proof.
  intros Hw Hz. unfold wrap_signed.
  assert (2 ^ w = 2 * 2 ^ (w - 1))%Z as E.
  { rewrite <- Z.pow_succ_r by lia. f_equal. lia. }
  rewrite Z.mod_small by lia. lia.
Qed.

Lemma wrap_signed_range w z :
  (0 < w)%Z -> (- 2 ^ (w - 1) <= wrap_signed w z < 2 ^ (w - 1))%Z.
Proof.
  intros Hw. unfold wrap_signed.
  assert (2 ^ w = 2 * 2 ^ (w - 1))%Z as E.
  { rewrite <- Z.pow_succ_r by lia. f_equal. lia. }
  pose proof (Z.mod_pos_bound (z + 2 ^ (w - 1)) (2 ^ w) ltac:(apply Z.pow_pos_nonneg; lia)).
  lia.
Qed.

#[export] Hint Resolve wrap_unsigned_range wrap_signed_range : nunya.

(** ** Tactics *)

(** Splits on the scrutinee of a [match] or [if] of the goal or a hypothesis. *)
Ltac case_on :=
  match goal with
  | |- context [match ?x with _ => _ end] => destruct x eqn:?
  | H : context [match ?x with _ => _ end] |- _ => destruct x eqn:?
  end.

(** Runs through the branches of a definition, closing the contradictory ones. *)
Ltac branches := repeat (case_on; simplify_eq/=); try done.

(** ** Step relations: reachability and invariants *)

Section Steps.
  Context {S : Type} (step : S -> S -> Prop).

Inductive steps : S -> S -> Prop :=
| steps_refl s : steps s s
| steps_step s1 s2 s3 : step s1 s2 -> steps s2 s3 -> steps s1 s3.

Lemma steps_one s1 s2 : step s1 s2 -> steps s1 s2.
Proof. intros. eapply steps_step; [done | constructor]. Qed.

Lemma steps_trans s1 s2 s3 : steps s1 s2 -> steps s2 s3 -> steps s1 s3.
Proof. induction 1; [done |]. intros. eapply steps_step; eauto. Qed.

(** A property every step preserves holds along every run. *)
Lemma steps_invariant (P : S -> Prop) :
  (forall s1 s2, P s1 -> step s1 s2 -> P s2) ->
  forall s1 s2, steps s1 s2 -> P s1 -> P s2.
Proof. intros Hstep s1 s2. induction 1; eauto. Qed.
End Steps.

#[export] Hint Resolve steps_one steps_refl : nunya.

(** ** Pools of live resources

    Objects the program opens and must close, by number: the live ones, and the number
    the next one gets. *)

Record pool := MkPool { p_live : gset nat; p_next : nat }.

Definition alloc (p : pool) : pool := MkPool ({[p_next p]} ∪ p_live p) (S (p_next p)).
Definition release (x : nat) (p : pool) : pool := MkPool (p_live p ∖ {[x]}) (p_next p).
Definition release_all (xs : list nat) (p : pool) : pool := foldl (fun p x => release x p) p xs.

Definition pool_ok (p : pool) : Prop := forall x, x ∈ p_live p -> (x < p_next p)%nat.

Lemma pool_ok_alloc p : pool_ok p -> pool_ok (alloc p).
Proof. intros H x. unfold alloc; cbn. rewrite elem_of_union, elem_of_singleton. intros [-> | Hx]; [lia|]. apply H in Hx. lia. Qed.

Lemma pool_ok_release x p : pool_ok p -> pool_ok (release x p).
Proof. intros H y. unfold release; cbn. rewrite elem_of_difference. intros [Hy _]. by apply H. Qed.

Lemma p_next_fresh p : pool_ok p -> p_next p ∉ p_live p.
Proof. intros H Hx%H. lia. Qed.

Lemma release_alloc p : pool_ok p -> p_live (release (p_next p) (alloc p)) = p_live p.
Proof.
  intros H%p_next_fresh. unfold release, alloc; cbn. apply leibniz_equiv. set_solver.
Qed.

Lemma p_next_release_all xs p : p_next (release_all xs p) = p_next p.
Proof. revert p. induction xs as [|x xs IH]; intros p; [done|]. exact (IH (release x p)). Qed.

Lemma p_live_release_all xs p : p_live (release_all xs p) = p_live p ∖ list_to_set xs.
Proof.
  revert p. induction xs as [|x xs IH]; intros p; unfold release_all; cbn.
  - apply leibniz_equiv. set_solver.
  - unfold release_all in IH. rewrite IH. cbn. apply leibniz_equiv. set_solver.
Qed.

Lemma pool_ok_release_all xs p : pool_ok p -> pool_ok (release_all xs p).
Proof.
  intros H x. rewrite p_live_release_all, p_next_release_all, elem_of_difference.
  intros [Hx _]. by apply H.
Qed.

#[export] Hint Resolve pool_ok_alloc pool_ok_release pool_ok_release_all : nunya.

(** ** Lists *)

Lemma Forall_filter_sub {A} (P Q : A -> Prop) `{forall x, Decision (Q x)} (l : list A) :
  Forall P l -> Forall P (filter Q l).
Proof. rewrite !Forall_forall. intros HP x [_ Hx]%list_elem_of_filter. auto. Qed.

Lemma existsb_elem {A} (f : A -> bool) (l : list A) :
  existsb f l = true <-> exists x, x ∈ l /\ f x = true.
Proof.
  rewrite existsb_exists. split; intros (x & Hx & Hf); exists x; split; auto;
    by apply list_elem_of_In.
Qed.

Lemma foldl_app_concat {A B} (f : A -> list B) (l : list A) acc :
  foldl (fun a x => a ++ f x) acc l = acc ++ mjoin (f <$> l).
Proof.
  revert acc. induction l as [|x l IH]; intros acc; simpl.
  - by rewrite app_nil_r.
  - by rewrite IH, <- app_assoc.
Qed.

Lemma list_filter_all {A} (P : A -> Prop) `{forall x, Decision (P x)} (l : list A) :
  Forall P l -> filter P l = l.
Proof. induction 1 as [|x l Hx Hl IH]; [done|]. by rewrite filter_cons, decide_True, IH. Qed.

Lemma list_filter_none {A} (P : A -> Prop) `{forall x, Decision (P x)} (l : list A) :
  Forall (fun x => ~ P x) l -> filter P l = [].
Proof. induction 1 as [|x l Hx Hl IH]; [done|]. by rewrite filter_cons, decide_False. Qed.

(** [for _, x := range l { if err := f(x); err != nil { return err } }]. *)
Fixpoint for_each {S A} (f : A -> prog S unit) (l : list A) : prog S unit :=
  match l with
  | [] => mret tt
  | x :: l => _ ← f x; for_each f l
  end.
