(* ===== verification/GoStr.v ===== *)
(** * The string functions of Go's [strings] and [strconv] the sources use

    A Go string is its bytes ([string] of the Standard Library). The case functions act
    on ASCII letters only, and the space of [TrimSpace] and [Fields] is the ASCII one. *)

From stdpp Require Import pretty.
From S2P Require Export Prelude.
From Stdlib Require Import List.
Import ListNotations.
Local Open Scope string_scope.

(** [itoa] is [strconv.Itoa] (and [FormatInt] in base 10). *)
Definition itoa (z : Z) : string := pretty z.

Fixpoint has_prefix (s p : string) {struct p} : bool :=
  match p, s with
  | EmptyString, _ => true
  | String a p', String b s' => Ascii.eqb a b && has_prefix s' p'
  | String _ _, EmptyString => false
  end.

Definition has_suffix (s p : string) : bool :=
  (String.length p <=? String.length s)%nat &&
  String.eqb (String.substring (String.length s - String.length p) (String.length p) s) p.

Fixpoint drop_str (n : nat) (s : string) : string :=
  match n, s with
  | S n, String _ s => drop_str n s
  | _, _ => s
  end.

Fixpoint take_str (n : nat) (s : string) : string :=
  match n, s with
  | S n, String c s => String c (take_str n s)
  | _, _ => EmptyString
  end.

Definition trim_prefix (s p : string) : string :=
  if has_prefix s p then drop_str (String.length p) s else s.

Definition trim_suffix (s p : string) : string :=
  if has_suffix s p then take_str (String.length s - String.length p) s else s.

(** [Cut] for a separator, also [Index] through the length of its first component. *)
Fixpoint cut (s sep : string) : option (string * string) :=
  if has_prefix s sep then Some (EmptyString, drop_str (String.length sep) s)
  else
    match s with
    | EmptyString => None
    | String c s' =>
        match cut s' sep with
        | Some (before, after) => Some (String c before, after)
        | None => None
        end
    end.

Definition contains (s sub : string) : bool :=
  match cut s sub with Some _ => true | None => false end.

(** [Split] by a single byte: never empty. *)
Fixpoint split_by (sep : ascii) (s : string) : list string :=
  match s with
  | EmptyString => [EmptyString]
  | String c s' =>
      match split_by sep s' with
      | [] => [EmptyString]
      | f :: fs => if Ascii.eqb c sep then EmptyString :: f :: fs else String c f :: fs
      end
  end.

(** [Split] by a string; every cut shortens the text. *)
Fixpoint split_str (fuel : nat) (s sep : string) : list string :=
  match fuel with
  | O => [s]
  | S fuel =>
      match cut s sep with
      | Some (before, after) => before :: split_str fuel after sep
      | None => [s]
      end
  end.
Definition split_on (s sep : string) : list string := split_str (String.length s) s sep.

Definition join (sep : string) (l : list string) : string := String.concat sep l.

Definition in_string (c : ascii) (cs : string) : bool :=
  existsb (Ascii.eqb c) (list_ascii_of_string cs).

(** [TrimLeft], [TrimRight] and [Trim] by a set of bytes. *)
Fixpoint trim_left (s cs : string) : string :=
  match s with
  | EmptyString => EmptyString
  | String c s' => if in_string c cs then trim_left s' cs else s
  end.

Fixpoint trim_right (s cs : string) : string :=
  match s with
  | EmptyString => EmptyString
  | String c s' =>
      match trim_right s' cs with
      | EmptyString => if in_string c cs then EmptyString else String c EmptyString
      | r => String c r
      end
  end.

Definition trim (s cs : string) : string := trim_right (trim_left s cs) cs.

Definition white : string := string_of_list_ascii (map ascii_of_nat [32; 9; 10; 11; 12; 13]%nat).
Definition trim_space (s : string) : string := trim s white.

(** [Fields]: the maximal runs of non-space bytes. *)
Fixpoint fields_from (word s : string) : list string :=
  let emit := if String.eqb word EmptyString then [] else [word] in
  match s with
  | EmptyString => emit
  | String c s' =>
      if in_string c white then emit ++ fields_from EmptyString s'
      else fields_from (word ++ String c EmptyString) s'
  end.
Definition fields (s : string) : list string := fields_from EmptyString s.

Definition lower_ascii (c : ascii) : ascii :=
  let n := nat_of_ascii c in
  if ((65 <=? n) && (n <=? 90))%nat then ascii_of_nat (n + 32) else c.
Definition upper_ascii (c : ascii) : ascii :=
  let n := nat_of_ascii c in
  if ((97 <=? n) && (n <=? 122))%nat then ascii_of_nat (n - 32) else c.

Fixpoint map_string (f : ascii -> ascii) (s : string) : string :=
  match s with EmptyString => EmptyString | String c s' => String (f c) (map_string f s') end.

Definition to_lower : string -> string := map_string lower_ascii.
Definition to_upper : string -> string := map_string upper_ascii.
Definition equal_fold (s t : string) : bool := String.eqb (to_lower s) (to_lower t).

(** [ReplaceAll] of one byte. *)
Definition replace_byte (a b : ascii) : string -> string :=
  map_string (fun c => if Ascii.eqb c a then b else c).

(** [ReplaceAll]; [fuel] bounds the replacements, the length of the string is enough
    for a separator that is not empty. *)
Fixpoint replace_fuel (fuel : nat) (s old new : string) : string :=
  match fuel with
  | O => s
  | S fuel =>
      match cut s old with
      | None => s
      | Some (before, after) => before ++ new ++ replace_fuel fuel after old new
      end
  end.
Definition replace_all (s old new : string) : string :=
  replace_fuel (S (String.length s)) s old new.

(** A run of decimal digits as a number, most significant digit first. *)
Definition digit_of (c : ascii) : option Z :=
  let n := nat_of_ascii c in
  if ((48 <=? n) && (n <=? 57))%nat then Some (Z.of_nat n - 48)%Z else None.

Fixpoint parse_digits (acc : Z) (s : string) : option Z :=
  match s with
  | EmptyString => Some acc
  | String c s' =>
      match digit_of c with
      | Some d => parse_digits (10 * acc + d)%Z s'
      | None => None
      end
  end.

(** [strconv.ParseUint(s, 10, w)] when it succeeds. *)
Definition parse_uint (w : Z) (s : string) : option Z :=
  if String.eqb s EmptyString then None
  else
    match parse_digits 0 s with
    | Some n => if (n <? 2 ^ w)%Z then Some n else None
    | None => None
    end.

(** [strconv.Atoi]: an optional sign, digits, within int64. *)
Definition atoi (s : string) : option Z :=
  let signed n := if ((- 2 ^ 63 <=? n) && (n <? 2 ^ 63))%Z then Some n else None in
  match s with
  | String "-" ((String _ _) as s') => match parse_digits 0 s' with Some n => signed (- n)%Z | None => None end
  | String "+" ((String _ _) as s') => match parse_digits 0 s' with Some n => signed n | None => None end
  | String _ _ => match parse_digits 0 s with Some n => signed n | None => None end
  | EmptyString => None
  end.

(** [fmt.Sprintf(format, arg)] with one string argument, for the verbs [%s], [%v] and
    [%%] without flags. *)
Fixpoint sprintf (format : string) (arg : option string) : string :=
  match format with
  | String "%" (String c rest) =>
      if Ascii.eqb c "%" then String "%" (sprintf rest arg)
      else
        match arg with
        | Some a =>
            if in_string c "sv" then a ++ sprintf rest None
            else "%!" ++ String c ("(string=" ++ a ++ ")") ++ sprintf rest None
        | None => "%!" ++ String c "(MISSING)" ++ sprintf rest None
        end
  | String c rest => String c (sprintf rest arg)
  | EmptyString => EmptyString
  end.

(** The verb [%q]: the ASCII escapes of [strconv.Quote]; bytes beyond ASCII are taken to
    be the UTF-8 of printable characters, which it keeps. *)
Definition hex_digit (n : nat) : ascii :=
  ascii_of_nat (if (n <? 10)%nat then 48 + n else 87 + n).
Definition quote_byte (c : ascii) : string :=
  let esc c := String (ascii_of_nat 92) (String (ascii_of_nat c) EmptyString) in
  match nat_of_ascii c with
  | 7 => esc 97 | 8 => esc 98 | 9 => esc 116 | 10 => esc 110 | 11 => esc 118
  | 12 => esc 102 | 13 => esc 114 | 34 => esc 34 | 92 => esc 92
  | n =>
      if ((n <? 32) || (n =? 127))%nat
      then esc 120 ++ String (hex_digit (n / 16)) (String (hex_digit (n mod 16)) EmptyString)
      else String c EmptyString
  end%nat.
Definition quote (s : string) : string :=
  let mark := String (ascii_of_nat 34) EmptyString in
  mark ++ join EmptyString (map quote_byte (list_ascii_of_string s)) ++ mark.

(** The verb [%#q]: between back quotes where the text can stand there. *)
Definition can_backquote (s : string) : bool :=
  forallb (fun c => let n := nat_of_ascii c in
    ((32 <=? n) || (n =? 9))%nat && negb (n =? 96)%nat && negb (n =? 127)%nat) (list_ascii_of_string s).
Definition hash_q (s : string) : string := if can_backquote s then "`" ++ s ++ "`" else quote s.

Module Tests.
Example split_ex : split_by "," "a,,b" = ["a"; ""; "b"]. Proof. reflexivity. Qed.
Example cut_ex : cut "foo::bar::" "::" = Some ("foo", "bar::"). Proof. reflexivity. Qed.
Example trim_ex : trim_space " a b  " = "a b". Proof. reflexivity. Qed.
Example fields_ex : fields " a  bc d " = ["a"; "bc"; "d"]. Proof. reflexivity. Qed.
Example suffix_ex : trim_suffix "a.zip" ".zip" = "a". Proof. reflexivity. Qed.
Example replace_ex : replace_all "a-b-c" "-" "::" = "a::b::c". Proof. reflexivity. Qed.
Example sprintf_ex : sprintf "-c=%s%%" (Some "x") = "-c=x%". Proof. reflexivity. Qed.
Example atoi_ex : (atoi "-12", atoi "+7", atoi "-", atoi "1x") = (Some (-12)%Z, Some 7%Z, None, None).
Proof. reflexivity. Qed.
End Tests.

(** ** Laws *)

Lemma string_app_assoc (s t u : string) : ((s ++ t) ++ u)%string = (s ++ t ++ u)%string.
Proof.
  induction s as [|c s IH]; [done|].
  change (String c ((s ++ t) ++ u) = String c (s ++ t ++ u)). by rewrite IH.
Qed.

Lemma has_prefix_app s p : has_prefix s p = true -> s = p ++ drop_str (String.length p) s.
Proof.
  revert s. induction p as [|c p IH]; intros [|c' s]; cbn [has_prefix]; try done.
  intros [->%Ascii.eqb_eq H]%andb_true_iff. by rewrite (IH s H) at 1.
Qed.

Lemma cut_spec s sep before after :
  cut s sep = Some (before, after) -> s = before ++ sep ++ after.
Proof.
  revert before after. induction s as [|c s IH]; intros before after; cbn [cut].
  - destruct sep as [|c' sep]; cbn; [|done]. intros E. by simplify_eq.
  - destruct (has_prefix (String c s) sep) eqn:Hp.
    + intros E. simplify_eq. by apply has_prefix_app.
    + destruct (cut s sep) as [[b a]|]; [|done]. intros [= <- <-].
      by rewrite (IH b a eq_refl).
Qed.

(** [Split] by a byte the string does not contain gives it back whole; in general the
    fields joined by the byte are the string. *)
Lemma split_by_not_nil sep s : split_by sep s <> [].
Proof. destruct s; simpl; [done|]. destruct (split_by sep s); [done|]. by destruct (Ascii.eqb a sep). Qed.

Lemma concat_cons sep x l : l <> [] -> String.concat sep (x :: l) = x ++ sep ++ String.concat sep l.
Proof. by destruct l. Qed.

Lemma concat_push sep c f fs :
  String.concat sep (String c f :: fs) = String c (String.concat sep (f :: fs)).
Proof. by destruct fs. Qed.

Lemma join_split_by sep s : join (String sep EmptyString) (split_by sep s) = s.
Proof.
  unfold join. induction s as [|c s IH]; [done|]. cbn [split_by].
  destruct (split_by sep s) as [|f fs] eqn:E; [by apply split_by_not_nil in E|].
  destruct (Ascii.eqb c sep) eqn:Ec.
  - apply Ascii.eqb_eq in Ec as ->. rewrite concat_cons by done. by rewrite IH.
  - rewrite concat_push. by rewrite IH.
Qed.

(** A string without a byte. *)
Definition lacks (sep : ascii) (s : string) : bool :=
  forallb (fun c => negb (Ascii.eqb c sep)) (list_ascii_of_string s).

Lemma split_by_lacks sep s : lacks sep s = true -> split_by sep s = [s].
Proof.
  induction s as [|c s IH]; [done|]. unfold lacks; cbn. intros [Hc%negb_true_iff H]%andb_true_iff.
  by rewrite IH, Hc.
Qed.

Lemma split_by_app sep s t : lacks sep s = true ->
  split_by sep (s ++ String sep t) = s :: split_by sep t.
Proof.
  induction s as [|c s IH].
  - intros _. simpl. destruct (split_by sep t) eqn:E; [by apply split_by_not_nil in E|].
    by rewrite Ascii.eqb_refl.
  - unfold lacks; simpl. intros [Hc%negb_true_iff H]%andb_true_iff. by rewrite (IH H), Hc.
Qed.

Lemma split_by_join sep l : l <> [] -> Forall (fun s => lacks sep s = true) l ->
  split_by sep (join (String sep EmptyString) l) = l.
Proof.
  unfold join. induction l as [|s l IH]; [done|]. intros _ H. apply Forall_cons_iff in H as [Hs Hl].
  destruct l as [|s' l]; [by apply split_by_lacks|].
  rewrite concat_cons by done.
  change (String sep EmptyString ++ ?t) with (String sep t). rewrite split_by_app by done. by rewrite IH.
Qed.

Lemma trim_space_black c s : in_string c white = false -> trim_space (String c s) <> EmptyString.
Proof.
  unfold trim_space, trim. cbn [trim_left]. intros H. rewrite H. cbn [trim_right].
  destruct (trim_right s white); [by rewrite H | done].
Qed.
