(* ===== verification/GoNet.v ===== *)
(** * The addresses of Go's [net/netip] the sources use

    An address is its bits as a number; only the dotted IPv4 syntax is parsed and
    printed, as the sources parse IPv6 text nowhere they decide on it. *)

From S2P Require Export Prelude GoStr.

Open Scope Z_scope.

Inductive Addr :=
| NoAddr                              (* the zero [netip.Addr] *)
| Addr4 (bits : Z)
| Addr6 (bits : Z) (zone : string).

#[export] Instance Addr_eq_dec : EqDecision Addr.
Proof. solve_decision. Defined.

Definition IsValid (a : Addr) : bool := match a with NoAddr => false | _ => true end.
Definition Is4 (a : Addr) : bool := match a with Addr4 _ => true | _ => false end.
Definition Is6 (a : Addr) : bool := match a with Addr6 _ _ => true | _ => false end.
Definition Is4In6 (a : Addr) : bool :=
  match a with Addr6 b _ => Z.shiftr b 32 =? 65535 | _ => false end.

(** [Unmap]: an IPv4-mapped IPv6 address becomes the IPv4 one. *)
Definition Unmap (a : Addr) : Addr :=
  match a with
  | Addr6 b _ => if Is4In6 a then Addr4 (b mod 2 ^ 32) else a
  | _ => a
  end.

Definition WithZone (a : Addr) (zone : string) : Addr :=
  match a with Addr6 b _ => Addr6 b zone | _ => a end.

Definition Zone (a : Addr) : string := match a with Addr6 _ z => z | _ => EmptyString end.

Definition BitLen (a : Addr) : Z :=
  match a with NoAddr => 0 | Addr4 _ => 32 | Addr6 _ _ => 128 end.

(** Big-endian bytes: [As4], [As16] and [AsSlice]. *)
Fixpoint be_bytes (n : nat) (z : Z) : list Z :=
  match n with
  | O => []
  | S n => be_bytes n (z / 256) ++ [z mod 256]
  end.

Fixpoint of_be_bytes (acc : Z) (l : list Z) : Z :=
  match l with [] => acc | b :: l => of_be_bytes (256 * acc + b) l end.

Lemma of_be_bytes_app acc l1 l2 :
  of_be_bytes acc (l1 ++ l2) = of_be_bytes (of_be_bytes acc l1) l2.
Proof. revert acc. by induction l1; simpl. Qed.

Lemma of_be_bytes_be n z acc :
  0 <= z < 256 ^ Z.of_nat n -> of_be_bytes acc (be_bytes n z) = 256 ^ Z.of_nat n * acc + z.
Proof.
  revert z acc. induction n as [|n IH]; intros z acc Hz; cbn [be_bytes].
  - simpl in *. lia.
  - rewrite Nat2Z.inj_succ, Z.pow_succ_r in * by lia.
    rewrite of_be_bytes_app, IH.
    + cbn [of_be_bytes]. pose proof (Z.div_mod z 256). lia.
    + split; [apply Z.div_pos; lia | apply Z.div_lt_upper_bound; lia].
Qed.

Definition AsSlice (a : Addr) : list Z :=
  match a with
  | NoAddr => []
  | Addr4 b => be_bytes 4 b
  | Addr6 b _ => be_bytes 16 b
  end.

(** ** The dotted syntax *)

(** One octet of [ParseAddr]: at most three digits, no leading zero, at most 255. *)
Definition parse_octet (s : string) : option Z :=
  match s with
  | String "0" (String _ _) => None
  | _ =>
      if (3 <? String.length s)%nat then None
      else match parse_uint 8 s with Some n => Some n | None => None end
  end.

Definition parse_addr4 (s : string) : option Addr :=
  match split_by "." s with
  | [a; b; c; d] =>
      a ← parse_octet a; b ← parse_octet b; c ← parse_octet c; d ← parse_octet d;
      Some (Addr4 (of_be_bytes 0 [a; b; c; d]))
  | _ => None
  end.

Definition print_addr4 (bits : Z) : string := join "." (itoa <$> be_bytes 4 bits).

(** [ParsePrefix] when the address is an IPv4 one. *)
Record Prefix := MkPrefix { p_addr : Addr; p_bits : Z }.

#[export] Instance Prefix_eq_dec : EqDecision Prefix.
Proof. solve_decision. Defined.

Definition parse_prefix4 (s : string) : option Prefix :=
  match split_by "/" s with
  | [addr; bits] =>
      a ← parse_addr4 addr;
      n ← match bits with
          | String "0" (String _ _) => None
          | _ => parse_uint 8 bits
          end;
      if n <=? 32 then Some (MkPrefix a n) else None
  | _ => None
  end.

(** [Masked] clears the host bits; [Contains] compares the network bits (an address
    with a zone is in no prefix). *)
Definition mask_bits (len n b : Z) : Z := Z.shiftl (Z.shiftr b (len - n)) (len - n).

Definition Masked (p : Prefix) : Prefix :=
  match p_addr p with
  | NoAddr => MkPrefix NoAddr 0
  | Addr4 b => MkPrefix (Addr4 (mask_bits 32 (p_bits p) b)) (p_bits p)
  | Addr6 b _ => MkPrefix (Addr6 (mask_bits 128 (p_bits p) b) EmptyString) (p_bits p)
  end.

Definition Contains (p : Prefix) (a : Addr) : bool :=
  match p_addr p, a with
  | Addr4 b, Addr4 c => mask_bits 32 (p_bits p) b =? mask_bits 32 (p_bits p) c
  | Addr6 b _, Addr6 c EmptyString => mask_bits 128 (p_bits p) b =? mask_bits 128 (p_bits p) c
  | _, _ => false
  end.

(** *** Printing and parsing *)

Lemma be_bytes_range n z : Forall (fun x => 0 <= x < 256) (be_bytes n z).
Proof.
  revert z. induction n as [|n IH]; intros z; cbn [be_bytes]; [constructor|].
  apply Forall_app. split; [done | constructor; [apply Z.mod_pos_bound; lia | constructor]].
Qed.

(** Every octet prints as a number that parses back, without separators. *)
Definition octet_ok (x : Z) : bool :=
  match parse_octet (itoa x) with Some y => y =? x | None => false end &&
  forallb (fun c => match digit_of c with Some _ => true | None => false end) (list_ascii_of_string (itoa x)) &&
  negb (String.eqb (itoa x) EmptyString).

Lemma octets_ok : forallb (fun n => octet_ok (Z.of_nat n)) (seq 0 256) = true.
Proof. vm_compute. reflexivity. Qed.

Lemma octet_spec x : 0 <= x < 256 -> octet_ok x = true.
Proof.
  intros H. pose proof octets_ok as Ho. rewrite forallb_forall in Ho.
  specialize (Ho (Z.to_nat x)). rewrite Z2Nat.id in Ho by lia. apply Ho, in_seq. lia.
Qed.

Module Tests.
Example parse_ex : parse_prefix4 "172.19.0.1/28" = Some (MkPrefix (Addr4 2886926337) 28).
Proof. reflexivity. Qed.
Example print_ex : print_addr4 2886926337 = "172.19.0.1"%string. Proof. reflexivity. Qed.
Example parse_bad : parse_addr4 "1.2.03.4" = None. Proof. reflexivity. Qed.
Example contains_ex : Contains (MkPrefix (Addr4 2886926337) 28) (Addr4 2886926340) = true.
Proof. reflexivity. Qed.
End Tests.

Lemma parse_addr4_Some s a : parse_addr4 s = Some a -> exists b, a = Addr4 b.
Proof.
  unfold parse_addr4. repeat case_match; try done.
  intros (? & _ & (? & _ & (? & _ & (? & _ & ?)%bind_Some)%bind_Some)%bind_Some)%bind_Some.
  simplify_eq. eauto.
Qed.

Lemma digit_of_range c d : digit_of c = Some d -> 0 <= d <= 9.
Proof.
  unfold digit_of. case_match eqn:E; [|done]. intros [= <-].
  apply andb_true_iff in E as [?%Nat.leb_le ?%Nat.leb_le]. lia.
Qed.

Lemma parse_digits_nonneg s acc n : 0 <= acc -> parse_digits acc s = Some n -> 0 <= n.
Proof.
  revert acc. induction s as [|c s IH]; cbn [parse_digits]; intros acc Hacc; [by intros [= <-]|].
  destruct (digit_of c) as [d|] eqn:Hd; [|done].
  apply digit_of_range in Hd. apply IH. lia.
Qed.

Lemma parse_uint_range w s n : parse_uint w s = Some n -> 0 <= n < 2 ^ w.
Proof.
  unfold parse_uint. case_match; [done|].
  destruct (parse_digits 0 s) as [m|] eqn:Hm; [|done].
  apply parse_digits_nonneg in Hm; [|lia].
  destruct (m <? 2 ^ w) eqn:E; [|done]. intros [= <-]. lia.
Qed.

Lemma parse_prefix4_Some s p :
  parse_prefix4 s = Some p -> Is4 (p_addr p) = true /\ 0 <= p_bits p <= 32.
Proof.
  unfold parse_prefix4. destruct (split_by "/" s) as [|x [|y [|]]]; try done.
  intros (a & Ha & (n & Hn & H)%bind_Some)%bind_Some.
  apply parse_addr4_Some in Ha as [b ->].
  assert (0 <= n) by (repeat (case_match; try done); apply parse_uint_range in Hn; lia).
  destruct (n <=? 32) eqn:E; [|done]. simplify_eq/=. split; [done | lia].
Qed.

Lemma octet_digits x : 0 <= x < 256 -> parse_octet (itoa x) = Some x /\
  Forall (fun c => exists d, digit_of c = Some d) (list_ascii_of_string (itoa x)) /\ itoa x <> EmptyString.
Proof.
  intros H%octet_spec. unfold octet_ok in H. rewrite !andb_true_iff in H. destruct H as [[H1 H2] H3].
  split_and!.
  - destruct (parse_octet (itoa x)); [|done]. apply Z.eqb_eq in H1. congruence.
  - rewrite forallb_forall in H2. apply Forall_forall. intros c Hc%list_elem_of_In%H2.
    destruct (digit_of c); [eauto | done].
  - intros E. by rewrite E in H3.
Qed.

Lemma digits_lack sep s : digit_of sep = None ->
  Forall (fun c => exists d, digit_of c = Some d) (list_ascii_of_string s) -> lacks sep s = true.
Proof.
  intros Hs H. unfold lacks. apply forallb_forall. intros c Hc%list_elem_of_In.
  rewrite Forall_forall in H. destruct (H c Hc) as [d Hd].
  destruct (Ascii.eqb c sep) eqn:E; [|done]. apply Ascii.eqb_eq in E as ->. congruence.
Qed.

Lemma octets_of bits : exists a b c d, be_bytes 4 bits = [a; b; c; d] /\
  0 <= a < 256 /\ 0 <= b < 256 /\ 0 <= c < 256 /\ 0 <= d < 256.
Proof.
  pose proof (be_bytes_range 4 bits) as H. cbn in *. rewrite !Forall_cons in H.
  eexists _, _, _, _. split; [reflexivity|]. tauto.
Qed.

(** The dotted syntax round-trips. *)
Lemma parse_print_addr4 bits : 0 <= bits < 2 ^ 32 -> parse_addr4 (print_addr4 bits) = Some (Addr4 bits).
Proof.
  intros Hb. pose proof (of_be_bytes_be 4 bits 0 Hb) as Hr. unfold parse_addr4, print_addr4.
  destruct (octets_of bits) as (a & b & c & d & E & Ha & Hb' & Hc & Hd). rewrite E in *.
  cbn [fmap list_fmap]. rewrite split_by_join; [| done |].
  - apply octet_digits in Ha as (-> & _), Hb' as (-> & _), Hc as (-> & _), Hd as (-> & _).
    cbn [mbind option_bind]. rewrite Hr. by do 2 f_equal.
  - apply octet_digits in Ha as (_ & ? & _), Hb' as (_ & ? & _), Hc as (_ & ? & _), Hd as (_ & ? & _).
    repeat (constructor; [by apply digits_lack|]). constructor.
Qed.

Lemma lacks_app sep s t : lacks sep (s ++ t)%string = lacks sep s && lacks sep t.
Proof. induction s as [|c s IH]; [done|]. unfold lacks in *. simpl. by rewrite IH, andb_assoc. Qed.

Lemma lacks_comma_print bits : lacks "," (print_addr4 bits) = true.
Proof.
  unfold print_addr4, join. destruct (octets_of bits) as (a & b & c & d & -> & Ha & Hb & Hc & Hd).
  apply octet_digits in Ha as (_ & Ha & _), Hb as (_ & Hb & _), Hc as (_ & Hc & _), Hd as (_ & Hd & _).
  cbn [fmap list_fmap String.concat]. rewrite !lacks_app.
  by rewrite (digits_lack "," _ eq_refl Ha), (digits_lack "," _ eq_refl Hb), (digits_lack "," _ eq_refl Hc),
    (digits_lack "," _ eq_refl Hd).
Qed.

Lemma print_addr4_black bits : exists c s, print_addr4 bits = String c s /\ in_string c white = false.
Proof.
  unfold print_addr4, join. destruct (octets_of bits) as (a & b & c & d & -> & Ha & _).
  apply octet_digits in Ha as (_ & Ha & Hn). cbn [fmap list_fmap String.concat].
  destruct (itoa a) as [|x s]; [done|]. cbn in Ha. apply Forall_cons in Ha as [[n Hx] _].
  eexists _, _. split; [reflexivity|]. apply not_true_is_false. intros H.
  unfold in_string in H. apply existsb_elem in H as (y & Hy & ->%Ascii.eqb_eq).
  unfold white in Hy. rewrite list_ascii_of_string_of_list_ascii in Hy. cbn in Hy.
  apply list_elem_of_In in Hy. cbn in Hy. by repeat (destruct Hy as [<- | Hy]; [vm_compute in Hx|]).
Qed.
