(* ===== verification/Frames.v ===== *)
(** * The framed request loop of [internal/rpc/dispatch.go]

    The little-endian frame codec, the read loop of [Serve], the handler wrapper
    and the dispatch table, and the concurrent response writers that share the
    connection under [writeMu]. *)

From Stdlib Require Export Strings.Byte.
From S2P Require Export Prelude.
Open Scope Z_scope.

(** ** Bytes and [encoding/binary]'s little-endian integers *)

Definition byte_to_Z (b : byte) : Z := Z.of_N (Byte.to_N b).

Definition byte_of_Z (z : Z) : byte :=
  match Byte.of_N (Z.to_N (z mod 256)) with Some b => b | None => x00 end.

(** [binary.LittleEndian.PutUintN] on an n-byte buffer. *)
Fixpoint put_le (n : nat) (z : Z) : list byte :=
  match n with
  | O => []
  | S n => byte_of_Z z :: put_le n (z / 256)
  end.

(** [binary.LittleEndian.UintN]. *)
Fixpoint get_le (bs : list byte) : Z :=
  match bs with
  | [] => 0
  | b :: bs => byte_to_Z b + 256 * get_le bs
  end.

#[global] Arguments byte_of_Z : simpl never.
#[global] Arguments byte_to_Z : simpl never.

Lemma byte_to_Z_range b : 0 <= byte_to_Z b < 256.
Proof. unfold byte_to_Z. pose proof (Byte.to_N_bounded b). lia. Qed.

Lemma byte_of_to_Z b : byte_of_Z (byte_to_Z b) = b.
Proof.
  unfold byte_of_Z. pose proof (byte_to_Z_range b).
  rewrite Z.mod_small by lia. unfold byte_to_Z. by rewrite N2Z.id, Byte.of_to_N.
Qed.

Lemma byte_to_of_Z z : byte_to_Z (byte_of_Z z) = z mod 256.
Proof.
  unfold byte_of_Z, byte_to_Z. pose proof (Z.mod_pos_bound z 256 ltac:(lia)) as B.
  destruct (Byte.of_N _) as [b|] eqn:E.
  - apply Byte.to_of_N in E. rewrite E. lia.
  - apply Byte.of_N_None_iff in E. lia.
Qed.

Lemma length_put_le n z : length (put_le n z) = n.
Proof. revert z. induction n; intros; cbn; auto. Qed.

Lemma get_put_le n z : get_le (put_le n z) = z mod 256 ^ Z.of_nat n.
Proof.
  revert z. induction n as [|n IH]; intros z.
  - by rewrite Z.mod_1_r.
  - cbn [put_le get_le]. rewrite byte_to_of_Z, IH.
    rewrite Nat2Z.inj_succ, Z.pow_succ_r by lia.
    rewrite Z.rem_mul_r; [done | lia | apply Z.pow_pos_nonneg; lia].
Qed.

Lemma put_get_le bs : put_le (length bs) (get_le bs) = bs.
Proof.
  induction bs as [|b bs IH]; [done |]. cbn [length put_le get_le].
  pose proof (byte_to_Z_range b).
  replace (byte_to_Z b + 256 * get_le bs) with (byte_to_Z b + get_le bs * 256) by lia.
  f_equal.
  - rewrite <- (byte_of_to_Z b) at 2. unfold byte_of_Z.
    by rewrite Z_mod_plus_full.
  - rewrite Z.div_add by lia. rewrite Z.div_small by lia. by rewrite Z.add_0_l.
Qed.

Lemma get_put_le_small n z : 0 <= z < 256 ^ Z.of_nat n -> get_le (put_le n z) = z.
Proof. intros. rewrite get_put_le. by apply Z.mod_small. Qed.

#[global] Arguments put_le : simpl never.
#[global] Arguments get_le : simpl never.

(** ** Requests *)

Record request := Request {
  req_id : Z;
  req_method : list byte;
  req_payload : list byte
}.

(** [io.ReadFull] of n bytes: an error when the stream ends first. *)
Definition read_full (n : Z) (input : list byte) : option (list byte * list byte) :=
  if Z.of_nat (length input) <? n then None
  else Some (take (Z.to_nat n) input, drop (Z.to_nat n) input).

(** [binary.Read] of an n-byte unsigned integer. *)
Definition read_uint (n : nat) (input : list byte) : option (Z * list byte) :=
  match read_full (Z.of_nat n) input with
  | Some (bs, rest) => Some (get_le bs, rest)
  | None => None
  end.

(** One turn of the read loop of [Serve]; [None] is the [return] that a failed read
    takes. *)
Definition read_request (input : list byte) : option (request * list byte) :=
  '(reqId, input) ← read_uint 4 input;
  '(methodLen, input) ← read_uint 2 input;
  '(methodBytes, input) ← read_full methodLen input;
  '(payloadLen, input) ← read_uint 4 input;
  '(payload, input) ← read_full payloadLen input;
  Some (Request reqId methodBytes payload, input).

(** The read loop run to the end of the input; each turn consumes at least the ten
    bytes of the fixed fields, so the input's length is fuel enough. *)
Fixpoint read_loop (fuel : nat) (input : list byte) : list request :=
  match fuel with
  | O => []
  | S fuel =>
      match read_request input with
      | Some (r, rest) => r :: read_loop fuel rest
      | None => []
      end
  end.

Definition read_requests (input : list byte) : list request :=
  read_loop (length input) input.

(** The client's side of the contract: the request frame that the comment on [Serve]
    and the README give. *)
Definition encode_request (r : request) : list byte :=
  put_le 4 (req_id r) ++ put_le 2 (Z.of_nat (length (req_method r))) ++ req_method r ++
  put_le 4 (Z.of_nat (length (req_payload r))) ++ req_payload r.

(** A request whose fields fit the widths of the frame. *)
Definition request_fits (r : request) : Prop :=
  0 <= req_id r < 2 ^ 32 /\
  Z.of_nat (length (req_method r)) < 2 ^ 16 /\
  Z.of_nat (length (req_payload r)) < 2 ^ 32.

Lemma read_full_app n bs rest :
  Z.of_nat (length bs) = n -> read_full n (bs ++ rest) = Some (bs, rest).
Proof.
  intros <-. unfold read_full. rewrite length_app.
  destruct (Z.ltb_spec (Z.of_nat (length bs + length rest)) (Z.of_nat (length bs))); [lia |].
  rewrite Nat2Z.id. by rewrite take_app_length, drop_app_length.
Qed.

Lemma read_uint_app n z rest :
  0 <= z < 256 ^ Z.of_nat n -> read_uint n (put_le n z ++ rest) = Some (z, rest).
Proof.
  intros. unfold read_uint. rewrite read_full_app by (by rewrite length_put_le).
  by rewrite get_put_le_small.
Qed.

Lemma read_encode_request r rest :
  request_fits r -> read_request (encode_request r ++ rest) = Some (r, rest).
Proof.
  intros (Hid & Hm & Hp). unfold read_request, encode_request.
  rewrite <- !app_assoc.
  rewrite read_uint_app by lia. cbn [mbind option_bind].
  rewrite read_uint_app by lia. cbn [mbind option_bind].
  rewrite read_full_app by done. cbn [mbind option_bind].
  rewrite read_uint_app by lia. cbn [mbind option_bind].
  rewrite read_full_app by done. by destruct r.
Qed.

(** The parser accepts nothing but frames. *)
Lemma read_full_Some n input bs rest :
  0 <= n -> read_full n input = Some (bs, rest) ->
  input = bs ++ rest /\ Z.of_nat (length bs) = n.
Proof.
  intros Hn. unfold read_full. destruct (Z.ltb_spec (Z.of_nat (length input)) n); [done |].
  intros [= <- <-]. split; [by rewrite take_drop |]. rewrite length_take. lia.
Qed.

Lemma read_uint_Some n input z rest :
  read_uint n input = Some (z, rest) ->
  input = put_le n z ++ rest /\ 0 <= z < 256 ^ Z.of_nat n.
Proof.
  unfold read_uint. destruct (read_full _ _) as [[bs r]|] eqn:E; [|done].
  intros [= <- <-]. apply read_full_Some in E as [-> Hlen]; [|lia].
  assert (length bs = n) as <- by lia. rewrite put_get_le. split; [done |].
  pose proof (get_put_le (length bs) (get_le bs)) as E. rewrite put_get_le in E. rewrite E.
  apply Z.mod_pos_bound, Z.pow_pos_nonneg; lia.
Qed.

Lemma read_request_Some input r rest :
  read_request input = Some (r, rest) ->
  request_fits r /\ input = encode_request r ++ rest.
Proof.
  unfold read_request, encode_request, request_fits. intros H.
  destruct (read_uint 4 input) as [[id i1]|] eqn:E1; [|done]. cbn [mbind option_bind] in H.
  destruct (read_uint 2 i1) as [[ml i2]|] eqn:E2; [|done]. cbn [mbind option_bind] in H.
  destruct (read_full ml i2) as [[mb i3]|] eqn:E3; [|done]. cbn [mbind option_bind] in H.
  destruct (read_uint 4 i3) as [[pl i4]|] eqn:E4; [|done]. cbn [mbind option_bind] in H.
  destruct (read_full pl i4) as [[pb i5]|] eqn:E5; [|done]. simplify_eq/=.
  apply read_uint_Some in E1 as [-> B1], E2 as [-> B2], E4 as [-> B4].
  apply read_full_Some in E3 as [-> L3], E5 as [-> L5]; [|lia..]. subst.
  rewrite <- !app_assoc. repeat split; lia.
Qed.

Lemma read_request_shrinks input r rest :
  read_request input = Some (r, rest) -> (length rest < length input)%nat.
Proof.
  intros [_ ->]%read_request_Some. unfold encode_request.
  rewrite !length_app, !length_put_le. lia.
Qed.

(** The read loop's fuel is enough: its result satisfies the loop's own equation. *)
Lemma read_loop_fuel f1 f2 input :
  (length input <= f1)%nat -> (length input <= f2)%nat ->
  read_loop f1 input = read_loop f2 input.
Proof.
  revert f2 input. induction f1 as [|f1 IH]; intros [|f2] input H1 H2; simpl;
    try (by destruct input; simpl in *; [|lia]).
  destruct (read_request input) as [[r rest]|] eqn:E; [|done].
  apply read_request_shrinks in E. f_equal. apply IH; lia.
Qed.

Lemma read_requests_unfold input :
  read_requests input =
  match read_request input with
  | Some (r, rest) => r :: read_requests rest
  | None => []
  end.
Proof.
  unfold read_requests at 1. destruct (length input) as [|n] eqn:L; simpl.
  - destruct input; [done | simpl in L; lia].
  - destruct (read_request input) as [[r rest]|] eqn:E; [|done].
    apply read_request_shrinks in E. f_equal. apply read_loop_fuel; lia.
Qed.

(** ** Responses *)

(** [writeResponse]: the nine header bytes, then the data. *)
Definition response_header (reqId status : Z) (data : list byte) : list byte :=
  put_le 4 reqId ++ [byte_of_Z status] ++ put_le 4 (uint32 (Z.of_nat (length data))).

Definition response_frame (reqId status : Z) (data : list byte) : list byte :=
  response_header reqId status data ++ data.

(** The client's side: one response frame off the stream. *)
Definition read_response (input : list byte) : option (Z * Z * list byte * list byte) :=
  '(reqId, input) ← read_uint 4 input;
  '(status, input) ← read_uint 1 input;
  '(dataLen, input) ← read_uint 4 input;
  '(data, input) ← read_full dataLen input;
  Some (reqId, status, data, input).

Lemma put_le_1 z : put_le 1 z = [byte_of_Z z].
Proof. done. Qed.

Lemma read_response_frame reqId status data rest :
  0 <= reqId < 2 ^ 32 -> 0 <= status < 256 -> Z.of_nat (length data) < 2 ^ 32 ->
  read_response (response_frame reqId status data ++ rest) =
  Some (reqId, status, data, rest).
Proof.
  intros Hid Hs Hd. unfold read_response, response_frame, response_header.
  rewrite wrap_unsigned_small by lia. rewrite <- put_le_1, <- !app_assoc.
  rewrite read_uint_app by lia. cbn [mbind option_bind].
  rewrite read_uint_app by lia. cbn [mbind option_bind].
  rewrite read_uint_app by lia. cbn [mbind option_bind].
  by rewrite read_full_app.
Qed.

Fixpoint read_responses_loop (fuel : nat) (input : list byte) : list (Z * Z * list byte) :=
  match fuel with
  | O => []
  | S fuel =>
      match read_response input with
      | Some (id, status, data, rest) => (id, status, data) :: read_responses_loop fuel rest
      | None => []
      end
  end.

Definition read_responses (input : list byte) : list (Z * Z * list byte) :=
  read_responses_loop (length input) input.

(** ** Handlers and dispatch *)

(** What a handler does: it returns, or it panics and [Serve]'s goroutine recovers. *)
Inductive outcome (A : Type) : Type :=
| Returned (r : result A)
| Panicked (v : string).
Arguments Returned {A} r.
Arguments Panicked {A} v.

Definition handlerFn : Type := list byte -> outcome (list byte).

(** [handle]: protobuf decoding and encoding are the protobuf library's. *)
Definition handle {Req Resp : Type} (unmarshal : list byte -> result Req)
    (marshal : Resp -> result (list byte)) (fn : Req -> outcome Resp) : handlerFn :=
  fun payload =>
    match unmarshal payload with
    | Err e => Returned (Err e)
    | Ok req =>
        match fn req with
        | Panicked v => Panicked v
        | Returned (Err e) => Returned (Err e)
        | Returned (Ok resp) => Returned (marshal resp)
        end
    end.

(** The keys of the [handlers] table, in its order. *)
Definition method_names : list string :=
  ["Start"; "Stop"; "CheckConfig"; "Test"; "StopTest"; "QueryURLTest"; "IPTest";
   "QueryIPTest"; "QueryStats"; "QueryConnections"; "CloseConnections";
   "QueryAutoSelectors"; "AutoSelectorAction"; "IsPrivileged"; "SetSystemDNS";
   "GetDefaultInterface"; "SpeedTest"; "QuerySpeedTest"; "QueryCountryTest";
   "GenWgKeyPair"; "WarpRegister"; "InstallDashboard"; "QueryVPNStatus";
   "SubmitVPNChallenge"; "CancelVPNChallenge"; "CaptureDiagnostics";
   "StopDiagnostics"; "UpdateRuleSets"]%string.

Section Serve.
  (** The server's methods, each already wrapped by [handle]. *)
  Context (server : string -> handlerFn).

Definition handlers : gmap string handlerFn :=
  list_to_map ((fun m => (m, server m)) <$> method_names).

Definition dispatch (methodName : string) (payload : list byte) : outcome (list byte) :=
  match handlers !! methodName with
  | None => Returned (Err ("unknown method: " ++ methodName)%string)
  | Some h => h payload
  end.

(** The body of the goroutine [Serve] starts for a request: the status byte and the
    data it passes to [writeResponse]. *)
Definition answer (r : request) : Z * list byte :=
  let method := string_of_list_byte (req_method r) in
  match dispatch method (req_payload r) with
  | Panicked v =>
      (1, list_byte_of_string ("core panic in " ++ method ++ ": " ++ v)%string)
  | Returned (Err e) => (1, list_byte_of_string e)
  | Returned (Ok respData) => (0, respData)
  end.

Definition answer_header (r : request) : list byte :=
  response_header (req_id r) (answer r).1 (answer r).2.

Definition answer_frame (r : request) : list byte :=
  response_frame (req_id r) (answer r).1 (answer r).2.

#[local] Arguments answer : simpl never.
#[local] Arguments answer_header : simpl never.
#[local] Arguments answer_frame : simpl never.
#[local] Arguments read_request : simpl never.
#[local] Arguments read_requests : simpl never.
#[local] Arguments read_response : simpl never.

(** ** The connection and its concurrent writers

    [Serve]'s loop reads on one goroutine and starts one goroutine per request. A
    goroutine that has its answer takes [writeMu], writes the header, then the data,
    and lets the mutex go; both writes fail once the loop has returned and its
    deferred [conn.Close] has run. *)
Record serve_state := ServeState {
  ss_input : list byte;               (* not read yet *)
  ss_open : bool;                     (* the loop runs and the connection is up *)
  ss_pending : list request;          (* goroutines that have not taken writeMu *)
  ss_writer : option request;         (* the holder of writeMu, its header written *)
  ss_out : list byte                  (* what the peer has been sent *)
}.

Definition serve_init (input : list byte) : serve_state :=
  ServeState input true [] None [].

Inductive serve_step : serve_state -> serve_state -> Prop :=
| serve_accept input r rest pending writer out :
    read_request input = Some (r, rest) ->
    serve_step (ServeState input true pending writer out)
               (ServeState rest true (pending ++ [r]) writer out)
| serve_return input pending writer out :
    read_request input = None ->
    serve_step (ServeState input true pending writer out)
               (ServeState input false pending writer out)
| serve_write_header input p1 r p2 out :
    serve_step (ServeState input true (p1 ++ r :: p2) None out)
               (ServeState input true (p1 ++ p2) (Some r) (out ++ answer_header r))
| serve_write_data input pending r out :
    serve_step (ServeState input true pending (Some r) out)
               (ServeState input true pending None (out ++ (answer r).2))
| serve_header_fails input p1 r p2 out :
    serve_step (ServeState input false (p1 ++ r :: p2) None out)
               (ServeState input false (p1 ++ p2) None out)
| serve_data_fails input pending r out :
    serve_step (ServeState input false pending (Some r) out)
               (ServeState input false pending None out).

Definition serve_writing (s : serve_state) : list byte :=
  match ss_writer s with Some r => answer_header r | None => [] end.

(** While the connection is up: what has been sent is a sequence of whole frames, then
    the header of the writer that holds the mutex; every request of the input is in
    exactly one of the stages. *)
Definition serve_inv (input : list byte) (s : serve_state) : Prop :=
  ss_open s = true ->
  exists answered,
    ss_out s = mjoin (answer_frame <$> answered) ++ serve_writing s /\
    read_requests input ≡ₚ
      answered ++ option_list (ss_writer s) ++ ss_pending s ++ read_requests (ss_input s).

Lemma serve_inv_step input s1 s2 :
  serve_inv input s1 -> serve_step s1 s2 -> serve_inv input s2.
Proof.
  intros Hinv Hstep Hopen. destruct Hstep; try discriminate Hopen;
    destruct (Hinv eq_refl) as (answered & Hout & Hperm); cbn in Hout, Hperm; cbn.
  - exists answered. split; [exact Hout |].
    rewrite Hperm, (read_requests_unfold input0), H. cbn. by rewrite <- !app_assoc.
  - exists answered. unfold serve_writing in *. cbn in *. rewrite Hout, app_nil_r.
    split; [done |]. rewrite Hperm. solve_Permutation.
  - exists (answered ++ [r]). unfold serve_writing in *. cbn in *.
    rewrite Hout, fmap_app, join_app. cbn. rewrite !app_nil_r, <- !app_assoc.
    split; [done |]. rewrite Hperm. solve_Permutation.
Qed.

Lemma serve_inv_steps input s :
  steps serve_step (serve_init input) s -> serve_inv input s.
Proof.
  intros Hs. eapply (steps_invariant _ (serve_inv input)); [apply serve_inv_step | done |].
  intros _. by exists [].
Qed.

Lemma answer_status_range r : 0 <= (answer r).1 < 256.
Proof. unfold answer. branches. Qed.

(** The answers of a request's goroutine, as the peer decodes them. *)
Definition answer_of (r : request) : Z * Z * list byte :=
  (req_id r, (answer r).1, (answer r).2).

(** The four-byte length field can carry the answer. *)
Definition answer_fits (r : request) : Prop :=
  0 <= req_id r < 2 ^ 32 /\ Z.of_nat (length (answer r).2) < 2 ^ 32.

Lemma read_responses_frames_loop rs fuel :
  (length (mjoin (answer_frame <$> rs)) <= fuel)%nat -> Forall answer_fits rs ->
  read_responses_loop fuel (mjoin (answer_frame <$> rs)) = answer_of <$> rs.
Proof.
  revert fuel. induction rs as [|r rs IH]; intros fuel Hf Hfit; [by destruct fuel |].
  apply Forall_cons in Hfit as [[Hid Hlen] Hfit]. cbn in Hf |- *.
  assert (0 < length (answer_frame r))%nat.
  { unfold answer_frame, response_frame, response_header. rewrite !length_app.
    rewrite length_put_le. lia. }
  rewrite length_app in Hf. destruct fuel as [|fuel]; [lia |]. cbn.
  unfold answer_frame at 1. rewrite read_response_frame by auto using answer_status_range.
  f_equal. apply IH; [|done].
  assert (forall n, length (answer_frame r) + n <= S fuel -> n <= fuel)%nat as Hle by lia.
  exact (Hle _ Hf).
Qed.

Lemma read_requests_ids input : Forall (fun r => 0 <= req_id r < 2 ^ 32) (read_requests input).
Proof.
  unfold read_requests. generalize (length input) as fuel. intros fuel. revert input.
  induction fuel as [|fuel IH]; intros input; simpl; [constructor |].
  destruct (read_request input) as [[r rest]|] eqn:E; [|constructor].
  apply read_request_Some in E as [(? & _) _]. by constructor.
Qed.

(** *** Properties *)

(** C37: the request parser of the read loop accepts exactly the documented frames:
    reading a request succeeds on an input if and only if the input starts with the
    encoding of that request, and every field it yields fits its width. *)
Theorem read_request_exact input r rest :
  read_request input = Some (r, rest) <->
  request_fits r /\ input = encode_request r ++ rest.
Proof.
  split; [apply read_request_Some |]. intros [Hfit ->]. by apply read_encode_request.
Qed.

(** C3: at every moment of any interleaving of the request goroutines, as long as the
    connection is up, the bytes sent are whole response frames of distinct requests
    followed at most by the header the holder of [writeMu] has just written; and every
    request of the input is answered, being answered, pending or unread, once. *)
Theorem serve_frames_never_interleave input s :
  steps serve_step (serve_init input) s -> ss_open s = true ->
  exists answered,
    ss_out s = mjoin (answer_frame <$> answered) ++ serve_writing s /\
    read_requests input ≡ₚ
      answered ++ option_list (ss_writer s) ++ ss_pending s ++ read_requests (ss_input s).
Proof. intros Hs. by apply serve_inv_steps. Qed.

(** C2: once every request of the input has been handled over a live connection, the
    peer decodes from the response stream exactly one answer per request, carrying the
    request's id, in some order. *)
Theorem serve_answers_every_request input s :
  steps serve_step (serve_init input) s ->
  ss_open s = true -> ss_writer s = None -> ss_pending s = [] ->
  read_request (ss_input s) = None ->
  Forall answer_fits (read_requests input) ->
  read_responses (ss_out s) ≡ₚ answer_of <$> read_requests input.
Proof.
  intros Hs Ho Hw Hp Hi Hfit. destruct (serve_inv_steps _ _ Hs Ho) as (answered & Hout & Hperm).
  rewrite Hw, Hp, (read_requests_unfold (ss_input s)), Hi in Hperm. simpl in Hperm.
  rewrite app_nil_r in Hperm. unfold serve_writing in Hout. rewrite Hw, app_nil_r in Hout.
  rewrite Hout. unfold read_responses. rewrite read_responses_frames_loop; [|done|].
  - by rewrite Hperm.
  - by rewrite <- Hperm.
Qed.

End Serve.

(** ** A concrete run

    A server that echoes its payload, one [Stop] request. *)
Section Witness.
Definition echo_server : string -> handlerFn := fun _ payload => Returned (Ok payload).

Definition sample_request : request := Request 7 (list_byte_of_string "Stop") [x2a].

Definition sample_final : serve_state :=
  ServeState [] true [] None (answer_frame echo_server sample_request).

Lemma sample_run :
  steps (serve_step echo_server) (serve_init (encode_request sample_request)) sample_final.
Proof.
  eapply steps_step; [apply serve_accept with (r := sample_request) (rest := []); vm_compute; reflexivity |].
  eapply steps_step; [apply (serve_write_header echo_server _ []) |].
  eapply steps_step; [apply serve_write_data | apply steps_refl].
Qed.

Lemma serve_frames_never_interleave_witness :
  exists answered,
    ss_out sample_final = mjoin (answer_frame echo_server <$> answered) ++ serve_writing echo_server sample_final /\
    read_requests (encode_request sample_request) ≡ₚ
      answered ++ option_list (ss_writer sample_final) ++ ss_pending sample_final ++
      read_requests (ss_input sample_final).
Proof.
  apply (serve_frames_never_interleave echo_server (encode_request sample_request) sample_final).
  - apply sample_run.
  - reflexivity.
Defined.

Lemma serve_answers_every_request_witness :
  read_responses (ss_out sample_final) ≡ₚ
  answer_of echo_server <$> read_requests (encode_request sample_request).
Proof.
  apply (serve_answers_every_request echo_server (encode_request sample_request) sample_final).
  - apply sample_run.
  - reflexivity.
  - reflexivity.
  - reflexivity.
  - reflexivity.
  - replace (read_requests (encode_request sample_request)) with [sample_request] by (vm_compute; reflexivity).
    constructor; [| constructor]. split; vm_compute; split; congruence.
Defined.
End Witness.

(** The dispatch table on concrete method names. *)
Example dispatch_unknown :
  dispatch echo_server "Nope" [] = Returned (Err "unknown method: Nope").
Proof. vm_compute. reflexivity. Qed.

Example answer_echo : answer echo_server sample_request = (0, [x2a]).
Proof. vm_compute. reflexivity. Qed.
