(* ===== verification/Gate.v ===== *)
(** * The lazy Xray gate of [internal/xray/gate.go]

    The gate owns the inbound ports for the life of a config and brings the Xray
    instance up on the first connection; a sweeper takes it down when it has been
    idle. The operations are functions on the gate's fields, and [gate_step] runs the
    goroutines of the package (one per connection, the sweeper, a [Close] call) with
    one step per atomic section of the code. *)

From Stdlib Require Import QArith.
From stdpp Require Import pretty.
From S2P Require Export Prelude.
Open Scope Z_scope.

(** ** [sweepIntervalFor]: durations are [int64] nanoseconds *)

Definition second : Z := 1000000000.
Definition gateSweepInterval : Z := 15 * second.
Definition minGateSweepInterval : Z := 2 * second.

Definition sweepIntervalFor (idle : Z) : Z :=
  if (idle <=? 0) || (gateSweepInterval <=? Z.quot idle 2) then gateSweepInterval
  else
    let half := Z.quot idle 2 in
    if minGateSweepInterval <? half then half else minGateSweepInterval.

(** ** The gate's fields and the world it acts on *)

Record gate := MkGate {
  g_instance : option nat;       (* under mu; [None] while the gate is cold *)
  g_closed : bool;               (* under mu *)
  g_stopped : bool;              (* the channel [stopped] is closed *)
  g_listening : bool;            (* the bridges' listeners are open *)
  g_conns : option (gset nat);   (* under connsMu; [None] once the gate is closed *)
  g_active : Z;
  g_lastUse : Z
}.

(** Xray instances and connections are identified by numbers; an instance is alive
    from [core.New] until [Close]. *)
Record world := MkWorld {
  w_alive : gset nat;
  w_next_instance : nat;
  w_open : gset nat;
  w_next_conn : nat;
  w_now : Z
}.

Definition set_instance (i : option nat) (g : gate) : gate :=
  MkGate i (g_closed g) (g_stopped g) (g_listening g) (g_conns g) (g_active g) (g_lastUse g).

Definition set_conns (c : option (gset nat)) (g : gate) : gate :=
  MkGate (g_instance g) (g_closed g) (g_stopped g) (g_listening g) c (g_active g) (g_lastUse g).

(** [g.active.Add]. *)
Definition add_active (n : Z) (g : gate) : gate :=
  MkGate (g_instance g) (g_closed g) (g_stopped g) (g_listening g) (g_conns g)
    (g_active g + n) (g_lastUse g).

Definition touch (w : world) (g : gate) : gate :=
  MkGate (g_instance g) (g_closed g) (g_stopped g) (g_listening g) (g_conns g)
    (g_active g) (w_now w).

(** [track] reports false once the gate is closed. *)
Definition track (conn : nat) (g : gate) : bool * gate :=
  match g_conns g with
  | None => (false, g)
  | Some conns => (true, set_conns (Some ({[conn]} ∪ conns)) g)
  end.

(** [forget]: [delete] on a nil map does nothing. *)
Definition forget (conn : nat) (g : gate) : gate :=
  match g_conns g with
  | None => g
  | Some conns => set_conns (Some (conns ∖ {[conn]})) g
  end.

Definition new_instance (w : world) : world :=
  MkWorld ({[w_next_instance w]} ∪ w_alive w) (S (w_next_instance w)) (w_open w)
    (w_next_conn w) (w_now w).

Definition close_instance (i : nat) (w : world) : world :=
  MkWorld (w_alive w ∖ {[i]}) (w_next_instance w) (w_open w) (w_next_conn w) (w_now w).

Definition open_conn (w : world) : world :=
  MkWorld (w_alive w) (w_next_instance w) ({[w_next_conn w]} ∪ w_open w)
    (S (w_next_conn w)) (w_now w).

Definition close_conns (cs : gset nat) (w : world) : world :=
  MkWorld (w_alive w) (w_next_instance w) (w_open w ∖ cs) (w_next_conn w) (w_now w).

Section Gate.
  (** The gate's idle timeout, and Xray: [CreateXrayInstance], the [prepare] callback
      when there is one, and [Start], each with the outcome it has for an instance. *)
  Context (idle : Z).
  Context (xray_create : nat -> result unit) (prepare : option (nat -> result unit))
          (xray_start : nat -> result unit).

(** [ensure], run under [mu]: the instance the caller may use, or the error; an
    instance that fails to prepare or start is closed again. *)
Definition ensure (w : world) (g : gate) : result nat * gate * world :=
  if g_closed g then (Err "xray gate: closed", g, w)
  else
    match g_instance g with
    | Some i => (Ok i, g, w)
    | None =>
        let i := w_next_instance w in
        match xray_create i with
        | Err e => (Err e, g, w)
        | Ok _ =>
            let w := new_instance w in
            let prepared := match prepare with Some f => f i | None => Ok tt end in
            match prepared with
            | Err e => (Err e, g, close_instance i w)
            | Ok _ =>
                match xray_start i with
                | Err e => (Err e, g, close_instance i w)
                | Ok _ => (Ok i, set_instance (Some i) g, w)
                end
            end
        end
    end.

(** ** Goroutines *)

(** A connection's goroutine ([handle]); the states after [HReady] carry the instance
    [ensure] returned, the ones that have dialled carry the upstream connection, and
    [HRelaying] counts the relays that have signalled [done]. *)
Inductive handler :=
| HAccepted
| HTracked
| HAdded
| HCounted
| HReady (i : nat)
| HDialed (i up : nat)
| HRelaying (i up ndone : nat)
| HForgotUpstream (up : nat)
| HLeaving
| HLeft
| HTouched
| HForgot
| HFinished.

(** The sweeper goroutine, between two of its atomic sections. *)
Inductive sweeper :=
| SWaiting
| SNoneActive
| SExpired
| SClosing (i : nat)
| SReturned.

(** The one [Close] call that finds the gate open. *)
Inductive closer :=
| CNotCalled
| CTook (i : option nat)
| CStopped (i : option nat)
| CUnlistened (i : option nat)
| CConns (conns : gset nat) (i : option nat)
| CInstance (i : option nat)
| CDone.

Record gstate := MkGstate {
  gs_gate : gate;
  gs_world : world;
  gs_handlers : gmap nat handler;   (* by accepted connection *)
  gs_sweeper : sweeper;
  gs_closer : closer
}.

(** [handle], one atomic section at a time; the deferred calls run in reverse order.
    Whether a dial succeeds is the network's choice. *)
Inductive handler_step (c : nat) : handler -> gate -> world -> handler -> gate -> world -> Prop :=
| h_track g w g' : track c g = (true, g') -> handler_step c HAccepted g w HTracked g' w
| h_track_closed g w g' :
    track c g = (false, g') -> handler_step c HAccepted g w HFinished g' (close_conns {[c]} w)
| h_add g w : handler_step c HTracked g w HAdded (add_active 1 g) w
| h_touch g w : handler_step c HAdded g w HCounted (touch w g) w
| h_ensure g w i g' w' :
    ensure w g = (Ok i, g', w') -> handler_step c HCounted g w (HReady i) g' w'
| h_ensure_fails g w e g' w' :
    ensure w g = (Err e, g', w') -> handler_step c HCounted g w HLeaving g' w'
| h_dial i g w : handler_step c (HReady i) g w (HDialed i (w_next_conn w)) g (open_conn w)
| h_dial_fails i g w : handler_step c (HReady i) g w HLeaving g w
| h_track_upstream i up g w g' :
    track up g = (true, g') -> handler_step c (HDialed i up) g w (HRelaying i up 0) g' w
| h_track_upstream_closed i up g w g' :
    track up g = (false, g') ->
    handler_step c (HDialed i up) g w HLeaving g' (close_conns {[up]} w)
| h_relay_done i up n g w :
    (n < 2)%nat -> handler_step c (HRelaying i up n) g w (HRelaying i up (S n)) g w
| h_forget_upstream i up g w :
    handler_step c (HRelaying i up 2) g w (HForgotUpstream up) (forget up g) w
| h_close_upstream up g w :
    handler_step c (HForgotUpstream up) g w HLeaving g (close_conns {[up]} w)
| h_leave g w : handler_step c HLeaving g w HLeft (add_active (-1) g) w
| h_touch_leaving g w : handler_step c HLeft g w HTouched (touch w g) w
| h_forget g w : handler_step c HTouched g w HForgot (forget c g) w
| h_close g w : handler_step c HForgot g w HFinished g (close_conns {[c]} w).

(** [sweep]: a tick that finds the gate idle takes the instance under [mu] and closes
    it after releasing the mutex. *)
Inductive sweeper_step : sweeper -> gate -> world -> sweeper -> gate -> world -> Prop :=
| sw_return g w : g_stopped g = true -> sweeper_step SWaiting g w SReturned g w
| sw_tick g w :
    sweeper_step SWaiting g w
      (if (idle <=? 0) || (0 <? g_active g) then SWaiting else SNoneActive) g w
| sw_expired g w :
    sweeper_step SNoneActive g w
      (if w_now w - g_lastUse g <? idle then SWaiting else SExpired) g w
| sw_take g w :
    sweeper_step SExpired g w
      (match g_instance g with Some i => SClosing i | None => SWaiting end)
      (set_instance None g) w
| sw_close i g w : sweeper_step (SClosing i) g w SWaiting g (close_instance i w).

(** [Close]; a call that finds [closed] set returns at once and changes nothing. *)
Inductive closer_step : closer -> gate -> world -> closer -> gate -> world -> Prop :=
| cl_take g w :
    g_closed g = false ->
    closer_step CNotCalled g w (CTook (g_instance g))
      (MkGate None true (g_stopped g) (g_listening g) (g_conns g) (g_active g) (g_lastUse g)) w
| cl_stop i g w :
    closer_step (CTook i) g w (CStopped i)
      (MkGate (g_instance g) (g_closed g) true (g_listening g) (g_conns g) (g_active g)
        (g_lastUse g)) w
| cl_unlisten i g w :
    closer_step (CStopped i) g w (CUnlistened i)
      (MkGate (g_instance g) (g_closed g) (g_stopped g) false (g_conns g) (g_active g)
        (g_lastUse g)) w
| cl_take_conns i g w :
    closer_step (CUnlistened i) g w (CConns (default ∅ (g_conns g)) i) (set_conns None g) w
| cl_close_conns cs i g w :
    closer_step (CConns cs i) g w (CInstance i) g (close_conns cs w)
| cl_close_instance i g w :
    closer_step (CInstance (Some i)) g w CDone g (close_instance i w)
| cl_no_instance g w : closer_step (CInstance None) g w CDone g w.

Inductive gate_step : gstate -> gstate -> Prop :=
| gs_accept g w h sw cl :
    g_listening g = true ->
    gate_step (MkGstate g w h sw cl)
              (MkGstate g (open_conn w) (<[w_next_conn w := HAccepted]> h) sw cl)
| gs_handle c pc pc' g w g' w' h sw cl :
    h !! c = Some pc -> handler_step c pc g w pc' g' w' ->
    gate_step (MkGstate g w h sw cl) (MkGstate g' w' (<[c := pc']> h) sw cl)
| gs_sweep sw' g w g' w' h sw cl :
    sweeper_step sw g w sw' g' w' ->
    gate_step (MkGstate g w h sw cl) (MkGstate g' w' h sw' cl)
| gs_close cl' g w g' w' h sw cl :
    closer_step cl g w cl' g' w' ->
    gate_step (MkGstate g w h sw cl) (MkGstate g' w' h sw cl')
| gs_time t g w h sw cl :
    0 <= t ->
    gate_step (MkGstate g w h sw cl)
      (MkGstate g (MkWorld (w_alive w) (w_next_instance w) (w_open w) (w_next_conn w)
                     (w_now w + t)) h sw cl).

(** The gate as [StartGate] returns it: cold, listening, its sweeper started. *)
Definition gate_started (now : Z) : gstate :=
  MkGstate (MkGate None false false true (Some ∅) 0 now)
           (MkWorld ∅ 0 ∅ 0 now) ∅ SWaiting CNotCalled.

Definition reachable (s : gstate) : Prop :=
  exists now, steps gate_step (gate_started now) s.

(** ** Who owns an instance *)

Definition closer_holds (cl : closer) : list nat :=
  match cl with
  | CTook i | CStopped i | CUnlistened i | CConns _ i | CInstance i => option_list i
  | CNotCalled | CDone => []
  end.

Definition sweeper_holds (sw : sweeper) : list nat :=
  match sw with SClosing i => [i] | _ => [] end.

Definition closer_called (cl : closer) : bool :=
  match cl with CNotCalled => false | _ => true end.

(** The instances somebody is still going to close: the gate's own, the sweeper's and
    the closer's. *)
Definition instance_owners (g : gate) (sw : sweeper) (cl : closer) : list nat :=
  option_list (g_instance g) ++ sweeper_holds sw ++ closer_holds cl.

Record instances_inv (s : gstate) : Prop := {
  ii_closed : g_closed (gs_gate s) = true -> g_instance (gs_gate s) = None;
  ii_closer : g_closed (gs_gate s) = closer_called (gs_closer s);
  ii_nodup : NoDup (instance_owners (gs_gate s) (gs_sweeper s) (gs_closer s));
  ii_alive : w_alive (gs_world s) =
    list_to_set (instance_owners (gs_gate s) (gs_sweeper s) (gs_closer s));
  ii_next : forall i, i ∈ w_alive (gs_world s) -> (i < w_next_instance (gs_world s))%nat
}.

(** [ensure] either leaves the gate and the set of live instances alone or makes one
    fresh live instance the gate's own, and then the gate was open and cold. *)
Lemma ensure_cases w g r g' w' :
  ensure w g = (r, g', w') -> w_next_instance w ∉ w_alive w ->
  (w_next_instance w <= w_next_instance w')%nat /\
  w_open w' = w_open w /\ w_next_conn w' = w_next_conn w /\
  ((g' = g /\ w_alive w' = w_alive w) \/
   (g_closed g = false /\ g_instance g = None /\ r = Ok (w_next_instance w) /\
    g' = set_instance (Some (w_next_instance w)) g /\
    w_alive w' = {[w_next_instance w]} ∪ w_alive w /\
    w_next_instance w' = S (w_next_instance w))).
Proof.
  unfold ensure, new_instance, close_instance. intros H Hfresh.
  branches; repeat split; try lia; try (left; split; [done | set_solver]);
    right; repeat split; done.
Qed.

Lemma ensure_frame w g r g' w' :
  ensure w g = (r, g', w') ->
  g_closed g' = g_closed g /\ g_conns g' = g_conns g /\ g_active g' = g_active g /\
  w_open w' = w_open w /\ w_next_conn w' = w_next_conn w.
Proof. unfold ensure. intros H. branches. Qed.

Lemma track_frame c g b g' :
  track c g = (b, g') ->
  g_instance g' = g_instance g /\ g_closed g' = g_closed g /\ g_active g' = g_active g.
Proof. unfold track. intros H. branches. Qed.

Lemma forget_frame c g :
  g_instance (forget c g) = g_instance g /\ g_closed (forget c g) = g_closed g /\
  g_active (forget c g) = g_active g.
Proof. unfold forget. branches. Qed.

(** Outside [ensure], a connection's goroutine touches no instance. *)
Lemma handler_step_instances c pc g w pc' g' w' :
  handler_step c pc g w pc' g' w' ->
  (exists r, ensure w g = (r, g', w')) \/
  (g_instance g' = g_instance g /\ g_closed g' = g_closed g /\
   w_alive w' = w_alive w /\ w_next_instance w' = w_next_instance w).
Proof.
  intros Hs. destruct Hs; eauto; right; simpl;
    try (match goal with H : track _ _ = _ |- _ => apply track_frame in H as (? & ? & _) end);
    try (rewrite (proj1 (forget_frame _ _)), (proj1 (proj2 (forget_frame _ _))));
    naive_solver.
Qed.

Lemma instances_inv_init now : instances_inv (gate_started now).
Proof. split; simpl; set_solver || constructor. Qed.

Lemma instances_fresh s : instances_inv s -> w_next_instance (gs_world s) ∉ w_alive (gs_world s).
Proof. intros Hi Hin. apply (ii_next _ Hi) in Hin. lia. Qed.

Lemma instances_inv_handler s c pc pc' g' w' h' :
  instances_inv s -> handler_step c pc (gs_gate s) (gs_world s) pc' g' w' ->
  instances_inv (MkGstate g' w' h' (gs_sweeper s) (gs_closer s)).
Proof.
  intros Hi Hs. pose proof (instances_fresh _ Hi) as Hfresh. destruct Hi as [I1 I2 I3 I4 I5].
  apply handler_step_instances in Hs as [[r He] | (E1 & E2 & E3 & E4)].
  - apply ensure_cases in He as (Hle & _ & _ & [[-> Ha] | (Hc & Hn & _ & -> & Ha & Hnext)]); [| |done].
    + split; simpl; rewrite ?Ha; auto. intros i Hin%I5. lia.
    + unfold instance_owners in *. rewrite Hn in *. split; simpl in *; try done.
      * congruence.
      * rewrite I4 in Hfresh. apply NoDup_cons. split; [|done]. set_solver.
      * rewrite Ha, I4. set_solver.
      * rewrite Ha, Hnext. intros i [->%elem_of_singleton | Hin%I5]%elem_of_union; lia.
  - split; unfold instance_owners in *; simpl; rewrite ?E1, ?E2, ?E3, ?E4; auto.
Qed.

Lemma instances_inv_step s1 s2 : instances_inv s1 -> gate_step s1 s2 -> instances_inv s2.
Proof.
  intros Hi Hs. destruct Hs as [g w h sw cl _ | c pc pc' g w g' w' h sw cl _ Hh
    | sw' g w g' w' h sw cl Hw | cl' g w g' w' h sw cl Hc | t g w h sw cl _].
  - destruct Hi. by split.
  - by apply (instances_inv_handler _ _ _ _ _ _ (<[c:=pc']> h) Hi) in Hh.
  - destruct Hi as [I1 I2 I3 I4 I5]. unfold instance_owners in *. simpl in *.
    destruct Hw; simpl in *; try (split; simpl; auto; fail);
      try (split; simpl; repeat case_on; by auto).
    apply NoDup_app in I3 as (N1 & Hd & N2). apply NoDup_cons in N2 as [N2 N3].
    split; unfold instance_owners; simpl; auto.
    + apply NoDup_app. split; [done|]. split; [set_solver | done].
    + rewrite I4, !list_to_set_app_L. simpl. set_solver.
    + intros i' Hin. apply I5. set_solver.
  - destruct Hi as [I1 I2 I3 I4 I5]. unfold instance_owners in *. simpl in *.
    destruct Hc; simpl in *; try (split; unfold instance_owners; simpl; by auto).
    + split; unfold instance_owners; simpl in *; auto.
      * rewrite app_nil_r in I3. rewrite <- (Permutation_app_comm (option_list _)). done.
      * rewrite I4, app_nil_r. rewrite !list_to_set_app_L. set_solver.
    + apply NoDup_app in I3 as (N1 & Hd & N2).
      apply NoDup_app in N2 as (N2 & Hd2 & N3). simpl in *.
      split; unfold instance_owners; simpl; rewrite ?app_nil_r; auto.
      * apply NoDup_app. split; [done|]. split; [set_solver | done].
      * rewrite I4. rewrite !list_to_set_app_L. simpl. set_solver.
      * intros i' Hin. apply I5. set_solver.
  - destruct Hi. by split.
Qed.

Lemma instances_inv_reachable s : reachable s -> instances_inv s.
Proof.
  intros [now Hs]. eapply (steps_invariant _ instances_inv); eauto using instances_inv_step.
  apply instances_inv_init.
Qed.

(** ** The active counter counts the goroutines between [active.Add(1)] and
    [active.Add(-1)] *)

Definition counted (pc : handler) : Z :=
  match pc with
  | HAdded | HCounted | HReady _ | HDialed _ _ | HRelaying _ _ _ | HForgotUpstream _
  | HLeaving => 1
  | HAccepted | HTracked | HLeft | HTouched | HForgot | HFinished => 0
  end.

Definition active_handlers (h : gmap nat handler) : Z :=
  map_fold (fun _ pc n => counted pc + n) 0 h.

Lemma active_handlers_new c pc h :
  h !! c = None -> active_handlers (<[c := pc]> h) = counted pc + active_handlers h.
Proof. intros. unfold active_handlers. rewrite map_fold_insert_L; [done | intros; lia | done]. Qed.

Lemma active_handlers_insert c pc pc' h :
  h !! c = Some pc ->
  active_handlers (<[c := pc']> h) = active_handlers h - counted pc + counted pc'.
Proof.
  intros Hc. rewrite <- (insert_delete_id h c pc) at 2 by done.
  rewrite <- insert_delete_eq, !active_handlers_new by apply lookup_delete_eq. lia.
Qed.

Lemma active_handlers_nonneg h : 0 <= active_handlers h.
Proof.
  unfold active_handlers. apply (map_fold_weak_ind (fun n _ => 0 <= n)); [lia |].
  intros i pc m n _ Hn. destruct pc; simpl; lia.
Qed.

(** ** Who owns a connection

    [upstream pc] is the connection a goroutine has dialled; [tracks c pc] the
    connections it has put in [conns] and not yet taken out; [owns c pc] the ones it
    is still going to close. *)
Definition upstream (pc : handler) : option nat :=
  match pc with
  | HDialed _ up | HRelaying _ up _ | HForgotUpstream up => Some up
  | _ => None
  end.

Definition tracks (c : nat) (pc : handler) : list nat :=
  match pc with
  | HAccepted | HForgot | HFinished => []
  | HRelaying _ up _ => [c; up]
  | _ => [c]
  end.

Definition owns (c : nat) (pc : handler) : list nat :=
  match pc with
  | HFinished => []
  | _ => c :: option_list (upstream pc)
  end.

(** What [Close] has done to the tracked connections, by where it is. *)
Definition close_covers (cl : closer) (w : world) (x : nat) : Prop :=
  match cl with CConns cs _ => x ∈ cs | _ => x ∉ w_open w end.

Definition conns_taken (cl : closer) : bool :=
  match cl with CConns _ _ | CInstance _ | CDone => true | _ => false end.

Record conns_inv (s : gstate) : Prop := {
  ci_active : g_active (gs_gate s) = active_handlers (gs_handlers s);
  ci_taken : g_conns (gs_gate s) = None <-> conns_taken (gs_closer s) = true;
  ci_id : forall c pc, gs_handlers s !! c = Some pc -> (c < w_next_conn (gs_world s))%nat;
  ci_up : forall c pc u, gs_handlers s !! c = Some pc -> upstream pc = Some u ->
    (u < w_next_conn (gs_world s))%nat /\ gs_handlers s !! u = None;
  ci_up_inj : forall c1 c2 pc1 pc2 u,
    gs_handlers s !! c1 = Some pc1 -> gs_handlers s !! c2 = Some pc2 ->
    upstream pc1 = Some u -> upstream pc2 = Some u -> c1 = c2;
  ci_tracked : forall c pc x, gs_handlers s !! c = Some pc -> x ∈ tracks c pc ->
    match g_conns (gs_gate s) with
    | Some conns => x ∈ conns
    | None => close_covers (gs_closer s) (gs_world s) x
    end;
  ci_owned : forall x, x ∈ w_open (gs_world s) ->
    exists c pc, gs_handlers s !! c = Some pc /\ x ∈ owns c pc
}.

Lemma tracks_owned c pc x : x ∈ tracks c pc -> x = c \/ upstream pc = Some x.
Proof. destruct pc; simpl; set_solver. Qed.

Lemma owns_cases c pc x : x ∈ owns c pc -> x = c \/ upstream pc = Some x.
Proof. destruct pc; simpl; set_solver. Qed.

(** Two goroutines share no connection. *)
Lemma conns_separate s c1 c2 pc1 pc2 x :
  conns_inv s ->
  gs_handlers s !! c1 = Some pc1 -> gs_handlers s !! c2 = Some pc2 -> c1 <> c2 ->
  x = c1 \/ upstream pc1 = Some x -> x = c2 \/ upstream pc2 = Some x -> False.
Proof.
  intros Hi H1 H2 Hne [-> | Hx1] [-> | Hx2]; try done.
  - destruct (ci_up _ Hi _ _ _ H2 Hx2). congruence.
  - destruct (ci_up _ Hi _ _ _ H1 Hx1). congruence.
  - by pose proof (ci_up_inj _ Hi _ _ _ _ _ H1 H2 Hx1 Hx2).
Qed.

(** What a step of the goroutine [c] must satisfy for the invariant to hold after it. *)
Record handler_effect (s : gstate) (c : nat) (pc pc' : handler) (g' : gate) (w' : world) : Prop := {
  he_active : g_active g' = g_active (gs_gate s) - counted pc + counted pc';
  he_taken : g_conns g' = None <-> g_conns (gs_gate s) = None;
  he_next : (w_next_conn (gs_world s) <= w_next_conn w')%nat;
  he_up : forall u, upstream pc' = Some u -> upstream pc = Some u \/
    (u = w_next_conn (gs_world s) /\ (u < w_next_conn w')%nat);
  he_others : forall conns conns' x, g_conns (gs_gate s) = Some conns ->
    g_conns g' = Some conns' -> x ∈ conns -> x <> c -> upstream pc <> Some x -> x ∈ conns';
  he_tracks : forall x, x ∈ tracks c pc' ->
    match g_conns g' with
    | Some conns => x ∈ conns
    | None => close_covers (gs_closer s) w' x
    end;
  he_open : forall x, x ∈ w_open w' -> x ∈ owns c pc' \/
    (x ∈ w_open (gs_world s) /\ x ∉ owns c pc)
}.

(** The upstream connection of a goroutine that has stepped is nobody's own, *)
Lemma effect_upstream s c pc pc' g' w' u :
  conns_inv s -> gs_handlers s !! c = Some pc -> handler_effect s c pc pc' g' w' ->
  upstream pc' = Some u -> (u < w_next_conn w')%nat /\ gs_handlers s !! u = None.
Proof.
  intros Hi Hc [_ _ E3 E4 _ _ _] [Hu | [-> Hu]]%E4.
  - destruct (ci_up _ Hi _ _ _ Hc Hu). split; [lia | done].
  - split; [done |]. destruct (gs_handlers s !! w_next_conn _) eqn:E; [|done].
    apply (ci_id _ Hi) in E. lia.
Qed.

(** and it shares neither of its connections with another's. *)
Lemma effect_separate s c pc pc' g' w' c2 pc2 u :
  conns_inv s -> gs_handlers s !! c = Some pc -> handler_effect s c pc pc' g' w' ->
  c2 <> c -> gs_handlers s !! c2 = Some pc2 ->
  u = c2 \/ upstream pc2 = Some u -> u = c \/ upstream pc' = Some u -> False.
Proof.
  intros Hi Hc [_ _ _ E4 _ _ _] Hne H2 Hu [-> | Hu']; [by eapply (conns_separate s c2 c); eauto |].
  destruct (E4 _ Hu') as [Hu2 | [-> _]]; [by eapply (conns_separate s c2 c); eauto |].
  destruct Hu as [<- | Hu]; [apply (ci_id _ Hi) in H2; lia |].
  destruct (ci_up _ Hi _ _ _ H2 Hu). lia.
Qed.

Lemma conns_inv_handler s c pc pc' g' w' :
  conns_inv s -> gs_handlers s !! c = Some pc -> handler_effect s c pc pc' g' w' ->
  conns_inv (MkGstate g' w' (<[c := pc']> (gs_handlers s)) (gs_sweeper s) (gs_closer s)).
Proof.
  intros Hi Hc He. pose proof (fun u => effect_upstream s c pc pc' g' w' u Hi Hc He) as Hup'.
  pose proof (fun c2 pc2 u => effect_separate s c pc pc' g' w' c2 pc2 u Hi Hc He) as Hsep.
  destruct He as [E1 E2 E3 E4 E5 E6 E7].
  split; simpl.
  - rewrite E1, (ci_active _ Hi). by rewrite (active_handlers_insert _ pc).
  - rewrite E2. apply (ci_taken _ Hi).
  - intros c2 pc2 [[-> _] | [_ H2]]%lookup_insert_Some;
      [apply (ci_id _ Hi) in Hc | apply (ci_id _ Hi) in H2]; lia.
  - intros c2 pc2 u H2 Hu. apply lookup_insert_Some in H2 as [[<- <-] | [Hne H2]].
    + destruct (Hup' _ Hu) as [? Hn]. split; [done |].
      rewrite lookup_insert_ne by congruence. done.
    + destruct (ci_up _ Hi _ _ _ H2 Hu). split; [lia |].
      rewrite lookup_insert_ne; [done |]. intros ->. congruence.
  - intros c1 c2 pc1 pc2 u H1 H2 U1 U2.
    apply lookup_insert_Some in H1 as [[<- <-] | [Hne1 H1]];
      apply lookup_insert_Some in H2 as [[<- <-] | [Hne2 H2]]; try done.
    + exfalso. eapply (Hsep c2); eauto.
    + exfalso. eapply (Hsep c1); eauto.
    + by eapply (ci_up_inj _ Hi).
  - intros c2 pc2 x H2 Hx. apply lookup_insert_Some in H2 as [[<- <-] | [Hne H2]]; [by apply E6 |].
    pose proof (ci_tracked _ Hi _ _ _ H2 Hx) as Ht. apply tracks_owned in Hx.
    destruct (g_conns g') as [conns'|] eqn:G'; destruct (g_conns (gs_gate s)) as [conns|] eqn:G.
    + apply (E5 conns conns' x eq_refl eq_refl Ht); [intros -> | intros Hu].
      * apply (Hsep c2 pc2 c); auto.
      * apply (conns_separate s c2 c pc2 pc x); auto.
    + naive_solver.
    + naive_solver.
    + assert (x ∈ w_open w' -> x ∈ w_open (gs_world s)) as Hopen.
      { intros [Ho | [Ho _]]%E7; [|done]. apply owns_cases in Ho.
        exfalso. by eapply (Hsep c2 pc2 x). }
      unfold close_covers in *. destruct (gs_closer s); auto.
  - intros x Hx. apply E7 in Hx as [Ho | [Ho Hno]].
    + exists c, pc'. by rewrite lookup_insert_eq.
    + apply (ci_owned _ Hi) in Ho as (c2 & pc2 & H2 & Ho2). exists c2, pc2.
      rewrite lookup_insert_ne; [done |]. intros ->. congruence.
Qed.

Lemma track_Some c g g' :
  track c g = (true, g') ->
  exists conns, g_conns g = Some conns /\ g' = set_conns (Some ({[c]} ∪ conns)) g.
Proof. unfold track. intros H. branches. eauto. Qed.

Lemma track_None c g g' : track c g = (false, g') -> g_conns g = None /\ g' = g.
Proof. unfold track. intros H. by branches. Qed.

Lemma tracks_same_covered s c pc :
  conns_inv s -> gs_handlers s !! c = Some pc ->
  forall x, x ∈ tracks c pc ->
    match g_conns (gs_gate s) with
    | Some conns => x ∈ conns
    | None => close_covers (gs_closer s) (gs_world s) x
    end.
Proof. intros Hi Hc x. by apply (ci_tracked _ Hi). Qed.

(** Closing connections keeps what [Close] has dealt with dealt with. *)
Lemma close_covers_mono cl w w' x :
  (x ∈ w_open w' -> x ∈ w_open w) -> close_covers cl w x -> close_covers cl w' x.
Proof. unfold close_covers. destruct cl; auto. Qed.

(** An ownership that a step keeps, or gives up by closing. *)
Lemma owns_kept (l l' : list nat) (o o' : gset nat) :
  (forall x, x ∈ l -> x ∉ l' -> x ∉ o') -> (forall x, x ∈ o' -> x ∈ o \/ x ∈ l') ->
  forall x, x ∈ o' -> x ∈ l' \/ (x ∈ o /\ x ∉ l).
Proof.
  intros H1 H2 x Hx. destruct (decide (x ∈ l')) as [|Hn]; [by left |]. right.
  destruct (H2 _ Hx); [|done]. split; [done |]. intros Hl. by eapply H1.
Qed.

Lemma forget_conns x g :
  g_conns (forget x g) = (fun cs => cs ∖ {[x]}) <$> g_conns g.
Proof. unfold forget. by destruct (g_conns g) eqn:E; simpl; rewrite ?E. Qed.

Ltac conns_rewrite :=
  repeat match goal with H : g_conns ?a = _ |- context [g_conns ?a] => rewrite H end.

Ltac effect_fields Ht :=
  split; simpl in *;
  [ lia
  | conns_rewrite; split; congruence
  | lia
  | intros u ?; simplify_eq; auto with lia
  | intros conns1 conns2 x; conns_rewrite; intros; simplify_eq/=; clear Ht; set_solver
  | intros x Hx; pose proof (Ht x) as Htx; clear Ht; conns_rewrite;
    repeat case_match; simplify_eq/=;
    first [ solve [by apply not_elem_of_nil in Hx]
          | solve [apply Htx; set_solver]
          | solve [clear Htx; set_solver]
          | solve [set_solver]
          | eapply close_covers_mono; [|apply Htx; set_solver]; clear Htx; simpl; set_solver ]
  | clear Ht; apply owns_kept; set_solver ].

Lemma handler_step_effect s c pc pc' g' w' :
  conns_inv s -> gs_handlers s !! c = Some pc ->
  handler_step c pc (gs_gate s) (gs_world s) pc' g' w' ->
  handler_effect s c pc pc' g' w'.
Proof.
  intros Hi Hc Hs. pose proof (tracks_same_covered _ _ _ Hi Hc) as Ht.
  assert (c <> w_next_conn (gs_world s)) as Hne.
  { apply (ci_id _ Hi) in Hc. lia. }
  assert (forall u, upstream pc = Some u -> u <> c) as Huc.
  { intros u Hu ->. destruct (ci_up _ Hi _ _ _ Hc Hu). congruence. }
  destruct s as [g w h sw cl]; clear Hi Hc; simpl in *.
  destruct Hs;
    try (match goal with H : track _ _ = (true, _) |- _ =>
         apply track_Some in H as (conns & Hg & ->); rewrite Hg in Ht end);
    try (match goal with H : track _ _ = (false, _) |- _ =>
         apply track_None in H as (Hg & ->); rewrite Hg in Ht end);
    try (match goal with H : ensure _ _ = _ |- _ =>
         apply ensure_frame in H as (_ & F1 & F2 & F3 & F4); rewrite <- F1 in Ht end);
    try (match goal with |- context [forget ?x ?g] =>
         destruct (forget_frame x g) as (_ & _ & Fa); pose proof (forget_conns x g) as Fc;
         destruct (g_conns g) eqn:Hg; simpl in Fc end).
  all: try (specialize (Huc _ eq_refl)).
  all: effect_fields Ht.
Qed.

Lemma conns_inv_init now : conns_inv (gate_started now).
Proof. split; simpl; try done; set_solver. Qed.

(** The sweeper and the clock leave connections alone. *)
Lemma conns_inv_frame s g' w' sw' :
  conns_inv s -> g_active g' = g_active (gs_gate s) -> g_conns g' = g_conns (gs_gate s) ->
  w_open w' = w_open (gs_world s) -> w_next_conn w' = w_next_conn (gs_world s) ->
  conns_inv (MkGstate g' w' (gs_handlers s) sw' (gs_closer s)).
Proof.
  intros [I1 I2 I3 I4 I5 I6 I7] E1 E2 E3 E4.
  split; simpl; unfold close_covers; rewrite ?E1, ?E2, ?E3, ?E4; eauto.
Qed.

Lemma sweeper_step_frame sw g w sw' g' w' :
  sweeper_step sw g w sw' g' w' ->
  g_active g' = g_active g /\ g_conns g' = g_conns g /\ w_open w' = w_open w /\
  w_next_conn w' = w_next_conn w.
Proof. by destruct 1. Qed.

Lemma conns_inv_closer s cl' g' w' :
  conns_inv s -> closer_step (gs_closer s) (gs_gate s) (gs_world s) cl' g' w' ->
  conns_inv (MkGstate g' w' (gs_handlers s) (gs_sweeper s) cl').
Proof.
  intros [I1 I2 I3 I4 I5 I6 I7] Hs. destruct s as [g w h sw cl]; simpl in *.
  destruct Hs; split; simpl in *; eauto.
  - done.
  - intros c pc x Hc Hx. pose proof (I6 _ _ _ Hc Hx).
    destruct (g_conns g) as [cs|]; [done |]. by specialize (proj1 I2 eq_refl).
  - intros c pc x Hc Hx. pose proof (I6 _ _ _ Hc Hx).
    destruct (g_conns g); [done | set_solver].
  - intros x [Hx _]%elem_of_difference. eauto.
Qed.

Lemma conns_inv_accept g w h sw cl :
  conns_inv (MkGstate g w h sw cl) ->
  conns_inv (MkGstate g (open_conn w) (<[w_next_conn w := HAccepted]> h) sw cl).
Proof.
  intros Hi. assert (h !! w_next_conn w = None) as Hfresh.
  { destruct (h !! w_next_conn w) eqn:E; [|done]. apply (ci_id _ Hi) in E. simpl in E. lia. }
  pose proof Hi as [I1 I2 I3 I4 I5 I6 I7]. simpl in *.
  split; simpl.
  - by rewrite I1, active_handlers_new.
  - done.
  - intros c pc [[<- _] | [_ Hc]]%lookup_insert_Some; [lia |]. apply I3 in Hc. lia.
  - intros c pc u Hc Hu. apply lookup_insert_Some in Hc as [[<- <-] | [_ Hc]]; [done |].
    destruct (I4 _ _ _ Hc Hu). split; [lia |]. rewrite lookup_insert_ne; [done | lia].
  - intros c1 c2 pc1 pc2 u H1 H2 U1 U2.
    apply lookup_insert_Some in H1 as [[<- <-] | [_ H1]]; [done |].
    apply lookup_insert_Some in H2 as [[<- <-] | [_ H2]]; [done |]. eauto.
  - intros c pc x Hc Hx. apply lookup_insert_Some in Hc as [[<- <-] | [_ Hc]]; [set_solver |].
    pose proof (I6 _ _ _ Hc Hx) as Ht. destruct (g_conns g); [done |].
    assert (x <> w_next_conn w) as Hne.
    { apply tracks_owned in Hx as [-> | Hx]; [apply I3 in Hc; lia |].
      destruct (I4 _ _ _ Hc Hx). lia. }
    unfold close_covers in *. destruct cl; simpl; set_solver.
  - intros x [->%elem_of_singleton | Hx]%elem_of_union.
    + eexists _, _. rewrite lookup_insert_eq. split; [done | set_solver].
    + destruct (I7 _ Hx) as (c & pc & Hc & Ho). exists c, pc.
      rewrite lookup_insert_ne; [done | congruence].
Qed.

Lemma conns_inv_step s1 s2 : conns_inv s1 -> gate_step s1 s2 -> conns_inv s2.
Proof.
  intros Hi Hs. destruct Hs as [g w h sw cl _ | c pc pc' g w g' w' h sw cl Hc Hh
    | sw' g w g' w' h sw cl Hw | cl' g w g' w' h sw cl Hcl | t g w h sw cl _].
  - by apply conns_inv_accept.
  - by apply (conns_inv_handler _ _ _ _ _ _ Hi Hc), handler_step_effect.
  - apply sweeper_step_frame in Hw as (? & ? & ? & ?). by apply (conns_inv_frame _ _ _ _ Hi).
  - by apply (conns_inv_closer _ _ _ _ Hi).
  - by apply (conns_inv_frame _ _ _ _ Hi).
Qed.

Lemma conns_inv_reachable s : reachable s -> conns_inv s.
Proof.
  intros [now Hs]. eapply (steps_invariant _ conns_inv); eauto using conns_inv_step.
  apply conns_inv_init.
Qed.

(** *** Properties *)

(** C7: in every reachable state the live Xray instances are exactly the ones with an
    owner that is still going to close them (the gate, the sweeper or the [Close]
    call), and no instance has two owners, so none leaks and none is closed twice. *)
Theorem instances_have_one_owner s :
  reachable s ->
  NoDup (instance_owners (gs_gate s) (gs_sweeper s) (gs_closer s)) /\
  w_alive (gs_world s) =
    list_to_set (instance_owners (gs_gate s) (gs_sweeper s) (gs_closer s)).
Proof. intros Hs%instances_inv_reachable. by destruct Hs. Qed.

Lemma closed_gate s :
  reachable s -> gs_closer s = CDone ->
  g_instance (gs_gate s) = None /\
  w_alive (gs_world s) = list_to_set (sweeper_holds (gs_sweeper s)) /\
  (forall c pc x, gs_handlers s !! c = Some pc -> x ∈ tracks c pc -> x ∉ w_open (gs_world s)).
Proof.
  intros Hs Hd. pose proof (instances_inv_reachable _ Hs) as [I1 I2 _ I4 _].
  pose proof (conns_inv_reachable _ Hs) as Hc. rewrite Hd in *. simpl in *.
  specialize (I1 I2). unfold instance_owners in I4. rewrite I1 in *. simpl in *.
  rewrite app_nil_r in I4. split; [done |]. split; [done |].
  intros c pc x H Hx. pose proof (ci_tracked _ Hc _ _ _ H Hx) as Ht.
  rewrite (proj2 (ci_taken _ Hc)) in Ht by (by rewrite Hd). by rewrite Hd in Ht.
Qed.

(** C10: once [Close] has run to its end, the gate has no instance, no instance is
    alive except one the sweeper is just closing, and every connection a goroutine
    still has in its care under [track] is closed. *)
Theorem close_tears_everything_down s :
  reachable s -> gs_closer s = CDone ->
  g_instance (gs_gate s) = None /\
  w_alive (gs_world s) = list_to_set (sweeper_holds (gs_sweeper s)) /\
  (forall c pc x, gs_handlers s !! c = Some pc -> x ∈ tracks c pc -> x ∉ w_open (gs_world s)).
Proof. apply closed_gate. Qed.

(** no connection is ever abandoned: every open connection belongs to a goroutine
    that will still close it, the goroutines share no connection, and the active
    counter is the number of goroutines between its two updates. *)
Theorem connections_have_one_owner s :
  reachable s ->
  (forall x, x ∈ w_open (gs_world s) ->
     exists c pc, gs_handlers s !! c = Some pc /\ x ∈ owns c pc) /\
  (forall c1 c2 pc1 pc2 x, gs_handlers s !! c1 = Some pc1 -> gs_handlers s !! c2 = Some pc2 ->
     x ∈ owns c1 pc1 -> x ∈ owns c2 pc2 -> c1 = c2) /\
  g_active (gs_gate s) = active_handlers (gs_handlers s).
Proof.
  intros Hs%conns_inv_reachable. split; [apply (ci_owned _ Hs) |]. split; [|apply (ci_active _ Hs)].
  intros c1 c2 pc1 pc2 x H1 H2 O1%owns_cases O2%owns_cases.
  destruct (decide (c1 = c2)) as [|Hne]; [done |].
  exfalso. by apply (conns_separate s c1 c2 pc1 pc2 x).
Qed.

(** [ensure] on every branch: a closed gate refuses, a warm gate hands out its
    instance and changes nothing, a cold gate hands out a fresh instance that is then
    the gate's own, and a failed start leaves the gate cold and nothing alive that was
    not alive before. *)
Theorem ensure_spec w g r g' w' :
  ensure w g = (r, g', w') -> w_next_instance w ∉ w_alive w ->
  (g_closed g = true -> r = Err "xray gate: closed" /\ g' = g /\ w' = w) /\
  (forall i, g_closed g = false -> g_instance g = Some i -> r = Ok i /\ g' = g /\ w' = w) /\
  (forall i, r = Ok i -> g_instance g' = Some i) /\
  (forall e, r = Err e -> g' = g /\ w_alive w' = w_alive w) /\
  (g_instance g = None -> forall i, r = Ok i ->
     (i ∉ w_alive w) /\ w_alive w' = {[i]} ∪ w_alive w).
Proof.
  intros He Hf. unfold ensure, new_instance, close_instance in He.
  destruct (g_closed g) eqn:Hc; [simplify_eq; by repeat split|].
  destruct (g_instance g) as [i0|] eqn:Hg; [simplify_eq; repeat split; naive_solver|].
  repeat (case_match; simplify_eq); repeat split; intros; simplify_eq/=; try done; set_solver.
Qed.
End Gate.

Arguments reachable idle xray_create prepare xray_start s : clear implicits.

(** The sweeper's tick interval lies between two and fifteen seconds whatever the
    idle timeout, and is half the timeout where that fits. *)
Theorem sweepIntervalFor_bounds idle :
  minGateSweepInterval <= sweepIntervalFor idle <= gateSweepInterval /\
  (4 * second < idle < 30 * second -> sweepIntervalFor idle = idle / 2).
Proof.
  unfold sweepIntervalFor, minGateSweepInterval, gateSweepInterval, second.
  destruct (Z.leb_spec idle 0); simpl; [lia |].
  rewrite Z.quot_div_nonneg by lia.
  pose proof (Z.div_mod idle 2 ltac:(lia)). pose proof (Z.mod_pos_bound idle 2 ltac:(lia)).
  destruct (Z.leb_spec (15 * 1000000000) (idle / 2)); [lia |].
  destruct (Z.ltb_spec (2 * 1000000000) (idle / 2)); lia.
Qed.

(** ** The sweeper's race

    [active] and [lastUse] are read outside [mu], so a connection can come in between
    the check and the moment the instance is taken. *)
Definition always_up : nat -> result unit := fun _ => Ok tt.

Abbreviation race_step := (gate_step (60 * second) always_up None always_up).

(** The goroutine of connection [c] does one step. *)
Lemma run_handler c pc' g' w' s pc :
  gs_handlers s !! c = Some pc ->
  handler_step always_up None always_up c pc (gs_gate s) (gs_world s) pc' g' w' ->
  race_step s (MkGstate g' w' (<[c := pc']> (gs_handlers s)) (gs_sweeper s) (gs_closer s)).
Proof. intros. destruct s. by eapply gs_handle. Qed.

Ltac go_handler c := eapply steps_step; [eapply (run_handler c); [reflexivity | econstructor; reflexivity] |]; simpl.
Ltac go_sweeper t := eapply steps_step; [eapply gs_sweep; apply t |]; simpl.

Lemma race_run : exists s,
  steps race_step (gate_started 0) s /\
  gs_handlers s !! 1%nat = Some (HReady 0) /\ w_alive (gs_world s) = ∅ /\
  g_closed (gs_gate s) = false /\ g_active (gs_gate s) = 1.
Proof.
  eexists. split.
  - eapply steps_step; [by apply gs_accept |]. simpl.
    go_handler 0%nat. go_handler 0%nat. go_handler 0%nat. go_handler 0%nat.
    eapply steps_step; [eapply (run_handler 0); [reflexivity | apply h_dial_fails] |]. simpl.
    go_handler 0%nat. go_handler 0%nat. go_handler 0%nat. go_handler 0%nat.
    eapply steps_step; [eapply (gs_time _ _ _ _ (100 * second)); done |]. simpl.
    go_sweeper sw_tick. go_sweeper sw_expired.
    eapply steps_step; [by apply gs_accept |]. simpl.
    go_handler 1%nat. go_handler 1%nat. go_handler 1%nat. go_handler 1%nat.
    go_sweeper sw_take. go_sweeper sw_close. apply steps_refl.
  - vm_compute. auto.
Qed.

(** the sweeper can close the instance under a connection that [ensure] has just
    handed it to: a reachable state has an open gate and an active connection whose
    instance is no longer alive. *)
Theorem sweeper_closes_instance_in_use : exists s,
  reachable (60 * second) always_up None always_up s /\
  g_closed (gs_gate s) = false /\ g_active (gs_gate s) = 1 /\
  exists c i, gs_handlers s !! c = Some (HReady i) /\ i ∉ w_alive (gs_world s).
Proof.
  destruct race_run as (s & Hs & Hh & Ha & Hc & Hn). exists s. split; [by exists 0 |].
  repeat split; [done.. |]. exists 1%nat, 0%nat. rewrite Ha. set_solver.
Qed.

(** ** Concrete runs *)
Section Witnesses.
(** One connection is being relayed when [Close] runs to its end. *)
Lemma close_run : exists s,
  reachable (60 * second) always_up None always_up s /\ gs_closer s = CDone /\
  gs_handlers s !! 0%nat = Some (HRelaying 0 1 0).
Proof.
  eexists. split; [exists 0|].
  - eapply steps_step; [by apply gs_accept |]. simpl.
    go_handler 0%nat. go_handler 0%nat. go_handler 0%nat. go_handler 0%nat.
    eapply steps_step; [eapply (run_handler 0); [reflexivity | apply h_dial] |]. simpl.
    go_handler 0%nat.
    do 6 (eapply steps_step; [eapply gs_close; constructor; reflexivity |]; simpl).
    apply steps_refl.
  - by vm_compute.
Qed.

Lemma instances_have_one_owner_witness : exists s,
  reachable (60 * second) always_up None always_up s /\
  gs_handlers s !! 0%nat = Some (HRelaying 0 1 0) /\
  NoDup (instance_owners (gs_gate s) (gs_sweeper s) (gs_closer s)) /\
  w_alive (gs_world s) =
    list_to_set (instance_owners (gs_gate s) (gs_sweeper s) (gs_closer s)).
Proof.
  destruct close_run as (s & Hs & _ & Hh). exists s. split; [exact Hs |]. split; [exact Hh |].
  exact (instances_have_one_owner (60 * second) always_up None always_up s Hs).
Defined.

Lemma close_tears_everything_down_witness : exists s,
  gs_handlers s !! 0%nat = Some (HRelaying 0 1 0) /\
  g_instance (gs_gate s) = None /\
  w_alive (gs_world s) = list_to_set (sweeper_holds (gs_sweeper s)) /\
  (forall c pc x, gs_handlers s !! c = Some pc -> x ∈ tracks c pc -> x ∉ w_open (gs_world s)).
Proof.
  destruct close_run as (s & Hs & Hd & Hh). exists s. split; [exact Hh |].
  exact (close_tears_everything_down (60 * second) always_up None always_up s Hs Hd).
Defined.

Lemma connections_have_one_owner_witness : exists s,
  gs_handlers s !! 0%nat = Some (HRelaying 0 1 0) /\
  (forall x, x ∈ w_open (gs_world s) ->
     exists c pc, gs_handlers s !! c = Some pc /\ x ∈ owns c pc) /\
  (forall c1 c2 pc1 pc2 x, gs_handlers s !! c1 = Some pc1 -> gs_handlers s !! c2 = Some pc2 ->
     x ∈ owns c1 pc1 -> x ∈ owns c2 pc2 -> c1 = c2) /\
  g_active (gs_gate s) = active_handlers (gs_handlers s).
Proof.
  destruct close_run as (s & Hs & Hd & Hh). exists s. split; [exact Hh |].
  exact (connections_have_one_owner (60 * second) always_up None always_up s Hs).
Defined.

Definition cold_gate : gate := MkGate None false false true (Some ∅) 0 0.
Definition empty_world : world := MkWorld ∅ 0 ∅ 0 0.

Lemma ensure_spec_witness :
  g_instance (set_instance (Some 0%nat) cold_gate) = Some 0%nat /\
  w_alive (new_instance empty_world) = {[0%nat]} ∪ w_alive empty_world.
Proof.
  destruct (ensure_spec always_up None always_up empty_world cold_gate (Ok 0%nat)
    (set_instance (Some 0%nat) cold_gate) (new_instance empty_world)) as (_ & _ & H1 & _ & H2).
  - reflexivity.
  - simpl. set_solver.
  - split; [exact (H1 0%nat eq_refl) | exact (proj2 (H2 eq_refl 0%nat eq_refl))].
Defined.
End Witnesses.

(** ** [remapInbounds] and [StartGate]

    The text layer ([encoding/json]) is a parameter: the model works on the decoded
    values, a JSON object being a map from its keys and a JSON number the rational its
    [float64] denotes; a value that is neither number nor string is carried as it is. *)
Inductive json :=
| JNum (q : Q)
| JStr (s : string)
| JOther (v : string).

Record gateAddrPair := GateAddrPair { ap_gate : string; ap_target : string }.

(** [net.JoinHostPort]: an address with a colon is bracketed. *)
Definition JoinHostPort (host port : string) : string :=
  match index 0 ":" host with
  | Some _ => ("[" ++ host ++ "]:" ++ port)%string
  | None => (host ++ ":" ++ port)%string
  end.

(** [int(f)] of a float: truncation towards zero. *)
Definition int_of_float (q : Q) : Z := Z.quot (Qnum q) (Zpos (Qden q)).

(** [host, _ := inbound["listen"].(string)], defaulted. *)
Definition inbound_host (inbound : gmap string json) : string :=
  let host := match inbound !! "listen"%string with Some (JStr s) => s | _ => EmptyString end in
  if String.eqb host EmptyString then "127.0.0.1"%string else host.

(** [inbound["port"].(float64)], refused when it is not positive. *)
Definition inbound_port (inbound : gmap string json) : option Z :=
  match inbound !! "port"%string with
  | Some (JNum q) => if Qle_bool q 0 then None else Some (int_of_float q)
  | _ => None
  end.

Definition itoa (z : Z) : string := pretty.pretty z.

Section Remap.
  (** The probe listener opened on host: its ephemeral port, or the error. The index
      of the probe makes room for an answer that differs from call to call. *)
  Context (probe_listen : nat -> string -> result Z).

Fixpoint remap_each (n : nat) (inbounds : list (gmap string json)) :
    result (list (gmap string json) * list gateAddrPair) :=
  match inbounds with
  | [] => Ok ([], [])
  | inbound :: rest =>
      let host := inbound_host inbound in
      match inbound_port inbound with
      | None => Err "xray gate: inbound without a fixed port cannot be gated"
      | Some port =>
          match probe_listen n host with
          | Err e => Err ("xray gate: no free port on " ++ host ++ ": " ++ e)%string
          | Ok moved =>
              match remap_each (S n) rest with
              | Err e => Err e
              | Ok (inbounds', pairs) =>
                  Ok (<["port"%string := JNum (inject_Z moved)]> inbound :: inbounds',
                      GateAddrPair (JoinHostPort host (itoa port))
                                   (JoinHostPort host (itoa moved)) :: pairs)
              end
          end
      end
  end.

  Context (unmarshal_root : string -> result (gmap string string))
          (unmarshal_inbounds : string -> result (list (gmap string json)))
          (marshal_inbounds : list (gmap string json) -> result string)
          (marshal_root : gmap string string -> result string).

(** The decoded root with the inbounds replaced, and the address pairs. *)
Definition remap_root (config : string) : result (gmap string string * list gateAddrPair) :=
  match unmarshal_root config with
  | Err e => Err ("xray gate: parse config: " ++ e)%string
  | Ok root =>
      let decoded :=
        match root !! "inbounds"%string with
        | None => Ok []
        | Some raw =>
            match unmarshal_inbounds raw with
            | Err e => Err ("xray gate: parse inbounds: " ++ e)%string
            | Ok inbounds => Ok inbounds
            end
        end in
      match decoded with
      | Err e => Err e
      | Ok [] => Err "xray gate: config has no inbounds to gate"
      | Ok inbounds =>
          match remap_each 0 inbounds with
          | Err e => Err e
          | Ok (inbounds', pairs) =>
              match marshal_inbounds inbounds' with
              | Err e => Err e
              | Ok patched => Ok (<["inbounds"%string := patched]> root, pairs)
              end
          end
      end
  end.

Definition remapInbounds (config : string) : result (string * list gateAddrPair) :=
  match remap_root config with
  | Err e => Err e
  | Ok (root, pairs) =>
      match marshal_root root with
      | Err e => Err e
      | Ok out => Ok (out, pairs)
      end
  end.

(** [StartGate]'s listeners: the addresses listened on are state; a failure closes the
    ones this call opened. *)
Fixpoint open_bridges (listen : gset string -> string -> result unit)
    (pairs : list gateAddrPair) (bridges : list gateAddrPair) (listening : gset string) :
    result (list gateAddrPair) * gset string :=
  match pairs with
  | [] => (Ok bridges, listening)
  | p :: rest =>
      match listen listening (ap_gate p) with
      | Err e =>
          (Err ("xray gate: cannot take over " ++ ap_gate p ++ ": " ++ e)%string,
           listening ∖ list_to_set (ap_gate <$> bridges))
      | Ok _ => open_bridges listen rest (bridges ++ [p]) ({[ap_gate p]} ∪ listening)
      end
  end.

Definition StartGate (check : string -> result unit)
    (listen : gset string -> string -> result unit) (config : string)
    (listening : gset string) : result (string * list gateAddrPair) * gset string :=
  match remapInbounds config with
  | Err e => (Err e, listening)
  | Ok (rewritten, pairs) =>
      match check rewritten with
      | Err e => (Err e, listening)
      | Ok _ =>
          match open_bridges listen pairs [] listening with
          | (Err e, listening) => (Err e, listening)
          | (Ok bridges, listening) => (Ok (rewritten, bridges), listening)
          end
      end
  end.

(** What one inbound becomes. *)
Definition remapped (moved : Z) (inbound inbound' : gmap string json) (pair : gateAddrPair) : Prop :=
  exists port, inbound_port inbound = Some port /\
    inbound' = <["port"%string := JNum (inject_Z moved)]> inbound /\
    pair = GateAddrPair (JoinHostPort (inbound_host inbound) (itoa port))
                        (JoinHostPort (inbound_host inbound) (itoa moved)).

Lemma remap_each_spec inbounds n inbounds' pairs :
  remap_each n inbounds = Ok (inbounds', pairs) ->
  length inbounds' = length inbounds /\ length pairs = length inbounds /\
  forall k inbound, inbounds !! k = Some inbound ->
    exists moved inbound' pair, probe_listen (n + k)%nat (inbound_host inbound) = Ok moved /\
      inbounds' !! k = Some inbound' /\ pairs !! k = Some pair /\
      remapped moved inbound inbound' pair.
Proof.
  revert n inbounds' pairs. induction inbounds as [|inbound rest IH]; intros n inbounds' pairs H;
    simpl in H; [simplify_eq; by repeat split |].
  destruct (inbound_port inbound) as [port|] eqn:Hp; [|done].
  destruct (probe_listen n _) as [moved|] eqn:Hl; [|done].
  destruct (remap_each (S n) rest) as [[is' ps]|] eqn:Hr; [|done]. simplify_eq/=.
  destruct (IH _ _ _ Hr) as (L1 & L2 & Hk). split; [lia |]. split; [lia |].
  intros [|k] ib Hib; simpl in *.
  - simplify_eq. rewrite Nat.add_0_r. exists moved. do 2 eexists.
    split; [done |]. split; [done |]. split; [done |]. by exists port.
  - rewrite <- Nat.add_succ_comm. by apply Hk.
Qed.

(** a successful remap touches only the [inbounds] key of the config; there is one
    address pair per inbound, in order, whose gate address is the inbound's own host
    and port, whose target is the same host with the probe's port, and the inbound
    itself changes in nothing but its port. *)
Theorem remap_root_spec config root root' pairs inbounds raw :
  unmarshal_root config = Ok root -> root !! "inbounds"%string = Some raw ->
  unmarshal_inbounds raw = Ok inbounds ->
  remap_root config = Ok (root', pairs) ->
  delete "inbounds"%string root' = delete "inbounds"%string root /\
  length pairs = length inbounds /\
  exists inbounds' patched,
    marshal_inbounds inbounds' = Ok patched /\ root' !! "inbounds"%string = Some patched /\
    length inbounds' = length inbounds /\
    forall k inbound, inbounds !! k = Some inbound ->
      exists moved inbound' pair, probe_listen k (inbound_host inbound) = Ok moved /\
        inbounds' !! k = Some inbound' /\ pairs !! k = Some pair /\
        remapped moved inbound inbound' pair.
Proof.
  intros Hu Hr Hi H. unfold remap_root in H. rewrite Hu, Hr, Hi in H.
  destruct inbounds as [|i0 is0]; [done |]. remember (i0 :: is0) as inbounds eqn:E.
  destruct (remap_each 0 inbounds) as [[is' ps]|] eqn:He; [|done].
  destruct (marshal_inbounds is') as [patched|] eqn:Hm; [|done]. simplify_eq.
  destruct (remap_each_spec _ _ _ _ He) as (L1 & L2 & Hk).
  split; [by rewrite delete_insert_eq |]. split; [done |].
  exists is', patched. rewrite lookup_insert_eq. by repeat split.
Qed.

Lemma open_bridges_spec listen pairs bridges listening0 listening :
  listening = list_to_set (ap_gate <$> bridges) ∪ listening0 ->
  list_to_set (ap_gate <$> bridges) ## listening0 ->
  (forall l a, listen l a = Ok tt -> a ∉ l) ->
  match open_bridges listen pairs bridges listening with
  | (Ok bridges', listening') =>
      bridges' = bridges ++ pairs /\
      listening' = list_to_set (ap_gate <$> (bridges ++ pairs)) ∪ listening0
  | (Err _, listening') => listening' = listening0
  end.
Proof.
  revert bridges listening. induction pairs as [|p pairs IH]; intros bridges listening -> Hd Hex; simpl.
  - by rewrite app_nil_r.
  - destruct (listen _ _) as [[]|e] eqn:Hl; [|set_solver].
    apply Hex in Hl.
    specialize (IH (bridges ++ [p]) ({[ap_gate p]} ∪ (list_to_set (ap_gate <$> bridges) ∪ listening0))).
    rewrite fmap_app, list_to_set_app_L in IH. simpl in IH. rewrite <- app_assoc in IH.
    apply IH; set_solver.
Qed.

(** a gate that fails to start leaves no port taken: on every error path the set of
    listening addresses is what it was; on success exactly the gate addresses of the
    bridges were added. An address in use cannot be listened on again. *)
Theorem StartGate_releases_ports check listen config listening :
  (forall l a, listen l a = Ok tt -> a ∉ l) ->
  match StartGate check listen config listening with
  | (Ok (_, bridges), listening') =>
      listening' = list_to_set (ap_gate <$> bridges) ∪ listening
  | (Err _, listening') => listening' = listening
  end.
Proof.
  intros Hex. unfold StartGate. destruct (remapInbounds config) as [[rw pairs]|]; [|done].
  destruct (check rw); [|done].
  pose proof (open_bridges_spec listen pairs [] listening listening) as Hs.
  specialize (Hs ltac:(set_solver) ltac:(set_solver) Hex). simpl in Hs.
  destruct (open_bridges _ _ _ _) as [[bridges|e] l']; [|done]. by destruct Hs as [-> ->].
Qed.
End Remap.

Definition sample_inbound : gmap string json :=
  {["listen"%string := JStr "127.0.0.1"; "port"%string := JNum 1080; "tag"%string := JStr "in"]}.

Definition sample_probe (n : nat) (host : string) : result Z := Ok (40000 + Z.of_nat n).
Definition sample_root (config : string) : result (gmap string string) :=
  Ok {["inbounds"%string := "I"%string; "outbounds"%string := "O"%string]}.
Definition sample_inbounds (raw : string) : result (list (gmap string json)) := Ok [sample_inbound].
Definition sample_marshal (inbounds : list (gmap string json)) : result string :=
  Ok (pretty.pretty (length inbounds)).
Definition sample_marshal_root (root : gmap string string) : result string := Ok "patched"%string.
Definition exclusive_listen (l : gset string) (a : string) : result unit :=
  if decide (a ∈ l) then Err "address already in use" else Ok tt.

Example remap_sample :
  remapInbounds sample_probe sample_root sample_inbounds sample_marshal sample_marshal_root "{}" =
  Ok ("patched"%string, [GateAddrPair "127.0.0.1:1080" "127.0.0.1:40000"]).
Proof. vm_compute. reflexivity. Qed.

Lemma remap_root_spec_witness :
  delete "inbounds"%string
    (<["inbounds"%string := "1"%string]> {["inbounds"%string := "I"%string; "outbounds"%string := "O"%string]} : gmap string string) =
  delete "inbounds"%string {["inbounds"%string := "I"%string; "outbounds"%string := "O"%string]}.
Proof.
  destruct (remap_root_spec sample_probe sample_root sample_inbounds sample_marshal "{}"
    {["inbounds"%string := "I"%string; "outbounds"%string := "O"%string]}
    (<["inbounds"%string := "1"%string]> {["inbounds"%string := "I"%string; "outbounds"%string := "O"%string]})
    [GateAddrPair "127.0.0.1:1080" "127.0.0.1:40000"] [sample_inbound] "I") as [H _].
  - reflexivity.
  - reflexivity.
  - reflexivity.
  - vm_compute. reflexivity.
  - exact H.
Defined.

Lemma StartGate_releases_ports_witness :
  match StartGate sample_probe sample_root sample_inbounds sample_marshal sample_marshal_root
          (fun _ => Ok tt) exclusive_listen "{}" {["127.0.0.1:1080"%string]} with
  | (Ok (_, bridges), listening') =>
      listening' = list_to_set (ap_gate <$> bridges) ∪ {["127.0.0.1:1080"%string]}
  | (Err _, listening') => listening' = {["127.0.0.1:1080"%string]}
  end.
Proof.
  apply (StartGate_releases_ports sample_probe sample_root sample_inbounds sample_marshal
           sample_marshal_root (fun _ => Ok tt) exclusive_listen "{}").
  intros l a. unfold exclusive_listen. case_decide; [done | intros _; done].
Defined.
