(* ===== verification/Relay.v ===== *)
(** * The relaying of a gate's connection: src/internal/xray/gate.go, [handle] and [relay]

    [Gate] counts the relays of a connection that have ended; here are the bytes. A
    connection has two directions, each copied by a goroutine of its own; either peer may
    stop writing while it still reads. *)

From S2P Require Import Prelude.
From S2P Require Gate.

#[local] Open Scope list_scope.

(** Where the goroutine of [relay(dst, src, done)] is: in the read of [io.Copy], in the
    write of a chunk it holds, past [io.Copy], or past the deferred send on [done]. *)
Inductive relay_pc :=
| Reading
| Writing (chunk : list ascii)
| Copied
| Ended.

(** One direction. [s_in]: what has come from [src] and is not read; [s_eof]: the peer of
    [src] has stopped writing; [s_out], [s_shut]: what was written to [dst], and whether
    [CloseWrite] was called on it after that. History: all the peer has sent, and whether a read or
    write failed. *)
Record stream := Stream {
  s_sent : list ascii;
  s_in : list ascii;
  s_eof : bool;
  s_pc : relay_pc;
  s_out : list ascii;
  s_shut : bool;
  s_failed : bool;
}.

Definition new_stream : stream := Stream [] [] false Reading [] false false.

(** The peer of [src]: it sends until it closes its writing side. *)
Definition peer_send (bs : list ascii) (s : stream) : stream :=
  if s_eof s then s
  else Stream (s_sent s ++ bs) (s_in s ++ bs) false (s_pc s) (s_out s) (s_shut s) (s_failed s).
Definition peer_close (s : stream) : stream :=
  Stream (s_sent s) (s_in s) true (s_pc s) (s_out s) (s_shut s) (s_failed s).

(** A read or a write fails, or the connection is closed under it; a write may have passed
    on [n] bytes. [io.Copy] returns and the error is ignored. *)
Definition fail (n : nat) (s : stream) : option stream :=
  match s_pc s with
  | Reading => Some (Stream (s_sent s) (s_in s) (s_eof s) Copied (s_out s) (s_shut s) true)
  | Writing chunk => Some (Stream (s_sent s) (s_in s) (s_eof s) Copied (s_out s ++ take n chunk) (s_shut s) true)
  | Copied | Ended => None
  end.

(** A connection in [handle]: both directions, the tokens in the channel [done], how many
    were received, and whether the deferred calls have closed both ends. *)
Record relayed := Relayed {
  r_up : stream;      (* relay(upstream, conn, done) *)
  r_down : stream;    (* relay(conn, upstream, done) *)
  r_done : nat;
  r_received : nat;
  r_closed : bool;
}.

Definition new_relayed : relayed := Relayed new_stream new_stream 0 0 false.

Inductive direction := Up | Down.

Definition get (d : direction) (r : relayed) : stream := match d with Up => r_up r | Down => r_down r end.
Definition set (d : direction) (s : stream) (r : relayed) : relayed :=
  match d with
  | Up => Relayed s (r_down r) (r_done r) (r_received r) (r_closed r)
  | Down => Relayed (r_up r) s (r_done r) (r_received r) (r_closed r)
  end.

(** One step of [relay] on its direction; [n]: how much more than one byte a read of
    [io.Copy] gets, at most. After [io.Copy], [CloseWrite] on [dst]. [None] where it blocks
    or has returned. *)
Definition relay_stream (n : nat) (s : stream) : option stream :=
  match s_pc s with
  | Reading =>
      match s_in s with
      | [] => if s_eof s then Some (Stream (s_sent s) [] true Copied (s_out s) (s_shut s) (s_failed s)) else None
      | _ :: _ =>
          Some (Stream (s_sent s) (drop (S n) (s_in s)) (s_eof s) (Writing (take (S n) (s_in s))) (s_out s)
                  (s_shut s) (s_failed s))
      end
  | Writing chunk => Some (Stream (s_sent s) (s_in s) (s_eof s) Reading (s_out s ++ chunk) (s_shut s) (s_failed s))
  | Copied => Some (Stream (s_sent s) (s_in s) (s_eof s) Ended (s_out s) true (s_failed s))
  | Ended => None
  end.

Definition ended (s : stream) : nat := match s_pc s with Ended => 1 | _ => 0 end.

(** The same step of the connection: on return the deferred function sends on [done]. *)
Definition relay (d : direction) (n : nat) (r : relayed) : option relayed :=
  match relay_stream n (get d r) with
  | None => None
  | Some s =>
      let r' := set d s r in
      Some (Relayed (r_up r') (r_down r') (r_done r' + ended s) (r_received r') (r_closed r'))
  end.

(** The end of [handle]: two receives from [done], then the deferred closes. *)
Definition handle (r : relayed) : option relayed :=
  if r_closed r then None
  else if (r_received r =? 2)%nat then Some (Relayed (r_up r) (r_down r) (r_done r) (r_received r) true)
  else match r_done r with
       | 0 => None
       | S k => Some (Relayed (r_up r) (r_down r) k (S (r_received r)) false)
       end.

(** What the gate does, and what its peers and the network do. *)
Inductive own_step : relayed -> relayed -> Prop :=
| own_relay d n r r' : relay d n r = Some r' -> own_step r r'
| own_handle r r' : handle r = Some r' -> own_step r r'.

Inductive relay_step : relayed -> relayed -> Prop :=
| rs_own r r' : own_step r r' -> relay_step r r'
| rs_send d bs r : relay_step r (set d (peer_send bs (get d r)) r)
| rs_close d r : relay_step r (set d (peer_close (get d r)) r)
| rs_fail d n s r : fail n (get d r) = Some s -> relay_step r (set d s r).

(** ** The invariant *)

(** The bytes a goroutine holds, and a direction as the queue it stands for: what has been
    passed on, then what is on the way. *)
Definition held (s : stream) : list ascii := match s_pc s with Writing chunk => chunk | _ => [] end.
Definition queue_of (s : stream) : list ascii := s_out s ++ held s ++ s_in s.
(** What was passed on is what was sent: all of it, unless something failed. *)
Definition passed_on (s : stream) : Prop :=
  s_out s `prefix_of` s_sent s /\
  (s_failed s = false -> s_out s = s_sent s /\ s_in s = [] /\ s_eof s = true).

Definition stream_ok (s : stream) : Prop :=
  match s_pc s with
  | Reading | Writing _ => s_failed s = false /\ s_shut s = false /\ queue_of s = s_sent s
  | Copied => s_shut s = false /\ passed_on s
  | Ended => s_shut s = true /\ passed_on s
  end.

Record relayed_ok (r : relayed) : Prop := RelayedOk {
  ok_up : stream_ok (r_up r);
  ok_down : stream_ok (r_down r);
  ok_tokens : (r_done r + r_received r = ended (r_up r) + ended (r_down r))%nat;
  ok_closed : r_closed r = true -> r_received r = 2%nat;
}.

Lemma stream_ok_new : stream_ok new_stream.
Proof. done. Qed.

Lemma stream_ok_send bs s : stream_ok s -> stream_ok (peer_send bs s).
Proof.
  unfold peer_send. destruct (s_eof s) eqn:He; [done|].
  assert (passed_on s -> forall pc sh, passed_on (Stream (s_sent s ++ bs) (s_in s ++ bs) false pc (s_out s) sh (s_failed s))) as Hp.
  { intros [H1 H2] pc sh. split; cbn; [by apply prefix_app_r|]. intros Hf. destruct (H2 Hf) as (_ & _ & ?). congruence. }
  unfold stream_ok, queue_of, held; cbn.
  destruct (s_pc s); [| |by intros [? ?]; split; [|apply Hp] ..];
    intros (H1 & H2 & H3); (split_and!; [done..|]); by rewrite !app_assoc, <- (app_assoc (s_out s)), H3.
Qed.

Lemma stream_ok_close s : stream_ok s -> stream_ok (peer_close s).
Proof.
  unfold stream_ok, queue_of, held, passed_on; cbn.
  destruct (s_pc s); [done | done | |]; intros (H1 & H2 & H3); (split_and!; [done..|]); naive_solver.
Qed.

Lemma stream_ok_fail n s s' : fail n s = Some s' -> stream_ok s -> stream_ok s'.
Proof.
  unfold fail, stream_ok, queue_of, held. destruct (s_pc s) as [|chunk| |]; [| |done|done];
    intros [= <-] (H1 & H2 & H3); cbn; unfold passed_on; cbn; (split_and!; [done | rewrite <- H3 | done]).
  - by apply prefix_app_r.
  - apply prefix_app, prefix_app_r, prefix_take.
Qed.

Lemma get_set d s r : get d (set d s r) = s.
Proof. by destruct d. Qed.

Lemma stream_ok_get d r : relayed_ok r -> stream_ok (get d r).
Proof. intros []; by destruct d. Qed.

Lemma relayed_ok_set d s r :
  relayed_ok r -> stream_ok s -> ended s = ended (get d r) -> relayed_ok (set d s r).
Proof. intros [H1 H2 H3 H4] Hs He. destruct d; split; cbn in *; try done; lia. Qed.

Lemma stream_ok_relay n s s' : relay_stream n s = Some s' -> stream_ok s -> stream_ok s' /\ ended s = 0%nat.
Proof.
  unfold relay_stream, stream_ok, queue_of, held, ended. destruct (s_pc s) as [|chunk| |] eqn:Hp; [| | |done].
  - destruct (s_in s) as [|b rest] eqn:Hin.
    + destruct (s_eof s); [|done]. intros [= <-] (H1 & H2 & H3). cbn in H3. rewrite app_nil_r in H3.
      split; [|done]. split; [done|]. split; cbn; [by rewrite H3 | done].
    + intros [= <-] (H1 & H2 & H3). split; [|done]. cbn [s_pc s_failed s_shut s_out s_in s_sent].
      split_and!; [done | done |]. change (s_out s ++ b :: (take n rest ++ drop n rest) = s_sent s). by rewrite take_drop.
  - intros [= <-] (H1 & H2 & H3). split; [|done]. cbn. split_and!; [done | done |]. by rewrite <- app_assoc.
  - by intros [= <-] (H1 & H2).
Qed.

Lemma relayed_ok_relay d n r r' : relayed_ok r -> relay d n r = Some r' -> relayed_ok r'.
Proof.
  intros Hr. unfold relay. destruct (relay_stream n (get d r)) as [s|] eqn:E; [|done]. intros [= <-].
  destruct (stream_ok_relay n _ s E (stream_ok_get d r Hr)) as [Hs He].
  destruct Hr as [U D T C]. destruct d; split; cbn in *; try done; lia.
Qed.

Lemma relayed_ok_handle r r' : relayed_ok r -> handle r = Some r' -> relayed_ok r'.
Proof.
  unfold handle. intros [H1 H2 H3 H4]. destruct (r_closed r) eqn:Hc; [done|].
  destruct (Nat.eqb_spec (r_received r) 2); [by intros [= <-]|].
  destruct (r_done r) eqn:Hd; [done|]. intros [= <-]. split; cbn; [done | done | lia | done].
Qed.

Lemma relayed_ok_step r r' : relayed_ok r -> relay_step r r' -> relayed_ok r'.
Proof.
  intros Hr Hst. revert Hr. destruct Hst as [r r' [d n r1 r2 E|r1 r2 E]|d bs r|d r|d n s r E]; intros Hr.
  - by eapply relayed_ok_relay.
  - by eapply relayed_ok_handle.
  - apply relayed_ok_set; [done | by apply stream_ok_send, stream_ok_get|].
    unfold peer_send, ended. by destruct (s_eof (get d r)).
  - apply relayed_ok_set; [done | by apply stream_ok_close, stream_ok_get | done].
  - apply relayed_ok_set; [done | by eapply stream_ok_fail, stream_ok_get|].
    unfold fail, ended in *. by destruct (s_pc (get d r)); try done; injection E as <-.
Qed.

Lemma relayed_ok_reachable r : steps relay_step new_relayed r -> relayed_ok r.
Proof.
  intros H. eapply (steps_invariant relay_step relayed_ok); [apply relayed_ok_step | exact H|].
  split; [apply stream_ok_new | apply stream_ok_new | done | done].
Qed.

(** ** What the peers get *)

Lemma passed_on_prefix s : stream_ok s -> s_out s `prefix_of` s_sent s.
Proof.
  unfold stream_ok, queue_of. destruct (s_pc s); [intros (_ & _ & <-); by apply prefix_app_r ..| | ];
    by intros [_ [? _]].
Qed.

(** C28: however reads, writes, failures and the two peers interleave, each peer has been
    passed a prefix of what the other sent; and when [handle] closes the connection both
    relays have ended, so that a peer that stopped writing first has not cut the other
    direction short: in a direction where nothing failed its peer had stopped writing, every
    byte was passed on, and the writing side towards the receiver was closed after them. *)
Theorem relay_delivers_both_directions r :
  steps relay_step new_relayed r ->
  (forall d, s_out (get d r) `prefix_of` s_sent (get d r)) /\
  (r_closed r = true -> forall d, s_pc (get d r) = Ended /\ s_shut (get d r) = true /\
     (s_failed (get d r) = false -> s_eof (get d r) = true /\ s_out (get d r) = s_sent (get d r))).
Proof.
  intros Hr%relayed_ok_reachable. split; [intros d; by apply passed_on_prefix, stream_ok_get|].
  intros Hc d. pose proof (stream_ok_get d r Hr) as Hs.
  destruct Hr as [H1 H2 H3 H4]. specialize (H4 Hc).
  assert (s_pc (get d r) = Ended) as He.
  { unfold ended in H3. destruct d; cbn; destruct (s_pc (r_up r)), (s_pc (r_down r)); first [done | cbn in H3; lia]. }
  split; [done|]. unfold stream_ok in Hs. rewrite He in Hs. destruct Hs as [? [_ Hs]].
  split; [done|]. intros Hf. by destruct (Hs Hf) as (? & _ & ?).
Qed.

(** ** The connection ends *)

Definition work (s : stream) : nat :=
  match s_pc s with
  | Reading => 2 * length (s_in s) + 3
  | Writing _ => 2 * length (s_in s) + 4
  | Copied => 1
  | Ended => 0
  end.

Definition work_left (r : relayed) : nat :=
  work (r_up r) + work (r_down r) + (2 - r_received r) + (if r_closed r then 0 else 1).

Lemma relay_works n s s' : relay_stream n s = Some s' -> (work s' < work s)%nat.
Proof.
  unfold relay_stream, work. destruct (s_pc s) as [|chunk| |]; [| | |done].
  - destruct (s_in s) as [|b rest] eqn:Hi; [destruct (s_eof s); [|done]|]; intros [= <-]; cbn; [|rewrite length_drop]; lia.
  - intros [= <-]. cbn. lia.
  - intros [= <-]. cbn. lia.
Qed.

Lemma own_works r r' : relayed_ok r -> own_step r r' -> (work_left r' < work_left r)%nat.
Proof.
  intros Hr Hs. destruct Hs as [d n r r' E|r r' E]; unfold work_left.
  { unfold relay in E. destruct (relay_stream n (get d r)) as [s|] eqn:Es; [|done]. injection E as <-.
    apply relay_works in Es. destruct d; cbn in *; lia. }
  unfold handle in *. destruct (r_closed r); [done|].
  destruct (Nat.eqb_spec (r_received r) 2); [injection E as <-; cbn; lia|].
  destruct (r_done r) eqn:Hd; [done|]. injection E as <-. cbn.
  destruct Hr as [_ _ Ht _]. unfold ended in Ht. destruct (s_pc (r_up r)), (s_pc (r_down r)); lia.
Qed.

(** A direction that will come to its end: its peer has stopped, or it failed. *)
Definition stopped (s : stream) : Prop := s_eof s = true \/ s_pc s = Copied \/ s_pc s = Ended.

Lemma stopped_relay n s s' : relay_stream n s = Some s' -> stopped s -> stopped s'.
Proof.
  unfold relay_stream, stopped. destruct (s_pc s) as [|chunk| |]; [| | |done].
  - destruct (s_in s); [destruct (s_eof s); [|done]|]; intros [= <-]; cbn; naive_solver.
  - intros [= <-]; cbn; naive_solver.
  - intros [= <-]; cbn; naive_solver.
Qed.

Lemma stopped_own r r' : own_step r r' -> (forall d, stopped (get d r)) -> forall d, stopped (get d r').
Proof.
  intros Hs Hst. destruct Hs as [d n r r' E|r r' E].
  - unfold relay in E. destruct (relay_stream n (get d r)) as [s|] eqn:Es; [|done]. injection E as <-.
    apply stopped_relay in Es; [|apply Hst]. intros d'. specialize (Hst d'). by destruct d, d'.
  - unfold handle in E. destruct (r_closed r); [done|].
    destruct (r_received r =? 2)%nat; [|destruct (r_done r); [done|]]; injection E as <-; intros d; specialize (Hst d); by destruct d.
Qed.

(** Until the connection is closed somebody can step. *)
Lemma own_progress r :
  relayed_ok r -> (forall d, stopped (get d r)) -> r_closed r = false -> exists r', own_step r r'.
Proof.
  intros [_ _ Ht _] Hst Hc.
  assert ((exists d, s_pc (get d r) <> Ended) \/ (forall d, s_pc (get d r) = Ended)) as [[d Hd]|Hall].
  { destruct (s_pc (r_up r)) eqn:Hu; try (left; exists Up; cbn; congruence).
    destruct (s_pc (r_down r)) eqn:Hd; try (left; exists Down; cbn; congruence). right. by intros []. }
  - assert (is_Some (relay d 0 r)) as [r' Hr'].
    { unfold relay, relay_stream. specialize (Hst d). unfold stopped in Hst.
      destruct (s_pc (get d r)) as [|chunk| |]; try done.
      destruct (s_in (get d r)); [|done]. destruct Hst as [->|[?|?]]; done. }
    exists r'. by eapply own_relay.
  - pose proof (Hall Up) as Hu. pose proof (Hall Down) as Hdn. cbn in Hu, Hdn.
    unfold ended in Ht. rewrite Hu, Hdn in Ht.
    assert (is_Some (handle r)) as [r' Hr']; [|exists r'; by eapply own_handle].
    unfold handle. rewrite Hc. destruct (Nat.eqb_spec (r_received r) 2); [done|].
    destruct (r_done r) eqn:E; [lia | done].
Qed.

(** once both peers have stopped writing, or the copying of the other has failed, the
    gate's own steps bring the connection to its end whatever their order: each uses up some
    of a bounded number, they are never stuck before both ends are closed, and a run that
    cannot go on has closed them. *)
Theorem relay_ends r :
  steps relay_step new_relayed r -> (forall d, stopped (get d r)) ->
  (forall r', own_step r r' -> (work_left r' < work_left r)%nat) /\
  (r_closed r = false -> exists r', own_step r r') /\
  exists r', steps own_step r r' /\ r_closed r' = true.
Proof.
  intros Hr%relayed_ok_reachable Hst.
  split; [intros r'; by apply own_works|]. split; [by apply own_progress|].
  remember (work_left r) as n eqn:Hn. revert r Hn Hr Hst.
  induction (lt_wf n) as [n _ IH]. intros r -> Hr Hst.
  destruct (r_closed r) eqn:Hc; [exists r; split; [constructor | done]|].
  destruct (own_progress r Hr Hst Hc) as [r1 H1].
  destruct (IH (work_left r1) (own_works _ _ Hr H1) r1 eq_refl) as (r' & Hs & Hd).
  - eapply relayed_ok_step; [done | by apply rs_own].
  - by eapply stopped_own.
  - exists r'. split; [|done]. by eapply steps_step.
Qed.

(** ** The gate's own view of it *)

Section View.
  Context (xray_create : nat -> result unit) (prepare : option (nat -> result unit)) (xray_start : nat -> result unit).

(** What [Gate] keeps of the connection [c] between instance [i] and upstream connection
    [up], and its steps. *)
Definition gate_view (i up : nat) (r : relayed) : Gate.handler :=
  if r_closed r then Gate.HFinished else Gate.HRelaying i up (ended (r_up r) + ended (r_down r)).

Definition gate_world (c up : nat) (r : relayed) (w : Gate.world) : Gate.world :=
  if r_closed r then Gate.close_conns {[c]} (Gate.close_conns {[up]} w) else w.

Inductive gate_step (c : nat) : Gate.handler * Gate.gate * Gate.world -> Gate.handler * Gate.gate * Gate.world -> Prop :=
| gate_does h g w h' g' w' :
    Gate.handler_step xray_create prepare xray_start c h g w h' g' w' -> gate_step c (h, g, w) (h', g', w').

Lemma ended_relay n s s' : relay_stream n s = Some s' -> ended s = 0%nat /\ (ended s' <= 1)%nat.
Proof.
  unfold relay_stream, ended. destruct (s_pc s) as [|chunk| |]; [| | |done].
  - destruct (s_in s) as [|b rest]; [destruct (s_eof s); [|done]|]; intros [= <-]; cbn; lia.
  - intros [= <-]; cbn; lia.
  - intros [= <-]; cbn; lia.
Qed.

Lemma gate_view_set i up d s r : ended s = ended (get d r) -> gate_view i up (set d s r) = gate_view i up r.
Proof. unfold gate_view. destruct d; cbn; by intros ->. Qed.

(** From the second [done] to the end of [handle]: its deferred calls. *)
Lemma gate_leaves c i up g w :
  exists g', steps (gate_step c) (Gate.HRelaying i up 2, g, w)
    (Gate.HFinished, g', Gate.close_conns {[c]} (Gate.close_conns {[up]} w)).
Proof.
  eexists.
  eapply steps_step; [apply gate_does, Gate.h_forget_upstream|].
  eapply steps_step; [apply gate_does, Gate.h_close_upstream|].
  eapply steps_step; [apply gate_does, Gate.h_leave|].
  eapply steps_step; [apply gate_does, Gate.h_touch_leaving|].
  eapply steps_step; [apply gate_does, Gate.h_forget|].
  apply steps_one, gate_does, Gate.h_close.
Qed.

(** A step of a connection that is not yet closed leaves the gate's view alone, counts a
    relay that has ended, or is the end of [handle]. *)
Lemma view_steps c i up g w r r' :
  relayed_ok r -> relay_step r r' -> r_closed r = false ->
  exists g', steps (gate_step c) (gate_view i up r, g, w) (gate_view i up r', g', gate_world c up r' w).
Proof.
  intros Hr Hst Hc.
  assert (forall r', r_closed r' = false -> gate_view i up r' = gate_view i up r ->
    exists g', steps (gate_step c) (gate_view i up r, g, w) (gate_view i up r', g', gate_world c up r' w)) as Hstut.
  { intros r1 H1 ->. exists g. unfold gate_world. rewrite H1. constructor. }
  destruct Hst as [r r' [d n r1 r2 E|r1 r2 E]|d bs r|d r|d n s r E].
  - unfold relay in E. destruct (relay_stream n (get d r1)) as [s|] eqn:Es; [|done]. injection E as <-.
    destruct (ended_relay n _ s Es) as [H0 H1]. destruct (ended s) as [|[|]] eqn:He; [| |lia].
    + apply Hstut; [by destruct d|]. rewrite <- (gate_view_set i up d s r1); [by destruct d | congruence].
    + exists g. unfold gate_view, gate_world. destruct d; cbn in *; rewrite Hc, H0, He;
        [|rewrite Nat.add_0_r, Nat.add_1_r]; apply steps_one, gate_does, Gate.h_relay_done; unfold ended; destruct (s_pc _); lia.
  - unfold handle in E. rewrite Hc in E. destruct (Nat.eqb_spec (r_received r1) 2) as [H2|].
    + injection E as <-. unfold gate_view, gate_world. cbn. rewrite Hc.
      destruct Hr as [_ _ Ht _]. assert (ended (r_up r1) + ended (r_down r1) = 2)%nat as ->; [|apply gate_leaves].
      unfold ended in *. destruct (s_pc (r_up r1)), (s_pc (r_down r1)); lia.
    + destruct (r_done r1); [done|]. injection E as <-. apply Hstut; [done|]. unfold gate_view; cbn. by rewrite Hc.
  - apply Hstut; [by destruct d|]. apply gate_view_set. unfold peer_send, ended. by destruct (s_eof (get d r)).
  - apply Hstut; [by destruct d|]. by apply gate_view_set.
  - apply Hstut; [by destruct d|]. apply gate_view_set. unfold fail, ended in *.
    by destruct (s_pc (get d r)); try done; injection E as <-.
Qed.

(** a step of a connection's bytes is one its goroutine can make in [Gate], from
    whatever state the rest of the gate is in: none, the count of a relay that has ended, or
    the way out of [handle], which closes both ends. What is proved of a gate's goroutines
    there is then about connections that relay. *)
Theorem relay_refines_gate c i up g w r r' :
  steps relay_step new_relayed r -> relay_step r r' -> r_closed r = false ->
  exists g', steps (gate_step c) (gate_view i up r, g, w) (gate_view i up r', g', gate_world c up r' w).
Proof. intros Hr%relayed_ok_reachable Hst Hc. by apply view_steps. Qed.
End View.

(** ** A request that ends before its answer *)

Definition request : list ascii := ["G"; "E"; "T"]%char.
Definition answer : list ascii := ["2"; "0"; "0"]%char.

(** A run of the gate's own steps: [Some (d, n)] of a relay, [None] of [handle]. *)
Fixpoint run_own (l : list (option (direction * nat))) (r : relayed) : relayed :=
  match l with
  | [] => r
  | a :: l =>
      match (match a with Some (d, n) => relay d n r | None => handle r end) with
      | Some r' => run_own l r'
      | None => r
      end
  end.

Lemma run_own_steps l : forall r, steps relay_step r (run_own l r).
Proof.
  induction l as [|[[d n]|] l IH]; intros r; cbn; [constructor | |].
  - destruct (relay d n r) as [r'|] eqn:E; [|constructor].
    eapply steps_step; [by eapply rs_own, own_relay | apply IH].
  - destruct (handle r) as [r'|] eqn:E; [|constructor].
    eapply steps_step; [by eapply rs_own, own_handle | apply IH].
Qed.

(** The client sends its request and stops writing; that end is passed on; the server
    answers after it and closes. *)
Definition after_request : relayed :=
  let r := set Up (peer_send request (get Up new_relayed)) new_relayed in
  run_own [Some (Up, 2); Some (Up, 0); Some (Up, 0); Some (Up, 0)]%nat (set Up (peer_close (get Up r)) r).
Definition after_answer : relayed :=
  let r := set Down (peer_send answer (get Down after_request)) after_request in
  set Down (peer_close (get Down r)) r.
Definition after_all : relayed :=
  run_own [Some (Down, 0); Some (Down, 0); Some (Down, 1); Some (Down, 1); Some (Down, 1); Some (Down, 1);
           None; None; None]%nat after_answer.

Lemma after_answer_reached : steps relay_step new_relayed after_answer.
Proof.
  eapply steps_step; [apply (rs_send Up request)|]. eapply steps_step; [apply (rs_close Up)|].
  eapply steps_trans; [apply (run_own_steps [Some (Up, 2); Some (Up, 0); Some (Up, 0); Some (Up, 0)]%nat)|].
  eapply steps_step; [apply (rs_send Down answer)|]. apply steps_one, (rs_close Down).
Qed.

Lemma after_all_reached : steps relay_step new_relayed after_all.
Proof. eapply steps_trans; [exact after_answer_reached | apply run_own_steps]. Qed.

(** The answer arrives whole although the request's direction had ended before it. *)
Lemma relay_delivers_both_directions_witness :
  (steps relay_step new_relayed after_all /\ r_closed after_all = true) /\
  s_out (get Down after_all) = answer /\ s_shut (get Up after_request) = true.
Proof.
  split; [split; [exact after_all_reached | reflexivity]|]. split; [|reflexivity].
  destruct (relay_delivers_both_directions after_all after_all_reached) as [_ H].
  destruct (H eq_refl Down) as (_ & _ & Hd). by destruct (Hd eq_refl) as [_ ->].
Defined.

(** The answer's relay ends while the request's has: the gate counts it. *)
Definition before_last : relayed :=
  run_own [Some (Down, 2); Some (Down, 0); Some (Down, 0)]%nat after_answer.

Lemma relay_refines_gate_witness :
  relay_step before_last (run_own [Some (Down, 0)]%nat before_last) /\
  exists g', steps (gate_step (fun _ => Ok tt) None (fun _ => Ok tt) 4)
    (Gate.HRelaying 0 5 1, Gate.MkGate (Some 0%nat) false false true (Some {[4; 5]}%nat) 1 0, Gate.MkWorld {[0]}%nat 1 {[4; 5]}%nat 6 0)
    (Gate.HRelaying 0 5 2, g', Gate.MkWorld {[0]}%nat 1 {[4; 5]}%nat 6 0).
Proof.
  assert (relay_step before_last (run_own [Some (Down, 0)]%nat before_last)) as Hst
    by (apply rs_own, (own_relay Down 0); reflexivity).
  split; [exact Hst|].
  refine (relay_refines_gate (fun _ => Ok tt) None (fun _ => Ok tt) 4 0 5 _ _ before_last _ _ Hst eq_refl).
  eapply steps_trans; [exact after_answer_reached | apply run_own_steps].
Defined.

Lemma relay_ends_witness :
  (steps relay_step new_relayed after_answer /\ forall d, stopped (get d after_answer)) /\
  exists r', steps own_step after_answer r' /\ r_closed r' = true.
Proof.
  assert (forall d, stopped (get d after_answer)) as Hst by (by intros []; left).
  split; [exact (conj after_answer_reached Hst)|].
  exact (proj2 (proj2 (relay_ends after_answer after_answer_reached Hst))).
Defined.
