(* ===== verification/Process.v ===== *)
(** * The extra process: [internal/process/process.go] and [process_unix.go]

    The helper program a profile may ask for, the temporary file its configuration is
    handed over in, and the way a setuid core drops its privileges for it. The file
    system is a map from paths to files; [RemoveAll] removes a path and everything
    below it. *)

From S2P Require Export Prelude GoStr.
Local Open Scope string_scope.
Open Scope Z_scope.

Record file := MkFile { f_content : string; f_mode : Z; f_uid : Z; f_gid : Z; f_dir : bool }.

#[export] Instance file_eq_dec : EqDecision file.
Proof. solve_decision. Defined.

Record os := MkOs {
  o_files : gmap string file;
  o_running : gset nat;        (* the children that have not exited *)
  o_next : nat
}.

Definition set_files (fs : gmap string file) (o : os) : os := MkOs fs (o_running o) (o_next o).

(** [below path name]: [name] is [path] or lies under it. *)
Definition below (path name : string) : bool :=
  String.eqb path name || has_prefix name (path ++ "/").

Definition remove_all (path : string) (o : os) : os :=
  set_files (filter (fun kv => below path kv.1 = false) (o_files o)) o.

(** ** Environments *)

Definition env_name (kv : string) : option string :=
  match cut kv "=" with Some (name, _) => Some name | None => None end.

(** [childEnv]: the parent's variables except the core's own. *)
Definition own_variable (kv : string) : bool :=
  match env_name kv with Some name => has_prefix (to_upper name) "NUNYA" | None => false end.

Definition childEnv (parent : list string) : list string :=
  filter (fun kv => own_variable kv = false) parent.

Record user := MkUser { HomeDir : string; Username : string }.

Definition identity_variable (kv : string) : bool :=
  match env_name kv with
  | Some name => existsb (String.eqb name) ["HOME"; "USER"; "LOGNAME"]
  | None => false
  end.

Section Unix.
  (** The user database, and the ids of the core itself. *)
  Context (LookupId : string -> option user) (GroupIds : user -> option (list string)).
  Context (euid egid ruid rgid : Z).

Definition userEnv (env : list string) (ruid : Z) : list string :=
  match LookupId (itoa ruid) with
  | None => env
  | Some u =>
      filter (fun kv => identity_variable kv = false) env
      ++ ["HOME=" ++ HomeDir u; "USER=" ++ Username u; "LOGNAME=" ++ Username u]
  end.

Definition supplementaryGroups (ruid rgid : Z) : list Z :=
  let fallback := [uint32 rgid] in
  match LookupId (itoa ruid) with
  | None => fallback
  | Some u =>
      match GroupIds u with
      | None => fallback
      | Some ids =>
          match omap (fun id => uint32 <$> atoi id) ids with
          | [] => fallback
          | groups => groups
          end
      end
  end.

(** ** The command and its credential *)

Record credential := MkCredential { c_uid : Z; c_gid : Z; c_groups : list Z }.

Record cmd := MkCmd {
  cmd_path : string;
  cmd_args : list string;
  cmd_noOut : bool;
  cmd_env : list string;
  cmd_credential : option credential
}.

Definition newCmd (environ : list string) (path : string) (args : list string) (noOut : bool) : cmd :=
  MkCmd path args noOut (childEnv environ) None.

Definition applyPrivilegeDrop (c : cmd) : result cmd :=
  if negb (euid =? 0) then Ok c
  else if ruid =? 0 then
    Err "refusing to start extra process as root: no unprivileged user to drop to"
  else
    Ok (MkCmd (cmd_path c) (cmd_args c) (cmd_noOut c) (userEnv (cmd_env c) ruid)
          (Some (MkCredential (uint32 ruid) (uint32 rgid) (supplementaryGroups ruid rgid)))).

(** The uid a command runs with. *)
Definition runs_as (c : cmd) : Z :=
  match cmd_credential c with Some cr => c_uid cr | None => euid end.

  (** [exec.Cmd.Start], and the environment the core was started with. *)
  Context (exec_start : cmd -> result unit) (environ : list string).

(** [startCmd]: a started child is running until it is killed or exits. *)
Definition startCmd (c : cmd) : prog os nat := fun o =>
  match exec_start c with
  | Err e => (Fails e, o)
  | Ok _ => (Returns (o_next o), MkOs (o_files o) ({[o_next o]} ∪ o_running o) (S (o_next o)))
  end.

Definition startChild (path : string) (args : list string) (noOut : bool) : prog os nat :=
  c ← lift_result (applyPrivilegeDrop (newCmd environ path args noOut));
  startCmd c.

Definition kill (run : nat) (o : os) : os := MkOs (o_files o) (o_running o ∖ {[run]}) (o_next o).

(** ** Processes *)

Record Process := MkProcess {
  path : string;
  args : list string;
  noOut : bool;
  cleanupPath : string;
  run : option nat;
  stopped : bool
}.

Definition NewProcess (path : string) (args : list string) (noOut : bool) : Process :=
  MkProcess path args noOut EmptyString None false.

Definition SetCleanupPath (dir : string) (p : Process) : Process :=
  MkProcess (path p) (args p) (noOut p) dir (run p) (stopped p).

Definition cleanup (p : Process) (o : os) : os :=
  if String.eqb (cleanupPath p) EmptyString then o else remove_all (cleanupPath p) o.

(** [Start] returns the process as its fields are afterwards, with its error;
    [start_child] is the platform's [startChild]. *)
Definition Start (start_child : string -> list string -> bool -> prog os nat)
    (p : Process) (o : os) : option string * Process * os :=
  match start_child (path p) (args p) (noOut p) o with
  | (Returns r, o') =>
      (None, MkProcess (path p) (args p) (noOut p) (cleanupPath p) (Some r) false, o')
  | (Fails e, o') | (Panics e, o') => (Some e, p, cleanup p o')
  end.

(** The waiting goroutine, once the child has exited: whether it reports an unexpected
    exit, and the clean-up. *)
Definition on_exit (p : Process) (o : os) : bool * os := (negb (stopped p), cleanup p o).

Definition Stop (p : Process) (o : os) : Process * os :=
  let p' := MkProcess (path p) (args p) (noOut p) (cleanupPath p) (run p) true in
  let o := match run p with Some r => kill r o | None => o end in
  (p', cleanup p' o).

(** ** The configuration file *)

  (** [os.CreateTemp], [os.MkdirTemp] and what can fail on the open file. *)
  Context (CreateTemp : string -> os -> result string) (MkdirTemp : os -> result string).
  Context (dir_opens write_ok chown_ok chmod_ok close_ok : result unit).

Definition put_file (name : string) (f : file) (o : os) : os :=
  set_files (<[name := f]> (o_files o)) o.

Definition update_file (name : string) (f : file -> file) (o : os) : os :=
  set_files (alter f name (o_files o)) o.

Definition chmod (mode : Z) (f : file) : file :=
  MkFile (f_content f) mode (f_uid f) (f_gid f) (f_dir f).
Definition chown (uid gid : Z) (f : file) : file :=
  MkFile (f_content f) (f_mode f) uid gid (f_dir f).
Definition write_content (c : string) (f : file) : file :=
  MkFile c (f_mode f) (f_uid f) (f_gid f) (f_dir f).

(** A file or directory the core makes belongs to its effective user, 0600 or 0700. *)
Definition create_temp (dir : string) : prog os string := fun o =>
  match CreateTemp dir o with
  | Err e => (Fails e, o)
  | Ok name => (Returns name, put_file name (MkFile EmptyString 384 euid egid false) o)
  end.

Definition mkdir_temp : prog os string := fun o =>
  match MkdirTemp o with
  | Err e => (Fails e, o)
  | Ok name => (Returns name, put_file name (MkFile EmptyString 448 euid egid true) o)
  end.

(** [createSecureConfigFile]: the file, and the path to clean up. *)
Definition createSecureConfigFile : prog os (string * string) :=
  if negb (euid =? 0) then f ← create_temp EmptyString; mret (f, f)
  else
    dir ← mkdir_temp;
    _ ← when (is_ok dir_opens) (modify (update_file dir (chmod 457)));
    f ← on_error (create_temp dir) (remove_all dir);
    mret (f, dir).

Definition makeConfigReadable (f : string) : prog os unit :=
  if negb (euid =? 0) then _ ← lift_result chmod_ok; modify (update_file f (chmod 384))
  else if ruid =? 0 then mret tt
  else
    _ ← lift_result chown_ok;
    _ ← modify (update_file f (chown ruid rgid));
    _ ← lift_result chmod_ok;
    modify (update_file f (chmod 384)).

Definition CreateExtraConfig (content : string) : prog os (string * string) :=
  '(f, cleanup_path) ← createSecureConfigFile;
  let fail := remove_all cleanup_path in
  _ ← on_error (_ ← lift_result write_ok; modify (update_file f (write_content content))) fail;
  _ ← on_error (makeConfigReadable f) fail;
  _ ← on_error (lift_result close_ok) fail;
  mret (f, cleanup_path).

(** ** Properties *)

(** [os.CreateTemp] and [os.MkdirTemp] make a path that did not exist, in the
    directory asked for. *)
Definition new_path (name : string) (o : os) : Prop :=
  forall k, is_Some (o_files o !! k) -> below name k = false.
Definition temp_fresh : Prop := forall dir o name,
  CreateTemp dir o = Ok name ->
  new_path name o /\ name <> EmptyString /\ (dir <> EmptyString -> exists base, name = (dir ++ "/" ++ base)%string).
Definition mkdir_fresh : Prop := forall o name, MkdirTemp o = Ok name -> new_path name o /\ name <> EmptyString.

Lemma below_refl s : below s s = true.
Proof. unfold below. by rewrite String.eqb_refl. Qed.

Lemma prefix_app_str s t : has_prefix (s ++ t) s = true.
Proof.
  induction s as [|c s IH]; [done|].
  change (Ascii.eqb c c && has_prefix (s ++ t) s = true). by rewrite Ascii.eqb_refl, IH.
Qed.

Lemma below_child dir base : below dir (dir ++ "/" ++ base) = true.
Proof.
  unfold below. rewrite <- string_app_assoc. rewrite prefix_app_str. apply orb_true_r.
Qed.

Lemma has_prefix_trans s t u :
  has_prefix s t = true -> has_prefix t u = true -> has_prefix s u = true.
Proof.
  intros Hs Ht. rewrite (has_prefix_app _ _ Hs), (has_prefix_app _ _ Ht).
  rewrite string_app_assoc. apply prefix_app_str.
Qed.

Lemma below_trans a b c : below a b = true -> below b c = true -> below a c = true.
Proof.
  unfold below. rewrite !orb_true_iff, !String.eqb_eq.
  intros [-> | Hab] [-> | Hbc]; auto; right; [done..|].
  eapply has_prefix_trans; [exact Hbc|]. rewrite (has_prefix_app _ _ Hab) at 1.
  rewrite string_app_assoc. apply prefix_app_str.
Qed.

Lemma remove_all_frame path o :
  o_running (remove_all path o) = o_running o /\ o_next (remove_all path o) = o_next o.
Proof. done. Qed.

(** Changing only paths below [dir] and then removing [dir] is removing [dir]. *)
Definition same_outside (dir : string) (o1 o2 : os) : Prop :=
  o_running o1 = o_running o2 /\ o_next o1 = o_next o2 /\
  forall k, below dir k = false -> o_files o1 !! k = o_files o2 !! k.

Lemma same_outside_refl dir o : same_outside dir o o.
Proof. done. Qed.

Lemma same_outside_trans dir o1 o2 o3 :
  same_outside dir o1 o2 -> same_outside dir o2 o3 -> same_outside dir o1 o3.
Proof.
  intros (H1 & H2 & H3) (G1 & G2 & G3). split_and!; [congruence .. |].
  intros. rewrite H3, G3; done.
Qed.

Lemma same_outside_update dir f g o :
  below dir f = true -> same_outside dir o (update_file f g o).
Proof.
  intros Hf. split_and!; [done .. |]. intros k Hk. simpl.
  rewrite lookup_alter_ne; [done|]. congruence.
Qed.

Lemma same_outside_put dir f x o :
  below dir f = true -> same_outside dir o (put_file f x o).
Proof.
  intros Hf. split_and!; [done .. |]. intros k Hk. simpl.
  rewrite lookup_insert_ne; [done|]. congruence.
Qed.

Lemma os_eq o1 o2 :
  o_running o1 = o_running o2 -> o_next o1 = o_next o2 -> o_files o1 = o_files o2 -> o1 = o2.
Proof. destruct o1, o2; simpl; congruence. Qed.

Lemma lookup_remove_all dir o k :
  o_files (remove_all dir o) !! k = if below dir k then None else o_files o !! k.
Proof.
  simpl. destruct (below dir k) eqn:E.
  - apply map_lookup_filter_None. right. intros x _. simpl. by rewrite E.
  - destruct (o_files o !! k) eqn:Hk.
    + apply map_lookup_filter_Some. done.
    + apply map_lookup_filter_None. by left.
Qed.

Lemma remove_all_restores dir o o' :
  same_outside dir o o' -> new_path dir o -> remove_all dir o' = o.
Proof.
  intros (H1 & H2 & H3) Hf. apply os_eq; [done .. |].
  apply map_eq. intros k. rewrite lookup_remove_all. destruct (below dir k) eqn:E.
  - destruct (o_files o !! k) eqn:Hk; [|done]. specialize (Hf k). rewrite Hk in Hf.
    by rewrite Hf in E by eauto.
  - by rewrite H3.
Qed.

Lemma identity_not_own u kv :
  kv ∈ ["HOME=" ++ HomeDir u; "USER=" ++ Username u; "LOGNAME=" ++ Username u]%string ->
  own_variable kv = false.
Proof. rewrite !elem_of_cons, elem_of_nil. intros [->|[->|[->|[]]]]; reflexivity. Qed.

Lemma filter_identity_none env :
  filter (fun kv => identity_variable kv = true)
    (filter (fun kv => identity_variable kv = false) env) = [].
Proof.
  induction env as [|kv env IH]; [done|].
  rewrite filter_cons. case_decide as D; [|done]. rewrite filter_cons.
  rewrite decide_False by congruence. done.
Qed.

Lemma create_temp_effect dir o :
  match create_temp dir o with
  | (Returns f, o') =>
      CreateTemp dir o = Ok f /\ o' = put_file f (MkFile EmptyString 384 euid egid false) o
  | (Fails _, o') => o' = o
  | (Panics _, _) => False
  end.
Proof. unfold create_temp. by destruct (CreateTemp dir o). Qed.

(** The path [createSecureConfigFile] returns is new, holds an empty 0600 file of the
    effective user, and everything it changed lies below the path to clean up. *)
Lemma createSecureConfigFile_effect o :
  temp_fresh -> mkdir_fresh ->
  match createSecureConfigFile o with
  | (Returns (f, dir), o') =>
      new_path dir o /\ dir <> EmptyString /\ below dir f = true /\ same_outside dir o o' /\
      o_files o' !! f = Some (MkFile EmptyString 384 euid egid false)
  | (Fails _, o') => o' = o
  | (Panics _, _) => False
  end.
Proof.
  intros Ht Hm. unfold createSecureConfigFile.
  destruct (negb (euid =? 0)); cbn.
  - unfold mbind, prog_bind. pose proof (create_temp_effect EmptyString o) as E.
    destruct (create_temp EmptyString o) as [[f|e|e] o']; try done. destruct E as [Hf ->].
    cbn. destruct (Ht _ _ _ Hf) as (Hfr & Hne & _). split_and!; [done | done | apply below_refl | | ].
    + apply same_outside_put, below_refl.
    + cbn. by simplify_map_eq.
  - unfold mbind, prog_bind, mkdir_temp.
    destruct (MkdirTemp o) as [dir|e] eqn:Hd; [|done]. apply Hm in Hd as [Hd Hne].
    set (o1 := put_file dir (MkFile EmptyString 448 euid egid true) o).
    assert (same_outside dir o o1) as S1 by apply same_outside_put, below_refl.
    assert (exists o2, when (is_ok dir_opens) (modify (update_file dir (chmod 457))) o1 = (Returns tt, o2)
      /\ same_outside dir o1 o2) as (o2 & -> & S2).
    { unfold when. destruct (is_ok dir_opens); eexists; split; [done | | done | done].
      apply same_outside_update, below_refl. }
    unfold on_error. pose proof (create_temp_effect dir o2) as E.
    destruct (create_temp dir o2) as [[f|e|e] o3]; [| |done].
    + destruct E as [Hf ->]. cbn. destruct (Ht _ _ _ Hf) as (Hfr & _ & Hbase).
      destruct Hbase as [base ->].
      { done. }
      split_and!; [done | done | apply below_child | | ].
      * eapply same_outside_trans; [exact S1|]. eapply same_outside_trans; [exact S2|].
        apply same_outside_put, below_child.
      * cbn. by simplify_map_eq.
    + subst o3. apply remove_all_restores; [|done]. by eapply same_outside_trans.
Qed.

(** [makeConfigReadable] changes only the file; a 0600 file of the effective user ends
    as one of the launching user. *)
Lemma makeConfigReadable_effect f x o :
  o_files o !! f = Some x -> f_mode x = 384 -> f_uid x = euid ->
  match makeConfigReadable f o with
  | (Returns _, o') =>
      same_outside f o o' /\
      exists y, o_files o' !! f = Some y /\ f_content y = f_content x /\ f_mode y = 384 /\
        f_uid y = (if euid =? 0 then ruid else euid)
  | (Fails _, o') => same_outside f o o'
  | (Panics _, _) => False
  end.
Proof.
  intros Hx Hm Hu. unfold makeConfigReadable, lift_result, mbind, prog_bind, modify.
  pose proof (below_refl f) as Hb.
  destruct (euid =? 0) eqn:E0; cbn [negb].
  - destruct (ruid =? 0) eqn:R0.
    + cbn. split; [done|]. exists x. split_and!; try done. lia.
    + destruct chown_ok; [|done]. destruct chmod_ok.
      * split.
        { eapply same_outside_trans; apply same_outside_update, Hb. }
        eexists. cbn. rewrite !lookup_alter, !decide_True, Hx by done. done.
      * apply same_outside_update, Hb.
  - destruct chmod_ok; [|done]. split; [apply same_outside_update, Hb|].
    eexists. cbn. rewrite lookup_alter, decide_True, Hx by done. done.
Qed.

(** The configuration file is complete or there is nothing of it: on success it has the
    content, mode 0600 and the launching user as its owner and removing the clean-up
    path restores the file system; on failure the file system is unchanged. *)
Lemma CreateExtraConfig_effect content o :
  temp_fresh -> mkdir_fresh ->
  match CreateExtraConfig content o with
  | (Returns (conf, dir), o') =>
      new_path dir o /\ dir <> EmptyString /\ below dir conf = true /\ remove_all dir o' = o /\
      exists x, o_files o' !! conf = Some x /\ f_content x = content /\ f_mode x = 384 /\
        f_uid x = (if euid =? 0 then ruid else euid)
  | (Fails _, o') => o' = o
  | (Panics _, _) => False
  end.
Proof.
  intros Ht Hm. unfold CreateExtraConfig, mbind, prog_bind.
  pose proof (createSecureConfigFile_effect o Ht Hm) as E.
  destruct (createSecureConfigFile o) as [[[f dir]|e|e] o1]; try done.
  destruct E as (Hfr & Hne & Hb & S1 & Hf).
  assert (forall o', same_outside f o1 o' -> same_outside dir o o') as Hsub.
  { intros o' (H1 & H2 & H3). eapply same_outside_trans; [exact S1|].
    split_and!; [done .. |]. intros k Hk. apply H3.
    destruct (below f k) eqn:Hfk; [|done]. by rewrite (below_trans dir f k) in Hk. }
  unfold on_error, lift_result, modify. destruct write_ok as [u|e]; cbn.
  2: { by apply remove_all_restores. }
  set (o2 := update_file f (write_content content) o1).
  assert (o_files o2 !! f = Some (MkFile content 384 euid egid false)) as Hf2.
  { cbn. by rewrite lookup_alter, decide_True, Hf by done. }
  assert (same_outside f o1 o2) as S2 by apply same_outside_update, below_refl.
  pose proof (makeConfigReadable_effect f _ o2 Hf2 eq_refl eq_refl) as E.
  destruct (makeConfigReadable f o2) as [[u2|e|e] o3]; [| |done].
  - destruct E as (S3 & y & Hy & Hc & Hmo & Ho).
    assert (same_outside f o1 o3) as S13 by by eapply same_outside_trans.
    destruct close_ok; cbn.
    + split_and!; [done | done | done | apply remove_all_restores; auto |]. by exists y.
    + apply remove_all_restores; auto.
  - apply remove_all_restores; [|done]. apply Hsub. by eapply same_outside_trans.
Qed.

(** C23: The configuration file is complete or there is nothing of it: on success it has
    the content, mode 0600 and the launching user as its owner, and removing the
    clean-up path restores the file system; on failure the file system is unchanged. *)
Theorem CreateExtraConfig_exact content o :
  temp_fresh -> mkdir_fresh ->
  match CreateExtraConfig content o with
  | (Returns (conf, dir), o') =>
      remove_all dir o' = o /\
      exists x, o_files o' !! conf = Some x /\ f_content x = content /\ f_mode x = 384 /\
        f_uid x = (if euid =? 0 then ruid else euid)
  | (Fails _, o') => o' = o
  | (Panics _, _) => False
  end.
Proof.
  intros Ht Hm. pose proof (CreateExtraConfig_effect content o Ht Hm) as E.
  destruct (CreateExtraConfig content o) as [[[conf dir]|e|e] o']; [|done|done].
  by destruct E as (_ & _ & _ & ? & ?).
Qed.

(** C18: The extra process never runs as root when the core is setuid: the command is
    refused, or runs as the launching user with at least one group and, when that user
    is known, with exactly its own HOME, USER and LOGNAME; and no variable of the core
    itself reaches the child in either case. *)
Theorem extra_process_unprivileged path args noOut c :
  0 <= ruid < 2 ^ 32 ->
  applyPrivilegeDrop (newCmd environ path args noOut) = Ok c ->
  (forall kv, kv ∈ cmd_env c -> own_variable kv = false) /\
  runs_as c = (if euid =? 0 then ruid else euid) /\ runs_as c <> 0 /\
  (euid = 0 ->
    (exists cr, cmd_credential c = Some cr /\ c_groups cr <> []) /\
    forall u, LookupId (itoa ruid) = Some u ->
      filter (fun kv => identity_variable kv = true) (cmd_env c) =
      ["HOME=" ++ HomeDir u; "USER=" ++ Username u; "LOGNAME=" ++ Username u]%string).
Proof.
  intros Hr. unfold applyPrivilegeDrop, newCmd.
  assert (forall kv, kv ∈ childEnv environ -> own_variable kv = false) as Hown.
  { intros kv [H _]%list_elem_of_filter. done. }
  destruct (euid =? 0) eqn:E0; cbn [negb].
  - destruct (ruid =? 0) eqn:R0; [done|]. intros [= <-]. cbn [cmd_env cmd_credential runs_as c_uid].
    rewrite wrap_unsigned_small by lia.
    split_and!; [ | done | lia | intros _; split].
    + intros kv. unfold userEnv. destruct (LookupId (itoa ruid)) as [u|]; [|by apply Hown].
      intros [[_ ?]%list_elem_of_filter | Hkv]%elem_of_app; [by apply Hown|].
      by apply identity_not_own with u.
    + eexists. split; [done|]. cbn [c_groups]. unfold supplementaryGroups.
      by repeat case_match.
    + intros u Hu. unfold userEnv. rewrite Hu. rewrite filter_app. 
      rewrite (filter_identity_none (childEnv environ)). done.
  - intros [= <-]. cbn [cmd_env cmd_credential runs_as]. split_and!; [done | done | lia | lia].
Qed.

Definition os_ok (o : os) : Prop := forall r, r ∈ o_running o -> (r < o_next o)%nat.

Lemma startChild_effect path args noOut o :
  match startChild path args noOut o with
  | (Returns r, o') =>
      r = o_next o /\ o' = MkOs (o_files o) ({[o_next o]} ∪ o_running o) (S (o_next o))
  | (Fails _, o') => o' = o
  | (Panics _, _) => False
  end.
Proof.
  unfold startChild, lift_result, mbind, prog_bind, startCmd.
  destruct (applyPrivilegeDrop _) as [c|e]; [|done]. by destruct (exec_start c).
Qed.

Lemma same_outside_running dir o o' run next :
  same_outside dir o o' -> same_outside dir (MkOs (o_files o) run next) (MkOs (o_files o') run next).
Proof. by intros (_ & _ & ?). Qed.

Lemma cleanup_remove_all p o : cleanupPath p <> EmptyString -> cleanup p o = remove_all (cleanupPath p) o.
Proof. intros H. unfold cleanup. destruct (String.eqb_spec (cleanupPath p) EmptyString); done. Qed.

Lemma remove_all_idem dir o : remove_all dir (remove_all dir o) = remove_all dir o.
Proof.
  apply os_eq; [done ..|]. apply map_eq. intros k. rewrite !lookup_remove_all.
  by destruct (below dir k).
Qed.

End Unix.

(** ** The interface to the rest of the core

    What a profile start relies on, whichever platform it runs on. *)

Class Platform := {
  start_child : string -> list string -> bool -> prog os nat;
  create_extra_config : string -> prog os (string * string);
  start_child_law path args noOut o :
    match start_child path args noOut o with
    | (Returns r, o') =>
        r = o_next o /\ o' = MkOs (o_files o) ({[o_next o]} ∪ o_running o) (S (o_next o))
    | (Fails _, o') => o' = o
    | (Panics _, _) => False
    end;
  create_extra_config_law content o :
    match create_extra_config content o with
    | (Returns (_, dir), o') => dir <> EmptyString /\ remove_all dir o' = o
    | (Fails _, o') => o' = o
    | (Panics _, _) => False
    end
}.

Section Lifecycle.
  Context `{Platform}.

Lemma process_start_fails p o e p' o' :
  Start start_child p o = (Some e, p', o') -> p' = p /\ o' = cleanup p o.
Proof.
  unfold Start. pose proof (start_child_law (path p) (args p) (noOut p) o) as L.
  destruct (start_child _ _ _ o) as [[r|e'|e'] o1]; [done | | done]. subst o1. by intros [= <- <- <-].
Qed.

Lemma process_start_ok p o p' o' :
  Start start_child p o = (None, p', o') ->
  p' = MkProcess (path p) (args p) (noOut p) (cleanupPath p) (Some (o_next o)) false /\
  o' = MkOs (o_files o) ({[o_next o]} ∪ o_running o) (S (o_next o)).
Proof.
  unfold Start. pose proof (start_child_law (path p) (args p) (noOut p) o) as L.
  destruct (start_child _ _ _ o) as [[r|e'|e'] o1]; [|done | done].
  destruct L as [-> ->]. by intros [= <- <-].
Qed.

Lemma kill_started o next :
  os_ok o -> next = o_next o -> ({[next]} ∪ o_running o) ∖ {[next]} = o_running o.
Proof.
  intros Hok ->. apply leibniz_equiv. intros x.
  rewrite elem_of_difference, elem_of_union, elem_of_singleton. split; [tauto|].
  intros Hx. split; [by right|]. apply Hok in Hx. lia.
Qed.

(** C24: A process takes its configuration file with it: when the child cannot be started
    the file system is as before the file was made, and when it is stopped, or exits by
    itself, so are the files, and stopping it also ends the child; the exit that follows
    a [Stop] changes nothing more and is not reported as unexpected. *)
Theorem process_leaves_nothing content path args noOut o conf dir o1 :
  os_ok o ->
  create_extra_config content o = (Returns (conf, dir), o1) ->
  let '(err, p, o2) := Start start_child (SetCleanupPath dir (NewProcess path args noOut)) o1 in
  match err with
  | Some _ => o2 = o
  | None =>
      let '(p', o3) := Stop p o2 in
      o_files o3 = o_files o /\ o_running o3 = o_running o /\
      on_exit p' o3 = (false, o3) /\
      exists o4, on_exit p o2 = (true, o4) /\ o_files o4 = o_files o
  end.
Proof.
  intros Hok HC. pose proof (create_extra_config_law content o) as E.
  rewrite HC in E. destruct E as (Hne & Hrm).
  destruct (Start start_child _ o1) as [[[e|] p] o2] eqn:HS.
  - apply process_start_fails in HS as [_ ->]. by rewrite cleanup_remove_all.
  - apply process_start_ok in HS as [-> ->].
    assert (o_files (remove_all dir o1) = o_files o) as Hfs by by rewrite Hrm.
    assert (o_running o1 = o_running o /\ o_next o1 = o_next o) as [Hr Hn]
      by (by rewrite <- Hrm).
    unfold Stop. cbn [run kill]. unfold on_exit. rewrite !cleanup_remove_all by done.
    cbn [cleanupPath stopped negb]. split_and!.
    + exact Hfs.
    + cbn. rewrite Hr, Hn. by apply kill_started.
    + by rewrite remove_all_idem.
    + eexists. split; [done|]. exact Hfs.
Qed.
End Lifecycle.

(** Unix implements the interface, when the temporary names are new. *)
Section UnixPlatform.
  Context (LookupId : string -> option user) (GroupIds : user -> option (list string)).
  Context (euid egid ruid rgid : Z) (exec_start : cmd -> result unit) (environ : list string).
  Context (CreateTemp : string -> os -> result string) (MkdirTemp : os -> result string).
  Context (dir_opens write_ok chown_ok chmod_ok close_ok : result unit).
  Context (Ht : temp_fresh CreateTemp) (Hm : mkdir_fresh MkdirTemp).

Lemma unix_config_law content o :
  match CreateExtraConfig euid egid ruid rgid CreateTemp MkdirTemp dir_opens write_ok chown_ok
          chmod_ok close_ok content o with
  | (Returns (_, dir), o') => dir <> EmptyString /\ remove_all dir o' = o
  | (Fails _, o') => o' = o
  | (Panics _, _) => False
  end.
Proof.
  pose proof (CreateExtraConfig_effect euid egid ruid rgid CreateTemp MkdirTemp dir_opens write_ok
    chown_ok chmod_ok close_ok content o Ht Hm) as E.
  destruct (CreateExtraConfig _ _ _ _ _ _ _ _ _ _ _ _ _) as [[[? dir]|e|e] o']; [|done|done].
  by destruct E as (_ & ? & _ & ? & _).
Qed.

#[export] Instance unix_platform : Platform := {
  start_child := startChild LookupId GroupIds euid ruid rgid exec_start environ;
  create_extra_config := CreateExtraConfig euid egid ruid rgid CreateTemp MkdirTemp dir_opens
    write_ok chown_ok chmod_ok close_ok;
  start_child_law := startChild_effect LookupId GroupIds euid ruid rgid exec_start environ;
  create_extra_config_law := unix_config_law
}.
End UnixPlatform.

(** ** A concrete system *)

Module Sample.
(** Temporary names that are taken are refused. *)
Definition new_name (name : string) (o : os) : result string :=
  if forallb (fun kv => negb (below name kv.1)) (map_to_list (o_files o)) then Ok name
  else Err "file exists".

Definition CreateTemp (dir : string) (o : os) : result string :=
  new_name (if String.eqb dir EmptyString then "/home/u/tmp/nunya-extra-1.conf" else dir ++ "/" ++ "extra-1.conf") o.
Definition MkdirTemp (o : os) : result string := new_name "/tmp/nunya-extra-7" o.

Definition LookupId (id : string) : option user :=
  if String.eqb id "1000" then Some (MkUser "/home/u" "u") else None.
Definition GroupIds (u : user) : option (list string) := Some ["1000"; "27"].
Definition exec_start (c : cmd) : result unit := Ok tt.
Definition environ : list string := ["PATH=/bin"; "NUNYA_CORE_SOCKET=/s"; "HOME=/root"].
Definition system : os := MkOs {[ "/etc/passwd" := MkFile "root" 420 0 0 false ]} ∅ 0.
End Sample.

Lemma new_name_fresh name o r : Sample.new_name name o = Ok r -> r = name /\ new_path r o.
Proof.
  unfold Sample.new_name. destruct (forallb _ _) eqn:E; [|done]. intros [= <-]. split; [done|].
  intros k [x Hx]. rewrite forallb_forall in E.
  specialize (E (k, x)). rewrite <- list_elem_of_In, elem_of_map_to_list in E.
  apply E in Hx. cbn in Hx. by destruct (below name k).
Qed.

Lemma sample_temp_fresh : temp_fresh Sample.CreateTemp.
Proof.
  intros dir o name [-> Hf]%new_name_fresh. split; [done|].
  destruct (String.eqb_spec dir EmptyString); split; try done; [by destruct dir|]. intros Hd.
  destruct (String.eqb_spec dir EmptyString); [done|]. by eexists.
Qed.

Lemma sample_mkdir_fresh : mkdir_fresh Sample.MkdirTemp.
Proof. by intros o name [-> Hf]%new_name_fresh. Qed.

Lemma CreateExtraConfig_exact_witness :
  match CreateExtraConfig 0 0 1000 1000 Sample.CreateTemp Sample.MkdirTemp (Ok tt) (Ok tt) (Ok tt)
          (Ok tt) (Ok tt) "secret" Sample.system with
  | (Returns (conf, dir), o') =>
      remove_all dir o' = Sample.system /\
      exists x, o_files o' !! conf = Some x /\ f_content x = "secret" /\ f_mode x = 384 /\
        f_uid x = 1000
  | _ => False
  end.
Proof.
  pose proof (CreateExtraConfig_exact 0 0 1000 1000 Sample.CreateTemp Sample.MkdirTemp (Ok tt)
    (Ok tt) (Ok tt) (Ok tt) (Ok tt) "secret" Sample.system sample_temp_fresh sample_mkdir_fresh) as H.
  exact H.
Defined.

Lemma extra_process_unprivileged_witness :
  exists c, applyPrivilegeDrop Sample.LookupId Sample.GroupIds 0 1000 1000
    (newCmd Sample.environ "/opt/extra" [] true) = Ok c /\
  cmd_env c = ["PATH=/bin"; "HOME=/home/u"; "USER=u"; "LOGNAME=u"] /\
  runs_as 0 c = 1000.
Proof.
  eexists. split; [reflexivity|]. split; [reflexivity|].
  apply (extra_process_unprivileged Sample.LookupId Sample.GroupIds 0 1000 1000 Sample.environ
    "/opt/extra" [] true); [lia | reflexivity].
Defined.

Definition sample_config : outcome (string * string) * os :=
  CreateExtraConfig 0 0 1000 1000 Sample.CreateTemp Sample.MkdirTemp (Ok tt) (Ok tt) (Ok tt)
    (Ok tt) (Ok tt) "secret" Sample.system.

Lemma sample_config_eq :
  sample_config = (Returns ("/tmp/nunya-extra-7/extra-1.conf", "/tmp/nunya-extra-7"), snd sample_config).
Proof. vm_compute. reflexivity. Qed.

Definition sample_platform : Platform :=
  unix_platform Sample.LookupId Sample.GroupIds 0 0 1000 1000 Sample.exec_start Sample.environ
    Sample.CreateTemp Sample.MkdirTemp (Ok tt) (Ok tt) (Ok tt) (Ok tt) (Ok tt)
    sample_temp_fresh sample_mkdir_fresh.

Lemma process_leaves_nothing_witness :
  let '(err, p, o2) := Start (@start_child sample_platform)
    (SetCleanupPath "/tmp/nunya-extra-7" (NewProcess "/opt/extra" [] true))
    (snd sample_config) in
  match err with
  | Some _ => False
  | None =>
      let '(p', o3) := Stop p o2 in
      o_files o3 = o_files Sample.system /\ o_running o3 = o_running Sample.system /\
      on_exit p' o3 = (false, o3) /\
      exists o4, on_exit p o2 = (true, o4) /\ o_files o4 = o_files Sample.system
  end.
Proof.
  exact (@process_leaves_nothing sample_platform "secret" "/opt/extra" [] true Sample.system
    "/tmp/nunya-extra-7/extra-1.conf" "/tmp/nunya-extra-7" _
    ltac:(intros r Hr; apply elem_of_empty in Hr; destruct Hr) sample_config_eq).
Defined.
