(* ===== verification/Lifecycle.v ===== *)
(** * Starting and stopping a profile: [internal/rpc/lifecycle.go], [state.go],
    [xray.go] and [egress.go]

    The instance pointers of [state.go] are the fields of [core]; what the handlers open
    (boxes, Xray instances, gates, the extra process) is counted in pools, so that a
    resource nobody points at any more stays visible as a live one. *)

From S2P Require Export Prelude GoStr GoNet.
From S2P Require Import Process.
Local Open Scope string_scope.
Open Scope Z_scope.

(** ** State *)

Record core := MkCore {
  boxInstance : option nat;
  instanceCancel : option nat;          (* the cancel function of that box *)
  xrayInstance : option nat;
  xrayGate : option nat;
  xrayFullGates : list nat;
  extraProcess : option Process;
  needUnsetDNS : bool;
  autoRedirectMark : Z;
  c_os : os;
  c_boxes : pool;
  c_instances : pool;
  c_gates : pool;
  c_holders : gmap nat (option nat);    (* the box each [boxContextHolder] has *)
  c_egress : gmap nat (string * Z);     (* [SetEgress] of each instance *)
  c_dns : gmap nat (nat * string);      (* [SetOutboundDNS]: holder and strategy *)
  c_system_dns : string
}.

Definition setBoxInstance (box cancel : option nat) (c : core) : core :=
  MkCore box cancel (xrayInstance c) (xrayGate c) (xrayFullGates c) (extraProcess c)
    (needUnsetDNS c) (autoRedirectMark c) (c_os c) (c_boxes c) (c_instances c) (c_gates c)
    (c_holders c) (c_egress c) (c_dns c) (c_system_dns c).

Definition setXray (instance gate : option nat) (c : core) : core :=
  MkCore (boxInstance c) (instanceCancel c) instance gate (xrayFullGates c) (extraProcess c)
    (needUnsetDNS c) (autoRedirectMark c) (c_os c) (c_boxes c) (c_instances c) (c_gates c)
    (c_holders c) (c_egress c) (c_dns c) (c_system_dns c).

Definition setXrayFullGates (gates : list nat) (c : core) : core :=
  MkCore (boxInstance c) (instanceCancel c) (xrayInstance c) (xrayGate c) gates (extraProcess c)
    (needUnsetDNS c) (autoRedirectMark c) (c_os c) (c_boxes c) (c_instances c) (c_gates c)
    (c_holders c) (c_egress c) (c_dns c) (c_system_dns c).

Definition set_process (p : option Process) (o : os) (c : core) : core :=
  MkCore (boxInstance c) (instanceCancel c) (xrayInstance c) (xrayGate c) (xrayFullGates c) p
    (needUnsetDNS c) (autoRedirectMark c) o (c_boxes c) (c_instances c) (c_gates c)
    (c_holders c) (c_egress c) (c_dns c) (c_system_dns c).

(** [autoRedirectMark.Store]. *)
Definition store_mark (mark : Z) (c : core) : core :=
  MkCore (boxInstance c) (instanceCancel c) (xrayInstance c) (xrayGate c) (xrayFullGates c)
    (extraProcess c) (needUnsetDNS c) mark (c_os c) (c_boxes c) (c_instances c) (c_gates c)
    (c_holders c) (c_egress c) (c_dns c) (c_system_dns c).

Definition set_pools (boxes instances gates : pool) (c : core) : core :=
  MkCore (boxInstance c) (instanceCancel c) (xrayInstance c) (xrayGate c) (xrayFullGates c)
    (extraProcess c) (needUnsetDNS c) (autoRedirectMark c) (c_os c) boxes instances gates
    (c_holders c) (c_egress c) (c_dns c) (c_system_dns c).

Definition set_dns (need : bool) (servers : string) (c : core) : core :=
  MkCore (boxInstance c) (instanceCancel c) (xrayInstance c) (xrayGate c) (xrayFullGates c)
    (extraProcess c) need (autoRedirectMark c) (c_os c) (c_boxes c) (c_instances c) (c_gates c)
    (c_holders c) (c_egress c) (c_dns c) servers.

Definition set_settings (holders : gmap nat (option nat)) (egress : gmap nat (string * Z))
    (dns : gmap nat (nat * string)) (c : core) : core :=
  MkCore (boxInstance c) (instanceCancel c) (xrayInstance c) (xrayGate c) (xrayFullGates c)
    (extraProcess c) (needUnsetDNS c) (autoRedirectMark c) (c_os c) (c_boxes c) (c_instances c)
    (c_gates c) holders egress dns (c_system_dns c).

Definition on_boxes (f : pool -> pool) (c : core) : core :=
  set_pools (f (c_boxes c)) (c_instances c) (c_gates c) c.
Definition on_instances (f : pool -> pool) (c : core) : core :=
  set_pools (c_boxes c) (f (c_instances c)) (c_gates c) c.
Definition on_gates (f : pool -> pool) (c : core) : core :=
  set_pools (c_boxes c) (c_instances c) (f (c_gates c)) c.

(** ** The auto-redirect mark of a config *)

Record inbound := MkInbound { i_type : string; i_auto_redirect : bool; i_mark : Z }.

Section Mark.
  (** [encoding/json] on the config and on one of its inbounds, and sing-tun's default. *)
  Context {raw : Type} (parse_inbounds : string -> option (list raw))
          (parse_inbound : raw -> option inbound) (DefaultAutoRedirectOutputMark : Z).

Fixpoint redirect_mark (inbounds : list raw) : Z :=
  match inbounds with
  | [] => 0
  | r :: inbounds =>
      match parse_inbound r with
      | None => redirect_mark inbounds
      | Some i =>
          if negb (String.eqb (i_type i) "tun") || negb (i_auto_redirect i) then redirect_mark inbounds
          else if negb (i_mark i =? 0) then uint32 (i_mark i)
          else DefaultAutoRedirectOutputMark
      end
  end.

Definition configAutoRedirectMark (coreConfig : string) : Z :=
  match parse_inbounds coreConfig with
  | None => 0
  | Some inbounds => redirect_mark inbounds
  end.

Definition autoRedirectMarkFor (goos coreConfig : string) : Z :=
  if negb (String.eqb goos "linux") then 0 else configAutoRedirectMark coreConfig.

(** The inbound a mark is taken from. *)
Definition redirecting (r : raw) : option inbound :=
  match parse_inbound r with
  | Some i => if String.eqb (i_type i) "tun" && i_auto_redirect i then Some i else None
  | None => None
  end.

Lemma redirect_mark_first inbounds :
  redirect_mark inbounds =
  match omap redirecting inbounds with
  | [] => 0
  | i :: _ => if i_mark i =? 0 then DefaultAutoRedirectOutputMark else uint32 (i_mark i)
  end.
Proof.
  induction inbounds as [|r inbounds IH]; [done|]. cbn [redirect_mark omap list_omap].
  unfold redirecting at 1. destruct (parse_inbound r) as [i|]; [|done].
  destruct (String.eqb (i_type i) "tun"), (i_auto_redirect i); cbn; try done.
  by destruct (i_mark i =? 0).
Qed.
End Mark.

(** ** Requests *)

Record LoadConfigReq := MkLoadConfigReq {
  CoreConfig : option string;
  NeedXray : option bool;
  XrayConfig : option string;
  XrayLazyStart : option bool;
  XrayOutboundDnsStrategy : option string;
  XrayFullConfigs : list string;
  NeedExtraProcess : option bool;
  ExtraProcessPath : option string;
  ExtraProcessArgs : option string;
  ExtraProcessConf : option string;
  ExtraNoOut : option bool;
  TunIpv4Cidr : option string
}.

(** [in.GetX()]: the zero value for an absent field. *)
Definition get_string (f : option string) : string := default EmptyString f.
Definition get_bool (f : option bool) : bool := default false f.

(** ** The fan-out of [startXrayFullGates]

    The first gate starts alone; the others start concurrently, in the order the
    scheduler lets their goroutines run. *)

Section FanOut.
  Context (gate_Start : string -> result unit) (schedule : list string -> list nat).

Definition start_gate (cfg : string) (p : pool) : result nat * pool :=
  match gate_Start cfg with
  | Err e => (Err e, p)
  | Ok _ => (Ok (p_next p), alloc p)
  end.

(** The slices the goroutines write, each at its own index. *)
Record slots := MkSlots { s_gates : list (option nat); s_errs : list (option string) }.

Definition start_at (configs : list string) (acc : slots * pool) (i : nat) : slots * pool :=
  let '(s, p) := acc in
  match configs !! i with
  | None => acc
  | Some cfg =>
      match start_gate cfg p with
      | (Ok g, p) => (MkSlots (<[i := Some g]> (s_gates s)) (s_errs s), p)
      | (Err e, p) => (MkSlots (s_gates s) (<[i := Some e]> (s_errs s)), p)
      end
  end.

Definition startXrayFullGates (configs : list string) (p : pool) : result (list nat) * pool :=
  match configs with
  | [] => (Ok [], p)
  | cfg :: _ =>
      match start_gate cfg p with
      | (Err e, p) => (Err e, p)
      | (Ok g0, p) =>
          let n := length configs in
          let s0 := MkSlots (<[0%nat := Some g0]> (replicate n None)) (replicate n None) in
          let '(s, p) := foldl (start_at configs) (s0, p) (schedule configs) in
          match omap id (s_errs s) with
          | e :: _ => (Err e, release_all (omap id (s_gates s)) p)
          | [] => (Ok (omap id (s_gates s)), p)
          end
      end
  end.


Definition config_error (cfg : string) : option string := result_error (gate_Start cfg).

(** After the configs at [ran] have run: each slot says how its own config fared, and
    the live gates are the ones of before and the ones in the slots. *)
Definition slots_ok (configs : list string) (p0 : pool) (ran : list nat) (s : slots) (p : pool) : Prop :=
  length (s_gates s) = length configs /\ length (s_errs s) = length configs /\
  (p_next p0 <= p_next p)%nat /\
  (forall x, x ∈ p_live p <-> x ∈ p_live p0 \/ exists i, s_gates s !! i = Some (Some x)) /\
  (forall i x, s_gates s !! i = Some (Some x) -> (p_next p0 <= x < p_next p)%nat) /\
  (forall i cfg, configs !! i = Some cfg ->
    s_errs s !! i = Some (if decide (i ∈ ran) then config_error cfg else None) /\
    exists og, s_gates s !! i = Some og /\
      (is_Some og <-> i ∈ ran /\ gate_Start cfg = Ok tt)).

Lemma slots_ok_step configs p0 ran s p i :
  slots_ok configs p0 ran s p -> i ∉ ran ->
  let '(s', p') := start_at configs (s, p) i in
  slots_ok configs p0 (i :: ran) s' p'.
Proof.
  intros (Hl1 & Hl2 & Hn & Hlive & Hrange & Hslot) Hi. unfold start_at, start_gate.
  destruct (configs !! i) as [cfg|] eqn:Hc.
  2: { split_and!; try done. intros j cfg Hj. destruct (Hslot j cfg Hj) as [He Hg].
       assert (j <> i) by congruence. split.
       - rewrite He. f_equal. apply decide_ext. set_solver.
       - destruct Hg as (og & Hog & Hiff). exists og. split; [done|]. rewrite Hiff. set_solver. }
  assert (i < length configs)%nat as Hlt by (by eapply lookup_lt_Some).
  destruct (Hslot i cfg Hc) as [Hei (og & Hgi & Hog)].
  assert (og = None) as ->.
  { destruct og; [|done]. destruct Hog as [Hog _]. destruct Hog; [eauto|]. done. }
  destruct (gate_Start cfg) as [[]|e] eqn:HS; split_and!; cbn; rewrite ?length_insert; try done.
  - lia.
  - intros x. rewrite elem_of_union, elem_of_singleton, Hlive. split.
    + intros [-> | [|[j Hj]]]; [right; exists i; apply list_lookup_insert_eq; lia | by left |].
      right. exists j. rewrite list_lookup_insert_ne; [done|]. congruence.
    + intros [|[j Hj]]; [by right; left|]. destruct (decide (i = j)) as [->|Hne].
      * rewrite list_lookup_insert_eq in Hj by lia. left. congruence.
      * rewrite list_lookup_insert_ne in Hj by done. right; right. eauto.
  - intros j x. destruct (decide (i = j)) as [->|Hne].
    + rewrite list_lookup_insert_eq by lia. intros [= <-]. lia.
    + rewrite list_lookup_insert_ne by done. intros Hx%Hrange. lia.
  - intros j cfg' Hj. destruct (Hslot j cfg' Hj) as [Hej (og & Hgj & Hiff)].
    destruct (decide (i = j)) as [->|Hne].
    + rewrite Hc in Hj. simplify_eq. rewrite decide_True by set_solver. split.
      * rewrite Hei. rewrite decide_False by done. unfold config_error. by rewrite HS.
      * eexists. rewrite list_lookup_insert_eq by lia. split; [done|]. split; [set_solver|eauto].
    + rewrite list_lookup_insert_ne by done. split.
      * rewrite Hej. f_equal. apply decide_ext. set_solver.
      * exists og. split; [done|]. rewrite Hiff. set_solver.
  - intros j cfg' Hj. destruct (Hslot j cfg' Hj) as [Hej (og & Hgj & Hiff)].
    destruct (decide (i = j)) as [->|Hne].
    + rewrite Hc in Hj. simplify_eq. rewrite decide_True by set_solver. split.
      * rewrite list_lookup_insert_eq by lia. unfold config_error. by rewrite HS.
      * exists None. split; [done|]. split; [by intros [? ?]|]. intros [_ ?]. congruence.
    + rewrite list_lookup_insert_ne by done. split.
      * rewrite Hej. f_equal. apply decide_ext. set_solver.
      * exists og. split; [done|]. rewrite Hiff. set_solver.
Qed.

Lemma slots_ok_fold configs p0 order : forall ran s p,
  slots_ok configs p0 ran s p -> NoDup order -> (forall i, i ∈ order -> i ∉ ran) ->
  let '(s', p') := foldl (start_at configs) (s, p) order in
  slots_ok configs p0 (rev order ++ ran)%list s' p'.
Proof.
  induction order as [|i order IH]; intros ran s p Hs Hnd Hdis; [done|].
  apply NoDup_cons in Hnd as [Hi Hnd]. cbn [foldl].
  pose proof (slots_ok_step configs p0 ran s p i Hs ltac:(apply Hdis; set_solver)) as Hstep.
  destruct (start_at configs (s, p) i) as [s1 p1].
  specialize (IH (i :: ran) s1 p1 Hstep Hnd ltac:(set_solver)).
  destruct (foldl (start_at configs) (s1, p1) order) as [s2 p2].
  cbn [rev]. by rewrite <- app_assoc.
Qed.

Lemma omap_id_lookup {A} (l : list (option A)) x : x ∈ omap id l <-> exists i, l !! i = Some (Some x).
Proof.
  rewrite list_elem_of_omap. split.
  - intros (y & Hy%list_elem_of_lookup & Hx). cbn in Hx. subst. done.
  - intros [i Hi]. exists (Some x). split; [|done]. by eapply list_elem_of_lookup_2.
Qed.

Lemma omap_id_fmap {A B} (f : A -> option B) (l : list A) : omap id (f <$> l) = omap f l.
Proof.
  induction l as [|a l IH]; [done|]. rewrite fmap_cons. unfold omap in *. cbn [list_omap] in *.
  rewrite IH. by destruct (f a).
Qed.

Lemma omap_none_all {A B} (f : A -> option B) (l : list A) : omap f l = [] -> forall a, a ∈ l -> f a = None.
Proof.
  intros H a Ha. destruct (f a) as [b|] eqn:E; [|done].
  assert (b ∈ omap f l) as Hb by (apply list_elem_of_omap; eauto). rewrite H in Hb. set_solver.
Qed.

Lemma omap_all_length {A} (l : list (option A)) :
  (forall i o, l !! i = Some o -> is_Some o) -> length (omap id l) = length l.
Proof.
  induction l as [|o l IH]; intros H; [done|]. destruct (H 0%nat o eq_refl) as [a ->]. cbn.
  rewrite IH; [done|]. intros i. apply (H (S i)).
Qed.

Lemma first_slot configs cfg p :
  configs !! 0%nat = Some cfg -> gate_Start cfg = Ok tt ->
  slots_ok configs p [0%nat]
    (MkSlots (<[0%nat := Some (p_next p)]> (replicate (length configs) None))
             (replicate (length configs) None)) (alloc p).
Proof.
  intros Hc HS0. destruct configs as [|? configs]; [done|]. cbn in Hc. simplify_eq.
  split_and!; cbn; rewrite ?length_replicate; try done; try lia.
  - intros x. rewrite elem_of_union, elem_of_singleton. split.
    + intros [-> | ?]; [right; by exists 0%nat | by left].
    + intros [|[[|i] Hi]]; [by right | left; cbn in Hi; congruence |]. cbn in Hi.
      apply lookup_replicate in Hi as [? _]. done.
  - intros [|i] x; cbn; [intros [= <-]; lia|]. intros [? _]%lookup_replicate. done.
  - intros [|i] cfg' Hi; cbn in *.
    + simplify_eq. split; [unfold config_error; by rewrite HS0|]. eexists. split; [done|].
      split; [set_solver | eauto].
    + apply lookup_lt_Some in Hi. rewrite decide_False by set_solver. split.
      * by apply lookup_replicate_2.
      * exists None. split; [by apply lookup_replicate_2|]. split; [by intros [? ?] | set_solver].
Qed.

Lemma slots_ok_errs configs p0 ran s p :
  slots_ok configs p0 ran s p -> (forall i, (i < length configs)%nat -> i ∈ ran) ->
  s_errs s = config_error <$> configs.
Proof.
  intros (_ & Hl & _ & _ & _ & Hslot) Hall. apply list_eq. intros i.
  rewrite list_lookup_fmap. destruct (configs !! i) as [cfg|] eqn:Hc; cbn.
  - destruct (Hslot i cfg Hc) as [-> _].
    rewrite decide_True; [done|]. apply Hall. by eapply lookup_lt_Some.
  - apply lookup_ge_None. rewrite Hl. by apply lookup_ge_None.
Qed.

Lemma fan_out_result configs p0 s p :
  schedule configs ≡ₚ seq 1 (length configs - 1) -> pool_ok p0 ->
  slots_ok configs p0 (rev (schedule configs) ++ [0%nat])%list s p ->
  match match omap id (s_errs s) with
        | e :: _ => (Err e, release_all (omap id (s_gates s)) p)
        | [] => (Ok (omap id (s_gates s)), p)
        end with
  | (Ok gs, p') =>
      length gs = length configs /\ Forall (fun cfg => gate_Start cfg = Ok tt) configs /\
      (forall g, g ∈ gs -> g ∉ p_live p0) /\
      p_live p' = p_live p0 ∪ list_to_set gs /\ pool_ok p'
  | (Err e, p') =>
      p_live p' = p_live p0 /\ pool_ok p' /\ head (omap config_error configs) = Some e
  end.
Proof.
  intros Hsched Hp Hs.
  assert (forall i, (i < length configs)%nat -> i ∈ (rev (schedule configs) ++ [0%nat])%list) as Hall.
  { intros i Hi. rewrite elem_of_app, <- (Permutation_rev (schedule configs)), Hsched, elem_of_seq, list_elem_of_singleton. lia. }
  rewrite (slots_ok_errs _ _ _ _ _ Hs Hall), omap_id_fmap.
  destruct Hs as (Hl1 & Hl2 & Hn & Hlive & Hrange & Hslot).
  assert (forall x, x ∈ omap id (s_gates s) -> x ∉ p_live p0) as Hnew.
  { intros x [i Hi%Hrange]%omap_id_lookup Hx%Hp. lia. }
  assert (p_live p = p_live p0 ∪ list_to_set (omap id (s_gates s))) as Heq.
  { apply leibniz_equiv. intros x. rewrite Hlive, elem_of_union, elem_of_list_to_set.
    by rewrite omap_id_lookup. }
  assert (pool_ok p) as Hpok.
  { intros x [Hx%Hp | [i Hi%Hrange]]%Hlive; lia. }
  destruct (omap config_error configs) as [|e es] eqn:He.
  - assert (Forall (fun cfg => gate_Start cfg = Ok tt) configs) as Hok.
    { apply Forall_forall. intros cfg Hcfg. pose proof (omap_none_all _ _ He cfg Hcfg) as E.
      unfold config_error in E. by destruct (gate_Start cfg) as [[]|]. }
    split_and!; try done. rewrite omap_all_length; [done|]. intros i o Ho.
    destruct (configs !! i) as [cfg|] eqn:Hc.
    + destruct (Hslot i cfg Hc) as [_ (og & Hog & Hiff)]. simplify_eq. apply Hiff. split.
      * apply Hall. by eapply lookup_lt_Some.
      * rewrite Forall_forall in Hok. apply Hok. by eapply list_elem_of_lookup_2.
    + apply lookup_ge_None in Hc. apply lookup_lt_Some in Ho. lia.
  - split_and!; [ | by apply pool_ok_release_all | done].
    rewrite p_live_release_all, Heq. apply leibniz_equiv. intros x.
    rewrite elem_of_difference, elem_of_union, elem_of_list_to_set. split; [tauto|].
    intros Hx. split; [by left|]. intros Hx'. by apply (Hnew x).
Qed.

Lemma startXrayFullGates_effect configs p :
  schedule configs ≡ₚ seq 1 (length configs - 1) -> pool_ok p ->
  match startXrayFullGates configs p with
  | (Ok gs, p') =>
      length gs = length configs /\ Forall (fun cfg => gate_Start cfg = Ok tt) configs /\
      (forall g, g ∈ gs -> g ∉ p_live p) /\
      p_live p' = p_live p ∪ list_to_set gs /\ pool_ok p'
  | (Err e, p') =>
      p_live p' = p_live p /\ pool_ok p' /\ head (omap config_error configs) = Some e
  end.
Proof.
  intros Hsched Hp. unfold startXrayFullGates. destruct configs as [|cfg rest] eqn:Econf.
  { split_and!; try done. - set_solver. - cbn. apply leibniz_equiv. set_solver. }
  rewrite <- Econf in Hsched |- *. cbv beta.
  assert (configs !! 0%nat = Some cfg) as Hc0 by (by subst).
  unfold start_gate. destruct (gate_Start cfg) as [[]|e] eqn:HS0.
  2: { subst. unfold config_error. cbn. by rewrite HS0. }
  set (s0 := MkSlots _ _).
  pose proof (first_slot configs cfg p Hc0 HS0) as H0.
  pose proof (slots_ok_fold configs p (schedule configs) [0%nat] s0 (alloc p) H0) as Hf.
  destruct (foldl _ _ _) as [s p'] eqn:Hfold.
  apply (fan_out_result configs p s p' Hsched Hp).
  apply Hf.
  - rewrite Hsched. apply NoDup_seq.
  - intros i. rewrite Hsched, elem_of_seq, list_elem_of_singleton. lia.
Qed.
End FanOut.

Lemma foldl_insert_lookup {A} (v : A) (l : list nat) i : forall m : gmap nat A,
  foldl (fun m j => <[j := v]> m) m l !! i = if decide (i ∈ l) then Some v else m !! i.
Proof.
  induction l as [|j l IH]; intros m; cbn [foldl].
  - by rewrite decide_False by set_solver.
  - rewrite IH. destruct (decide (i = j)) as [->|Hne].
    + rewrite lookup_insert_eq. rewrite (decide_True (P := j ∈ j :: l)) by set_solver.
      by case_decide.
    + rewrite lookup_insert_ne by done. destruct (decide (i ∈ l)).
      * by rewrite decide_True by set_solver.
      * by rewrite decide_False by set_solver.
Qed.

Section Server.
  #[local] Set Default Proof Using "Type".
  Context `{Platform}.
  (** The platform and build: [runtime.GOOS], the debug flag of [Serve]. *)
  Context (goos : string) (debugLog : bool).
  (** Code the handlers call: [shlex.Split], sing-box ([parseConfig], [boxbox.New] and
      [Start] of a config), Xray ([CreateXrayInstance], [Start]), [xray.StartGate] and [Gate.Instance],
      the default interface, JSON, the system resolver. *)
  Context (shlex_Split : string -> result (list string)).
  Context (box_parse box_New box_Start : string -> result unit).
  Context (xray_Create xray_Start : string -> result unit).
  Context (gate_Start : string -> result unit) (gate_Instance : nat -> option nat).
  Context (defaultInterfaceFinder : string).
  Context (mark_of : string -> Z).     (* [configAutoRedirectMark] *)
  Context (SetSystemDNS : string -> option string).
  (** The order in which the goroutines of [startXrayFullGates] get to run. *)
  Context (schedule : list string -> list nat).

(** ** Xray instances *)

Definition currentEgress (c : core) : string * Z := (defaultInterfaceFinder, autoRedirectMark c).

(** [SetEgress] and [SetOutboundDNS] of an instance. *)
Definition SetEgress (i : nat) (e : string * Z) (c : core) : core :=
  set_settings (c_holders c) (<[i := e]> (c_egress c)) (c_dns c) c.
Definition SetOutboundDNS (i : nat) (d : nat * string) (c : core) : core :=
  set_settings (c_holders c) (c_egress c) (<[i := d]> (c_dns c)) c.

(** [xrayPreparer]; [holder] is the start's box context holder, never nil here. *)
Definition xrayPreparer (dnsStrategy : string) (holder : nat) (i : nat) : prog core unit :=
  c ← gets (fun c => c);
  _ ← modify (SetEgress i (currentEgress c));
  if String.eqb dnsStrategy EmptyString then mret tt
  else modify (SetOutboundDNS i (holder, dnsStrategy)).

(** [holder.publish] and [holder.get]. *)
Definition publish (holder : nat) (box : option nat) (c : core) : core :=
  match box with
  | None => c
  | Some b => set_settings (<[holder := Some b]> (c_holders c)) (c_egress c) (c_dns c) c
  end.

Definition holder_get (holder : nat) (c : core) : option nat := mjoin (c_holders c !! holder).

(** A new, empty holder. *)
Definition new_holder : prog core nat := fun c =>
  let h := fresh (dom (c_holders c)) in
  (Returns h, set_settings (<[h := None]> (c_holders c)) (c_egress c) (c_dns c) c).

(** [CreateXrayInstance]. *)
Definition create_instance (cfg : string) : prog core nat := fun c =>
  match xray_Create cfg with
  | Err e => (Fails e, c)
  | Ok _ => (Returns (p_next (c_instances c)), on_instances alloc c)
  end.

Definition closeXray (c : core) : core :=
  let instance := xrayInstance c in
  let gates := (option_list (xrayGate c) ++ xrayFullGates c)%list in
  let c := setXray None None (setXrayFullGates [] c) in
  let c := on_gates (release_all gates) c in
  on_instances (release_all (option_list instance)) c.

(** [startXrayFullConfigs]: all of them, or none. *)
Definition closeXrayInstances (l : list nat) (c : core) : core := on_instances (release_all l) c.

Fixpoint start_full_from (prepare : nat -> prog core unit) (opened : list nat)
    (configs : list string) : prog core (list nat) :=
  match configs with
  | [] => mret opened
  | cfg :: configs =>
      i ← on_error (create_instance cfg) (closeXrayInstances opened);
      _ ← on_error (prepare i) (fun c => closeXrayInstances opened (on_instances (release i) c));
      _ ← on_error (lift_result (xray_Start cfg))
            (fun c => closeXrayInstances opened (on_instances (release i) c));
      start_full_from prepare (opened ++ [i])%list configs
  end.

Definition startXrayFullConfigs (configs : list string) (prepare : nat -> prog core unit)
    : prog core (list nat) := start_full_from prepare [] configs.

(** [liveXrayInstances], read by the pollers and by the interface callback. *)
Definition liveXrayInstances (c : core) : list nat :=
  (match xrayInstance c with
   | Some i => [i]
   | None => match xrayGate c with Some g => option_list (gate_Instance g) | None => [] end
   end ++ omap gate_Instance (xrayFullGates c))%list.

(** The callback of [init]: a default interface change reaches every live instance. *)
Definition on_default_interface (name : string) (c : core) : core :=
  foldl (fun c i => SetEgress i (name, autoRedirectMark c) c) c (liveXrayInstances c).

(** ** [boxmain.Create] *)

(** A box whose [Start] fails has closed itself. *)
Definition boxmain_Create (content : string) (onCreated : nat -> core -> core) : prog core nat :=
  _ ← cause ("decode config at " ++ content) (lift_result (box_parse content));
  _ ← cause "create service" (lift_result (box_New content));
  b ← gets (fun c => p_next (c_boxes c));
  _ ← modify (fun c => onCreated b (on_boxes alloc c));
  _ ← cause "start service" (on_error (lift_result (box_Start content)) (on_boxes (release b)));
  mret b.

(** ** [Start] *)

(** [currentBox() != nil]. *)
Definition currentBox (c : core) : bool := match boxInstance c with Some _ => true | None => false end.

Definition stop_process (c : core) : core :=
  match extraProcess c with
  | None => c
  | Some p => set_process None (snd (Process.Stop p (c_os c))) c
  end.

Fixpoint replace_first (args : list string) (conf : string) : list string :=
  match args with
  | [] => []
  | a :: args => if contains a "%s" then sprintf a (Some conf) :: args else a :: replace_first args conf
  end.

Definition with_os {A} (m : prog os A) : prog core A := fun c =>
  let '(r, o) := m (c_os c) in (r, set_process (extraProcess c) o c).

Definition start_process (p : Process) : prog core unit := fun c =>
  let '(err, p, o) := Process.Start start_child p (c_os c) in
  (match err with Some e => Fails e | None => Returns tt end, set_process (Some p) o c).

Definition start_extra (inp : LoadConfigReq) : prog core unit :=
  args ← cause "Failed to parse args" (lift_result (shlex_Split (get_string (ExtraProcessArgs inp))));
  '(args, cleanup) ←
    match ExtraProcessConf inp with
    | None => mret (args, EmptyString)
    | Some conf =>
        '(path, cleanup) ← cause "Failed to create extra.conf" (with_os (create_extra_config conf));
        mret (replace_first args path, cleanup)
    end;
  path ← deref (ExtraProcessPath inp);
  noOut ← deref (ExtraNoOut inp);
  start_process (SetCleanupPath cleanup (NewProcess path args noOut)).

Definition start_xray (inp : LoadConfigReq) (prepare : nat -> prog core unit) : prog core unit :=
  need ← deref (NeedXray inp);
  when need
    (cfg ← deref (XrayConfig inp);
     if get_bool (XrayLazyStart inp) then
       c ← gets (fun c => c);
       match start_gate gate_Start cfg (c_gates c) with
       | (Err e, _) => throw e
       | (Ok g, p) => modify (fun c => setXray None (Some g) (on_gates (fun _ => p) c))
       end
     else
       i ← create_instance cfg;
       _ ← on_error (prepare i) (on_instances (release i));
       _ ← on_error (lift_result (xray_Start cfg)) (on_instances (release i));
       modify (setXray (Some i) None)).

Definition start_full_gates (inp : LoadConfigReq) : prog core unit := fun c =>
  match XrayFullConfigs inp with
  | [] => (Returns tt, c)
  | configs =>
      match startXrayFullGates gate_Start schedule configs (c_gates c) with
      | (Err e, p) => (Fails e, closeXray (on_gates (fun _ => p) c))
      | (Ok gates, p) => (Returns tt, setXrayFullGates gates (on_gates (fun _ => p) c))
      end
  end.

(** [stopAllCores] of the macOS branch. *)
Definition stopAllCores (box : nat) (c : core) : core :=
  closeXray (stop_process (setBoxInstance None None (on_boxes (release box) c))).

Definition start_darwin (inp : LoadConfigReq) (box : nat) : prog core unit :=
  let cidr := get_string (TunIpv4Cidr inp) in
  when (String.eqb goos "darwin" && negb (String.eqb cidr EmptyString))
    match parse_prefix4 cidr with
    | Some (MkPrefix (Addr4 bits) _) =>
        let servers := print_addr4 bits in
        modify (fun c =>
          set_dns true (match SetSystemDNS servers with None => servers | Some _ => c_system_dns c end) c)
    | _ => on_error (throw ("invalid tun_ipv4_cidr " ++ quote cidr)) (stopAllCores box)
    end.

Definition start_body (inp : LoadConfigReq) : prog core unit :=
  _ ← when debugLog (_ ← deref (CoreConfig inp); mret tt);
  running ← gets currentBox;
  _ ← when running (throw "instance already started");
  needExtra ← deref (NeedExtraProcess inp);
  _ ← when needExtra (start_extra inp);
  _ ← modify (store_mark
        (if String.eqb goos "linux" then mark_of (get_string (CoreConfig inp)) else 0));
  holder ← new_holder;
  _ ← start_xray inp (xrayPreparer (get_string (XrayOutboundDnsStrategy inp)) holder);
  _ ← start_full_gates inp;
  content ← deref (CoreConfig inp);
  box ← on_error (boxmain_Create content (fun b => publish holder (Some b)))
          (fun c => closeXray (stop_process c));
  _ ← modify (setBoxInstance (Some box) (Some box));
  start_darwin inp box.

(** The deferred function turns the error into the reply and unpublishes the instance. *)
Definition Start (inp : LoadConfigReq) (c : core) : outcome (option string) * core :=
  match start_body inp c with
  | (Returns _, c) => (Returns None, c)
  | (Fails e, c) => (Returns (Some e), store_mark 0 (setBoxInstance None None c))
  | (Panics e, c) => (Panics e, c)
  end.

(** ** [Stop] *)

Definition Stop (c : core) : core :=
  match boxInstance c with
  | None => c
  | Some b =>
      let c :=
        if needUnsetDNS c then
          set_dns false (match SetSystemDNS "Empty" with None => "Empty" | Some _ => c_system_dns c end) c
        else c in
      let c := on_boxes (release b) (setBoxInstance None None c) in
      store_mark 0 (closeXray (stop_process c))
  end.

(** ** [CheckConfig] *)

  (** [xray.CheckXrayConfig] and [boxmain.Check], which may panic. *)
  Context (CheckXrayConfig boxmain_Check : string -> outcome unit).

Definition CheckConfig (inp : LoadConfigReq) : option string :=
  let check : outcome unit :=
    if get_bool (NeedXray inp) then CheckXrayConfig (get_string (XrayConfig inp))
    else
      match CoreConfig inp with
      | Some content => boxmain_Check content
      | None => Panics "runtime error: invalid memory address or nil pointer dereference"
      end in
  match check with
  | Returns _ => None
  | Fails e => Some e
  | Panics e => Some ("CheckConfig panic: " ++ e)
  end.
(** ** What a start holds *)

(** Everything alive is what a slot points at. *)
Definition held (c : core) : Prop :=
  p_live (c_boxes c) = list_to_set (option_list (boxInstance c)) /\
  p_live (c_instances c) = list_to_set (option_list (xrayInstance c)) /\
  p_live (c_gates c) = list_to_set (option_list (xrayGate c) ++ xrayFullGates c) /\
  pool_ok (c_boxes c) /\ pool_ok (c_instances c) /\ pool_ok (c_gates c).

Definition no_xray (c : core) : Prop :=
  xrayInstance c = None /\ xrayGate c = None /\ xrayFullGates c = [].

(** A core whose pointers account for everything alive; only a running box has Xray
    beside it. *)
Definition owns (c : core) : Prop := held c /\ (boxInstance c = None -> no_xray c).

(** The fields [held] reads, and the ones of the extra process. *)
Definition res_of (c : core) :=
  (boxInstance c, xrayInstance c, xrayGate c, xrayFullGates c, c_boxes c, c_instances c, c_gates c).
Definition proc_of (c : core) := (extraProcess c, c_os c).

Lemma held_res c c' : res_of c' = res_of c -> held c -> held c'.
Proof. unfold res_of, held. intros [= -> -> -> -> -> -> ->]. done. Qed.

(** Stopping the extra process of [c'] brings the system back to the state of [c]. *)
Definition restores (c c' : core) : Prop :=
  o_files (c_os (stop_process c')) = o_files (c_os c) /\
  o_running (c_os (stop_process c')) = o_running (c_os c) /\
  os_ok (c_os (stop_process c')).

Lemma restores_proc c c1 c2 : proc_of c2 = proc_of c1 -> restores c c1 -> restores c c2.
Proof.
  unfold proc_of, restores, stop_process. intros [= -> Ho].
  destruct (extraProcess c1); cbn; by rewrite Ho.
Qed.

Lemma closeXray_spec c : held c ->
  held (closeXray c) /\ no_xray (closeXray c) /\ boxInstance (closeXray c) = boxInstance c /\
  proc_of (closeXray c) = proc_of c.
Proof.
  intros (H1 & H2 & H3 & P1 & P2 & P3). split; [|done].
  unfold held, closeXray; cbn. rewrite !p_live_release_all, H2, H3, H1.
  split_and!; auto using pool_ok_release_all; try (apply leibniz_equiv; clear; set_solver).
Qed.

Lemma stop_process_spec c :
  res_of (stop_process c) = res_of c /\ extraProcess (stop_process c) = None.
Proof. unfold stop_process. destruct (extraProcess c) eqn:E; cbn; done. Qed.

Lemma restores_stopped c c' : restores c c' ->
  o_files (c_os (stop_process (stop_process c'))) = o_files (c_os c).
Proof.
  intros [Hf _]. destruct (stop_process_spec c') as [_ Hn].
  unfold stop_process at 1. by rewrite Hn.
Qed.

(** ** The stages of [Start] *)

Definition extra_complete (inp : LoadConfigReq) : Prop :=
  is_Some (ExtraProcessPath inp) /\ is_Some (ExtraNoOut inp).

(** The request carries every field the handler dereferences. *)
Definition complete (inp : LoadConfigReq) : Prop :=
  is_Some (CoreConfig inp) /\ is_Some (NeedXray inp) /\ is_Some (NeedExtraProcess inp) /\
  (NeedXray inp = Some true -> is_Some (XrayConfig inp)) /\
  (NeedExtraProcess inp = Some true -> extra_complete inp).

Lemma with_os_config conf c :
  wp (with_os (create_extra_config conf))
    (fun r c' => res_of c' = res_of c /\ extraProcess c' = extraProcess c /\
       r.2 <> EmptyString /\ remove_all r.2 (c_os c') = c_os c)
    (fun _ c' => res_of c' = res_of c /\ proc_of c' = proc_of c) c.
Proof.
  unfold wp, with_os. pose proof (create_extra_config_law conf (c_os c)) as L.
  destruct (create_extra_config conf (c_os c)) as [[[path dir]|e|e] o]; [done | | done].
  by subst o.
Qed.

Lemma start_process_spec args path noOut dir c o0 :
  (dir = EmptyString /\ c_os c = o0 \/ dir <> EmptyString /\ remove_all dir (c_os c) = o0) ->
  let Q (c' : core) := res_of c' = res_of c /\ (os_ok o0 ->
    o_files (c_os (stop_process c')) = o_files o0 /\ o_running (c_os (stop_process c')) = o_running o0 /\
    os_ok (c_os (stop_process c'))) in
  wp (start_process (SetCleanupPath dir (NewProcess path args noOut))) (fun _ => Q) (fun _ => Q) c.
Proof.
  intros Hdir Q. unfold wp, start_process.
  set (p := SetCleanupPath dir (NewProcess path args noOut)).
  assert (forall o, (dir = EmptyString /\ o = o0 \/ dir <> EmptyString /\ remove_all dir o = o0) ->
            cleanup p o = o0) as Hclean.
  { intros o [[-> ->] | [Hne <-]]; [done|]. by apply (cleanup_remove_all p). }
  assert (o_running (c_os c) = o_running o0 /\ o_next (c_os c) = o_next o0) as [Hr Hn].
  { destruct Hdir as [[_ ->] | [_ <-]]; done. }
  destruct (Process.Start start_child p (c_os c)) as [[[e|] p'] o'] eqn:HS.
  - apply process_start_fails in HS as [-> ->]. split; [done|]. intros Hok.
    rewrite (Hclean _ Hdir). unfold stop_process; cbn. 
    assert (cleanup p o0 = o0) as Hc2.
    { destruct Hdir as [[-> _] | [Hne Hd]]; [done|]. rewrite (cleanup_remove_all p) by done.
      cbn. rewrite <- Hd at 1. by rewrite remove_all_idem. }
    match goal with |- context [cleanup ?q ?o] => change (cleanup q o) with (cleanup p o) end.
    by rewrite Hc2.
  - apply process_start_ok in HS as [-> ->]. split; [done|]. intros Hok.
    unfold stop_process, Process.Stop; cbn [extraProcess set_process c_os snd run].
    assert (forall o1, o_files o1 = o_files (c_os c) -> o_files (cleanup p o1) = o_files o0 /\
              o_running (cleanup p o1) = o_running o1 /\ o_next (cleanup p o1) = o_next o1) as Hc.
    { intros o1 Ho1. destruct Hdir as [[-> <-] | [Hne <-]]; [done|].
      rewrite (cleanup_remove_all p) by done. split; [|done]. cbn. by rewrite Ho1. }
    match goal with |- context [cleanup ?q ?o] => change (cleanup q o) with (cleanup p o) end.
    destruct (Hc (kill (o_next (c_os c)) (MkOs (o_files (c_os c))
      ({[o_next (c_os c)]} ∪ o_running (c_os c)) (S (o_next (c_os c)))))) as (-> & Hkr & Hkn); [done|].
    assert (o_running (cleanup p (kill (o_next (c_os c)) (MkOs (o_files (c_os c))
      ({[o_next (c_os c)]} ∪ o_running (c_os c)) (S (o_next (c_os c)))))) = o_running o0) as Hk0.
    { rewrite Hkr. cbn. rewrite Hr, Hn. by apply kill_started. }
    split_and!; [done | exact Hk0 |].
    intros r. rewrite Hk0, Hkn. intros Hin%Hok. cbn. rewrite Hn. lia.
Qed.

Lemma start_extra_spec inp c :
  extra_complete inp ->
  let Q (c' : core) := res_of c' = res_of c /\
    (extraProcess c = None -> os_ok (c_os c) -> restores c c') in
  wp (start_extra inp) (fun _ => Q) (fun _ => Q) c.
Proof.
  intros [[path Hp] [noOut Hn]] Q. unfold start_extra.
  assert (forall c', res_of c' = res_of c -> proc_of c' = proc_of c -> Q c') as Hsame.
  { intros c' Hr Hpr. split; [done|]. intros H0 Hok. apply (restores_proc c c c' Hpr).
    unfold restores, stop_process. by rewrite H0. }
  assert (forall args dir c1, res_of c1 = res_of c ->
    (dir = EmptyString /\ c_os c1 = c_os c \/ dir <> EmptyString /\ remove_all dir (c_os c1) = c_os c) ->
    wp (path ← deref (ExtraProcessPath inp); noOut ← deref (ExtraNoOut inp);
        start_process (SetCleanupPath dir (NewProcess path args noOut)))
      (fun _ => Q) (fun _ => Q) c1) as Hrun.
  { intros args dir c1 Hr1 Hd. wp_step. apply (wp_deref _ _ _ _ path Hp).
    wp_step. apply (wp_deref _ _ _ _ noOut Hn).
    eapply wp_mono; [apply (start_process_spec args path noOut dir c1 (c_os c) Hd) | |];
      cbn; (intros ? c' (Hr2 & Hf); split; [congruence | intros _; exact Hf]). }
  repeat wp_step; [|by apply Hsame].
  destruct (ExtraProcessConf inp) as [conf|].
  - wp_step. wp_step. eapply wp_mono; [apply with_os_config | |]; cbn.
    + intros [path' dir] c1 (Hr1 & He & Hne & Hrm). wp_step. apply Hrun; [done|]. by right.
    + intros e c1 [Hr1 Hpr]. by apply Hsame.
  - wp_step. apply Hrun; [done | by left].
Qed.

(** [start_xray] and [start_full_gates] on a core without Xray: on success the slots hold
    what is alive, on failure there is no Xray left. *)
Definition quiet (c : core) : Prop := held c /\ boxInstance c = None /\ no_xray c.

Lemma prepare_spec strategy holder i (c : core) (R : core -> Prop) :
  (forall c', res_of c' = res_of c -> proc_of c' = proc_of c -> R c') ->
  wp (xrayPreparer strategy holder i) (fun _ => R) (fun _ _ => False) c.
Proof.
  intros HR. unfold xrayPreparer. repeat wp_step. case_match; wp_step; by apply HR.
Qed.

Lemma start_xray_spec inp strategy holder c :
  is_Some (NeedXray inp) -> (NeedXray inp = Some true -> is_Some (XrayConfig inp)) -> quiet c ->
  wp (start_xray inp (xrayPreparer strategy holder))
    (fun _ c' => held c' /\ boxInstance c' = None /\ xrayFullGates c' = [] /\ proc_of c' = proc_of c)
    (fun _ c' => quiet c' /\ proc_of c' = proc_of c) c.
Proof.
  intros [need Hneed] Hcfg (Hh & Hb & Hi & Hg & Hf). unfold start_xray.
  pose proof Hh as (H1 & H2 & H3 & P1 & P2 & P3). rewrite Hi in H2. rewrite Hg, Hf in H3.
  wp_step. apply (wp_deref _ _ _ _ need Hneed). wp_step; [subst need|done].
  destruct (Hcfg Hneed) as [cfg Hc]. wp_step. apply (wp_deref _ _ _ _ cfg Hc).
  destruct (get_bool (XrayLazyStart inp)).
  - wp_step. wp_step. unfold start_gate. destruct (gate_Start cfg) as [u|e].
    + wp_step. split_and!; [|done..]. unfold held; cbn. rewrite H1, H2, H3, Hf.
      split_and!; auto with nunya.
    + wp_step. done.
  - wp_step. unfold create_instance, wp at 1. destruct (xray_Create cfg) as [u|e].
    2: { done. }
    set (i := p_next (c_instances c)). set (c1 := on_instances alloc c).
    assert (forall c2, res_of c2 = res_of c1 -> proc_of c2 = proc_of c1 ->
      quiet (on_instances (release i) c2) /\ proc_of (on_instances (release i) c2) = proc_of c) as Hrel.
    { intros c2 [= R1 R2 R3 R4 R5 R6 R7] Hpr. split; [|done].
      unfold quiet, held, no_xray; cbn. rewrite R1, R2, R3, R4, R5, R6, R7, Hb, Hi, Hg, Hf.
      split_and!; auto with nunya; [by rewrite <- Hb|].
      rewrite <- H2. by apply release_alloc. }
    wp_step. wp_step. eapply wp_mono; [apply prepare_spec | |]; [..|done].
    { intros c2 Hr Hpr. exact (conj Hr Hpr). }
    intros _ c2 [Hr Hpr]. repeat wp_step; [|by apply Hrel].
    injection Hr as R1 R2 R3 R4 R5 R6 R7. unfold held; cbn. rewrite R1, R4, R5, R6, R7; cbn.
    rewrite H1, H2, H3, Hf, Hb. split_and!; auto with nunya; try done.
    all: try (apply leibniz_equiv; clear; set_solver).
Qed.

Lemma start_full_gates_spec inp c :
  schedule (XrayFullConfigs inp) ≡ₚ seq 1 (length (XrayFullConfigs inp) - 1) ->
  held c -> boxInstance c = None -> xrayFullGates c = [] ->
  wp (start_full_gates inp)
    (fun _ c' => held c' /\ boxInstance c' = None /\ proc_of c' = proc_of c)
    (fun _ c' => quiet c' /\ proc_of c' = proc_of c) c.
Proof.
  intros Hs Hh Hb Hf. unfold start_full_gates.
  pose proof Hh as (H1 & H2 & H3 & P1 & P2 & P3).
  pose proof (startXrayFullGates_effect gate_Start schedule (XrayFullConfigs inp) (c_gates c) Hs P3) as E.
  destruct (XrayFullConfigs inp) as [|cfg rest] eqn:Econf; [done|]. rewrite <- Econf in *. clear Hs.
  unfold wp. destruct (startXrayFullGates _ _ _ (c_gates c)) as [[gs|e] p].
  - destruct E as (_ & _ & _ & Hl & Hp). split_and!; [|done..].
    unfold held; cbn. split_and!; try done. rewrite Hl, H3, Hf.
    all: apply leibniz_equiv; clear; set_solver.
  - destruct E as (Hl & Hp & _).
    assert (held (on_gates (fun _ => p) c)) as Hh'.
    { unfold held; cbn. split_and!; try done. by rewrite Hl. }
    destruct (closeXray_spec _ Hh') as (? & ? & Hb' & Hpr). split; [|done].
    split_and!; [done | by rewrite Hb' | done].
Qed.

Lemma Create_spec content holder c :
  held c -> boxInstance c = None ->
  wp (boxmain_Create content (fun b => publish holder (Some b)))
    (fun b c' => held (setBoxInstance (Some b) (Some b) c') /\ proc_of c' = proc_of c /\
       holder_get holder c' = Some b)
    (fun _ c' => held c' /\ boxInstance c' = None /\ proc_of c' = proc_of c) c.
Proof.
  intros Hh Hb. pose proof Hh as (H1 & H2 & H3 & P1 & P2 & P3). rewrite Hb in H1.
  unfold boxmain_Create. repeat wp_step; try done.
  - split_and!; [|done | unfold holder_get; cbn; by rewrite lookup_insert_eq].
    unfold held; cbn. rewrite H1, H2, H3. split_and!; auto with nunya.
  - split_and!; [|done..]. unfold held; cbn. rewrite H1, H2, H3, Hb.
    split_and!; auto with nunya. rewrite <- H1. by apply release_alloc.
Qed.

Lemma stopAllCores_spec b c :
  held c -> boxInstance c = Some b -> quiet (stopAllCores b c) /\ extraProcess (stopAllCores b c) = None.
Proof.
  intros Hh Hb. pose proof Hh as (H1 & H2 & H3 & P1 & P2 & P3).
  unfold stopAllCores. set (c1 := setBoxInstance None None (on_boxes (release b) c)).
  destruct (stop_process_spec c1) as [Hr He].
  assert (held c1) as Hh1.
  { unfold held; cbn. rewrite H1, H2, H3, Hb. split_and!; auto with nunya.
    apply leibniz_equiv. clear. set_solver. }
  destruct (closeXray_spec (stop_process c1)) as (Hx & Hn & Hbx & Hpr); [by eapply held_res|].
  split; [split_and!; [done | | done]|].
  - rewrite Hbx. by injection Hr.
  - exact He.
Qed.

Lemma start_darwin_spec inp b c :
  held c -> boxInstance c = Some b ->
  wp (start_darwin inp b)
    (fun _ c' => held c' /\ boxInstance c' = Some b /\ instanceCancel c' = instanceCancel c /\
       proc_of c' = proc_of c)
    (fun _ c' => quiet c') c.
Proof.
  intros Hh Hb. unfold start_darwin. wp_step; [|done].
  destruct (parse_prefix4 _) as [[[|bits|] ?]|]; wp_step;
    try (wp_step; by apply stopAllCores_spec); try done.
Qed.

Lemma start_body_spec inp c :
  complete inp ->
  schedule (XrayFullConfigs inp) ≡ₚ seq 1 (length (XrayFullConfigs inp) - 1) ->
  quiet c ->
  wp (start_body inp)
    (fun _ c' => held c' /\ is_Some (boxInstance c') /\ instanceCancel c' = boxInstance c' /\
       (extraProcess c = None -> os_ok (c_os c) -> restores c c'))
    (fun _ c' => quiet c') c.
Proof.
  intros ([content HC] & HX & [ne HE] & HXc & HEx) Hs Hq. pose proof Hq as (Hh & Hb & Hno).
  set (R := fun c' => res_of c' = res_of c /\
    (extraProcess c = None -> os_ok (c_os c) -> restores c c')).
  assert (forall c', R c' -> quiet c') as Hquiet.
  { intros c' [Hr _]. split; [exact (held_res c c' Hr Hh)|].
    injection Hr as R1 R2 R3 R4 R5 R6 R7. destruct Hno as (?&?&?).
    unfold no_xray. split_and!; congruence. }
  assert (wp (when ne (start_extra inp)) (fun _ => R) (fun _ => R) c) as Hextra.
  { wp_step.
    - apply start_extra_spec. apply HEx. by subst.
    - split; [done|]. intros Hno0 Hok0. unfold restores, stop_process. by rewrite Hno0. }
  unfold start_body. wp_step. apply (wp_returns _ _ _ _ tt c).
  { destruct debugLog; [cbn; by rewrite HC | done]. }
  wp_step. wp_step. wp_step. apply (wp_returns _ _ _ _ tt c).
  { unfold currentBox. by rewrite Hb. }
  wp_step. apply (wp_deref _ _ _ _ ne HE). wp_step.
  eapply wp_mono; [exact Hextra | | by intros e c' ?%Hquiet].
  intros [] c1 HR1. wp_step. wp_step. wp_step. eapply wp_returns; [reflexivity|]. wp_step.
  set (c2 := set_settings _ _ _ _). set (holder := fresh _).
  assert (R c2) as HR2.
  { destruct HR1 as [Hr1 Hres1]. split; [done|]. intros Hno0 Hok.
    by apply (restores_proc c c1); [|by apply Hres1]. }
  eapply wp_mono; [apply start_xray_spec; [done | done | by apply Hquiet] | | by intros e c' [? _]].
  intros _ c3 (Hh3 & Hb3 & Hf3 & Hp3). wp_step.
  eapply wp_mono; [by apply start_full_gates_spec | | by intros e c' [? _]].
  intros _ c4 (Hh4 & Hb4 & Hp4). wp_step. apply (wp_deref _ _ _ _ content HC). wp_step. wp_step.
  eapply wp_mono; [by apply Create_spec | |].
  - intros b c5 (Hh5 & Hp5 & _). wp_step. wp_step.
    eapply wp_mono; [by apply start_darwin_spec | | done].
    intros _ c6 (Hh6 & Hb6 & Hc6 & Hp6). split_and!; [done | by rewrite Hb6 | by rewrite Hb6, Hc6 |].
    intros Hno0 Hok. apply (restores_proc c c2); [|by apply HR2].
    rewrite Hp6. unfold proc_of in *; cbn in *. congruence.
  - intros e c5 (Hh5 & Hb5 & Hp5). destruct (stop_process_spec c5) as [Hr _].
    destruct (closeXray_spec (stop_process c5)) as (? & ? & Hbx & _); [by eapply held_res|].
    split_and!; [done | | done]. rewrite Hbx. injection Hr. congruence.
Qed.

(** ** Theorems *)

Lemma Start_spec inp c :
  complete inp ->
  schedule (XrayFullConfigs inp) ≡ₚ seq 1 (length (XrayFullConfigs inp) - 1) ->
  quiet c ->
  exists out c', Start inp c = (Returns out, c') /\
    match out with
    | None => held c' /\ is_Some (boxInstance c') /\ instanceCancel c' = boxInstance c' /\
        (extraProcess c = None -> os_ok (c_os c) -> restores c c')
    | Some _ => quiet c' /\ autoRedirectMark c' = 0
    end.
Proof.
  intros Hc Hs Hq. pose proof (start_body_spec inp c Hc Hs Hq) as W. unfold wp in W. unfold Start.
  destruct (start_body inp c) as [[[]|e|e] c']; [ | |done].
  - by exists None, c'.
  - eexists _, _. split; [done|]. split; [|done].
    destruct W as ((H1 & H2 & H3 & P) & Hb & Hno). rewrite Hb in H1. by split_and!.
Qed.

Lemma Stop_spec c :
  owns c ->
  quiet (Stop c) /\
  match boxInstance c with
  | None => Stop c = c
  | Some _ => autoRedirectMark (Stop c) = 0 /\ needUnsetDNS (Stop c) = false /\
      extraProcess (Stop c) = None /\ c_os (Stop c) = c_os (stop_process c)
  end.
Proof.
  intros [Hh Hno]. unfold Stop. destruct (boxInstance c) as [b|] eqn:Hb.
  2: { split; [|done]. split_and!; [done | done | by apply Hno]. }
  set (c1 := if needUnsetDNS c then _ else c).
  set (c2 := on_boxes _ _).
  assert (res_of c2 = (None, xrayInstance c, xrayGate c, xrayFullGates c, release b (c_boxes c),
            c_instances c, c_gates c) /\ needUnsetDNS c2 = false /\ proc_of c2 = proc_of c) as (Hr & Hn & Hp).
  { unfold c2, c1. destruct (needUnsetDNS c) eqn:En; cbn; try rewrite En; done. }
  clearbody c2.
  assert (held c2) as Hh2.
  { destruct Hh as (H1 & H2 & H3 & P1 & P2 & P3). injection Hr as R1 R2 R3 R4 R5 R6 R7.
    unfold held. rewrite R1, R2, R3, R4, R5, R6, R7, H2, H3. split_and!; auto with nunya.
    cbn. rewrite H1, Hb. apply leibniz_equiv. clear. set_solver. }
  destruct (stop_process_spec c2) as [Hr' He'].
  destruct (closeXray_spec (stop_process c2)) as (Hx & Hnx & Hbx & Hpx); [by eapply held_res|].
  split; [split_and!; [exact Hx | | exact Hnx]|].
  - cbn. injection Hr' as -> _ _ _ _ _ _. by injection Hr.
  - split_and!; [done | | exact He' |].
    + cbn. unfold stop_process. destruct (extraProcess c2); exact Hn.
    + cbn. injection Hp as Hp1 Hp2. unfold stop_process. rewrite Hp1.
      destruct (extraProcess c); cbn; by rewrite Hp2.
Qed.

(** One request handled under [lifecycleMu]: a start of an idle core, or a stop. *)
Inductive lifecycle_step : core -> core -> Prop :=
| step_start inp c out c' :
    complete inp ->
    schedule (XrayFullConfigs inp) ≡ₚ seq 1 (length (XrayFullConfigs inp) - 1) ->
    boxInstance c = None -> Start inp c = (Returns out, c') -> lifecycle_step c c'
| step_stop c : lifecycle_step c (Stop c).

Lemma owns_quiet c : owns c -> boxInstance c = None -> quiet c.
Proof. intros [Hh Hno] Hb. split_and!; [done | done | by apply Hno]. Qed.

Lemma quiet_owns c : quiet c -> owns c.
Proof. intros (? & ? & ?). by split. Qed.

Lemma lifecycle_owns c c' : lifecycle_step c c' -> owns c -> owns c'.
Proof.
  intros Hstep Ho. destruct Hstep as [inp c out c' Hc Hs Hb HS | c].
  - destruct (Start_spec inp c Hc Hs (owns_quiet c Ho Hb)) as (out' & c'' & HS' & Hout).
    rewrite HS in HS'. simplify_eq. destruct out' as [e|].
    + apply quiet_owns, Hout.
    + destruct Hout as (Hh & [b Hb'] & _). split; [done | congruence].
  - by apply quiet_owns, Stop_spec.
Qed.


(** A [Stop] undoes a successful [Start]: nothing the start opened is alive, the
    helper process has ended, its files are gone, the mark and the DNS override are
    cleared. *)
Theorem stop_undoes_start inp c c' :
  complete inp ->
  schedule (XrayFullConfigs inp) ≡ₚ seq 1 (length (XrayFullConfigs inp) - 1) ->
  quiet c -> extraProcess c = None -> os_ok (c_os c) ->
  Start inp c = (Returns None, c') ->
  is_Some (boxInstance c') /\ quiet (Stop c') /\
  o_files (c_os (Stop c')) = o_files (c_os c) /\ o_running (c_os (Stop c')) = o_running (c_os c) /\
  extraProcess (Stop c') = None /\ autoRedirectMark (Stop c') = 0 /\ needUnsetDNS (Stop c') = false.
Proof.
  intros Hc Hs Hq He Hok HS.
  destruct (Start_spec inp c Hc Hs Hq) as (out & c'' & HS' & Hout).
  rewrite HS in HS'. simplify_eq. destruct Hout as (Hh & [b Hb] & _ & Hres).
  assert (owns c'') as Ho by (split; [done | congruence]).
  destruct (Stop_spec c'' Ho) as [Hq' Hf]. rewrite Hb in Hf. destruct Hf as (? & ? & ? & Hos).
  destruct (Hres He Hok) as (Hfs & Hrun & _). rewrite Hos. by split_and!.
Qed.

(** A second [Start] while a profile runs is refused, but its deferred function still
    unpublishes the running box: the box stays alive, no pointer names it, and [Stop]
    does nothing. *)
Theorem second_start_orphans_box inp c b :
  is_Some (CoreConfig inp) -> held c -> boxInstance c = Some b ->
  exists c', Start inp c = (Returns (Some "instance already started"), c') /\
    boxInstance c' = None /\ b ∈ p_live (c_boxes c') /\ Stop c' = c'.
Proof.
  intros [content HC] (H1 & _) Hb. unfold Start.
  assert (start_body inp c = (Fails "instance already started", c)) as ->.
  { assert (currentBox c = true) as Hrun by (unfold currentBox; by rewrite Hb).
    unfold start_body, mbind, prog_bind, when, gets.
    destruct debugLog; [unfold deref; rewrite HC; unfold mret, prog_ret |]; by rewrite Hrun. }
  eexists. split; [done|]. split_and!; [done | | done].
  cbn. rewrite H1, Hb. clear. set_solver.
Qed.

Lemma egress_fold name l : forall c,
  c_egress (foldl (fun c i => SetEgress i (name, autoRedirectMark c) c) c l) =
  foldl (fun m i => <[i := (name, autoRedirectMark c)]> m) (c_egress c) l.
Proof. induction l as [|j l IH]; intros c; [done|]. cbn [foldl]. by rewrite IH. Qed.

(** The interface callback reaches exactly the live instances, with the current
    mark. *)
Theorem interface_change_reaches_live name c i :
  c_egress (on_default_interface name c) !! i =
  if decide (i ∈ liveXrayInstances c) then Some (name, autoRedirectMark c) else c_egress c !! i.
Proof.
  unfold on_default_interface. rewrite egress_fold. apply foldl_insert_lookup.
Qed.

(** A change between [prepareXray] and [setXray] reaches no callback: the instance is not
    among the live ones yet, and once it is published it keeps the interface it was
    prepared with. *)
Theorem interface_change_missed strategy holder name i c c1 :
  xrayPreparer strategy holder i c = (Returns tt, c1) -> i ∉ liveXrayInstances c1 ->
  let c2 := setXray (Some i) None (on_default_interface name c1) in
  i ∈ liveXrayInstances c2 /\ c_egress c2 !! i = Some (defaultInterfaceFinder, autoRedirectMark c).
Proof.
  intros Hp Hi. cbn zeta. split; [unfold liveXrayInstances; cbn; apply elem_of_cons; by left|].
  cbn [setXray c_egress]. rewrite interface_change_reaches_live, decide_False by done.
  revert Hp. unfold xrayPreparer, mbind, prog_bind, gets, modify.
  destruct (String.eqb strategy ""); intros [= <-]; apply lookup_insert_eq.
Qed.
End Server.


(** ** A concrete core *)

Module Sample.
Definition core0 : core :=
  MkCore None None None None [] None false 0 Process.Sample.system (MkPool ∅ 0) (MkPool ∅ 0)
    (MkPool ∅ 0) ∅ ∅ ∅ "8.8.8.8".

Definition request : LoadConfigReq :=
  MkLoadConfigReq (Some "box") (Some true) (Some "xray") None (Some "UseIP") ["full1"; "full2"]
    (Some true) (Some "/opt/extra") (Some "-c %s") (Some "secret") (Some false) None.

Definition ok (_ : string) : result unit := Ok tt.
Definition schedule (configs : list string) : list nat := reverse (seq 1 (length configs - 1)).

(** Everything starts, but a config called ["bad"]. *)
Definition starts (cfg : string) : result unit := if String.eqb cfg "bad" then Err "cannot start" else Ok tt.

Definition Start : LoadConfigReq -> core -> outcome (option string) * core :=
  @Start sample_platform "linux" false (fun s => Ok (fields s)) ok ok starts ok starts starts
    "eth0" (fun _ => 8227) (fun _ => None) schedule.
Definition Stop : core -> core := Stop (fun _ => None).
Definition core1 : core := snd (Start request core0).
Definition lifecycle_step : core -> core -> Prop :=
  @lifecycle_step sample_platform "linux" false (fun s => Ok (fields s)) ok ok starts ok starts starts
    "eth0" (fun _ => 8227) (fun _ => None) schedule.
End Sample.

Lemma sample_quiet : quiet Sample.core0.
Proof. split_and!; try done; intros x Hx; by apply elem_of_empty in Hx. Qed.

Lemma sample_complete : complete Sample.request.
Proof. split_and!; try (intros _; split); try intros _; by eexists. Qed.

Lemma sample_schedule configs :
  Sample.schedule configs ≡ₚ seq 1 (length configs - 1).
Proof. unfold Sample.schedule. by rewrite reverse_Permutation. Qed.

Lemma sample_started : Sample.Start Sample.request Sample.core0 = (Returns None, Sample.core1).
Proof. vm_compute. reflexivity. Qed.

Lemma sample_steps : steps Sample.lifecycle_step Sample.core0 Sample.core1.
Proof.
  apply steps_one. eapply (step_start _ _ _ _ _ _ _ _ _ _ _ _ _ Sample.request);
    [exact sample_complete | apply sample_schedule | done | exact sample_started].
Qed.

(** Everything it opened is named. *)
Lemma sample_held : held Sample.core1.
Proof.
  destruct (@Start_spec sample_platform "linux" false (fun s => Ok (fields s)) Sample.ok Sample.ok Sample.starts Sample.ok
    Sample.starts Sample.starts "eth0" (fun _ => 8227) (fun _ => None) Sample.schedule Sample.request Sample.core0
    sample_complete (sample_schedule _) sample_quiet) as (out & c' & HS & Hout).
  pose proof (eq_trans (eq_sym sample_started) HS) as E. clear HS. revert E. generalize Sample.core1.
  intros c1 [= <- <-]. apply Hout.
Qed.

(** A core started with an eager instance that fails to start leaves the helper process
    running, and as no box is published [Stop] does not end it either. *)
Definition failing_request : LoadConfigReq :=
  MkLoadConfigReq (Some "box") (Some true) (Some "bad") None None [] (Some true)
    (Some "/opt/extra") (Some "") None (Some false) None.

Theorem xray_failure_leaves_helper :
  let '(r, c) := Sample.Start failing_request Sample.core0 in
  r = Returns (Some "cannot start") /\
  bool_decide (o_running (c_os c) = {[ 0%nat ]}) = true /\ Sample.Stop c = c.
Proof. vm_compute. done. Qed.


Lemma stop_undoes_start_witness :
  o_files (c_os (Sample.Stop Sample.core1)) = o_files Process.Sample.system /\
  extraProcess (Sample.Stop Sample.core1) = None.
Proof.
  destruct (@stop_undoes_start sample_platform "linux" false (fun s => Ok (fields s)) Sample.ok Sample.ok
    Sample.starts Sample.ok Sample.starts Sample.starts "eth0" (fun _ => 8227) (fun _ => None)
    Sample.schedule Sample.request Sample.core0 Sample.core1 sample_complete
    (sample_schedule _) sample_quiet eq_refl
    ltac:(intros r Hr; apply elem_of_empty in Hr; destruct Hr) sample_started)
    as (_ & _ & Hf & _ & He & _).
  split; [exact Hf | exact He].
Defined.

Lemma second_start_orphans_box_witness :
  exists c', Sample.Start Sample.request Sample.core1 = (Returns (Some "instance already started"), c') /\
    boxInstance c' = None /\ 0%nat ∈ p_live (c_boxes c') /\ Sample.Stop c' = c'.
Proof.
  apply (@second_start_orphans_box sample_platform "linux" false (fun s => Ok (fields s)) Sample.ok Sample.ok
    Sample.starts Sample.ok Sample.starts Sample.starts "eth0" (fun _ => 8227) (fun _ => None)
    Sample.schedule Sample.request Sample.core1 0%nat).
  - by eexists.
  - exact sample_held.
  - vm_compute. reflexivity.
Defined.
