(* ===== verification/System.v ===== *)
(** * Requests against the running core: [Serve] over the lifecycle handlers

    [Frames] treats the handlers as functions of their payload; here the ones that own the
    profile act on the core of [Lifecycle]. Every request runs on a goroutine of its own,
    [Start] and [Stop] take [lifecycleMu] for their whole body, and the interface callback
    may run at any time. Requests are numbered in the order the read loop takes them, and a
    run keeps the trace of what happened, so that what the peer sees can be compared with
    the same requests served one at a time. *)

From S2P Require Import Prelude GoStr GoNet Frames Process Lifecycle.
#[local] Open Scope string_scope.
#[local] Open Scope list_scope.
#[local] Open Scope Z_scope.

(** ** The interface to the lifecycle *)

(** What the request loop relies on: a startable profile on an idle core is started or
    refused without leaving anything behind, and a stop leaves an idle core. *)
Class ProfileService := {
  do_Start : LoadConfigReq -> core -> outcome (option string) * core;
  do_Stop : core -> core;
  do_CheckConfig : LoadConfigReq -> option string;
  do_interface : string -> core -> core;
  startable : LoadConfigReq -> Prop;
  do_Start_owns inp c :
    startable inp -> owns c -> boxInstance c = None -> owns (do_Start inp c).2;
  do_Start_restores inp c :
    startable inp -> owns c -> boxInstance c = None -> extraProcess c = None -> os_ok (c_os c) ->
    (do_Start inp c).1 = Returns None ->
    is_Some (boxInstance (do_Start inp c).2) /\ restores c (do_Start inp c).2;
  do_Stop_quiet c : owns c -> quiet (do_Stop c);
  do_Stop_idle c : boxInstance c = None -> do_Stop c = c;
  do_Stop_process c : owns c -> is_Some (boxInstance c) ->
    extraProcess (do_Stop c) = None /\ c_os (do_Stop c) = c_os (stop_process c);
  do_interface_res name c : res_of (do_interface name c) = res_of c;
  do_interface_proc name c : proc_of (do_interface name c) = proc_of c
}.

(** ** Handlers that act on the core *)

(** [handle] around a handler that changes the state [S]. *)
Definition handle_on {S Req Resp : Type} (unmarshal : list byte -> result Req)
    (marshal : Resp -> result (list byte)) (fn : Req -> S -> Frames.outcome Resp * S)
    (payload : list byte) (s : S) : Frames.outcome (list byte) * S :=
  match unmarshal payload with
  | Err e => (Returned (Err e), s)
  | Ok req =>
      match fn req s with
      | (Panicked v, s) => (Panicked v, s)
      | (Returned (Err e), s) => (Returned (Err e), s)
      | (Returned (Ok resp), s) => (Returned (marshal resp), s)
      end
  end.

(** It is [handle] around the function of the request that the state fixes. *)
Lemma handle_on_answer {S Req Resp} um (m : Resp -> _) (fn : Req -> S -> _) payload s :
  (handle_on um m fn payload s).1 = handle um m (fun req => (fn req s).1) payload.
Proof.
  unfold handle_on, handle. destruct (um payload) as [req|e]; [|done].
  by destruct (fn req s) as [[[resp|e]|v] s'].
Qed.

Section System.
  Context {Svc : ProfileService}.
  (** The protobuf library's decoding of the two request messages and encoding of
      [gen.ErrorResp]. *)
  Context (load_of : list byte -> result LoadConfigReq) (empty_of : list byte -> result unit).
  Context (error_resp : option string -> result (list byte)).

(** The handlers return an [ErrorResp] and never an error; a panic unwinds to [Serve]. *)
Definition rpc_Start (inp : LoadConfigReq) (c : core) : Frames.outcome (option string) * core :=
  match do_Start inp c with
  | (Returns err, c) => (Returned (Ok err), c)
  | (Fails e, c) => (Returned (Err e), c)
  | (Panics v, c) => (Panicked v, c)
  end.

Definition rpc_Stop (_ : unit) (c : core) : Frames.outcome (option string) * core :=
  (Returned (Ok None), do_Stop c).

Definition rpc_CheckConfig (inp : LoadConfigReq) (c : core) : Frames.outcome (option string) * core :=
  (Returned (Ok (do_CheckConfig inp)), c).

(** The three methods of the table that [lifecycle.go] implements; none of the other
    twenty-five writes the core, and [others] is what they happen to do. *)
Definition method_on (others : string -> handlerFn) (method : string) :
    list byte -> core -> Frames.outcome (list byte) * core :=
  if String.eqb method "Start" then handle_on load_of error_resp rpc_Start
  else if String.eqb method "Stop" then handle_on empty_of error_resp rpc_Stop
  else if String.eqb method "CheckConfig" then handle_on load_of error_resp rpc_CheckConfig
  else fun payload c => (others method payload, c).

(** The server as [Frames] sees it while the core is [c]. *)
Definition server_at (others : string -> handlerFn) (c : core) : string -> handlerFn :=
  fun method payload => (method_on others method payload c).1.

Definition method_of (r : request) : string := string_of_list_byte (req_method r).

(** What a request leaves of the core. *)
Definition effect (others : string -> handlerFn) (r : request) (c : core) : core :=
  if bool_decide (method_of r ∈ method_names)
  then (method_on others (method_of r) (req_payload r) c).2 else c.

(** The response of a request: its id, the status byte and the data. *)
Definition response : Type := Z * Z * list byte.

Definition response_of (others : string -> handlerFn) (r : request) (c : core) : response :=
  answer_of (server_at others c) r.

Definition encode_response (a : response) : list byte := response_frame a.1.1 a.1.2 a.2.
Definition encode_header (a : response) : list byte := response_header a.1.1 a.1.2 a.2.

(** A request that takes [lifecycleMu]: its payload decodes and the handler is [Start], here
    with what it decodes to, or [Stop]. *)
Definition lifecycle_of (r : request) : option (option LoadConfigReq) :=
  if String.eqb (method_of r) "Start" then
    match load_of (req_payload r) with Ok inp => Some (Some inp) | Err _ => None end
  else if String.eqb (method_of r) "Stop" then
    match empty_of (req_payload r) with Ok _ => Some None | Err _ => None end
  else None.

Definition takes_lock (r : request) : bool :=
  match lifecycle_of r with Some _ => true | None => false end.

(** ** The system *)

Record system := Sys {
  y_core : core;
  y_input : list byte;                      (* not read yet *)
  y_open : bool;                            (* the read loop runs *)
  y_next : nat;                             (* requests taken so far *)
  y_started : list (nat * request);         (* goroutines that have not run their handler *)
  y_lock : option (nat * request);          (* the holder of lifecycleMu *)
  y_answered : list (nat * response);       (* goroutines waiting for writeMu *)
  y_writer : option (nat * response);       (* its holder, the header written *)
  y_out : list byte                         (* what the peer has been sent *)
}.

Definition sys_init (c : core) (input : list byte) : system :=
  Sys c input true 0 [] None [] None [].

(** What happens: request [k] is read, gets its answer (the handlers of other files having
    done [others]), is written completely; the callback of the interface monitor runs. *)
Inductive event :=
| Accepted (k : nat)
| Finished (k : nat) (others : string -> handlerFn)
| Written (k : nat)
| Interface (name : string).

Inductive sys_step : system -> option event -> system -> Prop :=
| sys_accept c input r rest n started lock answered writer out :
    read_request input = Some (r, rest) ->
    sys_step (Sys c input true n started lock answered writer out) (Some (Accepted n))
             (Sys c rest true (S n) (started ++ [(n, r)]) lock answered writer out)
| sys_return c input n started lock answered writer out :
    read_request input = None ->
    sys_step (Sys c input true n started lock answered writer out) None
             (Sys c input false n started lock answered writer out)
| sys_acquire c input o n s1 k r s2 answered writer out :
    takes_lock r = true ->
    sys_step (Sys c input o n (s1 ++ (k, r) :: s2) None answered writer out) None
             (Sys c input o n (s1 ++ s2) (Some (k, r)) answered writer out)
| sys_finish_locked others c input o n started k r answered writer out :
    sys_step (Sys c input o n started (Some (k, r)) answered writer out) (Some (Finished k others))
             (Sys (effect others r c) input o n started None
                (answered ++ [(k, response_of others r c)]) writer out)
| sys_finish others c input o n s1 k r s2 lock answered writer out :
    takes_lock r = false ->
    sys_step (Sys c input o n (s1 ++ (k, r) :: s2) lock answered writer out) (Some (Finished k others))
             (Sys (effect others r c) input o n (s1 ++ s2) lock
                (answered ++ [(k, response_of others r c)]) writer out)
| sys_header c input n started lock a1 k a a2 out :
    sys_step (Sys c input true n started lock (a1 ++ (k, a) :: a2) None out) None
             (Sys c input true n started lock (a1 ++ a2) (Some (k, a)) (out ++ encode_header a))
| sys_data c input n started lock answered k a out :
    sys_step (Sys c input true n started lock answered (Some (k, a)) out) (Some (Written k))
             (Sys c input true n started lock answered None (out ++ a.2))
| sys_header_fails c input n started lock a1 k a a2 out :
    sys_step (Sys c input false n started lock (a1 ++ (k, a) :: a2) None out) None
             (Sys c input false n started lock (a1 ++ a2) None out)
| sys_data_fails c input n started lock answered k a out :
    sys_step (Sys c input false n started lock answered (Some (k, a)) out) None
             (Sys c input false n started lock answered None out)
| sys_interface name c input o n started lock answered writer out :
    sys_step (Sys c input o n started lock answered writer out) (Some (Interface name))
             (Sys (do_interface name c) input o n started lock answered writer out).

(** A run and its trace. *)
Inductive runs (y0 : system) : list event -> system -> Prop :=
| runs_nil : runs y0 [] y0
| runs_snoc tr y1 e y2 :
    runs y0 tr y1 -> sys_step y1 e y2 -> runs y0 (tr ++ option_list e) y2.

(** ** The sequential specification *)

(** The requests in [reqs] served one at a time, in the order of the [Finished] events: the
    answers, each under the number of its request, and the core at the end. *)
Definition replay_one (reqs : list request) (acc : list (nat * response) * core) (e : event) :
    list (nat * response) * core :=
  match e with
  | Finished k others =>
      match reqs !! k with
      | None => acc
      | Some r => (acc.1 ++ [(k, response_of others r acc.2)], effect others r acc.2)
      end
  | Interface name => (acc.1, do_interface name acc.2)
  | _ => acc
  end.

Definition replay (reqs : list request) (c : core) (tr : list event) : list (nat * response) * core :=
  foldl (replay_one reqs) ([], c) tr.

(** [a] comes before [b] in the list. *)
Definition precedes {A} (l : list A) (a b : A) : Prop :=
  exists l1 l2, l = l1 ++ l2 /\ a ∈ l1 /\ b ∈ l2.

Definition sys_writing (y : system) : list byte :=
  match y_writer y with Some (_, a) => encode_header a | None => [] end.

(** ** The invariant of a run *)

#[local] Arguments read_request : simpl never.
#[local] Arguments read_requests : simpl never.
#[local] Arguments encode_response : simpl never.
#[local] Arguments encode_header : simpl never.
#[local] Arguments response_of : simpl never.
#[local] Arguments effect : simpl never.

(** Every request of the input has its number; each that was taken is started, holds the
    mutex or has been executed, once; the core and the answers are those of the replay;
    and while the connection is up what was sent is whole answers, then the header of the
    writer. *)
Record sys_inv (c0 : core) (input : list byte) (tr : list event) (y : system) : Prop := {
  inv_core : (replay (read_requests input) c0 tr).2 = y_core y;
  inv_unread : drop (y_next y) (read_requests input) = read_requests (y_input y);
  inv_taken : forall k r, (k, r) ∈ y_started y ++ option_list (y_lock y) ->
    read_requests input !! k = Some r;
  inv_once : seq 0 (y_next y) ≡ₚ
    (y_started y ++ option_list (y_lock y)).*1 ++ (replay (read_requests input) c0 tr).1.*1;
  inv_sent : y_open y = true -> exists sent,
    y_out y = mjoin (encode_response <$> sent.*2) ++ sys_writing y /\
    (replay (read_requests input) c0 tr).1 ≡ₚ sent ++ option_list (y_writer y) ++ y_answered y /\
    (forall k, Written k ∈ tr -> k ∈ sent.*1)
}.

Lemma replay_app reqs c tr1 tr2 : replay reqs c (tr1 ++ tr2) = foldl (replay_one reqs) (replay reqs c tr1) tr2.
Proof. apply foldl_app. Qed.

Lemma replay_some reqs c tr e : replay reqs c (tr ++ option_list (Some e)) = replay_one reqs (replay reqs c tr) e.
Proof. by rewrite replay_app. Qed.

Lemma drop_taken reqs n (input rest : list byte) r :
  drop n reqs = read_requests input -> read_request input = Some (r, rest) ->
  reqs !! n = Some r /\ drop (S n) reqs = read_requests rest.
Proof.
  intros Hd Hr. rewrite read_requests_unfold, Hr in Hd.
  assert (reqs !! n = Some r) as Hn.
  { rewrite <- (Nat.add_0_r n), <- lookup_drop, Hd. done. }
  split; [done|]. rewrite (drop_S reqs r n Hn) in Hd. by injection Hd.
Qed.

(** A finished request: the number leaves the goroutines that run and joins the answers. *)
Lemma finish_once {A} (n : nat) (l1 l2 : list nat) (k : nat) (answers : list (nat * A)) a :
  l1 ≡ₚ k :: l2 -> seq 0 n ≡ₚ l1 ++ answers.*1 -> seq 0 n ≡ₚ l2 ++ (answers ++ [(k, a)]).*1.
Proof. intros H1 H2. rewrite fmap_app. cbn. rewrite H2, H1. solve_Permutation. Qed.

(** The clauses of the invariant, one at a time. *)
Lemma step_core c0 input tr y1 e y2 :
  sys_inv c0 input tr y1 -> sys_step y1 e y2 ->
  (replay (read_requests input) c0 (tr ++ option_list e)).2 = y_core y2.
Proof.
  intros [Hc _ Ht _ _] Hs. destruct Hs; cbn in *; rewrite ?app_nil_r, ?replay_app; cbn; try done.
  - rewrite (Ht k r) by set_solver. cbn. by rewrite Hc.
  - rewrite (Ht k r) by set_solver. cbn. by rewrite Hc.
  - by rewrite Hc.
Qed.

Lemma step_unread c0 input tr y1 e y2 :
  sys_inv c0 input tr y1 -> sys_step y1 e y2 -> drop (y_next y2) (read_requests input) = read_requests (y_input y2).
Proof.
  intros [_ Hu _ _ _] Hs. destruct Hs; cbn in *; try done. by eapply drop_taken.
Qed.

Lemma step_taken c0 input tr y1 e y2 k r :
  sys_inv c0 input tr y1 -> sys_step y1 e y2 ->
  (k, r) ∈ y_started y2 ++ option_list (y_lock y2) -> read_requests input !! k = Some r.
Proof.
  intros [_ Hu Ht _ _] Hs Hin. destruct Hs; cbn in *; try (apply Ht; set_solver).
  apply elem_of_app in Hin as [Hin|Hin]; [|apply Ht; set_solver].
  apply elem_of_app in Hin as [Hin|Hin]; [apply Ht; set_solver|].
  apply list_elem_of_singleton in Hin. simplify_eq. by eapply drop_taken.
Qed.

Lemma step_once c0 input tr y1 e y2 :
  sys_inv c0 input tr y1 -> sys_step y1 e y2 ->
  seq 0 (y_next y2) ≡ₚ (y_started y2 ++ option_list (y_lock y2)).*1 ++
    (replay (read_requests input) c0 (tr ++ option_list e)).1.*1.
Proof.
  intros [_ _ Ht Ho _] Hs. destruct Hs; cbn in *; rewrite ?app_nil_r, ?replay_app; cbn; try done.
  - change (0%nat :: seq 1 n) with (seq 0 (S n)). rewrite seq_S, Ho, !fmap_app. cbn. solve_Permutation.
  - rewrite Ho, !fmap_app. cbn. solve_Permutation.
  - rewrite (Ht k r) by set_solver. cbn. refine (finish_once _ _ _ _ _ _ _ Ho). rewrite fmap_app. cbn. solve_Permutation.
  - rewrite (Ht k r) by set_solver. cbn. refine (finish_once _ _ _ _ _ _ _ Ho). rewrite !fmap_app. cbn. solve_Permutation.
Qed.
Lemma step_sent c0 input tr y1 e y2 :
  sys_inv c0 input tr y1 -> sys_step y1 e y2 -> y_open y2 = true ->
  exists sent, y_out y2 = mjoin (encode_response <$> sent.*2) ++ sys_writing y2 /\
    (replay (read_requests input) c0 (tr ++ option_list e)).1 ≡ₚ
      sent ++ option_list (y_writer y2) ++ y_answered y2 /\
    (forall k, Written k ∈ tr ++ option_list e -> k ∈ sent.*1).
Proof.
  intros [Hcore _ Ht _ Hsent] Hs Hopen.
  destruct Hs; cbn in *; try discriminate Hopen; destruct (Hsent ltac:(done)) as (sent & Hout & Hp & Hw);
    rewrite ?app_nil_r, ?replay_app; cbn.
  all: try (exists sent; split_and!; [done|done|set_solver]).
  - rewrite (Ht k r) by set_solver. cbn. exists sent. rewrite Hp, Hcore.
    split_and!; [done | solve_Permutation | set_solver].
  - rewrite (Ht k r) by set_solver. cbn. exists sent. rewrite Hp, Hcore.
    split_and!; [done | solve_Permutation | set_solver].
  - exists sent. cbn in Hout. rewrite app_nil_r in Hout. rewrite Hp, Hout.
    split_and!; [done | cbn; solve_Permutation | done].
  - exists (sent ++ [(k, a)]). unfold sys_writing in *. cbn in *.
    rewrite Hp, Hout, !fmap_app, join_app. cbn. rewrite !app_nil_r, <- !app_assoc.
    split_and!; [done | solve_Permutation | set_solver].
Qed.

Lemma sys_inv_step c0 input tr y1 e y2 :
  sys_inv c0 input tr y1 -> sys_step y1 e y2 -> sys_inv c0 input (tr ++ option_list e) y2.
Proof.
  intros Hi Hs. split; [eapply step_core | eapply step_unread | intros; eapply step_taken
                       | eapply step_once | eapply step_sent]; done.
Qed.

Lemma runs_inv c0 input tr y : runs (sys_init c0 input) tr y -> sys_inv c0 input tr y.
Proof.
  induction 1 as [|tr y1 e y2 _ IH Hs]; [|by eapply sys_inv_step].
  split; try done; [set_solver|]. intros _. exists []. split_and!; [done..|set_solver].
Qed.

(** Finished requests are those the answers name, and are taken requests. *)
Lemma runs_split y0 tr y : runs y0 tr y -> forall t1 e t2, tr = t1 ++ e :: t2 ->
  exists y1 y2, runs y0 t1 y1 /\ sys_step y1 (Some e) y2 /\ runs y0 (t1 ++ [e]) y2.
Proof.
  induction 1 as [|tr y1 e' y2 Hr IH Hs]; intros t1 e t2 Heq; [by destruct t1|].
  destruct e' as [e'|]; cbn in Heq; [|rewrite app_nil_r in Heq; by eapply IH].
  destruct t2 as [|e2 t2 _] using rev_ind.
  - apply app_inj_tail in Heq as [-> ->]. exists y1, y2. split_and!; [done..|].
    apply (runs_snoc _ _ _ (Some e) _ Hr Hs).
  - rewrite app_comm_cons, app_assoc in Heq. apply app_inj_tail in Heq as [-> ->]. by eapply IH.
Qed.

Lemma answers_below c0 input tr y k :
  sys_inv c0 input tr y -> k ∈ (replay (read_requests input) c0 tr).1.*1 -> (k < y_next y)%nat.
Proof.
  intros Hi Hk. assert (k ∈ seq 0 (y_next y)) as Hin by (rewrite (inv_once _ _ _ _ Hi); set_solver).
  apply elem_of_seq in Hin. lia.
Qed.

Lemma written_answered c0 input tr y k :
  sys_inv c0 input tr y -> y_open y = true -> Written k ∈ tr ->
  k ∈ (replay (read_requests input) c0 tr).1.*1.
Proof.
  intros Hi Ho Hk. destruct (inv_sent _ _ _ _ Hi Ho) as (sent & _ & Hp & Hw). apply Hw in Hk.
  rewrite Hp, fmap_app. set_solver.
Qed.

Lemma replay_grows reqs c tr1 tr2 :
  exists later, (replay reqs c (tr1 ++ tr2)).1 = (replay reqs c tr1).1 ++ later.
Proof.
  induction tr2 as [|e tr2 [later IH]] using rev_ind; [exists []; by rewrite !app_nil_r|].
  rewrite app_assoc, replay_app. cbn. destruct e; cbn; try by exists later.
  destruct (reqs !! k); [|by exists later]. cbn. rewrite IH, <- app_assoc. by eexists.
Qed.

Lemma replay_valid reqs c tr k : k ∈ (replay reqs c tr).1.*1 -> (k < length reqs)%nat.
Proof.
  induction tr as [|e tr IH] using rev_ind; [cbn; set_solver|].
  rewrite replay_app. cbn. destruct e as [|k' others| |]; cbn; try done.
  destruct (reqs !! k') eqn:E; [|done]. cbn. apply lookup_lt_Some in E. rewrite fmap_app. set_solver.
Qed.

(** ** Linearizability *)


(** ** A client that waits for its answers *)

(** Every request is sent after the answers to all earlier ones; [written] are the answers
    before the trace. *)
Fixpoint awaits (written : list nat) (tr : list event) : bool :=
  match tr with
  | [] => true
  | Accepted j :: tr => bool_decide (Forall (fun i => i ∈ written) (seq 0 j)) && awaits written tr
  | Written i :: tr => awaits (i :: written) tr
  | _ :: tr => awaits written tr
  end.

Lemma awaits_app tr1 tr2 : forall w, awaits w (tr1 ++ tr2) = true -> awaits w tr1 = true.
Proof.
  induction tr1 as [|e tr1 IH]; intros w; [done|]. destruct e; cbn; try apply IH.
  intros [-> ?]%andb_true_iff. by apply IH.
Qed.

Lemma awaits_accept tr j : forall w,
  awaits w (tr ++ [Accepted j]) = true -> forall i, (i < j)%nat -> i ∈ w \/ Written i ∈ tr.
Proof.
  induction tr as [|e tr IH]; intros w; cbn.
  - rewrite andb_true_r. intros H%bool_decide_eq_true i Hi. left. rewrite Forall_forall in H.
    apply H, elem_of_seq. lia.
  - destruct e as [j'|k o|i'|name]; [intros [_ H]%andb_true_iff | intros H | intros H | intros H];
      intros i Hi; specialize (IH _ H i Hi); set_solver.
Qed.

(** Its requests are answered in the order in which they were sent. *)
Definition in_order (answers : list (nat * response)) (y : system) : Prop :=
  answers.*1 = seq 0 (length answers) /\ (y_next y <= S (length answers))%nat.

(** With all earlier requests answered, the one executed is the next. *)
Lemma pending_is_next c0 input tr y k r :
  sys_inv c0 input tr y -> in_order (replay (read_requests input) c0 tr).1 y ->
  (k, r) ∈ y_started y ++ option_list (y_lock y) -> k = length (replay (read_requests input) c0 tr).1.
Proof.
  intros Hi [Ho Hn] Hin. pose proof (inv_once _ _ _ _ Hi) as Hp.
  assert (k ∈ seq 0 (y_next y)) as Hk by (rewrite Hp; apply elem_of_app; left; apply list_elem_of_fmap; by exists (k, r)).
  assert (k ∉ seq 0 (length (replay (read_requests input) c0 tr).1)) as Hk'.
  { rewrite <- Ho. pose proof (NoDup_seq 0 (y_next y)) as Hd. rewrite Hp in Hd.
    apply NoDup_app in Hd as (_ & Hd & _). apply Hd, list_elem_of_fmap. by exists (k, r). }
  rewrite elem_of_seq in Hk, Hk'. lia.
Qed.

Lemma in_order_finish reqs answers others c k r y1 y2 :
  in_order answers y1 -> reqs !! k = Some r -> k = length answers -> y_next y2 = y_next y1 ->
  in_order (replay_one reqs (answers, c) (Finished k others)).1 y2.
Proof.
  intros [Ho Hn] Hk -> Hy. cbn. rewrite Hk. cbn. split.
  - rewrite fmap_app, Ho, length_app. cbn. by rewrite Nat.add_1_r, seq_S.
  - rewrite length_app, Hy. cbn. lia.
Qed.

Lemma in_order_step c0 input tr y1 e y2 :
  sys_inv c0 input tr y1 -> sys_step y1 e y2 -> awaits [] (tr ++ option_list e) = true ->
  in_order (replay (read_requests input) c0 tr).1 y1 ->
  in_order (replay (read_requests input) c0 (tr ++ option_list e)).1 y2.
Proof.
  intros Hi Hs Ha Hord. assert (Hnext := fun k r => pending_is_next _ _ _ _ k r Hi Hord).
  rewrite replay_app. destruct Hs; cbn in *; rewrite ?app_nil_r; try done.
  - destruct Hord as [Ho Hn]. cbn in Hn. split; [done|]. cbn.
    destruct (decide (n <= length (replay (read_requests input) c0 tr).1)%nat) as [|Hgt]; [lia|].
    destruct (awaits_accept tr n [] Ha (length (replay (read_requests input) c0 tr).1)) as [Hin|Hin]; [lia|set_solver|].
    apply (written_answered _ _ _ _ _ Hi ltac:(done)) in Hin. rewrite Ho, elem_of_seq in Hin. lia.
  - destruct (replay (read_requests input) c0 tr) as [answers c'] eqn:E.
    eapply (in_order_finish _ _ _ _ k r); [exact Hord | | | done].
    + apply (inv_taken _ _ _ _ Hi). set_solver.
    + apply (Hnext k r). set_solver.
  - destruct (replay (read_requests input) c0 tr) as [answers c'] eqn:E.
    eapply (in_order_finish _ _ _ _ k r); [exact Hord | | | done].
    + apply (inv_taken _ _ _ _ Hi). set_solver.
    + apply (Hnext k r). set_solver.
Qed.

Lemma runs_in_order c0 input tr y :
  runs (sys_init c0 input) tr y -> awaits [] tr = true -> in_order (replay (read_requests input) c0 tr).1 y.
Proof.
  induction 1 as [|tr y1 e y2 Hr IH Hs]; intros Ha; [split; [done|cbn; lia]|].
  eapply in_order_step; [by eapply runs_inv | done | done |]. apply IH. by eapply awaits_app.
Qed.

(** ** What such a client may rely on *)

(** It starts only startable profiles, and none before it has stopped the previous one. *)
Fixpoint alternates (idle : bool) (reqs : list request) : Prop :=
  match reqs with
  | [] => True
  | r :: reqs =>
      match lifecycle_of r with
      | Some (Some inp) => idle = true /\ startable inp /\ alternates false reqs
      | Some None => alternates true reqs
      | None => alternates idle reqs
      end
  end.

Fixpoint idle_after (idle : bool) (reqs : list request) : bool :=
  match reqs with
  | [] => idle
  | r :: reqs =>
      idle_after match lifecycle_of r with Some (Some _) => false | Some None => true | None => idle end reqs
  end.

Lemma alternates_app l1 l2 : forall idle, alternates idle (l1 ++ l2) -> alternates (idle_after idle l1) l2.
Proof.
  induction l1 as [|r l1 IH]; intros idle; [done|]. cbn.
  destruct (lifecycle_of r) as [[inp|]|]; [intros (_ & _ & H) | intros H | intros H]; by apply IH.
Qed.

Lemma idle_after_app l1 l2 : forall idle, idle_after idle (l1 ++ l2) = idle_after (idle_after idle l1) l2.
Proof. induction l1 as [|r l1 IH]; intros idle; [done|]. apply IH. Qed.

(** What a request does to the core. *)
Lemma effect_lifecycle others r c :
  effect others r c =
    match lifecycle_of r with
    | Some (Some inp) => (do_Start inp c).2
    | Some None => do_Stop c
    | None => c
    end.
Proof.
  unfold effect, lifecycle_of, method_on.
  destruct (String.eqb_spec (method_of r) "Start") as [->|].
  - cbn. unfold handle_on. destruct (load_of (req_payload r)) as [inp|]; [|done]. unfold rpc_Start.
    by destruct (do_Start inp c) as [[]].
  - destruct (String.eqb_spec (method_of r) "Stop") as [->|].
    + cbn. unfold handle_on. by destruct (empty_of (req_payload r)).
    + destruct (String.eqb_spec (method_of r) "CheckConfig") as [->|]; [|by case_bool_decide].
      cbn. unfold handle_on. by destruct (load_of (req_payload r)).
Qed.

(** The profile is the client's: idle exactly when it has stopped what it started. *)
Definition kept (idle : bool) (c : core) : Prop := owns c /\ (idle = true -> boxInstance c = None).

Lemma owns_res c c' : res_of c' = res_of c -> owns c -> owns c'.
Proof.
  intros Hr [Hh Hn]. split; [by eapply held_res|]. injection Hr as E1 E2 E3 E4 _ _ _.
  unfold no_xray. rewrite E1, E2, E3, E4. exact Hn.
Qed.

Lemma kept_interface idle name c : kept idle c -> kept idle (do_interface name c).
Proof.
  intros [Ho Hb]. pose proof (do_interface_res name c) as Hr. split; [by eapply owns_res|].
  injection Hr as -> _ _ _ _ _ _. exact Hb.
Qed.

Lemma kept_effect others idle r c :
  alternates idle [r] -> kept idle c -> kept (idle_after idle [r]) (effect others r c).
Proof.
  intros Ha [Ho Hb]. rewrite effect_lifecycle. cbn in *. destruct (lifecycle_of r) as [[inp|]|]; [ | |done].
  - destruct Ha as (-> & Hst & _). split; [|done]. by apply do_Start_owns; [|done|apply Hb].
  - destruct (do_Stop_quiet c Ho) as (? & ? & ?). by split; [apply quiet_owns|].
Qed.

(** Induction over a trace whose requests come in order: [P], of whether the client thinks
    the core idle and of the core, is kept by the callback and by each request in turn. *)
Lemma replay_ordered (P : bool -> core -> Prop) reqs c tr :
  (forall idle name c, P idle c -> P idle (do_interface name c)) ->
  (forall t1 k others t2 r idle, tr = t1 ++ Finished k others :: t2 -> reqs !! k = Some r ->
     alternates idle [r] -> P idle (replay reqs c t1).2 ->
     P (idle_after idle [r]) (effect others r (replay reqs c t1).2)) ->
  P true c -> alternates true reqs ->
  (forall t1 t2, tr = t1 ++ t2 -> (replay reqs c t1).1.*1 = seq 0 (length (replay reqs c t1).1)) ->
  P (idle_after true (take (length (replay reqs c tr).1) reqs)) (replay reqs c tr).2.
Proof.
  intros Hi He H0 Ha. induction tr as [|e tr IH] using rev_ind; intros Ho; [exact H0|].
  assert (P (idle_after true (take (length (replay reqs c tr).1) reqs)) (replay reqs c tr).2) as HP.
  { apply IH.
    - intros t1 k others t2 r idle ->. apply (He t1 k others (t2 ++ [e])). by rewrite <- app_assoc.
    - intros t1 t2 ->. apply (Ho t1 (t2 ++ [e])). by rewrite <- app_assoc. }
  specialize (Ho (tr ++ [e]) [] ltac:(by rewrite app_nil_r)).
  rewrite replay_app in *. cbn in *. destruct e as [|k others| |name]; cbn in *; try done; [|by apply Hi].
  destruct (reqs !! k) as [r|] eqn:Hk; [|done]. cbn in *.
  rewrite length_app, fmap_app in *. cbn in *. rewrite Nat.add_1_r in *. rewrite seq_S in Ho.
  apply app_inj_tail in Ho as [_ ->]. cbn in Hk.
  rewrite (take_S_r _ _ r Hk), idle_after_app. eapply He; [done | done | | exact HP].
  rewrite <- (take_drop_middle _ _ _ Hk) in Ha. apply alternates_app in Ha.
  revert Ha. cbn. destruct (lifecycle_of r) as [[inp|]|]; [|done|done]. by intros (? & ? & _).
Qed.

(** A waiting client's trace is such a trace. *)
Lemma runs_ordered c0 input tr y : runs (sys_init c0 input) tr y -> awaits [] tr = true ->
  forall t1 t2, tr = t1 ++ t2 ->
    (replay (read_requests input) c0 t1).1.*1 = seq 0 (length (replay (read_requests input) c0 t1).1).
Proof.
  intros Hr Ha t1 t2 ->. destruct t2 as [|e t2]; [rewrite app_nil_r in *; by eapply runs_in_order|].
  destruct (runs_split _ _ _ Hr t1 e t2 eq_refl) as (y1 & _ & Hr1 & _).
  eapply runs_in_order; [exact Hr1 | by eapply awaits_app].
Qed.

Lemma waiting_kept c0 input tr y :
  quiet c0 -> runs (sys_init c0 input) tr y -> awaits [] tr = true -> alternates true (read_requests input) ->
  kept (idle_after true (take (length (replay (read_requests input) c0 tr).1) (read_requests input))) (y_core y).
Proof.
  intros Hq Hr Ha Halt. rewrite <- (inv_core _ _ _ _ (runs_inv _ _ _ _ Hr)).
  apply (replay_ordered kept); [apply kept_interface | intros; by apply kept_effect | | done | by eapply runs_ordered].
  split; [by apply quiet_owns|]. intros _. apply Hq.
Qed.


(** ** What is left on the system *)

(** Every profile was started without an error. *)
Definition starts_succeed (reqs : list request) (c : core) (tr : list event) : Prop :=
  forall t1 k others t2 r inp, tr = t1 ++ Finished k others :: t2 -> reqs !! k = Some r ->
    lifecycle_of r = Some (Some inp) -> (do_Start inp (replay reqs c t1).2).1 = Returns None.

(** The files and the processes are those of [c0]. *)
Definition same_os (c0 c : core) : Prop :=
  extraProcess c = None /\ o_files (c_os c) = o_files (c_os c0) /\ o_running (c_os c) = o_running (c_os c0) /\
  os_ok (c_os c).

(** Idle, the system is as it was; else stopping the helper would bring it back. *)
Definition kept_os (c0 : core) (idle : bool) (c : core) : Prop :=
  kept idle c /\
  if idle then same_os c0 c
  else is_Some (boxInstance c) /\ exists c1, same_os c0 c1 /\ restores c1 c.

Lemma same_os_proc c0 c c' : proc_of c' = proc_of c -> same_os c0 c -> same_os c0 c'.
Proof. unfold same_os, proc_of. by intros [= -> ->]. Qed.

Lemma kept_os_interface c0 idle name c : kept_os c0 idle c -> kept_os c0 idle (do_interface name c).
Proof.
  intros [Hk Hos]. pose proof (do_interface_proc name c) as Hp. split; [by apply kept_interface|].
  destruct idle; [by eapply same_os_proc|]. destruct Hos as (Hb & c1 & Hs & Hr). split.
  - pose proof (do_interface_res name c) as Hres. by injection Hres as -> _ _ _ _ _ _.
  - exists c1. split; [done|]. by eapply restores_proc.
Qed.

Lemma kept_os_effect c0 others idle r c :
  (forall inp, lifecycle_of r = Some (Some inp) -> (do_Start inp c).1 = Returns None) ->
  alternates idle [r] -> kept_os c0 idle c -> kept_os c0 (idle_after idle [r]) (effect others r c).
Proof.
  intros Hok Ha [Hk Hos]. split; [by apply kept_effect|].
  rewrite effect_lifecycle. cbn in *. destruct (lifecycle_of r) as [[inp|]|]; [ | |done].
  - destruct Ha as (-> & Hst & _). destruct Hk as [Ho Hb], Hos as (He & Hf & Hr & Hn).
    destruct (do_Start_restores inp c Hst Ho (Hb eq_refl) He Hn (Hok inp eq_refl)) as [Hbox Hres].
    split; [exact Hbox|]. by exists c.
  - destruct Hk as [Ho Hb]. destruct idle; [rewrite do_Stop_idle by auto; exact Hos|].
    destruct Hos as (Hbox & c1 & (He & Hf & Hr & Hn) & (Rf & Rr & Rn)).
    destruct (do_Stop_process c Ho Hbox) as [Hp Hc]. unfold same_os. rewrite Hc, Hp.
    split_and!; [done | congruence | congruence | done].
Qed.


(** ** No request waits for ever *)

(** The steps the goroutines have left. *)
Definition work (y : system) : nat :=
  4 * length (y_started y) + 3 * length (option_list (y_lock y)) +
  2 * length (y_answered y) + length (option_list (y_writer y)).

(** What happens from outside: a request arrives, the peer goes, the interface changes. *)
Definition external (e : option event) (y1 y2 : system) : Prop :=
  match e with
  | Some (Accepted _) | Some (Interface _) => True
  | None => y_open y1 = true /\ y_open y2 = false
  | _ => False
  end.

Lemma step_works y1 e y2 :
  sys_step y1 e y2 -> external e y1 y2 \/ (work y2 < work y1 /\ y_next y2 = y_next y1)%nat.
Proof.
  unfold work. destruct 1; cbn; auto; right; split; try done; rewrite ?length_app; cbn; lia.
Qed.

(** Whoever holds a mutex can go on, and whoever wants a free one can take it. *)
Lemma work_steps y : (0 < work y)%nat -> exists e y', sys_step y e y' /\ ~ external e y y'.
Proof.
  destruct y as [c input o n started [[k r]|] answered [[k' a]|] out]; cbn; intros Hw.
  1, 3: destruct o; eexists _, _; (split; [apply sys_data || apply sys_data_fails|]); cbn; try tauto; by intros [? _].
  - eexists (Some (Finished k (fun _ _ => Returned (Ok [])))), _. split; [apply sys_finish_locked|]. by intros [].
  - destruct started as [|[k r] started].
    + destruct answered as [|[k a] answered]; [cbn in Hw; lia|].
      destruct o; eexists None, _;
        (split; [apply (sys_header _ _ _ _ _ []) || apply (sys_header_fails _ _ _ _ _ [])|]); cbn; by intros [? ?].
    + destruct (takes_lock r) eqn:E.
      * eexists None, _. split; [by apply (sys_acquire _ _ _ _ [])|]. cbn. intros [? ?]; congruence.
      * eexists (Some (Finished k (fun _ _ => Returned (Ok [])))), _. split; [by apply (sys_finish _ _ _ _ _ [])|]. by intros [].
Qed.

Lemma runs_app y0 tr1 y1 : runs y0 tr1 y1 -> forall tr2 y2, runs y1 tr2 y2 -> runs y0 (tr1 ++ tr2) y2.
Proof.
  intros H1. induction 1 as [|tr2 y2 e y3 _ IH Hs]; [by rewrite app_nil_r|].
  rewrite app_assoc. by eapply runs_snoc.
Qed.

Lemma runs_cons y0 e y1 tr y2 : sys_step y0 e y1 -> runs y1 tr y2 -> runs y0 (option_list e ++ tr) y2.
Proof. intros Hs. apply runs_app. apply (runs_snoc _ [] _ e _ (runs_nil _) Hs). Qed.

Lemma drains n : forall y, (work y <= n)%nat -> exists tr y', runs y tr y' /\ work y' = 0%nat /\ y_next y' = y_next y.
Proof.
  induction n as [|n IH]; intros y Hn; [exists [], y; split_and!; [constructor|lia|done]|].
  destruct (decide (work y = 0%nat)); [exists [], y; split_and!; [constructor|done|done]|].
  destruct (work_steps y) as (e & y1 & Hs & He); [lia|].
  destruct (step_works _ _ _ Hs) as [|[Hw Hk]]; [done|].
  destruct (IH y1) as (tr & y2 & Hr & Hw2 & Hk2); [lia|].
  exists (option_list e ++ tr), y2. split_and!; [|done|congruence].
  by eapply runs_cons.
Qed.

End System.

(** ** The lifecycle handlers are such a service *)

Section Lifecycles.
  Context `{Platform} (goos : string) (debugLog : bool).
  Context (shlex_Split : string -> result (list string)).
  Context (box_parse box_New box_Start xray_Create xray_Start gate_Start : string -> result unit).
  Context (gate_Instance : nat -> option nat) (defaultInterfaceFinder : string) (mark_of : string -> Z).
  Context (SetSystemDNS : string -> option string) (CheckXrayConfig boxmain_Check : string -> outcome unit).
  (** The goroutines of a fan-out run in some order, each once. *)
  Context (schedule : list string -> list nat).
  Context (Hschedule : forall configs, schedule configs ≡ₚ seq 1 (length configs - 1)).

#[local] Abbreviation Start := (Start goos debugLog shlex_Split box_parse box_New box_Start xray_Create xray_Start gate_Start
  defaultInterfaceFinder mark_of SetSystemDNS schedule).
#[local] Abbreviation step := (lifecycle_step goos debugLog shlex_Split box_parse box_New box_Start xray_Create xray_Start
  gate_Start defaultInterfaceFinder mark_of SetSystemDNS schedule).

Lemma Start_owns inp c : complete inp -> owns c -> boxInstance c = None -> owns (Start inp c).2.
Proof.
  intros Hc Ho Hb.
  destruct (Start_spec goos debugLog shlex_Split box_parse box_New box_Start xray_Create xray_Start gate_Start
    defaultInterfaceFinder mark_of SetSystemDNS schedule inp c Hc (Hschedule _) (owns_quiet c Ho Hb))
    as (out & c' & HS & _).
  eapply lifecycle_owns; [|exact Ho]. rewrite HS. eapply step_start; [exact Hc | apply Hschedule | exact Hb | exact HS].
Qed.

Lemma Start_restores inp c :
  complete inp -> owns c -> boxInstance c = None -> extraProcess c = None -> os_ok (c_os c) ->
  (Start inp c).1 = Returns None -> is_Some (boxInstance (Start inp c).2) /\ restores c (Start inp c).2.
Proof.
  intros Hc Ho Hb He Hn Hok.
  destruct (Start_spec goos debugLog shlex_Split box_parse box_New box_Start xray_Create xray_Start gate_Start
    defaultInterfaceFinder mark_of SetSystemDNS schedule inp c Hc (Hschedule _) (owns_quiet c Ho Hb))
    as (out & c' & HS & Hout).
  rewrite HS in *. cbn in *. injection Hok as ->. destruct Hout as (_ & Hbox & _ & Hres). auto.
Qed.

Lemma Stop_process c : owns c -> is_Some (boxInstance c) ->
  extraProcess (Lifecycle.Stop SetSystemDNS c) = None /\
  c_os (Lifecycle.Stop SetSystemDNS c) = c_os (stop_process c).
Proof.
  intros Ho [b Hb]. destruct (Stop_spec SetSystemDNS c Ho) as [_ Hf]. rewrite Hb in Hf.
  by destruct Hf as (_ & _ & He & Hos).
Qed.

Lemma Stop_idle c : boxInstance c = None -> Lifecycle.Stop SetSystemDNS c = c.
Proof. unfold Lifecycle.Stop. by intros ->. Qed.

Lemma interface_proc name l : forall c, proc_of (foldl (fun c i => SetEgress i (name, autoRedirectMark c) c) c l) = proc_of c.
Proof. induction l as [|i l IH]; intros c; [done|]. cbn [foldl]. by rewrite IH. Qed.

Lemma interface_res name l : forall c, res_of (foldl (fun c i => SetEgress i (name, autoRedirectMark c) c) c l) = res_of c.
Proof. induction l as [|i l IH]; intros c; [done|]. cbn [foldl]. by rewrite IH. Qed.

#[export] Instance lifecycle_service : ProfileService := {
  do_Start := Start;
  do_Stop := Lifecycle.Stop SetSystemDNS;
  do_CheckConfig := CheckConfig CheckXrayConfig boxmain_Check;
  do_interface := on_default_interface gate_Instance;
  startable := complete;
  do_Start_owns := Start_owns;
  do_Start_restores := Start_restores;
  do_Stop_idle := Stop_idle;
  do_Stop_process := Stop_process;
  do_interface_proc name c := interface_proc name (liveXrayInstances gate_Instance c) c;
  do_Stop_quiet c Ho := proj1 (Stop_spec SetSystemDNS c Ho);
  do_interface_res name c := interface_res name (liveXrayInstances gate_Instance c) c
}.
End Lifecycles.

(** ** A client that starts a profile and stops it *)

Module Session.
#[local] Instance service : ProfileService :=
  lifecycle_service (H := sample_platform) "linux" false (fun s => Ok (fields s)) Sample.ok Sample.ok Sample.starts
    Sample.ok Sample.starts Sample.starts (fun _ => None) "eth0" (fun _ => 8227) (fun _ => None)
    (fun _ => Returns tt) (fun _ => Returns tt) Sample.schedule sample_schedule.

Definition load (_ : list byte) : result LoadConfigReq := Ok Sample.request.
Definition empty (_ : list byte) : result unit := Ok tt.
Definition error_resp (e : option string) : result (list byte) := Ok (list_byte_of_string (default "" e)).

Definition start_request : request := Request 7 (list_byte_of_string "Start") [].
Definition stop_request : request := Request 8 (list_byte_of_string "Stop") [].
Definition input : list byte := encode_request start_request ++ encode_request stop_request.

(** Nothing else is asked for. *)
Definition others (_ : string) (_ : list byte) : Frames.outcome (list byte) := Returned (Ok []).

Definition trace : list event :=
  [Accepted 0; Finished 0 others; Written 0; Interface "wlan0"; Accepted 1; Finished 1 others; Written 1].

Abbreviation runs := (runs load empty error_resp).
Abbreviation replay := (replay load empty error_resp).

Lemma input_requests : read_requests input = [start_request; stop_request].
Proof. vm_compute. reflexivity. Qed.

(** One request over the idle connection: read, executed under the mutex, answered. *)
Lemma one_request c input n out r rest :
  read_request input = Some (r, rest) -> takes_lock load empty r = true ->
  let a := response_of load empty error_resp others r c in
  runs (Sys c input true n [] None [] None out) [Accepted n; Finished n others; Written n]
    (Sys (effect load empty error_resp others r c) rest true (S n) [] None [] None ((out ++ encode_header a) ++ a.2)).
Proof.
  intros Hr Hl a.
  apply (runs_cons _ _ _ _ (Some (Accepted n)) _ [Finished n others; Written n] _ (sys_accept _ _ _ _ _ r rest _ _ _ _ _ _ Hr)).
  apply (runs_cons _ _ _ _ None _ [Finished n others; Written n] _ (sys_acquire _ _ _ _ _ _ _ [] n r [] _ _ _ Hl)).
  apply (runs_cons _ _ _ _ (Some (Finished n others)) _ [Written n] _ (sys_finish_locked _ _ _ _ _ _ _ _ _ n r _ _ _)).
  apply (runs_cons _ _ _ _ None _ [Written n] _ (sys_header _ _ _ _ _ _ _ _ [] n a [] _)).
  apply (runs_cons _ _ _ _ (Some (Written n)) _ [] _ (sys_data _ _ _ _ _ _ _ _ _ n a _)). apply runs_nil.
Qed.

Definition started : core := effect load empty error_resp others start_request Sample.core0.
Definition changed : core := do_interface "wlan0" started.
Definition stopped : core := effect load empty error_resp others stop_request changed.

Definition send (out : list byte) (r : request) (c : core) : list byte :=
  let a := response_of load empty error_resp others r c in (out ++ encode_header a) ++ a.2.

Definition finish : system :=
  Sys stopped [] true 2 [] None [] None (send (send [] start_request Sample.core0) stop_request changed).

Lemma start_read : read_request input = Some (start_request, encode_request stop_request).
Proof. vm_compute. reflexivity. Qed.

Lemma stop_read : read_request (encode_request stop_request) = Some (stop_request, []).
Proof. vm_compute. reflexivity. Qed.

Lemma session : runs (sys_init Sample.core0 input) trace finish.
Proof.
  apply (runs_app _ _ _ _ [Accepted 0; Finished 0 others; Written 0] _
    (one_request _ _ _ _ _ _ start_read eq_refl)
    [Interface "wlan0"; Accepted 1; Finished 1 others; Written 1]).
  apply (runs_cons _ _ _ _ (Some (Interface "wlan0")) _ [Accepted 1; Finished 1 others; Written 1] _
    (sys_interface _ _ _ "wlan0" _ _ _ _ _ _ _ _ _)).
  apply (one_request _ _ _ _ _ _ stop_read eq_refl).
Qed.

Lemma session_order : (replay (read_requests input) Sample.core0 trace).1.*1 = [0; 1]%nat.
Proof. rewrite input_requests. cbn. reflexivity. Qed.



Lemma session_starts : starts_succeed load empty error_resp (read_requests input) Sample.core0 trace.
Proof.
  rewrite input_requests. intros t1 k o t2 r inp Ht Hk Hl.
  destruct t1 as [|e0 [|e1 [|e2 [|e3 [|e4 [|e5 [|e6 t1]]]]]]]; try discriminate Ht.
  - injection Ht as <- <- _ _. injection Hk as <-. injection Hl as <-. vm_compute. reflexivity.
  - injection Ht as _ _ _ _ _ <- _ _. by injection Hk as <-.
  - injection Ht as _ _ _ _ _ _ _ Ht. by destruct t1.
Qed.



(** Without waiting, a [Stop] may be executed before the [Start] sent ahead of it: both
    succeed and the profile stays up. *)
Lemma pipelined_stop_overtakes_start :
  let '(answers, c) := replay [start_request; stop_request] Sample.core0
    [Accepted 0; Accepted 1; Finished 1 others; Finished 0 others] in
  answers = [(1%nat, (8, 0, [])); (0%nat, (7, 0, []))] /\ boxInstance c = Some 0%nat.
Proof. vm_compute. done. Qed.
End Session.
