(* ===== verification/Sidecars.v ===== *)
(** * The gates of a profile under the request loop

    [Lifecycle] knows of a lazy Xray only that a gate was opened and when it was closed;
    [Gate] knows everything of one gate but not who closes it. Here they run side by side: a
    request starts and closes gates through the core, and each gate's goroutines go on by
    themselves, before, during and after the stop. *)

From S2P Require Import Prelude Frames Process Lifecycle System.
From S2P Require Gate.
#[local] Open Scope list_scope.

(** ** The numbers of gates *)

(** A gate that is alive was alive before or has a new number. *)
Definition pool_grows (p p' : pool) : Prop :=
  (p_next p <= p_next p')%nat /\
  forall g, g ∈ p_live p' -> g ∈ p_live p \/ (p_next p <= g < p_next p')%nat.

Definition gates_grow (c c' : core) : Prop := pool_grows (c_gates c) (c_gates c').

#[export] Instance pool_grows_preorder : PreOrder pool_grows.
Proof.
  split; [intros p; split; [done | by left]|]. intros p1 p2 p3 [H1 H2] [H3 H4]. split; [lia|].
  intros g [Hg|Hg]%H4; [|right; lia]. apply H2 in Hg as [Hg|Hg]; [by left | right; lia].
Qed.

#[export] Instance gates_grow_preorder : PreOrder gates_grow.
Proof. split; [intros c; unfold gates_grow; done | intros c1 c2 c3; unfold gates_grow; apply transitivity]. Qed.

Lemma pool_grows_alloc p : pool_grows p (alloc p).
Proof. split; cbn; [lia|]. intros g. rewrite elem_of_union, elem_of_singleton. intros [->|?]; [right; lia | by left]. Qed.

Lemma pool_grows_release_all xs p : pool_grows p (release_all xs p).
Proof.
  split; [by rewrite p_next_release_all|]. intros g. rewrite p_live_release_all, elem_of_difference. intros [? _]. by left.
Qed.

Section Gates.
  Context `{Platform} (goos : string) (debugLog : bool).
  Context (shlex_Split : string -> result (list string)).
  Context (box_parse box_New box_Start xray_Create xray_Start gate_Start : string -> result unit).
  Context (defaultInterfaceFinder : string) (mark_of : string -> Z).
  Context (SetSystemDNS : string -> option string) (schedule : list string -> list nat).

Lemma start_gate_grows cfg p : pool_grows p (start_gate gate_Start cfg p).2.
Proof. unfold start_gate. destruct (gate_Start cfg); [apply pool_grows_alloc | done]. Qed.

Lemma start_at_grows configs order : forall s p, pool_grows p (foldl (start_at gate_Start configs) (s, p) order).2.
Proof.
  induction order as [|i order IH]; intros s p; [done|]. cbn [foldl start_at].
  destruct (configs !! i) as [cfg|]; [|apply IH]. pose proof (start_gate_grows cfg p) as Hg.
  destruct (start_gate gate_Start cfg p) as [[g|e] p1]; (etrans; [exact Hg | apply IH]).
Qed.

Lemma startXrayFullGates_grows configs p : pool_grows p (startXrayFullGates gate_Start schedule configs p).2.
Proof.
  unfold startXrayFullGates. destruct configs as [|cfg rest]; [done|].
  pose proof (start_gate_grows cfg p) as Hg. destruct (start_gate gate_Start cfg p) as [[g|e] p1]; [|exact Hg].
  match goal with |- context [foldl ?f (?s, ?q) ?o] => pose proof (start_at_grows (cfg :: rest) o s q) as Hf;
    destruct (foldl f (s, q) o) as [s1 p2] end.
  etrans; [exact Hg|]. etrans; [exact Hf|]. destruct (omap id (s_errs s1)); [done | apply pool_grows_release_all].
Qed.

Lemma closeXray_grows c : gates_grow c (closeXray c).
Proof. apply pool_grows_release_all. Qed.

Lemma stop_process_gates c : c_gates (stop_process c) = c_gates c.
Proof. unfold stop_process. by destruct (extraProcess c). Qed.

Lemma close_process_grows c : gates_grow c (closeXray (stop_process c)).
Proof. etrans; [|apply closeXray_grows]. unfold gates_grow. by rewrite stop_process_gates. Qed.

#[local] Hint Resolve close_process_grows : core.

(** What leaves the gates alone. *)
Lemma grows_same c c' : c_gates c' = c_gates c -> gates_grow c c'.
Proof. unfold gates_grow. by intros ->. Qed.

Lemma start_extra_grows inp : keeps gates_grow (start_extra shlex_Split inp).
Proof.
  unfold start_extra. keeps_steps.
  - destruct (ExtraProcessConf inp); keeps_steps; [|destruct a0 as [path cleanup]; keeps_steps].
    intros c. unfold with_os. destruct (create_extra_config s (c_os c)) as [r o]. by apply grows_same.
  - destruct a0 as [args cleanup]. keeps_steps. intros c. unfold start_process.
    destruct (Process.Start _ _ _) as [[err p] o]. by apply grows_same.
Qed.

Lemma create_grows cfg : keeps gates_grow (create_instance xray_Create cfg).
Proof. intros c. unfold create_instance. destruct (xray_Create cfg); by apply grows_same. Qed.

Lemma start_xray_grows inp strategy holder :
  keeps gates_grow (start_xray xray_Create xray_Start gate_Start inp (xrayPreparer defaultInterfaceFinder strategy holder)).
Proof.
  unfold start_xray. keeps_steps. destruct (get_bool _).
  - intros c. unfold mbind, prog_bind, gets. pose proof (start_gate_grows a0 (c_gates c)) as Hg.
    destruct (start_gate gate_Start a0 (c_gates c)) as [[g|e] p]; [exact Hg | done].
  - keeps_steps; try apply create_grows; try by apply grows_same.
    unfold xrayPreparer. keeps_steps; [by apply grows_same|]. case_match; keeps_steps; by apply grows_same.
Qed.

Lemma start_full_gates_grows inp : keeps gates_grow (start_full_gates gate_Start schedule inp).
Proof.
  intros c. unfold start_full_gates. destruct (XrayFullConfigs inp) as [|cfg rest]; [done|].
  pose proof (startXrayFullGates_grows (cfg :: rest) (c_gates c)) as Hg.
  destruct (startXrayFullGates _ _ _ _) as [[gs|e] p]; [exact Hg|].
  change (gates_grow c (closeXray (on_gates (fun _ => p) c))). etrans; [|apply closeXray_grows]. exact Hg.
Qed.

Lemma Create_grows content holder :
  keeps gates_grow (boxmain_Create box_parse box_New box_Start content (fun b => publish holder (Some b))).
Proof. unfold boxmain_Create. keeps_steps; by apply grows_same. Qed.

Lemma Start_gates inp c :
  gates_grow c (Lifecycle.Start goos debugLog shlex_Split box_parse box_New box_Start xray_Create xray_Start gate_Start
    defaultInterfaceFinder mark_of SetSystemDNS schedule inp c).2.
Proof.
  assert (keeps gates_grow (start_body goos debugLog shlex_Split box_parse box_New box_Start xray_Create xray_Start
    gate_Start defaultInterfaceFinder mark_of SetSystemDNS schedule inp)) as Hk.
  { unfold start_body. keeps_steps; try (by apply grows_same);
      first [apply start_extra_grows | apply start_xray_grows | apply start_full_gates_grows | apply Create_grows | idtac].
    - intros c1. by apply grows_same.
    - apply close_process_grows.
    - unfold start_darwin. keeps_steps. repeat case_match; keeps_steps; try (by apply grows_same).
      all: unfold stopAllCores; (etrans; [|apply close_process_grows]); by apply grows_same. }
  specialize (Hk c). unfold Lifecycle.Start. by destruct (start_body _ _ _ _ _ _ _ _ _ _ _ _ _ inp c) as [[u|e|e] c'].
Qed.

Lemma Stop_gates c : gates_grow c (Lifecycle.Stop SetSystemDNS c).
Proof.
  unfold Lifecycle.Stop. destruct (boxInstance c); [|done]. etrans; [|apply close_process_grows].
  apply grows_same. by destruct (needUnsetDNS c).
Qed.
End Gates.

(** ** The callback of the interface monitor

    It sets the egress of instances, which no handler looks at. *)
Definition but_egress (c1 c2 : core) : Prop := exists e, c2 = set_settings (c_holders c1) e (c_dns c1) c1.

Section Egress.
  Context `{Platform} (goos : string) (debugLog : bool).
  Context (shlex_Split : string -> result (list string)).
  Context (box_parse box_New box_Start xray_Create xray_Start gate_Start : string -> result unit).
  Context (gate_Instance : nat -> option nat) (defaultInterfaceFinder : string) (mark_of : string -> Z).
  Context (SetSystemDNS : string -> option string) (schedule : list string -> list nat).

(** By computation: what the step does to the rest does not depend on the egress. *)
#[local] Ltac but_egress := intros ? ? [? ->]; eexists; reflexivity.

Lemma closeXray_egress c1 c2 : but_egress c1 c2 -> but_egress (closeXray c1) (closeXray c2).
Proof. revert c1 c2. but_egress. Qed.

Lemma stop_process_egress c1 c2 : but_egress c1 c2 -> but_egress (stop_process c1) (stop_process c2).
Proof. intros [e ->]. unfold stop_process. cbn. destruct (extraProcess c1); eexists; reflexivity. Qed.

Lemma SetEgress_egress i c1 c2 e1 e2 : but_egress c1 c2 -> but_egress (SetEgress i e1 c1) (SetEgress i e2 c2).
Proof. intros [e ->]. eexists; reflexivity. Qed.

Lemma start_extra_egress inp : agrees but_egress (start_extra shlex_Split inp).
Proof.
  unfold start_extra. agrees_steps.
  - destruct (ExtraProcessConf inp) as [conf|]; agrees_steps; [|destruct a0 as [path cleanup]; agrees_steps].
    intros c1 c2 [e ->]. unfold with_os. cbn. destruct (create_extra_config conf (c_os c1)) as [r o].
    split; [done | by eexists].
  - destruct a0 as [args cleanup]. agrees_steps. intros c1 c2 [e ->]. unfold start_process. cbn.
    destruct (Process.Start _ _ _) as [[[err|] p] o]; (split; [done | by eexists]).
Qed.

Lemma prepare_egress strategy holder i : agrees but_egress (xrayPreparer defaultInterfaceFinder strategy holder i).
Proof.
  intros c1 c2 H0. unfold xrayPreparer, mbind, prog_bind, gets, modify.
  destruct (String.eqb strategy EmptyString); (split; [done|]); cbn; destruct H0 as [e ->]; by eexists.
Qed.

Lemma start_xray_egress inp strategy holder :
  agrees but_egress (start_xray xray_Create xray_Start gate_Start inp (xrayPreparer defaultInterfaceFinder strategy holder)).
Proof.
  unfold start_xray. agrees_steps. destruct (get_bool _).
  - intros c1 c2 [e ->]. unfold mbind, prog_bind, gets. cbn.
    destruct (start_gate gate_Start a0 (c_gates c1)) as [[g|m] p]; (split; [done | by eexists]).
  - agrees_steps; try apply prepare_egress; try (revert s1 s2 H0; but_egress).
    intros c1 c2 [e ->]. unfold create_instance. destruct (xray_Create a0); (split; [done | by eexists]).
Qed.

Lemma start_full_gates_egress inp : agrees but_egress (start_full_gates gate_Start schedule inp).
Proof.
  intros c1 c2 [e ->]. unfold start_full_gates. destruct (XrayFullConfigs inp) as [|cfg rest]; [split; [done | by eexists]|].
  cbn [c_gates set_settings]. destruct (startXrayFullGates _ _ _ _) as [[gs|m] p]; (split; [done | by eexists]).
Qed.

Lemma start_body_egress inp :
  agrees but_egress (start_body goos debugLog shlex_Split box_parse box_New box_Start xray_Create xray_Start gate_Start
    defaultInterfaceFinder mark_of SetSystemDNS schedule inp).
Proof.
  unfold start_body. agrees_steps; try (revert s1 s2 H0; but_egress); try (by destruct H0 as [e ->]).
  - apply start_extra_egress.
  - intros c1 c2 [e ->]. split; [done | by eexists].
  - apply start_xray_egress.
  - apply start_full_gates_egress.
  - unfold boxmain_Create. agrees_steps; try (revert s1 s2 H0; but_egress); by destruct H0 as [e ->].
  - by apply closeXray_egress, stop_process_egress.
  - unfold start_darwin. agrees_steps. repeat case_match; agrees_steps.
    all: try (unfold stopAllCores; apply closeXray_egress, stop_process_egress).
    all: match goal with H : but_egress _ _ |- _ => destruct H as [e ->] end; by eexists.
Qed.

Lemma interface_egress name c : but_egress c (on_default_interface gate_Instance name c).
Proof.
  unfold on_default_interface. generalize (liveXrayInstances gate_Instance c) as l. intros l.
  enough (forall c', but_egress c c' ->
    but_egress c (foldl (fun c i => SetEgress i (name, autoRedirectMark c) c) c' l)) as He
    by (apply He; exists (c_egress c); by destruct c).
  induction l as [|i l IH]; intros c' Hc; [done|]. apply IH. destruct Hc as [e ->]. by eexists.
Qed.

Lemma Start_interface inp name c :
  c_gates (Lifecycle.Start goos debugLog shlex_Split box_parse box_New box_Start xray_Create xray_Start gate_Start
    defaultInterfaceFinder mark_of SetSystemDNS schedule inp (on_default_interface gate_Instance name c)).2 =
  c_gates (Lifecycle.Start goos debugLog shlex_Split box_parse box_New box_Start xray_Create xray_Start gate_Start
    defaultInterfaceFinder mark_of SetSystemDNS schedule inp c).2.
Proof.
  destruct (start_body_egress inp _ _ (interface_egress name c)) as [He Hr]. unfold Lifecycle.Start.
  destruct (start_body _ _ _ _ _ _ _ _ _ _ _ _ _ inp c) as [r1 c1],
    (start_body _ _ _ _ _ _ _ _ _ _ _ _ _ inp (on_default_interface gate_Instance name c)) as [r2 c2].
  cbn in *. subst r2. destruct Hr as [e ->]. by destruct r1.
Qed.

Lemma Stop_interface name c :
  c_gates (Lifecycle.Stop SetSystemDNS (on_default_interface gate_Instance name c)) =
  c_gates (Lifecycle.Stop SetSystemDNS c).
Proof.
  destruct (interface_egress name c) as [e ->]. unfold Lifecycle.Stop. cbn. destruct (boxInstance c); [|done].
  destruct (needUnsetDNS c); unfold stop_process; cbn; by destruct (extraProcess c).
Qed.
End Egress.

(** ** A closed gate empties

    After [Close] only goroutines that are on their way out are left of a gate. *)

Section Drain.
  Context (idle : Z) (xray_create : nat -> result unit) (prepare : option (nat -> result unit))
          (xray_start : nat -> result unit).

#[local] Abbreviation gate_step := (Gate.gate_step idle xray_create prepare xray_start).
#[local] Abbreviation handler_step := (Gate.handler_step xray_create prepare xray_start).
#[local] Abbreviation reachable := (Gate.reachable idle xray_create prepare xray_start).

(** The steps a connection's goroutine can have left. *)
Definition handler_left (pc : Gate.handler) : nat :=
  match pc with
  | Gate.HAccepted => 14 | Gate.HTracked => 13 | Gate.HAdded => 12 | Gate.HCounted => 11
  | Gate.HReady _ => 10 | Gate.HDialed _ _ => 9 | Gate.HRelaying _ _ n => 8 - n
  | Gate.HForgotUpstream _ => 5 | Gate.HLeaving => 4 | Gate.HLeft => 3 | Gate.HTouched => 2
  | Gate.HForgot => 1 | Gate.HFinished => 0
  end.

Definition handlers_left (h : gmap nat Gate.handler) : nat := map_fold (fun _ pc n => handler_left pc + n)%nat 0%nat h.

Definition relays_ok (pc : Gate.handler) : Prop :=
  match pc with Gate.HRelaying _ _ n => (n <= 2)%nat | _ => True end.

Lemma handler_step_left c pc g w pc' g' w' :
  handler_step c pc g w pc' g' w' -> (handler_left pc' < handler_left pc)%nat /\ relays_ok pc'.
Proof. destruct 1; cbn; lia. Qed.

Lemma handlers_left_insert c pc pc' h :
  h !! c = Some pc -> (handlers_left (<[c := pc']> h) + handler_left pc = handlers_left h + handler_left pc')%nat.
Proof.
  intros Hc. unfold handlers_left. rewrite <- (insert_delete_id h c pc Hc) at 2. rewrite <- insert_delete_eq.
  rewrite !map_fold_insert_L; try (by apply lookup_delete_eq); [lia | intros; lia..].
Qed.

(** What [Close] has done to the gate, by where it is, and what holds of the goroutines. *)
Record shutting (s : Gate.gstate) : Prop := {
  sh_stopped : Gate.g_stopped (Gate.gs_gate s) =
    match Gate.gs_closer s with Gate.CNotCalled | Gate.CTook _ => false | _ => true end;
  sh_listening : Gate.g_listening (Gate.gs_gate s) =
    match Gate.gs_closer s with Gate.CNotCalled | Gate.CTook _ | Gate.CStopped _ => true | _ => false end;
  sh_relays : forall c pc, Gate.gs_handlers s !! c = Some pc -> relays_ok pc
}.

(** Only [Close] stops the gate and its listeners. *)
Lemma handler_step_flags c pc g w pc' g' w' :
  handler_step c pc g w pc' g' w' ->
  Gate.g_stopped g' = Gate.g_stopped g /\ Gate.g_listening g' = Gate.g_listening g.
Proof.
  destruct 1 as [? ? ? Ht|? ? ? Ht| | |? ? ? ? ? He|? ? ? ? ? He| | |? ? ? ? ? Ht|? ? ? ? ? Ht| | | | | | |]; cbn; try done.
  1,2,5,6: unfold Gate.track in Ht; by destruct (Gate.g_conns g); simplify_eq.
  1,2: unfold Gate.ensure in He; by branches.
  all: unfold Gate.forget; by destruct (Gate.g_conns g).
Qed.

Lemma shutting_init now : shutting (Gate.gate_started now).
Proof. split; done. Qed.

Lemma shutting_step s1 s2 : shutting s1 -> gate_step s1 s2 -> shutting s2.
Proof.
  intros [H1 H2 H3] Hs. destruct Hs as [g w h sw cl Hl|c pc pc' g w g' w' h sw cl Hc Hh|sw' g w g' w' h sw cl Hw|
    cl' g w g' w' h sw cl Hcl|t g w h sw cl Ht]; cbn in *.
  - split; cbn; [done | done|]. by intros c pc [[<- <-]|[_ Hc%H3]]%lookup_insert_Some.
  - destruct (handler_step_flags _ _ _ _ _ _ _ Hh) as [E1 E2]. apply handler_step_left in Hh as [_ Hr].
    split; cbn; [congruence | congruence|]. by intros c' pc'' [[<- <-]|[_ Hc'%H3]]%lookup_insert_Some.
  - destruct Hw; by split.
  - destruct Hcl; split; cbn in *; try done; congruence.
  - by split.
Qed.

Lemma shutting_reachable s : reachable s -> shutting s.
Proof. intros [now H]. eapply (steps_invariant gate_step shutting); eauto using shutting_step, shutting_init. Qed.

(** Nobody holds anything any more, and nobody will. *)
Definition drained (s : Gate.gstate) : Prop :=
  Gate.gs_closer s = Gate.CDone /\ Gate.gs_sweeper s = Gate.SReturned /\
  Gate.w_alive (Gate.gs_world s) = ∅ /\ Gate.w_open (Gate.gs_world s) = ∅ /\
  map_Forall (fun _ pc => pc = Gate.HFinished) (Gate.gs_handlers s).

Lemma drained_for_good s s' : reachable s -> drained s -> steps gate_step s s' -> drained s'.
Proof.
  intros Hr Hd Hs. revert Hr Hd. induction Hs as [|s1 s2 s3 Hst _ IH]; intros Hr Hd; [done|].
  assert (reachable s2) as Hr2 by (destruct Hr as [now Hr]; exists now; eapply steps_trans; [done | by apply steps_one]).
  apply IH; [done|]. pose proof (shutting_reachable _ Hr) as [_ Hl _].
  destruct Hd as (Hcl & Hsw & Ha & Ho & Hh). clear IH.
  destruct Hst as [g w h sw cl Hg|c pc pc' g w g' w' h sw cl Hc Hp|sw' g w g' w' h sw cl Hw|
    cl' g w g' w' h sw cl Hc|t g w h sw cl Ht]; cbn in *; subst.
  - congruence.
  - apply Hh in Hc. subst pc. inversion Hp.
  - inversion Hw.
  - inversion Hc.
  - by split_and!.
Qed.

(** Nobody waits for anybody: not a goroutine, not [Close]. *)
Lemma handler_can_step c pc g w :
  relays_ok pc -> pc <> Gate.HFinished -> exists pc' g' w', handler_step c pc g w pc' g' w'.
Proof.
  intros Hr Hf. destruct (Gate.track c g) as [[|] g1] eqn:E1;
    destruct (Gate.ensure xray_create prepare xray_start w g) as [[[i1|e1] g2] w2] eqn:E2;
    destruct pc as [| | | |i|i up|i up [|[|[|n]]]|up| | | | |]; cbn in Hr; try lia; try done;
    try (destruct (Gate.track up g) as [[|] g3] eqn:E3); by eauto 6 using Gate.handler_step with lia.
Qed.

Definition closer_left (cl : Gate.closer) : nat :=
  match cl with
  | Gate.CNotCalled => 6 | Gate.CTook _ => 5 | Gate.CStopped _ => 4 | Gate.CUnlistened _ => 3
  | Gate.CConns _ _ => 2 | Gate.CInstance _ => 1 | Gate.CDone => 0
  end.

Lemma closer_step_left cl g w cl' g' w' :
  Gate.closer_step cl g w cl' g' w' -> (closer_left cl' < closer_left cl)%nat /\ cl' <> Gate.CNotCalled.
Proof. destruct 1; cbn; split; lia || done. Qed.

Lemma closer_can_step s :
  reachable s -> Gate.gs_closer s <> Gate.CDone ->
  exists cl' g' w', Gate.closer_step (Gate.gs_closer s) (Gate.gs_gate s) (Gate.gs_world s) cl' g' w'.
Proof.
  intros Hr Hn. pose proof (Gate.instances_inv_reachable _ _ _ _ _ Hr) as [_ Hc _ _ _].
  destruct (Gate.gs_closer s) as [|i|i|i|cs i|[i|]|]; try done; eauto using Gate.closer_step.
Qed.

Lemma reachable_steps s s' : reachable s -> steps gate_step s s' -> reachable s'.
Proof. intros [now H] Hs. exists now. by eapply steps_trans. Qed.

Lemma close_completes n : forall s, reachable s -> (closer_left (Gate.gs_closer s) <= n)%nat ->
  exists s', steps gate_step s s' /\ Gate.gs_closer s' = Gate.CDone.
Proof.
  induction n as [|n IH]; intros s Hr Hn.
  - exists s. split; [constructor|]. by destruct (Gate.gs_closer s); cbn in Hn; lia || done.
  - destruct (decide (closer_left (Gate.gs_closer s) = 0%nat)) as [E|E]; [apply IH; [done | lia]|].
    destruct (closer_can_step s Hr) as (cl' & g' & w' & Hs); [intros E'; by rewrite E' in E|].
    pose proof (closer_step_left _ _ _ _ _ _ Hs) as [Hlt _].
    assert (gate_step s (Gate.MkGstate g' w' (Gate.gs_handlers s) (Gate.gs_sweeper s) cl')) as Hg
      by (destruct s; by apply Gate.gs_close).
    destruct (IH _ (reachable_steps _ _ Hr (steps_one _ _ _ Hg))) as (s' & Hs' & Hd); [cbn; lia|].
    exists s'. split; [|done]. by eapply steps_step.
Qed.

Lemma handlers_finish n : forall s, reachable s -> (handlers_left (Gate.gs_handlers s) <= n)%nat ->
  exists s', steps gate_step s s' /\ Gate.gs_closer s' = Gate.gs_closer s /\
    map_Forall (fun _ pc => pc = Gate.HFinished) (Gate.gs_handlers s').
Proof.
  induction n as [n IH] using lt_wf_ind. intros s Hr Hn.
  destruct (decide (map_Forall (fun _ pc => handler_left pc = 0%nat) (Gate.gs_handlers s))) as [Hf|Hf].
  - exists s. split_and!; [constructor | done|]. intros c pc Hc. pose proof (Hf c pc Hc) as H0.
    pose proof (sh_relays _ (shutting_reachable _ Hr) _ _ Hc) as Hk. destruct pc; cbn in *; try done; lia.
  - apply map_not_Forall in Hf as (c & pc & Hc & Hf); [|intros ? ?; apply _].
    destruct (handler_can_step c pc (Gate.gs_gate s) (Gate.gs_world s)) as (pc' & g' & w' & Hs).
    { by apply (sh_relays _ (shutting_reachable _ Hr) c). }
    { by intros ->. }
    assert (gate_step s (Gate.MkGstate g' w' (<[c := pc']> (Gate.gs_handlers s)) (Gate.gs_sweeper s) (Gate.gs_closer s))) as Hg
      by (destruct s; by eapply Gate.gs_handle).
    apply handler_step_left in Hs as [Hlt _]. pose proof (handlers_left_insert c pc pc' _ Hc) as E.
    destruct (IH (handlers_left (<[c := pc']> (Gate.gs_handlers s))) ltac:(lia) _
      (reachable_steps _ _ Hr (steps_one _ _ _ Hg)) (le_n _)) as (s' & Hs' & Hcl & Hfin).
    exists s'. split_and!; [by eapply steps_step | done | done].
Qed.

(** The sweeper of a closed gate goes back to its [select], where it sees the gate stopped. *)
Lemma sweeper_returns s :
  reachable s -> Gate.gs_closer s = Gate.CDone ->
  exists s', steps gate_step s s' /\ Gate.gs_closer s' = Gate.CDone /\ Gate.gs_sweeper s' = Gate.SReturned /\
    Gate.gs_handlers s' = Gate.gs_handlers s.
Proof.
  intros Hr Hd. pose proof (sh_stopped _ (shutting_reachable _ Hr)) as Hst.
  pose proof (Gate.instances_inv_reachable _ _ _ _ _ Hr) as [Hi Hc _ _ _].
  destruct s as [g w h sw cl]; cbn in *; subst cl; cbn in *. specialize (Hi Hc).
  assert (forall g w, Gate.g_stopped g = true -> exists s', steps gate_step (Gate.MkGstate g w h Gate.SWaiting Gate.CDone) s' /\
    Gate.gs_closer s' = Gate.CDone /\ Gate.gs_sweeper s' = Gate.SReturned /\ Gate.gs_handlers s' = h) as Hret.
  { intros g1 w1 H1. eexists. split; [apply steps_one, Gate.gs_sweep; by apply Gate.sw_return | done]. }
  assert (exists s', steps gate_step (Gate.MkGstate g w h Gate.SExpired Gate.CDone) s' /\
    Gate.gs_closer s' = Gate.CDone /\ Gate.gs_sweeper s' = Gate.SReturned /\ Gate.gs_handlers s' = h) as Hexp.
  { destruct (Hret (Gate.set_instance None g) w Hst) as (s' & Hs & H'). exists s'. split; [|done].
    eapply steps_step; [|exact Hs]. apply Gate.gs_sweep. pose proof (Gate.sw_take idle g w) as T. by rewrite Hi in T. }
  destruct sw as [| | |i|].
  - by apply Hret.
  - destruct (Gate.w_now w - Gate.g_lastUse g <? idle)%Z eqn:E.
    + destruct (Hret g w Hst) as (s' & Hs & H'). exists s'. split; [|done]. eapply steps_step; [|exact Hs].
      apply Gate.gs_sweep. pose proof (Gate.sw_expired idle g w) as T. by rewrite E in T.
    + destruct Hexp as (s' & Hs & H'). exists s'. split; [|done]. eapply steps_step; [|exact Hs].
      apply Gate.gs_sweep. pose proof (Gate.sw_expired idle g w) as T. by rewrite E in T.
  - exact Hexp.
  - destruct (Hret g (Gate.close_instance i w) Hst) as (s' & Hs & H'). exists s'. split; [|done].
    eapply steps_step; [|exact Hs]. apply Gate.gs_sweep, Gate.sw_close.
  - eexists. split; [constructor | done].
Qed.

Lemma finished_drained s :
  reachable s -> Gate.gs_closer s = Gate.CDone -> Gate.gs_sweeper s = Gate.SReturned ->
  map_Forall (fun _ pc => pc = Gate.HFinished) (Gate.gs_handlers s) -> drained s.
Proof.
  intros Hr Hd Hsw Hf. pose proof (Gate.instances_inv_reachable _ _ _ _ _ Hr) as [Hi Hc _ Ha _].
  pose proof (Gate.ci_owned _ (Gate.conns_inv_reachable _ _ _ _ _ Hr)) as Ho.
  rewrite Hd in *. cbn in *. specialize (Hi Hc). unfold Gate.instance_owners in Ha. rewrite Hi, Hsw in Ha.
  split_and!; [done | done | by rewrite Ha | | done].
  apply leibniz_equiv. intros x. split; [|set_solver]. intros (c & pc & Hc' & Hx)%Ho. apply Hf in Hc'. subst pc.
  by apply not_elem_of_nil in Hx.
Qed.

Lemma closed_gate_drains s :
  reachable s -> Gate.gs_closer s = Gate.CDone -> exists s', steps gate_step s s' /\ drained s'.
Proof.
  intros Hr Hd. destruct (handlers_finish _ s Hr (le_n _)) as (s1 & H1 & Hc1 & Hf1).
  rewrite Hd in Hc1. pose proof (reachable_steps _ _ Hr H1) as Hr1.
  destruct (sweeper_returns s1 Hr1 Hc1) as (s2 & H2 & Hc2 & Hsw & Hh).
  exists s2. split; [by eapply steps_trans|]. apply finished_drained; try done.
  - by eapply reachable_steps.
  - by rewrite Hh.
Qed.

(** Until then it serves: a connection is accepted and, where Xray starts, gets a live
    instance. *)
Lemma open_gate_serves s :
  (forall i, xray_create i = Ok tt) -> prepare = None -> (forall i, xray_start i = Ok tt) ->
  reachable s -> Gate.gs_closer s = Gate.CNotCalled ->
  exists s' i, steps gate_step s s' /\ Gate.gs_closer s' = Gate.CNotCalled /\
    Gate.gs_handlers s' !! Gate.w_next_conn (Gate.gs_world s) = Some (Gate.HReady i) /\
    Gate.g_instance (Gate.gs_gate s') = Some i /\ i ∈ Gate.w_alive (Gate.gs_world s').
Proof.
  intros Hc Hp Hst Hr Hcl.
  pose proof (sh_listening _ (shutting_reachable _ Hr)) as Hl.
  pose proof (Gate.instances_inv_reachable _ _ _ _ _ Hr) as [_ Hclosed _ _ _].
  pose proof (Gate.ci_taken _ (Gate.conns_inv_reachable _ _ _ _ _ Hr)) as Ht.
  destruct s as [[inst closed stopped listening conns active use] w h sw cl]. cbn in *. subst cl. cbn in *. subst closed listening.
  destruct conns as [cs|]; [|discriminate (proj1 Ht eq_refl)].
  set (c := Gate.w_next_conn w). set (w1 := Gate.open_conn w).
  set (g1 := Gate.MkGate inst false stopped true (Some ({[c]} ∪ cs)) (active + 1) (Gate.w_now w1)).
  assert (exists i g2 w2, Gate.ensure xray_create prepare xray_start w1 g1 = (Ok i, g2, w2) /\ Gate.g_instance g2 = Some i)
    as (i & g2 & w2 & He & Hi).
  { unfold Gate.ensure, g1; cbn [Gate.g_closed Gate.g_instance]. destruct inst as [i|]; [by eexists _, _, _|].
    rewrite Hc, Hp, Hst. by eexists _, _, _. }
  exists (Gate.MkGstate g2 w2 (<[c := Gate.HReady i]> (<[c := Gate.HCounted]> (<[c := Gate.HAdded]> (<[c := Gate.HTracked]>
    (<[c := Gate.HAccepted]> h))))) sw Gate.CNotCalled), i.
  assert (steps gate_step (Gate.MkGstate (Gate.MkGate inst false stopped true (Some cs) active use) w h sw Gate.CNotCalled)
    (Gate.MkGstate g2 w2 (<[c := Gate.HReady i]> (<[c := Gate.HCounted]> (<[c := Gate.HAdded]> (<[c := Gate.HTracked]>
      (<[c := Gate.HAccepted]> h))))) sw Gate.CNotCalled)) as Hs.
  { eapply steps_step; [by apply Gate.gs_accept|].
    eapply steps_step; [eapply Gate.gs_handle; [apply lookup_insert_eq | by apply Gate.h_track]|].
    eapply steps_step; [eapply Gate.gs_handle; [apply lookup_insert_eq | apply Gate.h_add]|].
    eapply steps_step; [eapply Gate.gs_handle; [apply lookup_insert_eq | apply Gate.h_touch]|].
    apply steps_one. eapply Gate.gs_handle; [apply lookup_insert_eq | by apply Gate.h_ensure]. }
  split_and!; [exact Hs | done | apply lookup_insert_eq | exact Hi|].
  pose proof (Gate.instances_inv_reachable _ _ _ _ _ (reachable_steps _ _ Hr Hs)) as [_ _ _ Ha _]. cbn in Ha.
  cbn. rewrite Ha. unfold Gate.instance_owners. rewrite Hi. set_solver.
Qed.
End Drain.

(** ** The gates beside the request loop *)

(** What the gates need of the profile service: it numbers new gates upwards, and the
    interface callback has no part in which ones it opens and closes. *)
Class GateService (Svc : ProfileService) := {
  do_Start_gates inp c : gates_grow c (do_Start inp c).2;
  do_Stop_gates c : gates_grow c (do_Stop c);
  do_Start_interface inp name c : c_gates (do_Start inp (do_interface name c)).2 = c_gates (do_Start inp c).2;
  do_Stop_interface name c : c_gates (do_Stop (do_interface name c)) = c_gates (do_Stop c)
}.

Section Fleet.
  Context {Svc : ProfileService} {Gates : GateService Svc}.
  Context (load_of : list byte -> result LoadConfigReq) (empty_of : list byte -> result unit).
  Context (error_resp : option string -> result (list byte)).
  (** What each gate was started with. *)
  Context (idle : nat -> Z) (xray_create : nat -> nat -> result unit) (prepare : nat -> option (nat -> result unit))
          (xray_start : nat -> nat -> result unit).

#[local] Abbreviation gate_step g := (Gate.gate_step (idle g) (xray_create g) (prepare g) (xray_start g)).
#[local] Abbreviation reachable g := (Gate.reachable (idle g) (xray_create g) (prepare g) (xray_start g)).
#[local] Abbreviation sys_step := (sys_step load_of empty_of error_resp).
#[local] Abbreviation runs := (runs load_of empty_of error_resp).
#[local] Abbreviation replay := (replay load_of empty_of error_resp).

Record fleet := Fleet { f_sys : system; f_gates : gmap nat Gate.gstate }.

Definition fleet_init (c : core) (input : list byte) : fleet := Fleet (sys_init c input) ∅.

(** What a request under [lifecycleMu] makes of the core, and the gates it closes: it calls
    [Close] on each before it is done. *)
Definition outcome_of (r : request) (c : core) : core :=
  match lifecycle_of load_of empty_of r with
  | Some (Some inp) => (do_Start inp c).2
  | Some None => do_Stop c
  | None => c
  end.

Definition closing (y : system) (g : nat) : Prop :=
  match y_lock y with
  | Some (_, r) => g ∉ p_live (c_gates (outcome_of r (y_core y)))
  | None => False
  end.

(** The request is done: nobody is in [Close]; the gates it has opened have been serving
    since, unless it closed them again. *)
Record settled (p p' : pool) (gs gs' : gmap nat Gate.gstate) : Prop := Settled {
  st_old : forall g, (g < p_next p)%nat -> gs' !! g = gs !! g;
  st_new : forall g, (p_next p <= g)%nat -> is_Some (gs' !! g) <-> (g < p_next p')%nat;
  st_reachable : forall g s, (p_next p <= g)%nat -> gs' !! g = Some s -> reachable g s;
  st_closed : forall g s, gs' !! g = Some s ->
    Gate.gs_closer s = if bool_decide (g ∈ p_live p') then Gate.CNotCalled else Gate.CDone
}.

(** A gate's own step; only the request that closes the gate begins its [Close]. *)
Definition allowed (y : system) (g : nat) (s s' : Gate.gstate) : Prop :=
  gate_step g s s' /\
  (Gate.gs_closer s = Gate.CNotCalled -> Gate.gs_closer s' = Gate.CNotCalled \/ closing y g).

Inductive fleet_step : fleet -> option event -> fleet -> Prop :=
| fl_request y e y' gs :
    sys_step y e y' -> y_lock y = None \/ is_Some (y_lock y') -> fleet_step (Fleet y gs) e (Fleet y' gs)
| fl_release y e y' gs gs' :
    sys_step y e y' -> is_Some (y_lock y) -> y_lock y' = None ->
    settled (c_gates (y_core y)) (c_gates (y_core y')) gs gs' -> fleet_step (Fleet y gs) e (Fleet y' gs')
| fl_gate y gs g s s' :
    gs !! g = Some s -> allowed y g s s' -> fleet_step (Fleet y gs) None (Fleet y (<[g := s']> gs)).

Inductive fleet_runs (f0 : fleet) : list event -> fleet -> Prop :=
| fr_nil : fleet_runs f0 [] f0
| fr_snoc tr f1 e f2 : fleet_runs f0 tr f1 -> fleet_step f1 e f2 -> fleet_runs f0 (tr ++ option_list e) f2.

Lemma fleet_runs_app f0 tr1 f1 : fleet_runs f0 tr1 f1 -> forall tr2 f2, fleet_runs f1 tr2 f2 -> fleet_runs f0 (tr1 ++ tr2) f2.
Proof.
  intros H1. induction 1 as [|tr2 f2 e f3 _ IH Hs]; [by rewrite app_nil_r|]. rewrite app_assoc. by eapply fr_snoc.
Qed.

Lemma fleet_runs_one f1 e f2 : fleet_step f1 e f2 -> fleet_runs f1 (option_list e) f2.
Proof. apply (fr_snoc f1 []). constructor. Qed.

(** Without the gates it is a run of [System]. *)
Lemma fleet_projects f0 tr f : fleet_runs f0 tr f -> runs (f_sys f0) tr (f_sys f).
Proof.
  induction 1 as [|tr f1 e f2 _ IH Hs]; [constructor|].
  destruct Hs as [y e y' gs Hs _|y e y' gs gs' Hs _ _ _|y gs g s s' _ _]; [by eapply runs_snoc ..|].
  cbn. by rewrite app_nil_r.
Qed.

(** What a step of the loop does to the gates of the core. *)
Lemma sys_step_gates y e y' :
  sys_step y e y' ->
  (exists k r, y_lock y = Some (k, r) /\ y_lock y' = None /\ y_core y' = outcome_of r (y_core y)) \/
  ((y_lock y = None \/ y_lock y' = y_lock y) /\ c_gates (y_core y') = c_gates (y_core y) /\
   forall g, closing y g -> closing y' g).
Proof.
  unfold closing. destruct 1 as [| | |others ? ? ? ? ? k r|others ? ? ? ? ? k r ? ? ? ? ? Hl| | | | |name c ? ? ? ? lock]; cbn; auto 6.
  - left. exists k, r. split_and!; [done | done|]. by rewrite effect_lifecycle.
  - right. split_and!; [by auto | |].
    all: rewrite effect_lifecycle; unfold takes_lock in Hl;
      by destruct (lifecycle_of load_of empty_of r).
  - right. pose proof (do_interface_res name c) as Hr. split_and!; [by auto | by injection Hr|].
    intros g. destruct lock as [[k r]|]; [|done]. unfold outcome_of. destruct (lifecycle_of _ _ r) as [[inp|]|].
    + by rewrite do_Start_interface.
    + by rewrite do_Stop_interface.
    + by injection Hr as _ _ _ _ _ _ ->.
Qed.

(** ** The invariant *)

(** [n]: the number the first gate got. *)
Record fleet_ok (n : nat) (f : fleet) : Prop := FleetOk {
  ok_from : (n <= p_next (c_gates (y_core (f_sys f))))%nat;
  ok_range : forall g, is_Some (f_gates f !! g) <-> (n <= g < p_next (c_gates (y_core (f_sys f))))%nat;
  ok_live : forall g, g ∈ p_live (c_gates (y_core (f_sys f))) -> is_Some (f_gates f !! g);
  ok_reachable : forall g s, f_gates f !! g = Some s -> reachable g s;
  ok_closed : forall g s, f_gates f !! g = Some s -> g ∉ p_live (c_gates (y_core (f_sys f))) -> Gate.gs_closer s = Gate.CDone;
  ok_open : forall g s, f_gates f !! g = Some s -> g ∈ p_live (c_gates (y_core (f_sys f))) ->
    Gate.gs_closer s = Gate.CNotCalled \/ closing (f_sys f) g
}.

Lemma fleet_ok_init c input : p_live (c_gates c) = ∅ -> fleet_ok (p_next (c_gates c)) (fleet_init c input).
Proof.
  intros He. split; cbn; [done| |rewrite He; set_solver|by intros ? ? ?..].
  intros g. rewrite lookup_empty. split; [by intros []|lia].
Qed.

Lemma outcome_grows r c : gates_grow c (outcome_of r c).
Proof. unfold outcome_of. destruct (lifecycle_of _ _ r) as [[inp|]|]; [apply do_Start_gates | apply do_Stop_gates | done]. Qed.

Lemma fleet_ok_request n y e y' gs :
  fleet_ok n (Fleet y gs) -> sys_step y e y' -> y_lock y = None \/ is_Some (y_lock y') -> fleet_ok n (Fleet y' gs).
Proof.
  intros [H0 H1 H2 H3 H4 H5] Hs Hl. cbn in *. destruct (sys_step_gates _ _ _ Hs) as [(k & r & E1 & E2 & _)|(_ & E & Hc)].
  { destruct Hl as [Hl|[? Hl]]; congruence. }
  split; cbn; rewrite ?E; try done. intros g s Hg Hin. destruct (H5 g s Hg Hin); auto.
Qed.

Lemma fleet_ok_release n y e y' gs gs' :
  fleet_ok n (Fleet y gs) -> sys_step y e y' -> is_Some (y_lock y) -> y_lock y' = None ->
  settled (c_gates (y_core y)) (c_gates (y_core y')) gs gs' -> fleet_ok n (Fleet y' gs').
Proof.
  intros [H0 H1 H2 H3 H4 H5] Hs [l El] El' [S1 S2 S3 S4]. cbn in *.
  assert (gates_grow (y_core y) (y_core y')) as [Hn Hg].
  { destruct (sys_step_gates _ _ _ Hs) as [(k & r & _ & _ & ->)|([E|E] & _)]; [apply outcome_grows | congruence..]. }
  assert (forall g, is_Some (gs' !! g) <-> (n <= g < p_next (c_gates (y_core y')))%nat) as Hr.
  { intros g. destruct (decide (g < p_next (c_gates (y_core y)))%nat) as [Hlt|Hge].
    - rewrite S1, H1 by done. lia.
    - rewrite S2 by lia. split; [|lia]. lia. }
  split; cbn; [lia | exact Hr | | | |].
  - intros g [Hin|Hin]%Hg; [|apply S2; lia]. pose proof (H2 g Hin) as Hs'. rewrite S1; [done|]. apply H1 in Hs'. lia.
  - intros g s Hgs. destruct (decide (g < p_next (c_gates (y_core y)))%nat) as [Hlt|Hge]; [|apply S3; [lia | done]].
    apply H3. by rewrite <- S1.
  - intros g s Hgs Hin. rewrite (S4 _ _ Hgs). by rewrite bool_decide_eq_false_2.
  - intros g s Hgs Hin. left. rewrite (S4 _ _ Hgs). by rewrite bool_decide_eq_true_2.
Qed.

Lemma fleet_ok_gate n y gs g s s' :
  fleet_ok n (Fleet y gs) -> gs !! g = Some s -> allowed y g s s' -> fleet_ok n (Fleet y (<[g := s']> gs)).
Proof.
  intros [H0 H1 H2 H3 H4 H5] Hg [Hst Hcl]. cbn in *.
  assert (forall g', is_Some (<[g := s']> gs !! g') <-> is_Some (gs !! g')) as Hdom.
  { intros g'. destruct (decide (g = g')) as [<-|Hne]; [rewrite lookup_insert_eq, Hg | by rewrite lookup_insert_ne].
    split; by eexists. }
  assert (Gate.gs_closer s = Gate.CDone -> Gate.gs_closer s' = Gate.CDone) as Hdone.
  { intros E. destruct Hst as [| | |cl' ? ? ? ? ? ? cl Hc|]; cbn in *; try done. subst cl. inversion Hc. }
  split; cbn; [done| | | | |].
  - intros g'. by rewrite Hdom.
  - intros g' Hin. apply Hdom. auto.
  - intros g' s1 [[<- <-]|[_ Hs1]]%lookup_insert_Some; [|by apply H3].
    eapply reachable_steps; [by apply H3 | by apply steps_one].
  - intros g' s1 [[<- <-]|[_ Hs1]]%lookup_insert_Some Hin; [|by eapply H4]. apply Hdone. by eapply H4.
  - intros g' s1 [[<- <-]|[_ Hs1]]%lookup_insert_Some Hin; [|by eapply H5].
    destruct (H5 g s Hg Hin) as [E|E]; [apply Hcl, E | by right].
Qed.

Lemma fleet_ok_runs n f0 tr f : fleet_ok n f0 -> fleet_runs f0 tr f -> fleet_ok n f.
Proof.
  intros H0. induction 1 as [|tr f1 e f2 _ IH Hs]; [done|].
  destruct Hs; [by eapply fleet_ok_request | by eapply fleet_ok_release | by eapply fleet_ok_gate].
Qed.

(** ** Gates that run by themselves *)

Lemma gate_runs y g : forall s s', steps (allowed y g) s s' ->
  forall gs, gs !! g = Some s -> fleet_runs (Fleet y gs) [] (Fleet y (<[g := s']> gs)).
Proof.
  induction 1 as [s|s1 s2 s3 Hst _ IH]; intros gs Hg; [rewrite insert_id by done; constructor|].
  apply (fleet_runs_app _ [] _ (fleet_runs_one _ None _ (fl_gate y gs g s1 s2 Hg Hst)) []).
  rewrite <- (insert_insert_eq gs g s3 s2). apply IH. apply lookup_insert_eq.
Qed.

(** Each of the gates in a list gets to where it can get, one after the other. *)
Lemma each_gate_runs y (Q : nat -> Gate.gstate -> Prop) l : forall gs, NoDup l ->
  (forall g s, g ∈ l -> gs !! g = Some s -> exists s', steps (allowed y g) s s' /\ Q g s') ->
  exists gs', fleet_runs (Fleet y gs) [] (Fleet y gs') /\
    (forall g, g ∉ l -> gs' !! g = gs !! g) /\ (forall g, is_Some (gs' !! g) <-> is_Some (gs !! g)) /\
    (forall g s', g ∈ l -> gs' !! g = Some s' -> Q g s').
Proof.
  induction l as [|g l IH]; intros gs Hnd HQ.
  { exists gs. split_and!; [constructor | done | done | set_solver]. }
  apply NoDup_cons in Hnd as [Hg Hnd].
  destruct (gs !! g) as [s|] eqn:Eg.
  2: { destruct (IH gs Hnd) as (gs' & Hr & Ho & Hd & Hq); [intros; apply HQ; set_solver|].
       exists gs'. split_and!; [done | set_solver | done|]. intros g' s' [->|Hin]%elem_of_cons Hs'; [|by apply Hq].
       by rewrite Ho, Eg in Hs'. }
  destruct (HQ g s ltac:(set_solver) Eg) as (s1 & Hs1 & Hq1).
  destruct (IH (<[g := s1]> gs) Hnd) as (gs' & Hr & Ho & Hd & Hq).
  { intros g' s' Hin. rewrite lookup_insert_ne by congruence. apply HQ. set_solver. }
  exists gs'. split_and!.
  - apply (fleet_runs_app _ [] _ (gate_runs y g s s1 Hs1 gs Eg) [] _ Hr).
  - intros g' Hn. rewrite Ho, lookup_insert_ne by set_solver. done.
  - intros g'. rewrite Hd. destruct (decide (g = g')) as [<-|Hne]; [|by rewrite lookup_insert_ne].
    rewrite lookup_insert_eq, Eg. split; by eexists.
  - intros g' s' [->|Hin]%elem_of_cons Hs'; [|by apply Hq]. rewrite Ho, lookup_insert_eq in Hs' by done. by simplify_eq.
Qed.

(** Any step is allowed once [Close] has returned, or where it is called. *)
Lemma allowed_steps y g s s' :
  closing y g \/ Gate.gs_closer s = Gate.CDone -> steps (gate_step g) s s' -> steps (allowed y g) s s'.
Proof.
  intros Hc Hs. induction Hs as [|s1 s2 s3 Hst Hs IH]; [constructor|].
  assert (Gate.gs_closer s1 = Gate.CDone -> Gate.gs_closer s2 = Gate.CDone) as Hdone.
  { intros E. destruct Hst as [| | |cl' ? ? ? ? ? ? cl Hcl|]; cbn in *; try done. subst cl. inversion Hcl. }
  eapply steps_step; [|apply IH; by destruct Hc; auto].
  split; [done|]. intros E. destruct Hc as [Hc|Hc]; [by right | congruence].
Qed.

(** Or where it is not called at all. *)
Lemma allowed_open y g s s' :
  steps (gate_step g) s s' -> Gate.gs_closer s' = Gate.CNotCalled ->
  Gate.gs_closer s = Gate.CNotCalled /\ steps (allowed y g) s s'.
Proof.
  intros Hs. induction Hs as [s|s1 s2 s3 Hst _ IH]; intros Hc; [split; [done | constructor]|].
  destruct (IH Hc) as [H2 Hs2]. assert (Gate.gs_closer s1 = Gate.CNotCalled) as H1.
  { destruct Hst as [| | |cl' ? ? ? ? ? ? cl Hcl|]; cbn in *; try done. by destruct (closer_step_left _ _ _ _ _ _ Hcl). }
  split; [done|]. eapply steps_step; [|exact Hs2]. split; [done | by left].
Qed.

(** What a request that ends finds of the gates it closes: [Close] has returned. *)
Lemma close_all n y gs (P : nat -> Prop) `{!forall g, Decision (P g)} :
  fleet_ok n (Fleet y gs) -> (forall g, P g -> is_Some (gs !! g) -> closing y g) ->
  exists gs', fleet_runs (Fleet y gs) [] (Fleet y gs') /\ (forall g, ~ P g -> gs' !! g = gs !! g) /\
    (forall g, is_Some (gs' !! g) <-> is_Some (gs !! g)) /\
    (forall g s', P g -> gs' !! g = Some s' -> Gate.gs_closer s' = Gate.CDone).
Proof.
  intros Hok Hc.
  destruct (each_gate_runs y (fun _ s' => Gate.gs_closer s' = Gate.CDone)
    (filter P (elements (dom gs))) gs) as (gs' & Hr & Ho & Hd & Hq).
  - apply NoDup_filter, NoDup_elements.
  - intros g s [HP _]%list_elem_of_filter Hg.
    destruct (close_completes _ _ _ _ _ s (ok_reachable _ _ Hok g s Hg) (le_n _)) as (s' & Hs & Hd).
    exists s'. split; [|done]. apply allowed_steps; [|done]. left. apply Hc; [done | by eexists].
  - exists gs'. split_and!; [done | | done |].
    + intros g HP. apply Ho. rewrite list_elem_of_filter. by intros [? _].
    + intros g s' HP Hg. apply (Hq g); [|done]. apply list_elem_of_filter. split; [done|]. apply elem_of_elements, elem_of_dom, Hd. by eexists.
Qed.

(** New gates: cold, or closed again. *)
Lemma new_gates (live : gset nat) (l : list nat) : exists gs : gmap nat Gate.gstate,
  (forall g, is_Some (gs !! g) <-> g ∈ l) /\
  (forall g s, gs !! g = Some s ->
     reachable g s /\ Gate.gs_closer s = if bool_decide (g ∈ live) then Gate.CNotCalled else Gate.CDone).
Proof.
  induction l as [|g l (gs & Hd & Hs)].
  { exists ∅. split; [|done]. intros g. rewrite lookup_empty. split; [by intros [] | set_solver]. }
  assert (exists s, reachable g s /\ Gate.gs_closer s = if bool_decide (g ∈ live) then Gate.CNotCalled else Gate.CDone)
    as (s & Hr & Hc).
  { assert (reachable g (Gate.gate_started 0)) as H0 by (exists 0%Z; constructor).
    case_bool_decide; [by exists (Gate.gate_started 0)|].
    destruct (close_completes _ _ _ _ _ _ H0 (le_n _)) as (s & Hs1 & Hd1). exists s. split; [by eapply reachable_steps | done]. }
  exists (<[g := s]> gs). split.
  - intros g'. rewrite elem_of_cons, <- Hd. destruct (decide (g = g')) as [<-|Hne].
    + rewrite lookup_insert_eq. split; [by left | by eexists].
    + rewrite lookup_insert_ne by done. split; [by right | by intros [->|]].
  - intros g' s' [[<- <-]|[_ Hg]]%lookup_insert_Some; [done | by apply Hs].
Qed.

Lemma settle n y gs p' :
  fleet_ok n (Fleet y gs) -> pool_grows (c_gates (y_core y)) p' ->
  (forall g, is_Some (gs !! g) -> g ∉ p_live p' -> g ∈ p_live (c_gates (y_core y)) -> closing y g) ->
  exists gs1 gs', fleet_runs (Fleet y gs) [] (Fleet y gs1) /\
    ((forall g s, gs1 !! g = Some s -> g ∈ p_live p' -> Gate.gs_closer s = Gate.CNotCalled) ->
     settled (c_gates (y_core y)) p' gs1 gs').
Proof.
  intros Hok [Hn Hg] Hc. set (p := c_gates (y_core y)) in *.
  destruct (close_all n y gs (fun g => g ∈ p_live p /\ g ∉ p_live p') Hok) as (gs1 & Hr & Ho & Hd & Hq).
  { intros g [H1 H2] Hs. by apply Hc. }
  destruct (new_gates (p_live p') (seq (p_next p) (p_next p' - p_next p))) as (new & Hnd & Hns).
  assert (forall g, is_Some (gs1 !! g) -> (g < p_next p)%nat) as Hlt
    by (intros g Hs; apply Hd, (ok_range _ _ Hok) in Hs; cbn in Hs; unfold p; lia).
  exists gs1, (gs1 ∪ new). split; [done|]. intros Hopen.
  assert (forall g, (g < p_next p)%nat -> (gs1 ∪ new) !! g = gs1 !! g) as Hold.
  { intros g Hgl. rewrite lookup_union_l; [done|]. apply eq_None_not_Some. rewrite Hnd, elem_of_seq. lia. }
  assert (forall g, (p_next p <= g)%nat -> (gs1 ∪ new) !! g = new !! g) as Hnew.
  { intros g Hgl. rewrite lookup_union_r; [done|]. apply eq_None_not_Some. intros ?%Hlt. lia. }
  split; [exact Hold | | |].
  - intros g Hgl. rewrite Hnew, Hnd, elem_of_seq by done. lia.
  - intros g s Hgl. rewrite Hnew by done. apply Hns.
  - intros g s Hgs. destruct (decide (g < p_next p)%nat) as [Hlo|Hhi]; [|rewrite Hnew in Hgs by lia; by apply Hns].
    rewrite Hold in Hgs by done. case_bool_decide as Hin; [by eapply Hopen|].
    destruct (decide (g ∈ p_live p)) as [Hl|Hl]; [by eapply Hq|].
    rewrite Ho in Hgs by naive_solver. by eapply (ok_closed _ _ Hok).
Qed.

(** Whatever the request loop does, it can do beside the gates: a request that closes some
    is not held up by their goroutines. *)
Lemma fleet_follows n f e y' :
  fleet_ok n f -> sys_step (f_sys f) e y' -> exists gs', fleet_runs f (option_list e) (Fleet y' gs').
Proof.
  destruct f as [y gs]. intros Hok Hs. cbn in Hs.
  destruct (sys_step_gates _ _ _ Hs) as [(k & r & El & El' & Ec)|(Hl & _)].
  2: { exists gs. apply fleet_runs_one, fl_request; [done|]. destruct Hl as [Hl|Hl]; [by left|].
       destruct (y_lock y); [right; by rewrite Hl | by left]. }
  destruct (settle n y gs (c_gates (y_core y')) Hok) as (gs1 & gs' & Hr & Hset).
  { rewrite Ec. apply outcome_grows. }
  { intros g _ Hin _. unfold closing. by rewrite El, <- Ec. }
  exists gs'. apply (fleet_runs_app _ [] _ Hr), fleet_runs_one. apply fl_release; [done | by rewrite El | done|].
  apply Hset. intros g s Hg Hin. pose proof (fleet_ok_runs _ _ _ _ Hok Hr) as Hok1.
  destruct (decide (g ∈ p_live (c_gates (y_core y)))) as [Hl|Hl].
  - destruct (ok_open _ _ Hok1 g s Hg Hl) as [|Hc]; [done|]. unfold closing in Hc. cbn in Hc. by rewrite El, <- Ec in Hc.
  - exfalso. pose proof (outcome_grows r (y_core y)) as [_ Hgr]. rewrite <- Ec in Hgr.
    destruct (Hgr g Hin) as [|Hge]; [done|]. pose proof (proj1 (ok_range _ _ Hok1 g) (mk_is_Some _ _ Hg)) as Hlt. cbn in Hlt. lia.
Qed.

Lemma fleet_simulates n y0 gs0 tr y :
  fleet_ok n (Fleet y0 gs0) -> runs y0 tr y -> exists gs, fleet_runs (Fleet y0 gs0) tr (Fleet y gs).
Proof.
  intros Hok. induction 1 as [|tr y1 e y2 _ IH Hs]; [by eexists; constructor|].
  destruct IH as [gs1 H1]. destruct (fleet_follows n _ e y2 (fleet_ok_runs _ _ _ _ Hok H1) Hs) as [gs2 H2].
  exists gs2. by eapply fleet_runs_app.
Qed.

(** ** Theorems *)


(** The gates the state pointers name. *)
Definition xray_gates (c : core) : list nat := option_list (xrayGate c) ++ xrayFullGates c.

Definition torn_down (s : Gate.gstate) : Prop :=
  Gate.gs_closer s = Gate.CDone /\ Gate.g_instance (Gate.gs_gate s) = None /\
  Gate.w_alive (Gate.gs_world s) = list_to_set (Gate.sweeper_holds (Gate.gs_sweeper s)) /\
  (forall c pc x, Gate.gs_handlers s !! c = Some pc -> x ∈ Gate.tracks c pc -> x ∉ Gate.w_open (Gate.gs_world s)).

Lemma quiet_gates c : quiet c -> p_live (c_gates c) = ∅ /\ xray_gates c = [].
Proof. intros ((_ & _ & H & _) & _ & _ & Hg & Hf). unfold xray_gates. rewrite H, Hg, Hf. done. Qed.

Lemma waiting_gates c0 input tr f :
  quiet c0 -> fleet_runs (fleet_init c0 input) tr f -> awaits [] tr = true -> alternates load_of empty_of true (read_requests input) ->
  fleet_ok (p_next (c_gates c0)) f /\
  p_live (c_gates (y_core (f_sys f))) = list_to_set (xray_gates (y_core (f_sys f))) /\
  (idle_after load_of empty_of true (take (length (replay (read_requests input) c0 tr).1) (read_requests input)) = true ->
   quiet (y_core (f_sys f))).
Proof.
  intros Hq Hr Ha Halt. pose proof (fleet_projects _ _ _ Hr) as Hs.
  destruct (waiting_kept _ _ _ _ _ _ _ Hq Hs Ha Halt) as [Ho Hb].
  split_and!; [|by destruct Ho as [(_ & _ & H & _) _]|intros Hi; apply owns_quiet; auto].
  eapply fleet_ok_runs; [|exact Hr]. by apply fleet_ok_init, quiet_gates.
Qed.


Lemma drained_kept n f0 tr f g s :
  fleet_ok n f0 -> fleet_runs f0 tr f -> f_gates f0 !! g = Some s -> drained s ->
  exists s', f_gates f !! g = Some s' /\ drained s'.
Proof.
  intros Hok Hr Hg Hd. induction Hr as [|tr f1 e f2 Hr IH Hs]; [eauto|].
  pose proof (fleet_ok_runs _ _ _ _ Hok Hr) as Hok1. destruct IH as (s1 & H1 & Hd1).
  destruct Hs as [y e y' gs _ _|y e y' gs gs' _ _ _ Hset|y gs g' s2 s3 Hg2 [Hst _]]; cbn in *; [eauto| |].
  - exists s1. split; [|done]. rewrite (st_old _ _ _ _ Hset); [done|].
    apply (ok_range _ _ Hok1 g). by eexists.
  - destruct (decide (g' = g)) as [->|Hne]; [|rewrite lookup_insert_ne by done; eauto].
    rewrite lookup_insert_eq. eexists. split; [done|]. simplify_eq.
    eapply drained_for_good; [by eapply (ok_reachable _ _ Hok1) | done | by apply steps_one].
Qed.

End Fleet.

(** ** The lifecycle handlers are such a service *)

Section Lifecycles.
  Context `{Platform} (goos : string) (debugLog : bool).
  Context (shlex_Split : string -> result (list string)).
  Context (box_parse box_New box_Start xray_Create xray_Start gate_Start : string -> result unit).
  Context (gate_Instance : nat -> option nat) (defaultInterfaceFinder : string) (mark_of : string -> Z).
  Context (SetSystemDNS : string -> option string) (CheckXrayConfig boxmain_Check : string -> outcome unit).
  Context (schedule : list string -> list nat).
  Context (Hschedule : forall configs, schedule configs ≡ₚ seq 1 (length configs - 1)).

#[export] Instance lifecycle_gates :
  GateService (lifecycle_service goos debugLog shlex_Split box_parse box_New box_Start xray_Create xray_Start gate_Start
    gate_Instance defaultInterfaceFinder mark_of SetSystemDNS CheckXrayConfig boxmain_Check schedule Hschedule).
Proof.
  split.
  - intros inp c. apply Start_gates.
  - intros c. apply Stop_gates.
  - intros inp name c. apply Start_interface.
  - intros name c. apply Stop_interface.
Qed.
End Lifecycles.

(** ** The client of [Session] with its two gates *)

Module Served.
Import Session.
#[local] Existing Instance Session.service.
#[local] Instance gates : GateService service.
Proof. apply lifecycle_gates. Qed.

Definition minute (_ : nat) : Z := 60000000000.
Definition up (_ _ : nat) : result unit := Ok tt.
Definition no_prepare (_ : nat) : option (nat -> result unit) := None.

Abbreviation fleet_runs := (fleet_runs load empty error_resp minute up no_prepare up).
Abbreviation fleet_step := (fleet_step load empty error_resp minute up no_prepare up).

Lemma served_ok : fleet_ok load empty minute up no_prepare up 0 (fleet_init Sample.core0 input).
Proof. exact (fleet_ok_init load empty minute up no_prepare up Sample.core0 input eq_refl). Qed.

Lemma served : exists gs, fleet_runs (fleet_init Sample.core0 input) trace (Fleet finish gs).
Proof. apply (fleet_simulates _ _ _ _ _ _ _ 0 _ _ _ _ served_ok session). Qed.

Lemma input_alternates : alternates load empty true (read_requests input).
Proof. rewrite input_requests. cbn. split; [done|]. split; [exact sample_complete | done]. Qed.

Lemma input_idle : idle_after load empty true
  (take (length (replay (read_requests input) Sample.core0 trace).1) (read_requests input)) = true.
Proof. rewrite input_requests. vm_compute. reflexivity. Qed.

(** It has opened two gates. *)
Lemma served_opened gs : fleet_runs (fleet_init Sample.core0 input) trace (Fleet finish gs) -> is_Some (gs !! 0%nat).
Proof.
  intros Hr. apply (ok_range _ _ _ _ _ _ _ _ (fleet_ok_runs _ _ _ _ _ _ _ _ _ _ _ served_ok Hr) 0%nat). cbn.
  assert (p_next (c_gates stopped) = 2%nat) as -> by (vm_compute; reflexivity). lia.
Qed.


(** Between the two requests a connection comes to gate 0, which brings an instance up. *)
Definition between : system :=
  Sys started (encode_request stop_request) true 1 [] None [] None (send [] start_request Sample.core0).

Lemma started_between : runs (sys_init Sample.core0 input) [Accepted 0; Finished 0 others; Written 0] between.
Proof. apply (one_request _ _ _ _ _ _ start_read eq_refl). Qed.

Lemma between_finish : runs between [Interface "wlan0"%string; Accepted 1; Finished 1 others; Written 1] finish.
Proof.
  apply (runs_cons _ _ _ _ (Some (Interface "wlan0"%string)) _ [Accepted 1; Finished 1 others; Written 1] _
    (sys_interface _ _ _ "wlan0"%string _ _ _ _ _ _ _ _ _)).
  apply (one_request _ _ _ _ _ _ stop_read eq_refl).
Qed.

Lemma served_on_demand : exists gs1 s1 i gs2,
  fleet_runs (fleet_init Sample.core0 input) [Accepted 0; Finished 0 others; Written 0] (Fleet between gs1) /\
  gs1 !! 0%nat = Some s1 /\ Gate.g_instance (Gate.gs_gate s1) = Some i /\
  fleet_runs (Fleet between gs1) [Interface "wlan0"%string; Accepted 1; Finished 1 others; Written 1] (Fleet finish gs2).
Proof.
  destruct (fleet_simulates _ _ _ _ _ _ _ 0 _ _ _ _ served_ok started_between) as [gs Hr].
  pose proof (fleet_ok_runs _ _ _ _ _ _ _ _ _ _ _ served_ok Hr) as Hok.
  assert (0%nat ∈ p_live (c_gates started)) as Hin by (apply (bool_decide_unpack (0%nat ∈ p_live (c_gates started))); vm_compute; exact I).
  destruct (ok_live _ _ _ _ _ _ _ _ Hok 0%nat Hin) as [s Hs].
  destruct (ok_open _ _ _ _ _ _ _ _ Hok 0%nat s Hs Hin) as [Hc|[]].
  destruct (open_gate_serves _ _ _ _ s (fun _ => eq_refl) eq_refl (fun _ => eq_refl)
    (ok_reachable _ _ _ _ _ _ _ _ Hok 0%nat s Hs) Hc) as (s1 & i & Hst & Hc1 & _ & Hi & _).
  destruct (allowed_open load empty minute up no_prepare up between 0%nat s s1 Hst Hc1) as [_ Ha].
  pose proof (gate_runs load empty error_resp minute up no_prepare up between 0%nat s s1 Ha gs Hs) as Hr1.
  destruct (fleet_simulates _ _ _ _ _ _ _ 0 _ _ _ _ (fleet_ok_runs _ _ _ _ _ _ _ _ _ _ _ Hok Hr1) between_finish) as [gs2 Hr2].
  exists (<[0%nat := s1]> gs), s1, i, gs2. split_and!; [|apply lookup_insert_eq | exact Hi | exact Hr2].
  exact (fleet_runs_app _ _ _ _ _ _ _ _ _ _ Hr [] _ Hr1).
Qed.


End Served.
