(* ===== verification/BoxContext.v ===== *)
(** * Making a box: src/internal/boxmain/context.go, create.go, color.go

    [Owner]: who owns the files a box makes. [Config]: the configuration a box is made of.
    [Startup]: the signals that arrive while a box starts, each goroutine's step by itself. *)

From S2P Require Import Prelude GoStr.

#[local] Open Scope string_scope.
#[local] Open Scope list_scope.

Module Owner.

(** What the environment holds; an unset variable reads as the empty string. *)
Record environment := Environment { SUDO_USER : string; SUDO_UID : string; SUDO_GID : string }.

(** The value [strconv.Atoi] returns when its error is ignored: zero for what is no number,
    the nearest integer for what is out of range. *)
Definition atoi_value (s : string) : Z :=
  match atoi s with
  | Some n => n
  | None =>
      match s with
      | String "-" ((String _ _) as s') => match parse_digits 0 s' with Some _ => (- 2 ^ 63)%Z | None => 0%Z end
      | String "+" ((String _ _) as s') => match parse_digits 0 s' with Some _ => (2 ^ 63 - 1)%Z | None => 0%Z end
      | String _ _ => match parse_digits 0 s with Some _ => (2 ^ 63 - 1)%Z | None => 0%Z end
      | EmptyString => 0%Z
      end
  end.

Section Owner.
  (** [os/user.Lookup] and the process's real ids, -1 on Windows. *)
  Context (Lookup : string -> option (string * string)) (Getuid Getgid : Z).

(** The user sudo was called by. *)
Definition sudo_ids (env : environment) : Z * Z :=
  let ownerUID := atoi_value (SUDO_UID env) in
  let ownerGID := atoi_value (SUDO_GID env) in
  if (ownerUID =? 0)%Z && (ownerGID =? 0)%Z && negb (bool_decide (SUDO_USER env = "")) then
    match Lookup (SUDO_USER env) with
    | Some (uid, gid) => (atoi_value uid, atoi_value gid)
    | None => (ownerUID, ownerGID)
    end
  else (ownerUID, ownerGID).

(** What [newBoxContext] gives the file manager of the context, if it makes one. *)
Definition newBoxContext (env : environment) : option (Z * Z) :=
  let ids := sudo_ids env in
  let '(ownerUID, ownerGID) := if (ids.1 <=? 0)%Z || (ids.2 <=? 0)%Z then (Getuid, Getgid) else ids in
  if (0 <? ownerUID)%Z && (0 <? ownerGID)%Z then Some (ownerUID, ownerGID) else None.

(** The reference: the ids sudo names, then the real ones, whichever first are a user's. *)
Definition first_user (l : list (Z * Z)) : option (Z * Z) :=
  head (filter (fun ids => 0 < ids.1 /\ 0 < ids.2)%Z l).

(** the files of a box are given to the first of the user sudo names and the real user
    that is an ordinary one (a positive user and a positive group), to nobody otherwise:
    never to root or root's group, and, without sudo's variables, only ever to who launched
    the process, setuid or not. *)
Theorem files_owner_exact env :
  newBoxContext env = first_user [sudo_ids env; (Getuid, Getgid)] /\
  (forall uid gid, newBoxContext env = Some (uid, gid) -> (0 < uid /\ 0 < gid)%Z) /\
  (env = Environment "" "" "" -> forall ids, newBoxContext env = Some ids -> ids = (Getuid, Getgid)).
Proof.
  assert (newBoxContext env = first_user [sudo_ids env; (Getuid, Getgid)]) as E.
  { unfold newBoxContext, first_user. destruct (sudo_ids env) as [u g]. cbn [fst snd].
    rewrite !filter_cons, filter_nil. cbn [fst snd].
    destruct (Z.leb_spec u 0), (Z.leb_spec g 0); cbn [orb];
      [rewrite decide_False by (cbn; lia) ..|rewrite decide_True by (cbn; lia)].
    1-3: case_decide as Hd; cbn in Hd; destruct (Z.ltb_spec 0 Getuid), (Z.ltb_spec 0 Getgid); cbn; done || lia.
    destruct (Z.ltb_spec 0 u), (Z.ltb_spec 0 g); try lia. done. }
  split; [done|]. split.
  - intros uid gid. rewrite E. unfold first_user. intros H%head_Some_elem_of%list_elem_of_filter. tauto.
  - intros -> ids. rewrite E. unfold first_user. rewrite filter_cons.
    rewrite decide_False by (vm_compute; intros [? _]; done). intros H%head_Some_elem_of%list_elem_of_filter.
    destruct H as [_ H]. by apply list_elem_of_singleton in H.
Qed.
End Owner.

(** Under sudo the files are the caller's, also where only the name is known. *)
Lemma sudo_caller :
  newBoxContext (fun _ => None) 0 0 (Environment "joe" "1000" "1000") = Some (1000, 1000)%Z /\
  newBoxContext (fun u => if bool_decide (u = "joe") then Some ("1000", "100") else None) 0 0
    (Environment "joe" "" "") = Some (1000, 100)%Z.
Proof. by vm_compute. Qed.

(** The comment says that a setuid launch carries no variable of sudo's; but they come from
    whoever launches it, and name another user before the real ids are asked. *)
Lemma setuid_launch_carries_variables :
  newBoxContext (fun _ => None) 1000 1000 (Environment "" "1001" "1001") = Some (1001, 1001)%Z.
Proof. by vm_compute. Qed.

End Owner.

Module Config.

(** The part of [option.LogOptions] that is touched, and the rest. *)
Record LogOptions := MkLogOptions { DisableColor : bool; log_rest : string }.
Record Options := MkOptions { Log : option LogOptions; options_rest : string }.

Section Config.
  (** sing's decoder, in a context. *)
  Context (Unmarshal : string -> result Options).

Definition parseConfig (configContent : string) : result Options :=
  match Unmarshal configContent with
  | Ok options => Ok options
  | Err e => Err ("decode config at " ++ configContent ++ ": " ++ e)
  end%string.

(** [DisableColor] sets the flag that is read here, before the box is made. *)
Definition with_color (disableColor : bool) (o : Options) : Options :=
  if disableColor then
    MkOptions (Some (MkLogOptions true (default "" (log_rest <$> Log o)))) (options_rest o)
  else o.

(** What the box is made of. *)
Definition create_options (disableColor : bool) (configContent : string) : result Options :=
  options ← parseConfig configContent; Ok (with_color disableColor options).

(** Colours are switched off where that was asked for, once, and nothing else is changed. *)
Lemma with_color_spec b o :
  with_color b (with_color b o) = with_color b o /\ options_rest (with_color b o) = options_rest o /\
  default "" (log_rest <$> Log (with_color b o)) = default "" (log_rest <$> Log o) /\
  (b = true -> DisableColor <$> Log (with_color b o) = Some true).
Proof. unfold with_color. destruct b; split_and!; by destruct o as [[]]. Qed.
End Config.
End Config.

Module Startup.

(** [instance.Start] in [Create]: running, returned, past [finishStart], and [Create] returned
    (with an instance, or with an error). *)
Inductive start_pc := Starting | Started (ok : bool) | Finished (ok : bool) | Returned (ok : bool).

(** The goroutine: in its receive, told of a signal, in [closeMonitor]'s sleep, past it,
    returned. *)
Inductive watch_pc := WReceive | WSignalled | WSleep | WWoken | WGone.

(** [u_signal]: a signal is in [osSignals], whose capacity is one; [u_open]: it is notified
    and not closed; [u_cancelled]: the box's context; [u_startCtx]: [startCtx] is done.
    [u_seen]: a signal was ever taken in. *)
Record startup := MkStartup {
  u_start : start_pc;
  u_watch : watch_pc;
  u_signal : bool;
  u_open : bool;
  u_cancelled : bool;
  u_startCtx : bool;
  u_exited : bool;
  u_seen : bool;
}.

Definition created : startup := MkStartup Starting WReceive false true false false false false.

(** The operating system delivers a signal: dropped while one is in the channel. *)
Definition deliver (u : startup) : option startup :=
  if u_open u && negb (u_exited u) then
    Some (MkStartup (u_start u) (u_watch u) true true (u_cancelled u) (u_startCtx u) false true)
  else None.

(** The rest of [Create]; [ok]: how [instance.Start] returns. *)
Definition create_step (ok : bool) (u : startup) : option startup :=
  if u_exited u then None
  else match u_start u with
  | Starting =>
      Some (MkStartup (Started ok) (u_watch u) (u_signal u) (u_open u) (u_cancelled u) (u_startCtx u) false (u_seen u))
  | Started ok =>
      Some (MkStartup (Finished ok) (u_watch u) (u_signal u) (u_open u) (u_cancelled u) true false (u_seen u))
  | Finished ok =>
      Some (MkStartup (Returned ok) (u_watch u) (u_signal u) false (negb ok || u_cancelled u) (u_startCtx u) false (u_seen u))
  | Returned _ => None
  end.

(** The goroutine and [closeMonitor]. *)
Definition watch_step (u : startup) : option startup :=
  if u_exited u then None
  else match u_watch u with
  | WReceive =>
      if u_signal u then
        Some (MkStartup (u_start u) WSignalled false (u_open u) (u_cancelled u) (u_startCtx u) false (u_seen u))
      else if u_open u then None
      else Some (MkStartup (u_start u) WGone false false (u_cancelled u) (u_startCtx u) false (u_seen u))
  | WSignalled =>
      Some (MkStartup (u_start u) WSleep (u_signal u) (u_open u) true (u_startCtx u) false (u_seen u))
  | WSleep =>
      Some (MkStartup (u_start u) WWoken (u_signal u) (u_open u) (u_cancelled u) (u_startCtx u) false (u_seen u))
  | WWoken =>
      if u_startCtx u then
        Some (MkStartup (u_start u) WGone (u_signal u) (u_open u) (u_cancelled u) true false (u_seen u))
      else
        Some (MkStartup (u_start u) WWoken (u_signal u) (u_open u) (u_cancelled u) false true (u_seen u))
  | WGone => None
  end.

Inductive startup_step : startup -> startup -> Prop :=
| su_signal u u' : deliver u = Some u' -> startup_step u u'
| su_create ok u u' : create_step ok u = Some u' -> startup_step u u'
| su_watch u u' : watch_step u = Some u' -> startup_step u u'.

Record startup_ok (u : startup) : Prop := StartupOk {
  ok_exited : u_exited u = true -> u_seen u = true /\ u_startCtx u = false;
  ok_seen : u_seen u = false -> u_signal u = false /\ (u_watch u = WReceive \/ u_watch u = WGone) /\
              (u_cancelled u = true -> u_start u = Returned false);
  ok_failed : u_start u = Returned false -> u_cancelled u = true;
  ok_open : u_open u = match u_start u with Returned _ => false | _ => true end;
  ok_startCtx : u_startCtx u = match u_start u with Finished _ | Returned _ => true | _ => false end;
}.

Lemma startup_ok_step u u' : startup_ok u -> startup_step u u' -> startup_ok u'.
Proof.
  intros [H1 H2 H3 H4 H5] Hst. destruct Hst as [u u' E|ok u u' E|u u' E].
  - unfold deliver in E. destruct (u_open u), (u_exited u); try done. injection E as <-. by split; cbn.
  - unfold create_step in E. destruct (u_exited u) eqn:He; [done|].
    destruct (u_start u) as [|ok'|ok'|ok'] eqn:Hs; try done; injection E as <-;
      rewrite ?Hs in *; (split; cbn; [done | | try done | done | done]).
    1-2: intros Hn; destruct (H2 Hn) as (? & ? & Hc); (split_and!; [done..|]); by intros ?%Hc.
    + intros Hn. destruct (H2 Hn) as (? & ? & Hc). split_and!; [done..|]. destruct ok'; [|done]. by intros ?%Hc.
    + by intros [= ->].
  - unfold watch_step in E. destruct (u_exited u) eqn:He; [done|].
    destruct (u_watch u) eqn:Hw; [destruct (u_signal u) eqn:Hg; [|destruct (u_open u) eqn:Ho; [done|]]| | |
      destruct (u_startCtx u) eqn:Hc|done]; injection E as <-; (split; cbn; [ | | auto | congruence | congruence]).
    11: { intros _. split; [|done]. destruct (u_seen u); [done|]. by destruct (H2 eq_refl) as (_ & [?|?] & _). }
    all: try done.
    all: intros Hn; destruct (H2 Hn) as (? & [?|?] & ?); try done; split_and!; auto.
Qed.

Lemma startup_ok_reachable u : steps startup_step created u -> startup_ok u.
Proof.
  intros H. eapply (steps_invariant startup_step startup_ok); [apply startup_ok_step | exact H|].
  split; cbn; try done. intros _. split_and!; [done | by left | done].
Qed.

(** How far the goroutine is from its end once [Create] has returned. *)
Definition watch_left (u : startup) : nat :=
  match u_watch u with WReceive => 4 | WSignalled => 3 | WSleep => 2 | WWoken => 1 | WGone => 0 end.

(** however signals arrive while a box starts, the process is ended only by a signal
    taken in before [instance.Start] returned; a start that failed leaves the context
    cancelled; one that no signal reached leaves it as it should be and the process running;
    and once [Create] has returned the goroutine that watches is never stuck: it goes on to
    its end, in at most four steps, without ending the process. *)
Theorem startup_signals u :
  steps startup_step created u ->
  (u_exited u = true -> u_seen u = true /\ u_startCtx u = false) /\
  (u_start u = Returned false -> u_cancelled u = true) /\
  (u_seen u = false -> u_exited u = false /\ (u_start u = Returned true -> u_cancelled u = false)) /\
  (forall ok, u_start u = Returned ok -> u_watch u = WGone \/
     exists u', watch_step u = Some u' /\ u_exited u' = false /\ (watch_left u' < watch_left u <= 4)%nat).
Proof.
  intros Hu%startup_ok_reachable. destruct Hu as [H1 H2 H3 H4 H5]. split_and!; [exact H1 | exact H3 | |].
  - intros Hs. destruct (H2 Hs) as (Hg & Hw & Hc). split.
    + destruct (u_exited u); [|done]. destruct (H1 eq_refl). congruence.
    + intros E. destruct (u_cancelled u); [|done]. specialize (Hc eq_refl). congruence.
  - intros ok Hr. assert (u_startCtx u = true) as Hd by (by rewrite H5, Hr).
    assert (u_exited u = false) as He by (destruct (u_exited u); [destruct (H1 eq_refl); congruence | done]).
    assert (u_open u = false) as Ho by (by rewrite H4, Hr).
    unfold watch_step, watch_left. rewrite He, Ho, Hd.
    destruct (u_watch u); [destruct (u_signal u)| | | |by left]; right; eexists; (split; [done|]); cbn; (split; [done | lia]).
Qed.

(** A run: signals, ends of steps of [Create] and steps of the goroutine. *)
Inductive event := Signal | Create_goes_on (ok : bool) | Watch_goes_on.
Definition apply_event (u : startup) (e : event) : option startup :=
  match e with Signal => deliver u | Create_goes_on ok => create_step ok u | Watch_goes_on => watch_step u end.
Definition run (es : list event) (u : startup) : startup :=
  foldl (fun u e => default u (apply_event u e)) u es.

Lemma run_steps es : forall u, steps startup_step u (run es u).
Proof.
  induction es as [|e es IH]; intros u; cbn; [constructor|].
  destruct (apply_event u e) as [u'|] eqn:E; cbn; [|apply IH].
  eapply steps_step; [|apply IH]. destruct e; cbn in E; by econstructor.
Qed.

(** A signal while the box starts, where the start is done within the time it is given. *)
Definition signalled_start : startup :=
  run [Signal; Watch_goes_on; Watch_goes_on; Create_goes_on true; Create_goes_on true; Create_goes_on true] created.

Lemma startup_signals_witness :
  steps startup_step created signalled_start /\
  (u_watch signalled_start = WGone \/ exists u', watch_step signalled_start = Some u' /\ u_exited u' = false).
Proof.
  assert (steps startup_step created signalled_start) as Hs by apply run_steps. split; [exact Hs|].
  destruct (startup_signals signalled_start Hs) as (_ & _ & _ & H).
  destruct (H true eq_refl) as [?|(u' & ? & ? & _)]; [by left | right; by exists u'].
Defined.

(** The signal is used up: the process goes on, and [Create] has returned an instance whose
    context is cancelled. *)
Lemma signal_cancels_started_box :
  let u := run [Watch_goes_on; Watch_goes_on] signalled_start in
  u_start u = Returned true /\ u_cancelled u = true /\ u_watch u = WGone /\ u_exited u = false.
Proof. by vm_compute. Qed.

End Startup.
