(* ===== verification/Probe.v ===== *)
(** * Probing outbounds: [internal/probe/probe.go], [urltest.go] and [iptest.go]

    The test session, the result buffers the GUI polls, the concurrent batch, the dialer
    that owns what it dialled, and the walk to the tunnels an outbound depends on. *)

From stdpp Require Import pretty.
From S2P Require Export Prelude GoStr.
Local Open Scope string_scope.
Open Scope Z_scope.

(** ** [testSession]: contexts by number, and the ones that are cancelled *)

Record testSession := MkSession {
  s_ctx : option nat;
  s_next : nat;
  s_cancelled : gset nat
}.

Definition current (s : testSession) : nat * testSession :=
  match s_ctx s with
  | Some c => (c, s)
  | None => (s_next s, MkSession (Some (s_next s)) (S (s_next s)) (s_cancelled s))
  end.

Definition cancelAndRearm (s : testSession) : testSession :=
  let cancelled := match s_ctx s with Some c => {[c]} ∪ s_cancelled s | None => s_cancelled s end in
  MkSession (Some (s_next s)) (S (s_next s)) cancelled.

Definition session_ok (s : testSession) : Prop :=
  (forall c, c ∈ s_cancelled s -> (c < s_next s)%nat) /\
  (forall c, s_ctx s = Some c -> (c < s_next s)%nat /\ c ∉ s_cancelled s).

Lemma session_ok_current s : session_ok s -> session_ok (snd (current s)).
Proof.
  intros Hs. unfold current. destruct (s_ctx s) as [c|] eqn:E; [exact Hs|].
  destruct Hs as [H1 H2]. split; cbn.
  - intros c Hc%H1. lia.
  - intros c [= <-]. split; [lia|]. intros Hc%H1. lia.
Qed.

Lemma session_ok_rearm s : session_ok s -> session_ok (cancelAndRearm s).
Proof.
  intros [H1 H2]. unfold cancelAndRearm. split; cbn.
  - intros c. destruct (s_ctx s) as [d|] eqn:E; [rewrite elem_of_union, elem_of_singleton|];
      [intros [-> | Hc] | intros Hc]; try (apply H1 in Hc; lia). destruct (H2 d); [done | lia].
  - intros c [= <-]. split; [lia|]. intros Hc.
    destruct (s_ctx s) as [d|] eqn:E; [rewrite elem_of_union, elem_of_singleton in Hc|].
    + destruct Hc as [Hd | Hc%H1]; [|lia]. destruct (H2 d); [done | lia].
    + apply H1 in Hc. lia.
Qed.

(** ** [resultBuffer]: results by pointer *)

Definition AddResult (r : nat) (b : list nat) : list nat := b ++ [r].
Definition Results (b : list nat) : list nat * list nat := (b, []).
Definition Reclaim (owned : list nat) (b : list nat) : list nat :=
  match owned, b with
  | [], _ | _, [] => b
  | _, _ => filter (.∉ owned) b
  end.

Lemma Reclaim_spec owned b : Reclaim owned b = filter (.∉ owned) b.
Proof.
  unfold Reclaim. destruct owned as [|o owned].
  - induction b as [|r b IH]; [done|]. rewrite filter_cons, decide_True by set_solver. by rewrite <- IH.
  - by destruct b.
Qed.

(** ** [runBatch] *)

Definition MaxConcurrentTests : Z := 100.

Definition normalizeConcurrency (maxConcurrency : Z) : Z :=
  if (maxConcurrency <=? 0) || (500 <=? maxConcurrency) then MaxConcurrentTests else maxConcurrency.

Lemma normalizeConcurrency_bounds n : 1 <= normalizeConcurrency n <= 499.
Proof. unfold normalizeConcurrency, MaxConcurrentTests. case_match; lia. Qed.

Section Batch.
  (** The results of the probe at hand: [fail], and what [run] may return for a tag;
      both carry the tag they were given. *)
  Context {R : Type} (fail : string -> string -> R) (runs : string -> R -> Prop).
  (** [outbounds.Outbound], and the normalised limit. *)
  Context (found : string -> bool) (limit : nat).

(** A probe goroutine: started, or with its result stored but not yet published. *)
Inductive task :=
| TRunning (tag : string)
| TStored (tag : string) (r : nat).

(** The loop: between two tags, or waiting for a slot of the limiter. *)
Record batch := MkBatch {
  b_pending : list string;
  b_waiting : option string;
  b_tasks : gmap nat task;
  b_map : gmap string nat;      (* resMap *)
  b_heap : gmap nat R;          (* the results allocated so far *)
  b_buffer : list nat;          (* what the reporter holds *)
  b_drained : list nat;         (* what pollers have taken from it *)
  b_cancelled : bool
}.

Definition new_ptr (b : batch) : nat := fresh (dom (b_heap b) ∪ list_to_set (b_buffer b)
  ∪ list_to_set (b_drained b)).

(** [store]. *)
Definition store (tag : string) (r : nat) (x : R) (b : batch) : batch :=
  MkBatch (b_pending b) (b_waiting b) (b_tasks b) (<[tag := r]> (b_map b)) (<[r := x]> (b_heap b))
    (b_buffer b) (b_drained b) (b_cancelled b).

Definition set_tasks (ts : gmap nat task) (b : batch) : batch :=
  MkBatch (b_pending b) (b_waiting b) ts (b_map b) (b_heap b) (b_buffer b) (b_drained b) (b_cancelled b).

Definition set_loop (pending : list string) (waiting : option string) (b : batch) : batch :=
  MkBatch pending waiting (b_tasks b) (b_map b) (b_heap b) (b_buffer b) (b_drained b) (b_cancelled b).

Definition set_buffer (buffer drained : list nat) (b : batch) : batch :=
  MkBatch (b_pending b) (b_waiting b) (b_tasks b) (b_map b) (b_heap b) buffer drained (b_cancelled b).

(** The result of a tag nothing was found for, or of [probe.run]. *)
Definition task_result (tag : string) (x : R) : Prop :=
  if found tag then runs tag x
  else x = fail tag ("no outbound with tag " ++ tag ++ " found").

(** The batch's own steps. *)
Inductive batch_step : batch -> batch -> Prop :=
| b_abort b tag pending :
    b_pending b = tag :: pending -> b_waiting b = None -> b_cancelled b = true ->
    batch_step b (set_loop pending None (store tag (new_ptr b) (fail tag "test aborted") b))
| b_take b tag pending :
    b_pending b = tag :: pending -> b_waiting b = None -> b_cancelled b = false ->
    batch_step b (set_loop pending (Some tag) b)
| b_spawn b tag :
    b_waiting b = Some tag -> (size (b_tasks b) < limit)%nat ->
    batch_step b (set_tasks (<[fresh (dom (b_tasks b)) := TRunning tag]> (b_tasks b))
                    (set_loop (b_pending b) None b))
| b_store b g tag x :
    b_tasks b !! g = Some (TRunning tag) -> task_result tag x ->
    batch_step b (set_tasks (<[g := TStored tag (new_ptr b)]> (b_tasks b)) (store tag (new_ptr b) x b))
| b_publish b g tag r :
    b_tasks b !! g = Some (TStored tag r) ->
    batch_step b (set_tasks (delete g (b_tasks b))
                    (set_buffer (AddResult r (b_buffer b)) (b_drained b) b)).

(** What the others do meanwhile: [StopTest], and a poll of the reporter. *)
Inductive env_step : batch -> batch -> Prop :=
| e_cancel b :
    env_step b (MkBatch (b_pending b) (b_waiting b) (b_tasks b) (b_map b) (b_heap b) (b_buffer b)
                  (b_drained b) true)
| e_poll b :
    env_step b (set_buffer (snd (Results (b_buffer b)))
                  (b_drained b ++ fst (Results (b_buffer b)))%list b).

Definition any_step (b b' : batch) : Prop := batch_step b b' \/ env_step b b'.

Definition batch_init (tags : list string) (cancelled : bool) (buffer : list nat) : batch :=
  MkBatch tags None ∅ ∅ ∅ buffer [] cancelled.

(** After [wg.Wait()]. *)
Definition batch_done (b : batch) : Prop :=
  b_pending b = [] /\ b_waiting b = None /\ b_tasks b = ∅.

(** The slice [runBatch] returns, as the pointers it has ([None]: a tag without one). *)
Definition batch_results (tags : list string) (b : batch) : list (option nat) :=
  (fun tag => b_map b !! tag) <$> tags.

(** [BatchURLTest] and [BatchIPTest] reclaim what they return. *)
Definition reclaim_batch (tags : list string) (b : batch) : list nat :=
  Reclaim (omap id (batch_results tags b)) (b_buffer b).

(** ** The batch's invariant *)

  Context (tag_of : R -> string).
  Context (fail_tag : forall tag e, tag_of (fail tag e) = tag).
  Context (runs_tag : forall tag x, runs tag x -> tag_of x = tag).

(** The tag at position [k] of the batch: settled, waiting, pending or in a goroutine. *)
Definition task_tag (t : task) : string := match t with TRunning tag | TStored tag _ => tag end.

Definition heap_tag (b : batch) (r : nat) (tag : string) : Prop :=
  exists x, b_heap b !! r = Some x /\ tag_of x = tag.

(** Every tag passed is in [resMap] or in a goroutine that has yet to store; a stored
    pointer holds a result of its tag; what is published, or about to be, was stored. *)
Record batch_inv (tags : list string) (buffer0 : list nat) (b : batch) : Prop := {
  inv_tags : forall tag, tag ∈ tags ->
    tag ∈ b_pending b \/ b_waiting b = Some tag \/
    (exists g, b_tasks b !! g = Some (TRunning tag)) \/ is_Some (b_map b !! tag);
  inv_from : (forall tag, tag ∈ b_pending b \/ b_waiting b = Some tag -> tag ∈ tags) /\
    (forall g t, b_tasks b !! g = Some t -> task_tag t ∈ tags);
  inv_map : forall tag r, b_map b !! tag = Some r -> tag ∈ tags /\ heap_tag b r tag;
  inv_stored : forall g tag r, b_tasks b !! g = Some (TStored tag r) -> heap_tag b r tag;
  inv_published : forall r, r ∈ b_buffer b \/ r ∈ b_drained b ->
    r ∈ buffer0 \/ exists tag, tag ∈ tags /\ heap_tag b r tag;
  inv_old : forall r, r ∈ buffer0 -> b_heap b !! r = None /\ (r ∈ b_buffer b \/ r ∈ b_drained b);
  inv_limit : (size (b_tasks b) <= limit)%nat
}.

Lemma new_ptr_fresh b :
  b_heap b !! new_ptr b = None /\ (new_ptr b ∉ b_buffer b) /\ (new_ptr b ∉ b_drained b).
Proof.
  pose proof (is_fresh (dom (b_heap b) ∪ list_to_set (b_buffer b) ∪ list_to_set (b_drained b))) as F.
  fold (new_ptr b) in F.
  rewrite !elem_of_union, !elem_of_list_to_set, elem_of_dom, eq_None_not_Some in *. tauto.
Qed.

Lemma heap_tag_store b tag x r r' t :
  b_heap b !! r = None -> heap_tag b r' t -> heap_tag (store tag r x b) r' t.
Proof.
  intros Hr (y & Hy & Ht). exists y. split; [|done]. cbn. rewrite lookup_insert_ne; [done|]. congruence.
Qed.

Lemma heap_tag_new b tag x r : tag_of x = tag -> heap_tag (store tag r x b) r tag.
Proof. intros Ht. exists x. split; [|done]. cbn. by rewrite lookup_insert_eq. Qed.

Lemma task_result_tag tag x : task_result tag x -> tag_of x = tag.
Proof. unfold task_result. case_match; [apply runs_tag | intros ->; apply fail_tag]. Qed.

(** Storing a result of a tag of the batch keeps what the invariant says of the map and
    of the published pointers. *)
Lemma published_store (tags : list string) (buffer0 : list nat) b tag x :
  (forall r, r ∈ b_buffer b \/ r ∈ b_drained b ->
    r ∈ buffer0 \/ exists tag, tag ∈ tags /\ heap_tag b r tag) ->
  forall r, r ∈ b_buffer b \/ r ∈ b_drained b ->
    r ∈ buffer0 \/ exists t, t ∈ tags /\ heap_tag (store tag (new_ptr b) x b) r t.
Proof.
  intros H r Hr. destruct (H r Hr) as [|(t & Ht & Hh)]; [by left|]. right. exists t. split; [done|].
  apply heap_tag_store; [apply new_ptr_fresh | done].
Qed.

Lemma map_store (tags : list string) b tag x :
  tag_of x = tag -> tag ∈ tags ->
  (forall t r, b_map b !! t = Some r -> t ∈ tags /\ heap_tag b r t) ->
  forall t r, b_map (store tag (new_ptr b) x b) !! t = Some r ->
    t ∈ tags /\ heap_tag (store tag (new_ptr b) x b) r t.
Proof.
  intros Hx Hin H t r. cbn. destruct (decide (tag = t)) as [->|Hne].
  - rewrite lookup_insert_eq. intros [= <-]. split; [done | by apply heap_tag_new].
  - rewrite lookup_insert_ne by done. intros [? ?]%H. split; [done|].
    apply heap_tag_store; [apply new_ptr_fresh | done].
Qed.

Lemma old_store (buffer0 : list nat) b tag x :
  (forall r, r ∈ buffer0 -> b_heap b !! r = None /\ (r ∈ b_buffer b \/ r ∈ b_drained b)) ->
  forall r, r ∈ buffer0 ->
    b_heap (store tag (new_ptr b) x b) !! r = None /\ (r ∈ b_buffer b \/ r ∈ b_drained b).
Proof.
  intros H r Hr. destruct (H r Hr) as [Hh Hb]. split; [|done]. cbn.
  rewrite lookup_insert_ne; [done|]. intros <-. destruct (new_ptr_fresh b) as (_ & ? & ?). tauto.
Qed.

Lemma batch_inv_init tags cancelled buffer0 : batch_inv tags buffer0 (batch_init tags cancelled buffer0).
Proof.
  split; cbn; try (intros; simplify_map_eq; fail).
  - auto.
  - split; [by intros tag [?|?] | intros; simplify_map_eq].
  - intros r [?|Hr]; [by left | set_solver].
  - intros r Hr. split; [done | by left].
  - rewrite map_size_empty. lia.
Qed.

Lemma batch_inv_abort tags buffer0 b tag pending :
  b_pending b = tag :: pending -> b_waiting b = None -> b_cancelled b = true ->
  batch_inv tags buffer0 b ->
  batch_inv tags buffer0 (set_loop pending None (store tag (new_ptr b) (fail tag "test aborted") b)).
Proof.
  intros Hp Hw Hc [I1 [I2 I3] I4 I5 I6 I7 I8].
  split; cbn [set_loop b_pending b_waiting b_tasks b_map b_heap b_buffer b_drained store].
  - intros t Ht. destruct (decide (tag = t)) as [->|Hne].
    { right; right; right. rewrite lookup_insert_eq. eauto. }
    rewrite lookup_insert_ne by done. destruct (I1 t Ht) as [H|[H|[H|H]]]; auto; [|congruence].
    rewrite Hp in H. apply elem_of_cons in H as [->|H]; [done | by left].
  - split; [|done]. intros t [Ht|?]; [|done]. apply I2. left. rewrite Hp. by right.
  - apply map_store; [apply fail_tag | apply I2; left; rewrite Hp; by left | done].
  - intros g t r Hg. apply heap_tag_store; [apply new_ptr_fresh | by eapply I5].
  - by apply (published_store _ _ _ tag).
  - by apply (old_store _ _ tag).
  - done.
Qed.

Lemma batch_inv_take tags buffer0 b tag pending :
  b_pending b = tag :: pending -> b_waiting b = None -> b_cancelled b = false ->
  batch_inv tags buffer0 b ->
  batch_inv tags buffer0 (set_loop pending (Some tag) b).
Proof.
  intros Hp Hw Hc [I1 [I2 I3] I4 I5 I6 I7 I8].
  split; cbn [set_loop b_pending b_waiting b_tasks b_map b_heap b_buffer b_drained]; try done.
  - intros t Ht. destruct (I1 t Ht) as [H|[H|H]]; auto; [|congruence].
    rewrite Hp in H. apply elem_of_cons in H as [->|H]; auto.
  - split; [|done]. intros t [Ht|[= <-]]; apply I2; left; rewrite Hp; [by right | by left].
Qed.

Lemma batch_inv_spawn tags buffer0 b tag :
  b_waiting b = Some tag -> (size (b_tasks b) < limit)%nat ->
  batch_inv tags buffer0 b ->
  batch_inv tags buffer0 (set_tasks (<[fresh (dom (b_tasks b)) := TRunning tag]> (b_tasks b)) (set_loop (b_pending b) None b)).
Proof.
  intros Hw Hsz [I1 [I2 I3] I4 I5 I6 I7 I8].
  set (g := fresh (dom (b_tasks b))).
  assert (b_tasks b !! g = None) as Hg by (apply not_elem_of_dom, is_fresh).
  split; cbn [set_loop set_tasks b_pending b_waiting b_tasks b_map b_heap b_buffer b_drained]; try done.
  - intros t Ht. destruct (I1 t Ht) as [H|[H|[[g' H]|H]]]; auto.
    + simplify_eq. right; right; left. exists g. by rewrite lookup_insert_eq.
    + right; right; left. exists g'. rewrite lookup_insert_ne; [done|]. congruence.
  - split.
    + intros t [Ht|?]; [|done]. apply I2. by left.
    + intros g' t. destruct (decide (g = g')) as [<-|Hne].
      { rewrite lookup_insert_eq. intros [= <-]. apply I2. by right. }
      rewrite lookup_insert_ne by done. apply I3.
  - intros g' t r. destruct (decide (g = g')) as [<-|Hne]; [by rewrite lookup_insert_eq|].
    rewrite lookup_insert_ne by done. apply I5.
  - rewrite map_size_insert_None by done. lia.
Qed.

Lemma batch_inv_store tags buffer0 b g tag x :
  b_tasks b !! g = Some (TRunning tag) -> task_result tag x ->
  batch_inv tags buffer0 b ->
  batch_inv tags buffer0 (set_tasks (<[g := TStored tag (new_ptr b)]> (b_tasks b)) (store tag (new_ptr b) x b)).
Proof.
  intros Hg Hx [I1 [I2 I3] I4 I5 I6 I7 I8].
  split; cbn [set_tasks b_pending b_waiting b_tasks b_map b_heap b_buffer b_drained store].
  - intros t Ht. destruct (decide (tag = t)) as [->|Hne].
    { right; right; right. rewrite lookup_insert_eq. eauto. }
    rewrite (lookup_insert_ne (b_map b)) by done.
    destruct (I1 t Ht) as [H|[H|[[g' H]|H]]]; auto.
    right; right; left. exists g'. rewrite lookup_insert_ne; [done|]. congruence.
  - split; [done|]. intros g' t. destruct (decide (g = g')) as [<-|Hne].
    { rewrite lookup_insert_eq. intros [= <-]. by apply I3 in Hg. }
    rewrite lookup_insert_ne by done. apply I3.
  - apply map_store; [by apply task_result_tag | by apply I3 in Hg | done].
  - intros g' t r. destruct (decide (g = g')) as [<-|Hne].
    + rewrite lookup_insert_eq. intros [= <- <-]. by apply heap_tag_new, task_result_tag.
    + rewrite lookup_insert_ne by done. intros ?%I5.
      apply heap_tag_store; [apply new_ptr_fresh | done].
  - by apply (published_store _ _ _ tag).
  - by apply (old_store _ _ tag).
  - rewrite map_size_insert_Some by done. lia.
Qed.

Lemma batch_inv_publish tags buffer0 b g tag r :
  b_tasks b !! g = Some (TStored tag r) ->
  batch_inv tags buffer0 b ->
  batch_inv tags buffer0 (set_tasks (delete g (b_tasks b)) (set_buffer (AddResult r (b_buffer b)) (b_drained b) b)).
Proof.
  intros Hg [I1 [I2 I3] I4 I5 I6 I7 I8].
  split; cbn [set_tasks set_buffer b_pending b_waiting b_tasks b_map b_heap b_buffer b_drained]; try done.
  - intros t Ht. destruct (I1 t Ht) as [H|[H|[[g' H]|H]]]; auto.
    right; right; left. exists g'. rewrite lookup_delete_ne; [done|]. congruence.
  - split; [done|]. intros g' t [_ ?]%lookup_delete_Some. by eapply I3.
  - intros g' t r' [_ ?]%lookup_delete_Some. by eapply I5.
  - unfold AddResult. intros r'. rewrite elem_of_app, list_elem_of_singleton.
    intros [[?| ->]|?]; [apply I6; auto | | apply I6; auto].
    right. exists tag. split; [by apply I3 in Hg | by apply I5 in Hg].
  - intros r' Hr'. destruct (I7 r' Hr') as [? [?|?]]; split; auto. left. unfold AddResult.
    apply elem_of_app. by left.
  - rewrite map_size_delete_Some by eauto. lia.
Qed.

Lemma batch_inv_batch_step tags buffer0 b b' :
  batch_step b b' -> batch_inv tags buffer0 b -> batch_inv tags buffer0 b'.
Proof.
  destruct 1; eauto using batch_inv_abort, batch_inv_take, batch_inv_spawn, batch_inv_store, batch_inv_publish.
Qed.

Lemma batch_inv_step tags buffer0 b b' :
  any_step b b' -> batch_inv tags buffer0 b -> batch_inv tags buffer0 b'.
Proof.
  intros [Hs|Hs]; [by apply batch_inv_batch_step|]. intros [I1 I2 I4 I5 I6 I7 I8].
  destruct Hs as [b | b]; split; cbn; try done.
  - intros r [?|Hr]; [set_solver|]. apply I6. apply elem_of_app in Hr. tauto.
  - intros r Hr. destruct (I7 r Hr) as [? Hb]. split; [done|]. right. apply elem_of_app. tauto.
Qed.

(** When the tags are distinct, each is at one place: pending, waiting, in one goroutine,
    or settled; so what was stored for it, or published, is what [resMap] has. *)
Record batch_unique (buffer0 : list nat) (b : batch) : Prop := {
  uniq_pending : NoDup (b_pending b);
  uniq_fresh : forall tag, tag ∈ b_pending b \/ b_waiting b = Some tag ->
    b_map b !! tag = None /\ (forall g t, b_tasks b !! g = Some t -> task_tag t <> tag);
  uniq_waiting : forall tag, b_waiting b = Some tag -> tag ∉ b_pending b;
  uniq_tasks : forall g g' t t', b_tasks b !! g = Some t -> b_tasks b !! g' = Some t' ->
    task_tag t = task_tag t' -> g = g';
  uniq_running : forall g tag, b_tasks b !! g = Some (TRunning tag) -> b_map b !! tag = None;
  uniq_stored : forall g tag r, b_tasks b !! g = Some (TStored tag r) -> b_map b !! tag = Some r;
  uniq_published : forall r, r ∈ b_buffer b \/ r ∈ b_drained b ->
    r ∈ buffer0 \/ exists tag, b_map b !! tag = Some r
}.

Lemma batch_unique_init tags cancelled buffer0 :
  NoDup tags -> batch_unique buffer0 (batch_init tags cancelled buffer0).
Proof.
  intros Hnd. split; cbn; try done; try (intros; simplify_map_eq; fail).
  intros r [?|Hr]; [by left | set_solver].
Qed.

(** A settled pointer stays in the map when another tag is stored. *)
Lemma published_insert (buffer0 buffer drained : list nat) (m : gmap string nat) tag p :
  m !! tag = None ->
  (forall r, r ∈ buffer \/ r ∈ drained -> r ∈ buffer0 \/ exists t, m !! t = Some r) ->
  forall r, r ∈ buffer \/ r ∈ drained -> r ∈ buffer0 \/ exists t, <[tag := p]> m !! t = Some r.
Proof.
  intros Hm H r Hr. destruct (H r Hr) as [|[t Ht]]; [by left|]. right. exists t.
  rewrite lookup_insert_ne; [done|]. congruence.
Qed.

Lemma batch_unique_abort buffer0 b tag pending :
  b_pending b = tag :: pending -> b_waiting b = None -> b_cancelled b = true ->
  batch_unique buffer0 b ->
  batch_unique buffer0 (set_loop pending None (store tag (new_ptr b) (fail tag "test aborted") b)).
Proof.
  intros Hp Hw Hc [U1 U2 U3 U4 U5 U6 U7].
  rewrite Hp in *. apply NoDup_cons in U1 as [Hn U1].
  destruct (U2 tag) as [Hm Ht]; [left; by left|].
  split; cbn [set_loop b_pending b_waiting b_tasks b_map b_heap b_buffer b_drained store]; try done.
  - intros t [Hin|?]; [|done]. destruct (U2 t) as [Hm' Ht']; [left; by right|]. split; [|done].
    rewrite lookup_insert_ne; [done|]. by intros ->.
  - intros g t Hg. rewrite lookup_insert_ne; [by eapply U5|]. intros ->. by apply Ht in Hg.
  - intros g t r Hg. rewrite lookup_insert_ne; [by eapply U6|]. intros ->. by apply Ht in Hg.
  - by apply published_insert.
Qed.

Lemma batch_unique_take buffer0 b tag pending :
  b_pending b = tag :: pending -> b_waiting b = None -> b_cancelled b = false ->
  batch_unique buffer0 b ->
  batch_unique buffer0 (set_loop pending (Some tag) b).
Proof.
  intros Hp Hw Hc [U1 U2 U3 U4 U5 U6 U7].
  rewrite Hp in *. apply NoDup_cons in U1 as [Hn U1].
  split; cbn [set_loop b_pending b_waiting b_tasks b_map b_heap b_buffer b_drained]; try done.
  - intros t [Hin|[= <-]]; apply U2; left; [by right | by left].
  - by intros t [= <-].
Qed.

Lemma batch_unique_spawn buffer0 b tag :
  b_waiting b = Some tag -> (size (b_tasks b) < limit)%nat ->
  batch_unique buffer0 b ->
  batch_unique buffer0 (set_tasks (<[fresh (dom (b_tasks b)) := TRunning tag]> (b_tasks b)) (set_loop (b_pending b) None b)).
Proof.
  intros Hw Hsz [U1 U2 U3 U4 U5 U6 U7].
  set (g := fresh (dom (b_tasks b))).
  destruct (U2 tag) as [Hm Ht]; [by right|]. specialize (U3 tag Hw).
  split; cbn [set_loop set_tasks b_pending b_waiting b_tasks b_map b_heap b_buffer b_drained]; try done.
  - intros t [Hin|?]; [|done]. destruct (U2 t) as [Hm' Ht']; [by left|]. split; [done|].
    intros g' t' [[<- <-]|[_ Hg']]%lookup_insert_Some; [|by eapply Ht'].
    cbn. by intros ->.
  - intros g1 g2 t1 t2 [[<- <-]|[_ H1]]%lookup_insert_Some [[<- <-]|[_ H2]]%lookup_insert_Some; cbn.
    + done.
    + intros E. symmetry in E. by apply Ht in H2.
    + intros E. by apply Ht in H1.
    + by eapply U4.
  - intros g' t [[<- [= <-]]|[_ Hg']]%lookup_insert_Some; [done | by eapply U5].
  - intros g' t r [[<- ?]|[_ Hg']]%lookup_insert_Some; [done | by eapply U6].
Qed.

Lemma batch_unique_store buffer0 b g tag x :
  b_tasks b !! g = Some (TRunning tag) -> task_result tag x ->
  batch_unique buffer0 b ->
  batch_unique buffer0 (set_tasks (<[g := TStored tag (new_ptr b)]> (b_tasks b)) (store tag (new_ptr b) x b)).
Proof.
  intros Hg Hx [U1 U2 U3 U4 U5 U6 U7].
  assert (b_map b !! tag = None) as Hm by by eapply U5.
  split; cbn [set_tasks b_pending b_waiting b_tasks b_map b_heap b_buffer b_drained store]; try done.
  - intros t Ht. destruct (U2 t Ht) as [Hm' Ht']. split.
    + rewrite lookup_insert_ne; [done|]. intros ->. by apply Ht' in Hg.
    + intros g' t' [[<- <-]|[_ Hg']]%lookup_insert_Some; [|by eapply Ht']. cbn. by apply Ht' in Hg.
  - intros g1 g2 t1 t2 [[<- <-]|[_ H1]]%lookup_insert_Some [[<- <-]|[_ H2]]%lookup_insert_Some; cbn.
    + done.
    + intros E. by eapply U4 in H2; [|exact Hg|].
    + intros E. by eapply U4 in H1; [|exact Hg|].
    + by eapply U4.
  - intros g' t [[<- ?]|[Hne Hg']]%lookup_insert_Some; [done|].
    rewrite lookup_insert_ne; [by eapply U5|]. intros ->. apply Hne. by eapply U4.
  - intros g' t r [[<- [= <- <-]]|[Hne Hg']]%lookup_insert_Some; [by rewrite lookup_insert_eq|].
    rewrite lookup_insert_ne; [by eapply U6|]. intros ->. apply Hne. by eapply U4.
  - by apply published_insert.
Qed.

Lemma batch_unique_publish buffer0 b g tag r :
  b_tasks b !! g = Some (TStored tag r) ->
  batch_unique buffer0 b ->
  batch_unique buffer0 (set_tasks (delete g (b_tasks b)) (set_buffer (AddResult r (b_buffer b)) (b_drained b) b)).
Proof.
  intros Hg [U1 U2 U3 U4 U5 U6 U7].
  split; cbn [set_tasks set_buffer b_pending b_waiting b_tasks b_map b_heap b_buffer b_drained]; try done.
  - intros t Ht. destruct (U2 t Ht) as [Hm' Ht']. split; [done|].
    intros g' t' [_ Hg']%lookup_delete_Some. by eapply Ht'.
  - intros g1 g2 t1 t2 [_ H1]%lookup_delete_Some [_ H2]%lookup_delete_Some. by eapply U4.
  - intros g' t [_ Hg']%lookup_delete_Some. by eapply U5.
  - intros g' t r' [_ Hg']%lookup_delete_Some. by eapply U6.
  - unfold AddResult. intros r'. rewrite elem_of_app, list_elem_of_singleton.
    intros [[?| ->]|?]; [apply U7; auto | | apply U7; auto]. right. exists tag. by eapply U6.
Qed.

Lemma batch_unique_batch_step buffer0 b b' :
  batch_step b b' -> batch_unique buffer0 b -> batch_unique buffer0 b'.
Proof.
  destruct 1; eauto using batch_unique_abort, batch_unique_take, batch_unique_spawn, batch_unique_store, batch_unique_publish.
Qed.

Lemma batch_unique_step buffer0 b b' :
  any_step b b' -> batch_unique buffer0 b -> batch_unique buffer0 b'.
Proof.
  intros [Hs|Hs]; [by apply batch_unique_batch_step|]. intros [U1 U2 U3 U4 U5 U6 U7].
  destruct Hs as [b | b]; split; cbn; try done.
  intros r [?|Hr]; [set_solver|]. apply U7. apply elem_of_app in Hr. tauto.
Qed.

Lemma batch_reachable tags cancelled buffer0 b :
  steps any_step (batch_init tags cancelled buffer0) b -> batch_inv tags buffer0 b.
Proof.
  intros Hs. eapply (steps_invariant any_step (batch_inv tags buffer0)); [|exact Hs | apply batch_inv_init].
  intros. by eapply batch_inv_step.
Qed.

Lemma batch_reachable_unique tags cancelled buffer0 b :
  NoDup tags -> steps any_step (batch_init tags cancelled buffer0) b -> batch_unique buffer0 b.
Proof.
  intros Hnd Hs. eapply (steps_invariant any_step (batch_unique buffer0));
    [|exact Hs | by apply batch_unique_init]. intros. by eapply batch_unique_step.
Qed.

(** ** The batch ends *)

Definition is_running (kv : nat * task) : Prop := match kv.2 with TRunning _ => True | TStored _ _ => False end.
#[local] Instance is_running_dec kv : Decision (is_running kv).
Proof. unfold is_running. destruct (kv.2); apply _. Defined.

Definition batch_measure (b : batch) : nat :=
  4 * length (b_pending b) + (match b_waiting b with Some _ => 3 | None => 0 end)
  + size (b_tasks b) + size (filter is_running (b_tasks b)).

Lemma batch_step_measure b b' : batch_step b b' -> (batch_measure b' < batch_measure b)%nat.
Proof.
  unfold batch_measure. intros Hstep.
  destruct Hstep as [b tag pending Hp Hw Hc | b tag pending Hp Hw Hc | b tag Hw Hsz
    | b g tag x Hg Hx | b g tag r Hg];
    cbn [set_loop set_tasks set_buffer store b_pending b_waiting b_tasks].
  - rewrite Hp, Hw. cbn. lia.
  - rewrite Hp, Hw. cbn. lia.
  - set (g := fresh (dom (b_tasks b))).
    assert (b_tasks b !! g = None) as Hg by (apply not_elem_of_dom, is_fresh).
    rewrite Hw, map_filter_insert_True by done. rewrite map_size_insert_None by done.
    rewrite map_size_insert_None by (apply map_lookup_filter_None; by left). lia.
  - rewrite map_filter_insert_False by (cbv; tauto).
    rewrite map_filter_delete, map_size_insert_Some by done.
    rewrite map_size_delete_Some; [|eexists; by apply map_lookup_filter_Some].
    assert (size (filter is_running (b_tasks b)) <> 0%nat); [|lia].
    rewrite map_size_ne_0_lookup. exists g. eexists. by apply map_lookup_filter_Some.
  - rewrite map_filter_delete_not by (intros y Hy; rewrite Hg in Hy; injection Hy as <-; cbv; tauto).
    rewrite map_size_delete_Some by eauto.
    assert (size (b_tasks b) <> 0%nat); [|lia]. rewrite map_size_ne_0_lookup. eauto.
Qed.

Lemma batch_progress b :
  (0 < limit)%nat -> (forall tag, exists x, task_result tag x) ->
  batch_done b \/ exists b', batch_step b b'.
Proof.
  intros Hl Hres. destruct (map_choose_or_empty (b_tasks b)) as [(g & t & Hg) | He].
  { right. destruct t as [tag|tag r]; [|eexists; by eapply b_publish].
    destruct (Hres tag) as [x Hx]. eexists. by eapply b_store. }
  destruct (b_waiting b) as [tag|] eqn:Hw.
  { right. eexists. eapply b_spawn; [done|]. rewrite He, map_size_empty. lia. }
  destruct (b_pending b) as [|tag pending] eqn:Hp; [by left|].
  right. destruct (b_cancelled b) eqn:Hc; eexists; [by eapply b_abort | by eapply b_take].
Qed.

Lemma batch_runs_to_end b :
  (0 < limit)%nat -> (forall tag, exists x, task_result tag x) ->
  exists b', steps batch_step b b' /\ batch_done b'.
Proof.
  intros Hl Hres. remember (batch_measure b) as n eqn:Hn. revert b Hn.
  induction (lt_wf n) as [n _ IH]. intros b ->.
  destruct (batch_progress b Hl Hres) as [Hd | [b1 H1]]; [exists b; split; [constructor | done]|].
  destruct (IH (batch_measure b1) (batch_step_measure _ _ H1) b1 eq_refl) as (b' & Hs & Hd).
  exists b'. split; [by eapply steps_step | done].
Qed.

(** C11: A batch ends with one result per tag, in the order given and each carrying its
    own tag, whatever [StopTest] and the pollers do meanwhile; at no time do more probes
    run than the limit allows; and from every state the batch can be in, its own steps
    lead to an end. *)
Theorem runBatch_results tags cancelled buffer0 b :
  (0 < limit)%nat -> (forall tag, exists x, task_result tag x) ->
  steps any_step (batch_init tags cancelled buffer0) b ->
  (size (b_tasks b) <= limit)%nat /\
  (exists b', steps batch_step b b' /\ batch_done b') /\
  (batch_done b ->
    Forall2 (fun tag o => exists r x, o = Some r /\ b_heap b !! r = Some x /\ tag_of x = tag)
      tags (batch_results tags b)).
Proof.
  intros Hl Hres Hs. apply batch_reachable in Hs as [I1 _ I4 _ _ _ I8]. split_and!; [done | |].
  - by apply batch_runs_to_end.
  - intros (Hp & Hw & Ht). unfold batch_results. apply Forall2_fmap_r, Forall_Forall2_diag, Forall_forall.
    intros tag Htag. destruct (I1 tag Htag) as [H|[H|[[g H]|[r H]]]].
    + rewrite Hp in H. by apply elem_of_nil in H.
    + congruence.
    + by rewrite Ht, lookup_empty in H.
    + destruct (I4 tag r H) as (_ & x & Hx & Htg). by exists r, x.
Qed.

Lemma in_batch_results tags b r : r ∈ omap id (batch_results tags b) <->
  exists tag, tag ∈ tags /\ b_map b !! tag = Some r.
Proof.
  unfold batch_results. rewrite list_elem_of_omap. split.
  - intros (o & [tag [-> Ht]]%list_elem_of_fmap & Ho). eauto.
  - intros (tag & Ht & Hm). exists (Some r). split; [|done]. apply list_elem_of_fmap. eauto.
Qed.

(** C19: When the tags are distinct, the reporter holds nothing of a batch once its
    results were reclaimed, and what it held before is untouched: each of those was
    handed to a poller or is still there. *)
Theorem reclaim_leaves_nothing_behind tags cancelled buffer0 b :
  NoDup tags -> steps any_step (batch_init tags cancelled buffer0) b -> batch_done b ->
  (forall r, r ∈ reclaim_batch tags b -> r ∈ buffer0) /\
  (forall r, r ∈ buffer0 -> r ∈ b_drained b \/ r ∈ reclaim_batch tags b).
Proof.
  intros Hnd Hs Hd. pose proof (batch_reachable _ _ _ _ Hs) as [_ _ I4 _ _ I7 _].
  pose proof (batch_reachable_unique _ _ _ _ Hnd Hs) as [_ _ _ _ _ _ U7].
  unfold reclaim_batch. rewrite Reclaim_spec. split; intros r.
  - rewrite list_elem_of_filter, in_batch_results. intros [Hno Hr].
    destruct (U7 r (or_introl Hr)) as [|[tag Ht]]; [done|]. exfalso. apply Hno. exists tag.
    split; [by apply (I4 tag r) | done].
  - intros Hr. destruct (I7 r Hr) as [Hh [Hb|Hb]]; [|by left]. right.
    rewrite list_elem_of_filter, in_batch_results. split; [|done].
    intros (tag & _ & Hm). apply I4 in Hm as (_ & x & Hx & _). congruence.
Qed.
End Batch.

Arguments batch R : clear implicits.
