(* ===== verification/Tunnels.v ===== *)
(** * What a probe dials through: the rest of [internal/probe/probe.go], and the probes
    of [urltest.go] and [iptest.go]

    [probeDialer] owns every connection it dials; [tunnelEndpoints] walks the
    dependencies of an outbound; a probe waits for the tunnels it found. *)

From S2P Require Export Prelude GoStr Probe.
Local Open Scope string_scope.
Open Scope Z_scope.

(** ** [probeDialer] *)

Module Dialer.

(** A [DialContext] call between two of its atomic sections. *)
Inductive call :=
| CEntered
| CDialing
| CDialed (conn : nat)
| CReturned (conn : option nat).

Record state := MkState {
  d_closed : bool;
  d_conns : list nat;
  d_calls : gmap nat call;
  d_closing : gset nat;        (* handed to the closing goroutines *)
  d_open : pool
}.

Definition set_call (g : nat) (c : call) (s : state) : state :=
  MkState (d_closed s) (d_conns s) (<[g := c]> (d_calls s)) (d_closing s) (d_open s).

Definition with_open (p : pool) (s : state) : state :=
  MkState (d_closed s) (d_conns s) (d_calls s) (d_closing s) p.

(** The section that registers a connection, or closes it. *)
Definition register (g conn : nat) (s : state) : state :=
  if d_closed s then set_call g (CReturned None) (with_open (release conn (d_open s)) s)
  else
    set_call g (CReturned (Some conn))
      (MkState (d_closed s) (d_conns s ++ [conn]) (d_calls s) (d_closing s) (d_open s)).

(** [Close]: the connections are closed by goroutines of their own. *)
Definition Close (s : state) : state :=
  MkState true [] (d_calls s) (d_closing s ∪ list_to_set (d_conns s)) (d_open s).

Inductive step : state -> state -> Prop :=
| s_enter s g : d_calls s !! g = None -> step s (set_call g CEntered s)
| s_check s g :
    d_calls s !! g = Some CEntered ->
    step s (set_call g (if d_closed s then CReturned None else CDialing) s)
| s_dial s g :
    d_calls s !! g = Some CDialing ->
    step s (set_call g (CDialed (p_next (d_open s))) (with_open (alloc (d_open s)) s))
| s_dial_fails s g :
    d_calls s !! g = Some CDialing -> step s (set_call g (CReturned None) s)
| s_register s g conn :
    d_calls s !! g = Some (CDialed conn) -> step s (register g conn s)
| s_close s : step s (Close s)
| s_close_conn s conn :
    conn ∈ d_closing s ->
    step s (MkState (d_closed s) (d_conns s) (d_calls s) (d_closing s ∖ {[conn]})
              (release conn (d_open s))).

Definition init : state := MkState false [] ∅ ∅ (MkPool ∅ 0).

(** Every open connection is registered, about to be, or being closed; a closed dialer
    has none registered. *)
Record inv (s : state) : Prop := {
  inv_open : forall c, c ∈ p_live (d_open s) ->
    c ∈ d_conns s \/ (exists g, d_calls s !! g = Some (CDialed c)) \/ c ∈ d_closing s;
  inv_closed : d_closed s = true -> d_conns s = []
}.

Lemma inv_step s s' : step s s' -> inv s -> inv s'.
Proof.
  intros Hstep [I1 I2].
  assert (forall g c0 c1 c, d_calls s !! g = c0 -> c0 <> Some (CDialed c) ->
    (exists g', d_calls s !! g' = Some (CDialed c)) ->
    exists g', <[g := c1]> (d_calls s) !! g' = Some (CDialed c)) as Hkeep.
  { intros g c0 c1 c Hg Hne [g' Hg']. exists g'. rewrite lookup_insert_ne; [done|]. congruence. }
  destruct Hstep as [s g Hg | s g Hg | s g Hg | s g Hg | s g conn Hg | s | s conn Hc].
  - split; cbn; [|done]. intros c Hc. destruct (I1 c Hc) as [H|[H|H]]; auto.
    right; left. by eapply Hkeep.
  - split; cbn; [|done]. intros c Hc. destruct (I1 c Hc) as [H|[H|H]]; auto.
    right; left. by eapply Hkeep.
  - split; cbn; [|done]. intros c. rewrite elem_of_union, elem_of_singleton.
    intros [->|Hc]; [right; left; exists g; by rewrite lookup_insert_eq|].
    destruct (I1 c Hc) as [H|[H|H]]; auto. right; left. by eapply Hkeep.
  - split; cbn; [|done]. intros c Hc. destruct (I1 c Hc) as [H|[H|H]]; auto.
    right; left. by eapply Hkeep.
  - unfold register. destruct (d_closed s) eqn:Hcl; split; cbn; rewrite ?Hcl; try done.
    + intros c. rewrite elem_of_difference, elem_of_singleton. intros [Hc Hne].
      destruct (I1 c Hc) as [H|[H|H]]; auto. right; left. eapply Hkeep; [done | | done]. congruence.
    + intros c Hc. destruct (decide (c = conn)) as [->|Hne]; [left; set_solver|].
      destruct (I1 c Hc) as [H|[H|H]]; auto; [left; set_solver|].
      right; left. eapply Hkeep; [done | | done]. congruence.
  - split; cbn; [|done]. intros c Hc. destruct (I1 c Hc) as [H|[H|H]]; auto; set_solver.
  - split; cbn; [|done]. intros c. rewrite elem_of_difference, elem_of_singleton. intros [Hc' Hne].
    destruct (I1 c Hc') as [H|[H|H]]; auto. set_solver.
Qed.

Lemma inv_init : inv init.
Proof. split; cbn; [|done]. intros c Hc. set_solver. Qed.

Lemma inv_reachable s : steps step init s -> inv s.
Proof.
  intros Hs. apply (steps_invariant step inv) with init; [|done | apply inv_init].
  intros. by eapply inv_step.
Qed.
End Dialer.

(** C21: A closed dialer leaks nothing: once every call has returned and the closing
    goroutines have run, no connection it dialled is open, however the dials and [Close]
    interleaved; and once it is closed no further call returns a connection. *)
Theorem closed_dialer_holds_nothing s :
  steps Dialer.step Dialer.init s -> Dialer.d_closed s = true ->
  ((forall g c, Dialer.d_calls s !! g = Some c -> exists r, c = Dialer.CReturned r) ->
   Dialer.d_closing s = ∅ -> p_live (Dialer.d_open s) = ∅) /\
  (forall s' g c, Dialer.step s s' -> Dialer.d_calls s' !! g = Some (Dialer.CReturned (Some c)) ->
   Dialer.d_calls s !! g = Some (Dialer.CReturned (Some c))).
Proof.
  intros Hs Hcl. split.
  - intros Hret Hdone. apply Dialer.inv_reachable in Hs as [I1 I2].
    apply leibniz_equiv. intros c. split; [|set_solver]. intros Hc.
    destruct (I1 c Hc) as [H|[[g H]|H]].
    + rewrite I2 in H by done. set_solver.
    + destruct (Hret g _ H) as [r Hr]. done.
    + rewrite Hdone in H. set_solver.
  - intros s' g c Hstep. destruct Hstep; cbn; try done; unfold Dialer.register; rewrite ?Hcl; cbn;
      (intros [[_ ?]|[_ ?]]%lookup_insert_Some; done).
Qed.

(** ** [tunnelEndpoints] *)

(** The outbound manager: each tag with the tags it depends on. *)
Definition outbounds := list (string * list string).

Fixpoint dependencies (os : outbounds) (tag : string) : option (list string) :=
  match os with
  | [] => None
  | (t, ds) :: os => if decide (t = tag) then Some ds else dependencies os tag
  end.

(** An endpoint: its type, and the handshake observed of it ([handshakeOf]), for the two
    kinds of tunnel that have one. *)
Inductive kind := KOpenVPN | KOpenConnect | KOther.

Record endpoint := MkEndpoint { e_type : string; e_kind : kind }.

Definition has_handshake (e : endpoint) : bool :=
  match e_kind e with KOpenVPN | KOpenConnect => true | KOther => false end.

Section Walk.
  Context (os : outbounds) (endpoints : string -> option endpoint).

(** The loop, on the stack of pending tags; [fuel] counts its iterations. *)
Fixpoint walk (fuel : nat) (visited : gset string) (pending : list string)
    (tunnels : list endpoint) : option (list endpoint) :=
  match pending with
  | [] => Some tunnels
  | tag :: pending =>
      match fuel with
      | O => None
      | S fuel =>
          if decide (tag ∈ visited) then walk fuel visited pending tunnels
          else
            let visited := {[tag]} ∪ visited in
            match dependencies os tag with
            | None => walk fuel visited pending tunnels
            | Some deps =>
                let tunnels :=
                  match endpoints tag with Some e => (tunnels ++ [e])%list | None => tunnels end in
                walk fuel visited (reverse deps ++ pending)%list tunnels
            end
      end
  end.

(** The dependencies of the tags not visited yet: each can still be pushed once. *)
Fixpoint weight (visited : gset string) (os : outbounds) : nat :=
  match os with
  | [] => 0
  | (t, ds) :: os => (if decide (t ∈ visited) then 0 else length ds) + weight visited os
  end.

Definition tunnelEndpoints (tag : string) : list endpoint :=
  default [] (walk (S (weight ∅ os)) ∅ [tag] []).

Lemma weight_mono v1 v2 l : v1 ⊆ v2 -> (weight v2 l <= weight v1 l)%nat.
Proof.
  intros Hv. induction l as [|[t ds] l IH]; cbn [weight]; [done|].
  destruct (decide (t ∈ v1)), (decide (t ∈ v2)); [lia | set_solver | lia | lia].
Qed.

Lemma weight_visit visited l tag deps :
  tag ∉ visited -> dependencies l tag = Some deps ->
  (length deps + weight ({[tag]} ∪ visited) l <= weight visited l)%nat.
Proof.
  intros Hv. induction l as [|[t ds] l IH]; cbn [dependencies weight]; [done|].
  destruct (decide (t = tag)) as [->|Hne].
  - intros [= ->]. rewrite decide_True by set_solver. rewrite decide_False by done.
    pose proof (weight_mono visited ({[tag]} ∪ visited) l ltac:(set_solver)). lia.
  - intros H%IH. destruct (decide (t ∈ visited)).
    + rewrite decide_True by set_solver. lia.
    + rewrite decide_False by set_solver. lia.
Qed.

(** The tags an outbound leads to. *)
Definition edge (a b : string) : Prop := exists deps, dependencies os a = Some deps /\ b ∈ deps.
Definition reaches : string -> string -> Prop := rtc edge.

(** [order] is the order in which the known tags were visited. *)
Record walk_inv (root : string) (visited : gset string) (pending order : list string) : Prop := {
  walk_order : NoDup order /\ forall t, t ∈ order <-> t ∈ visited /\ is_Some (dependencies os t);
  walk_sound : forall t, t ∈ visited \/ t ∈ pending -> reaches root t;
  walk_closed : forall t d, t ∈ visited -> edge t d -> d ∈ visited \/ d ∈ pending;
  walk_root : root ∈ visited \/ root ∈ pending
}.

Lemma walk_inv_skip root visited tag pending order :
  tag ∈ visited -> walk_inv root visited (tag :: pending) order -> walk_inv root visited pending order.
Proof.
  intros Ht [H1 H2 H3 H4]. split; [done | | |].
  - intros t [?|?]; apply H2; [by left | right; by right].
  - intros t d Htv Hd. destruct (H3 t d Htv Hd) as [|[->|]%elem_of_cons]; auto.
  - destruct H4 as [|[->|]%elem_of_cons]; auto.
Qed.

Lemma walk_inv_visit root visited tag pending order :
  tag ∉ visited -> walk_inv root visited (tag :: pending) order ->
  walk_inv root ({[tag]} ∪ visited) (reverse (default [] (dependencies os tag)) ++ pending)%list
    (match dependencies os tag with Some _ => (order ++ [tag])%list | None => order end).
Proof.
  intros Ht [[Hnd H1] H2 H3 H4].
  assert (reaches root tag) as Hreach by (apply H2; right; by left).
  split.
  - destruct (dependencies os tag) as [deps|] eqn:Hd; split; try done.
    + apply NoDup_app. split_and!; [done | | apply NoDup_singleton].
      intros t Hin Ht'%list_elem_of_singleton. subst t. by apply H1 in Hin as [? _].
    + intros t. rewrite elem_of_app, list_elem_of_singleton, H1, elem_of_union, elem_of_singleton.
      split; [intros [[? ?]| ->]; eauto | intros [[->|?] ?]; eauto].
    + intros t. rewrite H1, elem_of_union, elem_of_singleton.
      split; [tauto | intros [[->|?] ?]; [|done]]. rewrite Hd in *. by destruct H as [? ?].
  - intros t. rewrite elem_of_union, elem_of_singleton, elem_of_app, elem_of_reverse.
    intros [[->|?]|[Hin|?]]; auto; [|apply H2; right; by right].
    destruct (dependencies os tag) as [deps|] eqn:Hd; cbn in Hin; [|by apply elem_of_nil in Hin].
    eapply rtc_r; [exact Hreach|]. by exists deps.
  - intros t d. rewrite !elem_of_union, !elem_of_singleton, elem_of_app, elem_of_reverse.
    intros [->|Hin] He.
    + destruct He as (deps & -> & Hin). cbn. auto.
    + destruct (H3 t d Hin He) as [|[->|]%elem_of_cons]; auto.
  - rewrite elem_of_union, elem_of_singleton, elem_of_app.
    destruct H4 as [|[->|]%elem_of_cons]; auto.
Qed.

Lemma closed_reach (visited : gset string) a b :
  (forall t d, t ∈ visited -> edge t d -> d ∈ visited \/ d ∈ @nil string) ->
  reaches a b -> a ∈ visited -> b ∈ visited.
Proof.
  intros Hc. induction 1 as [|x y z He Hr IH]; [done|]. intros Hx.
  destruct (Hc x y Hx He) as [|?%elem_of_nil]; [by apply IH | done].
Qed.

Lemma walk_spec root fuel : forall visited pending order,
  (length pending + weight visited os <= fuel)%nat -> walk_inv root visited pending order ->
  exists order', walk fuel visited pending (omap endpoints order) = Some (omap endpoints order') /\
    NoDup order' /\ forall t, t ∈ order' <-> reaches root t /\ is_Some (dependencies os t).
Proof.
  induction fuel as [|fuel IH]; intros visited pending order Hf Hinv.
  all: destruct pending as [|tag pending]; cbn [walk length] in *; [|try lia].
  1,2: exists order; split; [done|]; destruct Hinv as [[Hnd H1] H2 H3 H4]; split; [done|];
    intros t; rewrite H1; split; [intros [? ?]; split; [apply H2; by left | done]|];
    intros [Hr Hs]; split; [|done]; destruct H4 as [H4|?%elem_of_nil]; [|done];
    by eapply closed_reach.
  destruct (decide (tag ∈ visited)) as [Hv|Hv].
  - apply IH; [lia | by eapply walk_inv_skip].
  - pose proof (walk_inv_visit root visited tag pending order Hv Hinv) as Hinv'.
    destruct (dependencies os tag) as [deps|] eqn:Hd; cbn [default id] in Hinv'.
    + pose proof (weight_visit visited os tag deps Hv Hd) as Hw.
      destruct (IH ({[tag]} ∪ visited) (reverse deps ++ pending)%list (order ++ [tag])%list
        ltac:(rewrite length_app, length_reverse; lia) Hinv') as (order' & HW & Ho).
      exists order'. split; [|done]. rewrite <- HW. f_equal.
      rewrite omap_app. cbn. by destruct (endpoints tag); rewrite ?app_nil_r.
    + pose proof (weight_mono visited ({[tag]} ∪ visited) os ltac:(set_solver)) as Hw.
      apply IH; [lia | exact Hinv'].
Qed.

(** C22: The walk terminates and finds each tunnel once: the endpoints of exactly the
    known tags the outbound reaches through dependencies, cycles or not. *)
Theorem tunnelEndpoints_exact tag :
  exists order, NoDup order /\
    (forall t, t ∈ order <-> reaches tag t /\ is_Some (dependencies os t)) /\
    walk (S (weight ∅ os)) ∅ [tag] [] = Some (tunnelEndpoints tag) /\
    tunnelEndpoints tag = omap endpoints order.
Proof.
  destruct (walk_spec tag (S (weight ∅ os)) ∅ [tag] [] ltac:(cbn; lia)) as (order & HW & Hnd & Ho).
  - split; [split; [constructor | set_solver] | | set_solver | right; by left].
    intros t [?|Ht%list_elem_of_singleton]; [set_solver | subst t; apply rtc_refl].
  - exists order. unfold tunnelEndpoints. cbn [omap list_omap] in HW. rewrite HW. done.
Qed.
End Walk.

(** ** Waiting for a handshake *)

(** A snapshot of the tunnel's status; [ctx] ends when the snapshots do. *)
Record snapshot := MkSnapshot { sn_state : string; sn_failure : string }.

Inductive verdict := VUp | VDown (e : string) | VWaiting.

Section Await.
  (** The names sing-box gives to the three states the switch knows. *)
  Context (StateConnected StateError StateAuthPending : string).

(** The switch of [await]; both protocols spell their states the same way. *)
Definition verdict_of (s : snapshot) : verdict :=
  if String.eqb (sn_state s) StateConnected then VUp
  else if String.eqb (sn_state s) StateError then VDown (sn_failure s)
  else if String.eqb (sn_state s) StateAuthPending then VDown "waiting for authentication"
  else VWaiting.

  (** [ctx.Err()] when the context ends. *)
  Context (ctx_err : string).

(** [await] over the snapshots it gets to take: each wake-up is a status update, and the
    end of the list the end of the context. *)
Fixpoint await (snapshots : list snapshot) : option string :=
  match snapshots with
  | [] => Some ("handshake: " ++ ctx_err)
  | s :: snapshots =>
      match verdict_of s with
      | VUp => None
      | VDown e => Some e
      | VWaiting => await snapshots
      end
  end.

Definition settles (s : snapshot) : bool :=
  match verdict_of s with VWaiting => false | _ => true end.

Lemma await_first_settled snapshots :
  await snapshots =
  match list_find (fun s => settles s = true) snapshots with
  | Some (_, s) => match verdict_of s with VDown e => Some e | _ => None end
  | None => Some ("handshake: " ++ ctx_err)
  end.
Proof.
  induction snapshots as [|s l IH]; [done|]. cbn [await list_find].
  destruct (decide (settles s = true)) as [Hs|Hs]; unfold settles in Hs.
  - by destruct (verdict_of s) eqn:E.
  - rewrite IH. destruct (verdict_of s) eqn:E; try done.
    by destruct (list_find _ l) as [[? ?]|].
Qed.

Lemma await_up snapshots :
  await snapshots = None <->
  exists i s, list_find (fun s => settles s = true) snapshots = Some (i, s) /\
    sn_state s = StateConnected.
Proof.
  rewrite await_first_settled.
  destruct (list_find _ snapshots) as [[i s]|] eqn:Hf; [|naive_solver].
  apply list_find_Some in Hf as (_ & Hs & _). revert Hs. unfold settles, verdict_of.
  destruct (String.eqb_spec (sn_state s) StateConnected) as [Hc|Hc]; [naive_solver|].
  repeat case_match; naive_solver.
Qed.

  (** The instance: its outbounds and endpoints, and what each handshake shows. *)
  Context (os : outbounds) (endpoints : string -> option endpoint).
  Context (snapshots_of : endpoint -> list snapshot).

Fixpoint await_all (es : list endpoint) : option string :=
  match es with
  | [] => None
  | e :: es =>
      if negb (has_handshake e) then await_all es
      else
        match await (snapshots_of e) with
        | Some err => Some (e_type e ++ ": " ++ err)
        | None => await_all es
        end
  end.

Definition awaitTunnels (tag : string) : option string := await_all (tunnelEndpoints os endpoints tag).

Definition TunnelStartupTimeout : Z := 5000000000.

Definition firstRequestTimeout (tag : string) (cold : bool) (timeout : Z) : Z :=
  if negb cold then timeout
  else if existsb (fun e => negb (has_handshake e)) (tunnelEndpoints os endpoints tag)
  then timeout + TunnelStartupTimeout
  else timeout.

Lemma await_all_None es :
  await_all es = None <->
  forall e, e ∈ es -> has_handshake e = true -> await (snapshots_of e) = None.
Proof.
  induction es as [|e es IH]; cbn [await_all].
  { split; [|done]. intros _ e He. set_solver. }
  split.
  - intros H e' [->|Hin]%elem_of_cons Hh.
    + rewrite Hh in H. cbn in H. by destruct (await (snapshots_of e)).
    + apply IH; [|done..]. destruct (has_handshake e); cbn in H; [|done].
      by destruct (await (snapshots_of e)).
  - intros H. assert (await_all es = None) as He.
    { apply IH. intros e' He'. apply H. by right. }
    destruct (has_handshake e) eqn:Hh; cbn; [|done]. by rewrite (H e) by (done || by left).
Qed.

(** ** The probes *)

Record URLTestResult := MkURLTestResult { u_duration : Z; u_tag : string; u_error : option string }.
Record IPInfo := MkIPInfo { IP : string; CountryCode : string }.
Record IPTestResult := MkIPTestResult { ip_result : IPInfo; ip_tag : string; ip_error : option string }.

  (** [client.Do] within a timeout, for the first and the second request through a fresh
      client: the time it took, or why it failed. *)
  Context (request : nat -> Z -> result Z).

Definition urlTest (nth : nat) (timeout : Z) : Z * option string :=
  match request nth timeout with
  | Ok d => (d, None)
  | Err e => (0, Some e)
  end.

(** [BatchURLTest]'s [run] and [fail]. *)
Definition url_run (twice : bool) (timeout : Z) (tag : string) : URLTestResult :=
  match awaitTunnels tag with
  | Some e => MkURLTestResult 0 tag (Some e)
  | None =>
      let '(duration, err) := urlTest 0 (firstRequestTimeout tag twice timeout) in
      let '(duration, err) :=
        match err with
        | None => if twice then urlTest 1 timeout else (duration, err)
        | Some _ => (duration, err)
        end in
      MkURLTestResult duration tag err
  end.

Definition url_fail (tag : string) (err : string) : URLTestResult := MkURLTestResult 0 tag (Some err).

Definition URLTestTimeout : Z := 3000000000.
Definition effective_timeout (timeout : Z) : Z := if timeout <=? 0 then URLTestTimeout else timeout.

  (** The body an IP request returned, and [json.Unmarshal] of it. *)
  Context (read_body : result string) (parse_info : string -> result IPInfo).

Definition ipTest (timeout : Z) : IPInfo * option string :=
  match request 0 timeout with
  | Err e => (MkIPInfo "" "", Some e)
  | Ok _ =>
      match read_body with
      | Err e => (MkIPInfo "" "", Some e)
      | Ok data =>
          match parse_info data with
          | Err e => (MkIPInfo "" "", Some e)
          | Ok info => (info, None)
          end
      end
  end.

Definition ip_run (cold : bool) (timeout : Z) (tag : string) : IPTestResult :=
  match awaitTunnels tag with
  | Some e => MkIPTestResult (MkIPInfo "" "") tag (Some e)
  | None =>
      let '(info, err) := ipTest (firstRequestTimeout tag cold timeout) in
      MkIPTestResult info tag err
  end.

Definition ip_fail (tag : string) (err : string) : IPTestResult :=
  MkIPTestResult (MkIPInfo "" "") tag (Some err).

Lemma url_run_tag twice timeout tag : u_tag (url_run twice timeout tag) = tag.
Proof. unfold url_run. by repeat (case_match; simplify_eq/=). Qed.

Lemma ip_run_tag cold timeout tag : ip_tag (ip_run cold timeout tag) = tag.
Proof. unfold ip_run. by repeat (case_match; simplify_eq/=). Qed.

(** A URL test succeeds exactly when every tunnel the outbound leads to that shows
    its handshake is up, and every request made succeeds: the first with the start-up
    allowance when a tunnel without a visible handshake is on the way and the probe is
    cold, the second, if it is asked for, within the plain timeout; the duration is the
    last request's. *)
Theorem url_run_success twice timeout tag d :
  let r := url_run twice timeout tag in
  (u_error r = None /\ u_duration r = d) <->
  (forall e, e ∈ tunnelEndpoints os endpoints tag -> has_handshake e = true ->
     exists i s, list_find (fun s => settles s = true) (snapshots_of e) = Some (i, s) /\
       sn_state s = StateConnected) /\
  (exists d1, request 0 (firstRequestTimeout tag twice timeout) = Ok d1 /\
     if twice then request 1 timeout = Ok d else d1 = d).
Proof.
  cbv zeta. unfold url_run, urlTest.
  assert (awaitTunnels tag = None <->
    forall e, e ∈ tunnelEndpoints os endpoints tag -> has_handshake e = true ->
     exists i s, list_find (fun s => settles s = true) (snapshots_of e) = Some (i, s) /\
       sn_state s = StateConnected) as <-.
  { unfold awaitTunnels. rewrite await_all_None. apply forall_proper. intros e.
    apply forall_proper. intros _. apply forall_proper. intros _. apply await_up. }
  destruct (awaitTunnels tag) as [e|]; [naive_solver|].
  destruct (request 0 _) as [d1|e]; [|naive_solver].
  destruct twice; [destruct (request 1 timeout) as [d2|e]|]; cbn; naive_solver.
Qed.
End Await.

(** ** The batches: [BatchURLTest] and [BatchIPTest] are [runBatch] with these probes *)

Section Batches.
  Context (StateConnected StateError StateAuthPending ctx_err : string).
  Context (os : outbounds) (endpoints : string -> option endpoint).
  Context (snapshots_of : endpoint -> list snapshot).
  (** What each tag's outbound does with a request. *)
  Context (request : string -> nat -> Z -> result Z).
  Context (read_body : string -> result string) (parse_info : string -> result IPInfo).

Definition found_outbound (tag : string) : bool :=
  match dependencies os tag with Some _ => true | None => false end.

Definition BatchURLTest (twice : bool) (timeout maxConcurrency : Z)
    : batch URLTestResult -> batch URLTestResult -> Prop :=
  any_step url_fail
    (fun tag x => x = url_run StateConnected StateError StateAuthPending ctx_err os endpoints snapshots_of
                        (request tag) twice (effective_timeout timeout) tag)
    found_outbound (Z.to_nat (normalizeConcurrency maxConcurrency)).

Definition BatchIPTest (cold : bool) (timeout maxConcurrency : Z)
    : batch IPTestResult -> batch IPTestResult -> Prop :=
  any_step ip_fail
    (fun tag x => x = ip_run StateConnected StateError StateAuthPending ctx_err os endpoints snapshots_of
                        (request tag) (read_body tag) parse_info cold (effective_timeout timeout) tag)
    found_outbound (Z.to_nat (normalizeConcurrency maxConcurrency)).
End Batches.

(** ** Concrete runs *)

Module Sample.
Definition os : outbounds := [("proxy", ["wg"; "direct"]); ("wg", ["proxy"]); ("direct", [])].
Definition endpoints (tag : string) : option endpoint :=
  if String.eqb tag "wg" then Some (MkEndpoint "wireguard" KOther) else None.
Definition request (tag : string) (nth : nat) (timeout : Z) : result Z := Ok (40 + Z.of_nat nth).
Definition snapshots_of (e : endpoint) : list snapshot := [].
Definition run (tag : string) (x : URLTestResult) : Prop :=
  x = url_run "Connected" "Error" "AuthPending" "deadline" os endpoints snapshots_of (request tag)
        true (effective_timeout 0) tag.
Example walk_ex : tunnelEndpoints os endpoints "proxy" = [MkEndpoint "wireguard" KOther].
Proof. reflexivity. Qed.

(** Two probes of one tag: both are stored and published before the batch ends. *)
Definition start : batch URLTestResult := batch_init ["direct"; "direct"] false [].
End Sample.

Lemma closed_dialer_holds_nothing_witness :
  exists s, steps Dialer.step Dialer.init s /\ Dialer.d_closed s = true /\ p_live (Dialer.d_open s) = ∅ /\
    Dialer.d_calls s !! 0%nat = Some (Dialer.CReturned None).
Proof.
  set (s1 := Dialer.set_call 0 Dialer.CEntered Dialer.init).
  set (s2 := Dialer.set_call 0 Dialer.CDialing s1).
  set (s3 := Dialer.set_call 0 (Dialer.CDialed 0) (Dialer.with_open (alloc (Dialer.d_open s2)) s2)).
  set (s4 := Dialer.Close s3).
  set (s5 := Dialer.register 0 0 s4).
  assert (steps Dialer.step Dialer.init s5) as Hs.
  { eapply steps_step; [apply (Dialer.s_enter Dialer.init 0); reflexivity|].
    eapply steps_step; [apply (Dialer.s_check s1 0); reflexivity|].
    eapply steps_step; [apply (Dialer.s_dial s2 0); reflexivity|].
    eapply steps_step; [apply (Dialer.s_close s3)|].
    eapply steps_step; [apply (Dialer.s_register s4 0 0); reflexivity|]. apply steps_refl. }
  exists s5. split; [exact Hs|]. split; [reflexivity|]. split; [|reflexivity].
  destruct (closed_dialer_holds_nothing s5 Hs eq_refl) as [H _]. apply H.
  - intros g c Hg. destruct (decide (g = 0%nat)) as [->|Hne].
    + cbn in Hg. rewrite lookup_insert_eq in Hg. exists None. congruence.
    + cbn in Hg. rewrite !lookup_insert_ne in Hg by congruence. by rewrite lookup_empty in Hg.
  - reflexivity.
Defined.

Lemma sample_runs tag : exists x, task_result url_fail Sample.run (found_outbound Sample.os) tag x.
Proof. unfold task_result, Sample.run. destruct (found_outbound _ tag); eexists; reflexivity. Qed.

Lemma sample_run_tag tag x : Sample.run tag x -> u_tag x = tag.
Proof. intros ->. apply url_run_tag. Qed.

Lemma batch_steps_any {R} fail runs found limit (b b' : batch R) :
  steps (batch_step fail runs found limit) b b' -> steps (any_step fail runs found limit) b b'.
Proof. induction 1; [constructor|]. eapply steps_step; [by left | done]. Qed.

Lemma runBatch_results_witness : exists b,
  steps (any_step url_fail Sample.run (found_outbound Sample.os) 2) Sample.start b /\
  Forall2 (fun tag o => exists r x, o = Some r /\ b_heap b !! r = Some x /\ u_tag x = tag)
    ["direct"; "direct"] (batch_results ["direct"; "direct"] b).
Proof.
  destruct (batch_runs_to_end url_fail Sample.run (found_outbound Sample.os) 2 Sample.start
    ltac:(lia) sample_runs) as (b & Hs & Hd).
  apply batch_steps_any in Hs. exists b. split; [exact Hs|].
  exact (proj2 (proj2 (runBatch_results url_fail Sample.run (found_outbound Sample.os) 2 u_tag
    (fun _ _ => eq_refl) sample_run_tag ["direct"; "direct"] false [] b ltac:(lia) sample_runs Hs)) Hd).
Defined.

Lemma reclaim_leaves_nothing_behind_witness : exists b,
  steps (any_step url_fail Sample.run (found_outbound Sample.os) 2)
    (batch_init ["direct"; "wg"; "gone"] false [7%nat]) b /\ batch_done b /\
  (forall r, r ∈ reclaim_batch ["direct"; "wg"; "gone"] b -> r ∈ [7%nat]) /\
  (forall r, r ∈ [7%nat] -> r ∈ b_drained b \/ r ∈ reclaim_batch ["direct"; "wg"; "gone"] b).
Proof.
  destruct (batch_runs_to_end url_fail Sample.run (found_outbound Sample.os) 2
    (batch_init ["direct"; "wg"; "gone"] false [7%nat]) ltac:(lia) sample_runs) as (b & Hs & Hd).
  apply batch_steps_any in Hs. exists b. split; [exact Hs|]. split; [exact Hd|].
  apply (reclaim_leaves_nothing_behind url_fail Sample.run (found_outbound Sample.os) 2 u_tag
    (fun _ _ => eq_refl) sample_run_tag ["direct"; "wg"; "gone"] false [7%nat] b); [|exact Hs|exact Hd].
  apply NoDup_cons; split; [set_solver|]. apply NoDup_cons; split; [set_solver|]. apply NoDup_singleton.
Defined.

(** With a tag given twice one of its two results stays with the reporter: only the last
    one stored is returned, and reclaimed. *)
Theorem duplicate_tag_left_behind : exists b,
  steps (any_step url_fail Sample.run (found_outbound Sample.os) 2) Sample.start b /\ batch_done b /\
  reclaim_batch ["direct"; "direct"] b <> [].
Proof.
  set (x := url_run "Connected" "Error" "AuthPending" "deadline" Sample.os Sample.endpoints
    Sample.snapshots_of (Sample.request "direct") true (effective_timeout 0) "direct").
  assert (task_result url_fail Sample.run (found_outbound Sample.os) "direct" x) as Hx by reflexivity.
  eexists. split; [|split].
  - apply batch_steps_any.
    eapply steps_step; [eapply b_take; reflexivity|].
    eapply steps_step; [eapply b_spawn; [reflexivity | vm_compute; lia]|].
    eapply steps_step; [apply (b_store _ _ _ _ _ 0%nat "direct" x); [vm_compute; reflexivity | exact Hx]|].
    eapply steps_step; [eapply (b_publish _ _ _ _ _ 0%nat); vm_compute; reflexivity|].
    eapply steps_step; [eapply b_take; reflexivity|].
    eapply steps_step; [eapply b_spawn; [reflexivity | vm_compute; lia]|].
    eapply steps_step; [apply (b_store _ _ _ _ _ 0%nat "direct" x); [vm_compute; reflexivity | exact Hx]|].
    eapply steps_step; [eapply (b_publish _ _ _ _ _ 0%nat); vm_compute; reflexivity|].
    apply steps_refl.
  - vm_compute. done.
  - vm_compute. done.
Qed.
