(* ===== verification/ProbeClients.v ===== *)
(** * The clients of the probes: dialerHTTPClient, outboundHTTPClient, getSpeedtestServer of
    src/internal/probe/probe.go and the tests that use them (urltest.go, iptest.go,
    speedtest.go)

    A probe makes an HTTP client over a dialer that remembers its connections, and must
    close it before it returns: what it leaves open would live on inside the outbound. The
    state is the clients and dial contexts that are open, and the requests made. How a
    dialer closes its connections is [Tunnels.Dialer]; what a test measures is in [Tunnels]
    and [SpeedTest]. *)

From S2P Require Import Prelude GoStr.

#[local] Open Scope string_scope.
#[local] Open Scope list_scope.

(** Clients and dial contexts not yet closed or cancelled; the requests in order, each with
    whether its client was open. *)
Record world := World { clients : pool; contexts : pool; requests : list (nat * bool) }.

Definition world_ok (w : world) : Prop := pool_ok (clients w) /\ pool_ok (contexts w).

(** [dialerHTTPClient]; the closer is [closeClient] of the number. *)
Definition dialerHTTPClient : prog world nat := fun w =>
  (Returns (p_next (clients w)), World (alloc (clients w)) (contexts w) (requests w)).
Definition closeClient (n : nat) (w : world) : world := World (release n (clients w)) (contexts w) (requests w).

(** [outboundHTTPClient]: with a context of its own for the dials; its closer cancels that
    first. *)
Definition outboundHTTPClient : prog world (nat * nat) := fun w =>
  let dialCtx := p_next (contexts w) in
  let w := World (clients w) (alloc (contexts w)) (requests w) in
  (n ← dialerHTTPClient; mret (n, dialCtx)) w.
Definition closeOutbound (c : nat * nat) (w : world) : world :=
  closeClient (fst c) (World (clients w) (release (snd c) (contexts w)) (requests w)).

(** A request of a client. *)
Definition Do {A} (n : nat) (r : outcome A) : prog world A := fun w =>
  (r, World (clients w) (contexts w) (requests w ++ [(n, bool_decide (n ∈ p_live (clients w)))])).

Section Tests.
  #[local] Set Default Proof Using "Type".
  (** What the network answers: the tunnels of a tag, a request, the two of a URL test, the
      list of speed test servers and the choice among them; a test loop may run its
      requests to any outcome. *)
  Context (awaitTunnels : result unit) (new_request : result unit).
  Context {server info : Type} (first second : outcome Z) (ip : outcome info).
  Context (FetchServerList FindServer : list server -> result (list server)).

(** [getSpeedtestServer]: the server and the client whose closer is handed on. *)
Definition getSpeedtestServer : prog world (server * nat) :=
  n ← dialerHTTPClient;
  srv ← on_error (lift_result (FetchServerList [])) (closeClient n);
  srv ← on_error (lift_result (FindServer srv)) (closeClient n);
  match srv with
  | [] => _ ← modify (closeClient n); throw "no server found for speedTest"
  | s :: _ => mret (s, n)
  end.

(** The run of [BatchURLTest]. *)
Definition url_run (twice : bool) : prog world Z :=
  _ ← lift_result awaitTunnels;
  c ← outboundHTTPClient;
  deferred (closeOutbound c)
    (duration ← Do (fst c) first;
     if twice then Do (fst c) second else mret duration).

(** The run of [BatchIPTest]. *)
Definition ip_run : prog world info :=
  _ ← lift_result awaitTunnels;
  c ← outboundHTTPClient;
  deferred (closeOutbound c) (Do (fst c) ip).

(** [simpleDownloadTest]: the request is made by a goroutine of its own; [loop] is how the
    sampling loop ends. *)
Definition simpleDownloadTest {A} (loop : outcome A) : prog world A :=
  n ← dialerHTTPClient;
  deferred (closeClient n) (_ ← lift_result new_request; Do n loop).

(** [speedTestWithDialer], likewise. *)
Definition speedTestWithDialer {A} (loop : server -> outcome A) : prog world A :=
  '(srv, n) ← getSpeedtestServer;
  deferred (closeClient n) (Do n (loop srv)).

Definition countryTest : prog world server :=
  '(srv, n) ← getSpeedtestServer;
  deferred (closeClient n) (mret srv).

(** ** No client outlives its test *)

(** The clients and contexts open are those that were, and the requests since were made by
    clients that were open. *)
Definition kept (w w' : world) : Prop :=
  world_ok w' /\ p_live (clients w') = p_live (clients w) /\ p_live (contexts w') = p_live (contexts w) /\
  exists l, requests w' = requests w ++ l /\ Forall (fun r => snd r = true) l.

(** [tidy m]: so it is however [m] ends. *)
Definition tidy {A} (m : prog world A) : Prop := forall w, world_ok w -> kept w (snd (m w)).

Lemma kept_same w : world_ok w -> kept w w.
Proof. intros Hw. split_and!; [apply Hw..|done|done|]. exists []. by rewrite app_nil_r. Qed.

Lemma kept_closed w : world_ok w ->
  kept w (World (release (p_next (clients w)) (alloc (clients w))) (contexts w) (requests w)).
Proof.
  intros [Hc Hx]. unfold kept, world_ok; cbn.
  split_and!; [by eauto with nunya | done | by apply release_alloc | done |]. exists []. by rewrite app_nil_r.
Qed.

(** [lends n m]: given the client [n], that it makes its requests with it and closes
    nothing. *)
Definition lends {A} (n : nat) (m : prog world A) : Prop := forall w, n ∈ p_live (clients w) ->
  let w' := snd (m w) in
  clients w' = clients w /\ contexts w' = contexts w /\
  exists l, requests w' = requests w ++ l /\ Forall (fun r => snd r = true) l.

Lemma lends_Do {A} n (r : outcome A) : lends n (Do n r).
Proof.
  intros w Hn. cbn. split_and!; [done..|]. exists [(n, bool_decide (n ∈ p_live (clients w)))].
  split; [done|]. repeat constructor. by apply bool_decide_eq_true.
Qed.

Lemma lends_pure {A} n (m : prog world A) : (forall w, snd (m w) = w) -> lends n m.
Proof. intros H w _. cbn zeta. rewrite H. split_and!; [done..|]. exists []. by rewrite app_nil_r. Qed.

Lemma lends_bind {A B} n (m : prog world A) (k : A -> prog world B) :
  lends n m -> (forall a, lends n (k a)) -> lends n (m ≫= k).
Proof.
  intros Hm Hk w Hn. unfold mbind, prog_bind. specialize (Hm w Hn).
  destruct (m w) as [[a|e|e] w1]; cbn in *; [|done..].
  destruct Hm as (E1 & E2 & l1 & E3 & F1). assert (n ∈ p_live (clients w1)) as Hn1 by by rewrite E1.
  destruct (Hk a w1 Hn1) as (E4 & E5 & l2 & E6 & F2). rewrite E4, E5, E6, E3, E1, E2.
  split_and!; [done..|]. exists (l1 ++ l2). rewrite app_assoc. split; [done|]. by apply Forall_app.
Qed.

Lemma lends_lift {A} n (r : result A) : lends n (lift_result r).
Proof. apply lends_pure. intros w. by destruct r. Qed.

(** A test that cannot start changes nothing. *)
Lemma tidy_after {A B} (r : result A) (m : A -> prog world B) : (forall a, tidy (m a)) -> tidy (a ← lift_result r; m a).
Proof.
  intros Hm w Hw. unfold mbind, prog_bind. destruct r as [a|e]; [by apply Hm|].
  by apply kept_same.
Qed.

(** A client made, lent and closed. *)
Lemma tidy_client {A} (m : nat -> prog world A) :
  (forall n, lends n (m n)) -> tidy (n ← dialerHTTPClient; deferred (closeClient n) (m n)).
Proof.
  intros Hm w [Hc Hx]. unfold mbind, prog_bind, dialerHTTPClient, deferred.
  set (w1 := World (alloc (clients w)) (contexts w) (requests w)).
  destruct (Hm (p_next (clients w)) w1) as (E1 & E2 & l & E3 & F); [cbn; set_solver|].
  destruct (m (p_next (clients w)) w1) as [r w2]. cbn in *. unfold kept, closeClient, world_ok; cbn. rewrite E1, E2, E3.
  split_and!; [by eauto with nunya | done | by apply release_alloc | done |]. by exists l.
Qed.

Lemma tidy_outbound {A} (m : nat * nat -> prog world A) :
  (forall c, lends (fst c) (m c)) -> tidy (c ← outboundHTTPClient; deferred (closeOutbound c) (m c)).
Proof.
  intros Hm w [Hc Hx].
  set (w1 := World (alloc (clients w)) (alloc (contexts w)) (requests w)).
  set (c := (p_next (clients w), p_next (contexts w))).
  destruct (Hm c w1) as (E1 & E2 & l & E3 & F); [cbn; set_solver|].
  assert (outboundHTTPClient w = (Returns c, w1)) as E by reflexivity.
  unfold mbind, prog_bind, deferred. rewrite E.
  destruct (m c w1) as [r w2]. cbn in *. unfold kept, closeOutbound, closeClient, world_ok; cbn. rewrite E1, E2, E3.
  split_and!; [by eauto with nunya | by eauto with nunya | by apply release_alloc | by apply release_alloc |]. by exists l.
Qed.

(** [getSpeedtestServer] hands on an open client only with a server. *)
Lemma getSpeedtestServer_spec w : world_ok w ->
  let n := p_next (clients w) in
  match getSpeedtestServer w with
  | (Returns (_, n'), w') => n' = n /\ w' = World (alloc (clients w)) (contexts w) (requests w)
  | (_, w') => w' = World (release n (alloc (clients w))) (contexts w) (requests w)
  end.
Proof.
  intros Hw. unfold getSpeedtestServer, mbind, prog_bind, dialerHTTPClient, on_error, lift_result. cbn zeta.
  destruct (FetchServerList []) as [l|e]; [|done]. destruct (FindServer l) as [[|s l']|e]; done.
Qed.

Lemma tidy_server {A} (m : server -> nat -> prog world A) :
  (forall s n, lends n (m s n)) -> tidy ('(s, n) ← getSpeedtestServer; deferred (closeClient n) (m s n)).
Proof.
  intros Hm w Hw. pose proof (getSpeedtestServer_spec w Hw) as H. cbn zeta in H.
  unfold mbind, prog_bind. destruct (getSpeedtestServer w) as [[[s n]|e|e] w1].
  - destruct H as [-> ->]. exact (tidy_client (m s) (Hm s) w Hw).
  - subst w1. by apply kept_closed.
  - subst w1. by apply kept_closed.
Qed.

End Tests.

Abbreviation fresh := (World (MkPool ∅ 0) (MkPool ∅ 0) []).
Abbreviation an_url_run := (url_run (Ok tt) (Returns 30%Z) (Panics "boom") true fresh).

