(* ===== verification/TestEnv.v ===== *)
(** * Test instances: [internal/rpc/testenv.go], [urltest.go] and [speedtest.go]

    A test builds its own Xray instances and box beside the running profile, or measures
    the running one; the handlers turn the results of a batch into replies. *)

From S2P Require Export Prelude GoStr Probe Tunnels.
From S2P Require Import Lifecycle.
Local Open Scope string_scope.
Open Scope Z_scope.

(** ** [prepareTestEnv] *)

(** The functions pushed on [cleanups]. *)
Inductive cleanup :=
| CloseInstance (i : nat)
| CloseInstances (l : list nat)
| CloseBox (b : nat).

Definition run_cleanup (f : cleanup) (c : core) : core :=
  match f with
  | CloseInstance i => on_instances (release i) c
  | CloseInstances l => closeXrayInstances l c
  | CloseBox b => on_boxes (release b) c
  end.

(** [unwind] runs them in reverse order. *)
Definition unwind (cleanups : list cleanup) (c : core) : core :=
  foldl (fun c f => run_cleanup f c) c (reverse cleanups).

Record testEnv := MkTestEnv { te_box : nat; te_tags : list string; te_close : list cleanup }.

Record testReq := MkTestReq {
  t_current : bool;
  t_needXray : bool;
  t_xrayConfig : string;
  t_fullConfigs : list string;
  t_coreConfig : string;
  t_tags : list string;
  t_useDefault : bool;
  t_dnsStrategy : string
}.

Definition errInstanceNotRunning : string := "Instance is not running".

(** ** All the resources, or none *)

(** What a test must leave as it found it: the pointers of the running profile, and the
    live boxes, instances and gates. *)
Definition live_of (c : core) :=
  (boxInstance c, xrayInstance c, xrayGate c, xrayFullGates c,
   p_live (c_boxes c), p_live (c_instances c), c_gates c).
Definition pools_ok (c : core) : Prop := pool_ok (c_boxes c) /\ pool_ok (c_instances c).

Lemma live_res c c' : res_of c' = res_of c -> live_of c' = live_of c.
Proof. unfold res_of, live_of. by intros [= -> -> -> -> -> -> ->]. Qed.

(** [c'] is [c] with [l] more instances alive. *)
Definition opened (l : list nat) (c c' : core) : Prop :=
  pools_ok c' /\ proc_of c' = proc_of c /\
  (boxInstance c', xrayInstance c', xrayGate c', xrayFullGates c', p_live (c_boxes c'), c_gates c') =
  (boxInstance c, xrayInstance c, xrayGate c, xrayFullGates c, p_live (c_boxes c), c_gates c) /\
  p_live (c_instances c') = p_live (c_instances c) ∪ list_to_set l /\
  (forall i, i ∈ l -> i ∉ p_live (c_instances c)) /\ NoDup l.

Lemma opened_res l c c1 c2 : res_of c2 = res_of c1 -> proc_of c2 = proc_of c1 -> opened l c c1 -> opened l c c2.
Proof.
  unfold res_of, opened, pools_ok. intros [= -> -> -> -> -> -> ->] ->. done.
Qed.

Lemma opened_refl c : pools_ok c -> opened [] c c.
Proof.
  intros Hp. split_and!; [exact Hp | done | done | | | ]; [apply leibniz_equiv; set_solver | set_solver | constructor].
Qed.

Lemma opened_alloc l c c' : pools_ok c -> opened l c c' ->
  opened (l ++ [p_next (c_instances c')]) c (on_instances alloc c').
Proof.
  intros Hp0 ([Hpb Hp] & Hpr & Hf & Hl & Hn & Hnd).
  assert (forall i, i ∈ l -> i <> p_next (c_instances c')) as Hnew.
  { intros i Hi ->. assert (p_next (c_instances c') ∈ p_live (c_instances c')) as Hx.
    { rewrite Hl. apply elem_of_union. right. by apply elem_of_list_to_set. }
    apply Hp in Hx. lia. }
  split_and!; cbn; [split; cbn; auto with nunya | done | done | | | ].
  - rewrite Hl. apply leibniz_equiv. set_solver.
  - intros i. rewrite elem_of_app, list_elem_of_singleton. intros [?| ->]; [by apply Hn|].
    intros Hin. assert (p_next (c_instances c') ∈ p_live (c_instances c')) as Hx.
    { rewrite Hl. apply elem_of_union. by left. }
    apply Hp in Hx. lia.
  - apply NoDup_app. split_and!; [done | | apply NoDup_singleton].
    intros i Hi Hi'%list_elem_of_singleton. by apply (Hnew i).
Qed.

(** Closing the last ones opened. *)
Lemma opened_close_app l0 l c c' : opened (l0 ++ l) c c' -> opened l0 c (closeXrayInstances l c').
Proof.
  intros ([Hpb Hp] & Hpr & Hf & Hl & Hn & Hnd). apply NoDup_app in Hnd as (Hnd & Hdis & _).
  split_and!; unfold closeXrayInstances; cbn; [split; cbn; auto with nunya | done | done | | | done].
  - rewrite p_live_release_all, Hl. apply leibniz_equiv. intros x.
    rewrite elem_of_difference, !elem_of_union, !elem_of_list_to_set, elem_of_app.
    split; [tauto|]. intros [Hx|Hx]; (split; [auto|]); intros Hin.
    + apply (Hn x); [|done]. apply elem_of_app. by right.
    + by apply (Hdis x).
  - intros x Hx. apply Hn, elem_of_app. by left.
Qed.

Lemma opened_release i l c c' : opened (l ++ [i]) c c' -> opened l c (on_instances (release i) c').
Proof. apply opened_close_app. Qed.

Lemma opened_live c c' : opened [] c c' -> live_of c' = live_of c.
Proof.
  intros (Hp & Hpr & Hf & Hl & Hn). unfold live_of. injection Hf as -> -> -> -> -> ->.
  rewrite Hl. repeat f_equal. apply leibniz_equiv. set_solver.
Qed.

Section TestEnv.
  #[local] Set Default Proof Using "Type".
  Context (box_parse box_New box_Start xray_Create xray_Start : string -> result unit).
  Context (defaultInterfaceFinder : string).
  (** The outbound manager of a box. *)
  Context (has_outbound : nat -> string -> bool) (default_tag : nat -> string).

Definition current_env (req : testReq) : prog core testEnv := fun c =>
  match boxInstance c with
  | None => (Fails errInstanceNotRunning, c)
  | Some box =>
      let '(tags, useDefault) :=
        if has_outbound box "proxy" then (["proxy"], t_useDefault req) else (t_tags req, true) in
      let tags := if useDefault then [default_tag box] else tags in
      (Returns (MkTestEnv box tags []), c)
  end.

Definition prepare_xray (req : testReq) (prepare : nat -> prog core unit) : prog core (list cleanup) :=
  if t_needXray req then
    i ← create_instance xray_Create (t_xrayConfig req);
    _ ← on_error (prepare i) (on_instances (release i));
    _ ← on_error (lift_result (xray_Start (t_xrayConfig req))) (on_instances (release i));
    mret [CloseInstance i]
  else mret [].

Definition prepareTestEnv (req : testReq) : prog core testEnv :=
  holder ← new_holder;
  let prepare := xrayPreparer defaultInterfaceFinder (t_dnsStrategy req) holder in
  if t_current req then current_env req
  else
    cleanups ← prepare_xray req prepare;
    full ← on_error (startXrayFullConfigs xray_Create xray_Start (t_fullConfigs req) prepare)
             (unwind cleanups);
    let cleanups := (cleanups ++ [CloseInstances full])%list in
    box ← on_error (boxmain_Create box_parse box_New box_Start (t_coreConfig req)
                      (fun b => publish holder (Some b))) (unwind cleanups);
    let cleanups := (cleanups ++ [CloseBox box])%list in
    mret (MkTestEnv box (if t_useDefault req then [default_tag box] else t_tags req) cleanups).

Lemma prepare_res strategy holder i (c : core) :
  wp (xrayPreparer defaultInterfaceFinder strategy holder i)
    (fun _ c' => res_of c' = res_of c /\ proc_of c' = proc_of c) (fun _ _ => False) c.
Proof. apply (prepare_spec defaultInterfaceFinder strategy holder i c). auto. Qed.

Lemma create_opened cfg l c c' : pools_ok c -> opened l c c' ->
  wp (create_instance xray_Create cfg)
    (fun i => opened (l ++ [i]) c) (fun _ c'' => c'' = c') c'.
Proof.
  intros Hp0 Ho. unfold wp, create_instance. destruct (xray_Create cfg); [|done].
  by apply opened_alloc.
Qed.

(** One instance: prepared and started, or closed again together with [l]. *)
Lemma open_one {A} cfg strategy holder l0 l c c' (k : nat -> prog core A) Q F :
  pools_ok c -> opened (l0 ++ l) c c' ->
  (forall i c'', opened (l0 ++ (l ++ [i])) c c'' -> wp (k i) Q F c'') ->
  (forall e c'', opened l0 c c'' -> F e c'') ->
  wp (i ← on_error (create_instance xray_Create cfg) (closeXrayInstances l);
      _ ← on_error (xrayPreparer defaultInterfaceFinder strategy holder i)
            (fun c => closeXrayInstances l (on_instances (release i) c));
      _ ← on_error (lift_result (xray_Start cfg))
            (fun c => closeXrayInstances l (on_instances (release i) c));
      k i) Q F c'.
Proof.
  intros Hp0 Ho Hk HF. wp_step. wp_step.
  eapply wp_mono; [by apply (create_opened cfg (l0 ++ l) c c') | |
                   intros e c1 ->; by apply HF, opened_close_app].
  intros i c1 Ho1. wp_step. wp_step.
  eapply wp_mono; [apply prepare_res | | done].
  intros _ c2 [Hr Hpr]. pose proof (opened_res _ _ _ _ Hr Hpr Ho1) as Ho2.
  wp_step. wp_step. wp_step.
  - apply Hk. by rewrite app_assoc.
  - apply HF. apply opened_close_app, opened_release. done.
Qed.

Lemma start_full_from_spec strategy holder c l0 configs : forall l c',
  pools_ok c -> opened (l0 ++ l) c c' ->
  wp (start_full_from xray_Create xray_Start (xrayPreparer defaultInterfaceFinder strategy holder) l configs)
    (fun l' c'' => opened (l0 ++ l') c c'' /\ length l' = (length l + length configs)%nat)
    (fun _ c'' => opened l0 c c'') c'.
Proof.
  induction configs as [|cfg configs IH]; intros l c' Hp0 Ho; cbn [start_full_from].
  - wp_step. split; [done|]. cbn. lia.
  - apply (open_one cfg strategy holder l0 l c); [done | done | | done].
    intros i c'' Ho'. eapply wp_mono; [by apply IH | | done].
    intros l' c3 [? Hl']. split; [done|]. rewrite length_app in Hl'. cbn in *. lia.
Qed.

(** A box of its own: on success it is one more live box, on failure there is none. *)
Lemma create_box_opened content holder l c c' :
  opened l c c' ->
  wp (boxmain_Create box_parse box_New box_Start content (fun b => publish holder (Some b)))
    (fun b c'' => opened l c (on_boxes (release b) c'') /\ b ∈ p_live (c_boxes c''))
    (fun _ c'' => opened l c c'') c'.
Proof.
  intros Ho. unfold boxmain_Create. repeat wp_step; try done.
  all: assert (opened l c (on_boxes (release (p_next (c_boxes c'))) (publish holder (Some (p_next (c_boxes c')))
         (on_boxes alloc c')))) as Ho';
    [|done || (split; [done | apply elem_of_union; left; by apply elem_of_singleton])].
  all: destruct Ho as ([Hpb Hp] & Hpr & Hf & Hl & Hn & Hnd); injection Hf as F1 F2 F3 F4 F5 F6;
    split_and!; try done; [split; cbn; auto with nunya|];
    cbn; rewrite F1, F2, F3, F4, F6, <- F5; repeat f_equal; by apply release_alloc.
Qed.

Lemma unwind_app l1 l2 c : unwind (l1 ++ l2) c = unwind l1 (unwind l2 c).
Proof. unfold unwind. by rewrite reverse_app, foldl_app. Qed.

Lemma prepare_xray_spec req strategy holder c c' :
  pools_ok c -> opened [] c c' ->
  wp (prepare_xray req (xrayPreparer defaultInterfaceFinder strategy holder))
    (fun cl c'' => exists l, opened l c c'' /\ cl = CloseInstance <$> l)
    (fun _ c'' => opened [] c c'') c'.
Proof.
  intros Hp Ho. unfold prepare_xray. destruct (t_needXray req).
  2: { wp_step. by exists []. }
  wp_step. eapply wp_mono; [by apply (create_opened _ [] c c') | | by intros e c1 ->].
  intros i c1 Ho1. wp_step. wp_step. eapply wp_mono; [apply prepare_res | | done].
  intros _ c2 [Hr Hpr]. pose proof (opened_res _ _ _ _ Hr Hpr Ho1) as Ho2.
  wp_step. wp_step. wp_step.
  - wp_step. by exists [i].
  - by apply (opened_close_app [] [i]).
Qed.

Lemma unwind_instances l l0 c c' : opened (l0 ++ l) c c' -> opened l0 c (unwind (CloseInstance <$> l) c').
Proof.
  revert l0 c'. induction l as [|i l IH]; intros l0 c' Ho; [by rewrite app_nil_r in Ho|].
  change (opened l0 c (unwind ([CloseInstance i] ++ (CloseInstance <$> l)) c')).
  rewrite unwind_app. unfold unwind at 1. cbn.
  apply opened_release, IH. by rewrite <- app_assoc.
Qed.

(** [env] was opened over [c]: closing it brings back what was alive, and its box is a new
    one; measuring the running instance opens nothing. *)
Definition owned_env (req : testReq) (c : core) (env : testEnv) (c' : core) : Prop :=
  live_of (unwind (te_close env) c') = live_of c /\ proc_of (unwind (te_close env) c') = proc_of c /\
  if t_current req then boxInstance c = Some (te_box env) /\ te_close env = [] /\ live_of c' = live_of c
  else te_box env ∈ p_live (c_boxes c') /\ te_box env ∉ p_live (c_boxes c).

Lemma prepareTestEnv_effect req c :
  pools_ok c ->
  match prepareTestEnv req c with
  | (Returns env, c') => owned_env req c env c'
  | (Fails _, c') => live_of c' = live_of c /\ proc_of c' = proc_of c
  | (Panics _, _) => False
  end.
Proof.
  intros Hp.
  change (wp (prepareTestEnv req) (owned_env req c)
    (fun _ c' => live_of c' = live_of c /\ proc_of c' = proc_of c) c).
  unfold prepareTestEnv. wp_step. eapply wp_returns; [reflexivity|].
  set (c1 := set_settings _ _ _ _).
  assert (opened [] c c1) as Ho1 by (apply (opened_res _ c c); [done | done | by apply opened_refl]).
  assert (forall c', opened [] c c' -> live_of c' = live_of c /\ proc_of c' = proc_of c) as Hnone.
  { intros c' Ho. split; [by apply opened_live | apply Ho]. }
  unfold owned_env. destruct (t_current req).
  - unfold wp, current_env. destruct (boxInstance c1) as [box|] eqn:Hb; [|by apply Hnone].
    destruct (if has_outbound box "proxy" then _ else _) as [tags useDefault]. cbn. done.
  - wp_step. eapply wp_mono; [by apply prepare_xray_spec | | by intros e c' ?%Hnone].
    intros cl c2 (l & Ho2 & ->). wp_step. wp_step.
    eapply wp_mono; [apply (start_full_from_spec _ _ c l _ []); [done | by rewrite app_nil_r] | |].
    2: { intros e c3 Ho3. apply Hnone, unwind_instances. done. }
    intros l' c3 [Ho3 _]. wp_step. wp_step.
    assert (forall c', opened (l ++ l') c c' ->
      opened [] c (unwind ((CloseInstance <$> l) ++ [CloseInstances l']) c')) as Hall.
    { intros c' Ho. rewrite unwind_app. apply unwind_instances. unfold unwind; cbn.
      by apply opened_close_app. }
    eapply wp_mono; [by apply create_box_opened | | by intros e c' ?%Hall%Hnone].
    intros b c4 [Ho4 Hb]. wp_step. cbn [te_close te_box].
    rewrite unwind_app. unfold unwind at 2 4. cbn [reverse rev_append foldl run_cleanup].
    destruct (Hnone _ (Hall _ Ho4)) as [Hl Hpr]. split_and!; [exact Hl | exact Hpr | exact Hb |].
    intros Hin. destruct Ho4 as (_ & _ & Hf & _). injection Hf as _ _ _ _ Hf _.
    rewrite <- Hf in Hin. cbn in Hin. apply elem_of_difference in Hin as [_ Hin].
    by apply Hin, elem_of_singleton.
Qed.

End TestEnv.

(** ** URL and IP tests: [urltest.go] *)

Record URLTestResp := MkURLTestResp { OutboundTag : string; LatencyMs : Z; Error : string }.
Record IPTestRes := MkIPTestRes { ir_tag : string; ir_ip : string; ir_country : string; ir_error : string }.

(** [Duration.Milliseconds], then the conversion to int32. *)
Definition milliseconds (d : Z) : Z := Z.quot d 1000000.

Definition url_resp (tag : string) (data : URLTestResult) : URLTestResp :=
  MkURLTestResp tag (int32 (milliseconds (u_duration data))) (default EmptyString (u_error data)).

Definition ip_resp (tag : string) (data : IPTestResult) : IPTestRes :=
  MkIPTestRes tag (IP (ip_result data)) (CountryCode (ip_result data)) (default EmptyString (ip_error data)).

(** The loop over the results indexes the tags of the environment. *)
Definition url_resps (tags : list string) (results : list URLTestResult) : list URLTestResp :=
  zip_with url_resp tags results.

Definition failed_map (resps : list URLTestResp) : gmap string bool :=
  foldl (fun m r => <[OutboundTag r := negb (String.eqb (Error r) EmptyString)]> m) ∅ resps.

(** The VPN endpoints whose status the reply of a test carries. *)
Definition pending_endpoints (failed : gmap string bool) (tags : list string) : list string :=
  filter (fun tag => failed !! tag = Some true) tags.

Record TestResp (V : Type) := MkTestResp { tr_results : list URLTestResp; tr_vpn : list V }.
Arguments MkTestResp {V}. Arguments tr_results {V}. Arguments tr_vpn {V}.

Section Handlers.
  Context (prepare : testReq -> prog core testEnv).
  (** The batches, and [collectVPNStatus] of a box without a wait. *)
  Context {V : Type} (url_batch : nat -> list string -> bool -> list URLTestResult)
          (ip_batch : nat -> list string -> bool -> list IPTestResult)
          (collectVPNStatus : nat -> list string -> list V).

(** [defer env.close()]: whatever the body computes, the environment is closed. *)
Definition with_env {A} (req : testReq) (body : testEnv -> A) : prog core A :=
  env ← prepare req;
  _ ← modify (unwind (te_close env));
  mret (body env).

Definition Test (req : testReq) (vpnEndpointTags : list string) : prog core (TestResp V) := fun c =>
  match with_env req (fun env =>
    let results := url_batch (te_box env) (te_tags env) (negb (t_current req)) in
    let resps := url_resps (te_tags env) results in
    let pending := pending_endpoints (failed_map resps) vpnEndpointTags in
    MkTestResp resps (match pending with [] => [] | _ => collectVPNStatus (te_box env) pending end)) c
  with
  | (Fails e, c') =>
      if String.eqb e errInstanceNotRunning then
        (Returns (MkTestResp [MkURLTestResp "proxy" 0 e] []), c')
      else (Fails e, c')
  | r => r
  end.

(** The request of an IP test: there is no variant for the running instance. *)
Definition ip_request (req : testReq) : testReq :=
  MkTestReq false (t_needXray req) (t_xrayConfig req) (t_fullConfigs req) (t_coreConfig req)
    (t_tags req) (t_useDefault req) (t_dnsStrategy req).

Definition IPTest (req : testReq) : prog core (list IPTestRes) :=
  with_env (ip_request req) (fun env =>
    zip_with ip_resp (te_tags env) (ip_batch (te_box env) (te_tags env) true)).

(** [QueryURLTest] and [QueryIPTest] drain the reporter. *)
Definition QueryURLTest (heap : nat -> option URLTestResult) (b : list nat) : list URLTestResp * list nat :=
  let '(results, b) := Results b in
  ((fun r => url_resp (u_tag r) r) <$> omap heap results, b).

Definition QueryIPTest (heap : nat -> option IPTestResult) (b : list nat) : list IPTestRes * list nat :=
  let '(results, b) := Results b in
  ((fun r => ip_resp (ip_tag r) r) <$> omap heap results, b).

(** [StopTest]. *)
Definition StopTest (s : testSession) : testSession := cancelAndRearm s.
End Handlers.


(** ** Concrete test requests *)

Module Sample.
Definition request : testReq := MkTestReq false true "xray" ["a"; "b"] "bad" ["t"] false "UseIP".
Definition prepare : testReq -> prog core testEnv :=
  prepareTestEnv Lifecycle.Sample.ok Lifecycle.Sample.ok Lifecycle.Sample.starts Lifecycle.Sample.ok
    Lifecycle.Sample.starts "eth0" (fun _ _ => false) (fun _ => "direct").
End Sample.

Lemma sample_pools_ok : pools_ok Lifecycle.Sample.core1.
Proof. destruct sample_held as (_ & _ & _ & ? & ? & _). by split. Qed.


