(* ===== verification/SpeedTest.v ===== *)
(** * Speed tests: [internal/probe/speedtest.go] and [internal/rpc/speedtest.go]

    The sampling loops as functions on the events they select on, the batch loop with its
    country mode, and the reply. Rates arrive as the strings [BrateToStr] formats. *)

From S2P Require Export Prelude GoStr Probe.
From S2P Require Process Lifecycle TestEnv.
Local Open Scope string_scope.
Open Scope Z_scope.

Record SpeedTestResult := MkSpeedTestResult {
  Tag : string;
  DlSpeed : string;
  UlSpeed : string;
  Latency : Z;
  ServerName : string;
  ServerCountry : string;
  sp_Error : option string;
  Cancelled : bool;
  DlBytes : Z;
  UlBytes : Z
}.

Definition new_result (tag : string) : SpeedTestResult :=
  MkSpeedTestResult tag "" "" 0 "" "" None false 0 0.

Definition set_error (e : option string) (r : SpeedTestResult) : SpeedTestResult :=
  MkSpeedTestResult (Tag r) (DlSpeed r) (UlSpeed r) (Latency r) (ServerName r) (ServerCountry r) e
    (Cancelled r) (DlBytes r) (UlBytes r).
Definition set_cancelled (r : SpeedTestResult) : SpeedTestResult :=
  MkSpeedTestResult (Tag r) (DlSpeed r) (UlSpeed r) (Latency r) (ServerName r) (ServerCountry r)
    (sp_Error r) true (DlBytes r) (UlBytes r).
Definition set_server (name country : string) (r : SpeedTestResult) : SpeedTestResult :=
  MkSpeedTestResult (Tag r) (DlSpeed r) (UlSpeed r) (Latency r) name country (sp_Error r)
    (Cancelled r) (DlBytes r) (UlBytes r).
Definition set_latency (l : Z) (r : SpeedTestResult) : SpeedTestResult :=
  MkSpeedTestResult (Tag r) (DlSpeed r) (UlSpeed r) l (ServerName r) (ServerCountry r) (sp_Error r)
    (Cancelled r) (DlBytes r) (UlBytes r).
Definition set_speeds (dl ul : string) (dlb ulb : Z) (r : SpeedTestResult) : SpeedTestResult :=
  MkSpeedTestResult (Tag r) dl ul (Latency r) (ServerName r) (ServerCountry r) (sp_Error r)
    (Cancelled r) dlb ulb.

(** ** [SpeedTestResultQuerier] *)

Record querier := MkQuerier { isRunning : bool; q_current : SpeedTestResult }.

Definition storeResult (r : SpeedTestResult) (q : querier) : querier := MkQuerier (isRunning q) r.
Definition setIsRunning (b : bool) (q : querier) : querier := MkQuerier b (q_current q).
Definition Result (q : querier) : SpeedTestResult * bool := (q_current q, isRunning q).

(** ** The download of [simpleDownloadTest] *)

(** What a sample reads: the bytes so far, the rate once the download has started, the
    latency. *)
Record reading := MkReading { rd_bytes : Z; rd_rate : option string; rd_latency : Z }.

Definition sample (rd : reading) (r : SpeedTestResult) : SpeedTestResult :=
  set_latency (rd_latency rd)
    (set_speeds (match rd_rate rd with Some s => s | None => DlSpeed r end) (UlSpeed r)
       (rd_bytes rd) (UlBytes r) r).

Inductive dl_event :=
| DlDone (err : option string) (rd : reading)
| DlCancelled (err : string)
| DlTick (rd : reading).

(** The loop selects until the download is done or the context ends: the error returned,
    the result, and the querier; [None] when the events run out before. *)
Fixpoint download_loop (events : list dl_event) (r : SpeedTestResult) (q : querier)
    : option (option string * SpeedTestResult * querier) :=
  match events with
  | [] => None
  | DlDone err rd :: _ =>
      let r := match err with Some _ => set_error err r | None => r end in
      let r := sample rd r in
      Some (err, r, storeResult r q)
  | DlCancelled err :: _ => Some (Some err, set_cancelled r, q)
  | DlTick rd :: events =>
      let r := sample rd r in
      download_loop events r (storeResult r q)
  end.

Definition simpleDownloadTest (new_request : result unit) (events : list dl_event)
    (r : SpeedTestResult) (q : querier) : option (option string * SpeedTestResult * querier) :=
  let r := set_server "N/A" "N/A" r in
  match new_request with
  | Err e => Some (Some e, r, q)
  | Ok _ =>
      match download_loop events r (setIsRunning true q) with
      | None => None
      | Some (err, r, q) => Some (err, r, setIsRunning false q)
      end
  end.

(** ** [speedTestWithDialer] *)

(** The client's counters. *)
Record counters := MkCounters { ct_dl : string; ct_ul : string; ct_dlb : Z; ct_ulb : Z; ct_latency : Z }.

Definition read_counters (c : counters) (r : SpeedTestResult) : SpeedTestResult :=
  set_latency (ct_latency c) (set_speeds (ct_dl c) (ct_ul c) (ct_dlb c) (ct_ulb c) r).

Inductive sp_event :=
| SpDone (err : option string) (c : counters)
| SpCancelled (err : string)
| SpTick (c : counters).

Fixpoint speed_loop (events : list sp_event) (r : SpeedTestResult) (q : querier)
    : option (option string * SpeedTestResult * querier) :=
  match events with
  | [] => None
  | SpDone err c :: _ =>
      let r := match err with Some _ => set_error err r | None => r end in
      let r := read_counters c r in
      Some (None, r, storeResult r q)
  | SpCancelled err :: _ => Some (Some err, set_cancelled r, q)
  | SpTick c :: events =>
      let r := read_counters c r in
      speed_loop events r (storeResult r q)
  end.

(** What the worker goroutine reports: the transfers that were asked for, in order, up to
    the first that fails; a cancelled one ends neither. *)
Definition transfers (is_canceled : string -> bool) (testDl testUl : bool)
    (download upload : option string) : option string :=
  let failed (wanted : bool) (err : option string) :=
    if wanted then match err with Some e => if is_canceled e then None else Some e | None => None end
    else None in
  match failed testDl download with
  | Some e => Some e
  | None => failed testUl upload
  end.

Record server := MkServer { sv_name : string; sv_country : string; sv_latency : Z }.

Definition speedTestWithDialer (srv : result server) (events : list sp_event) (r : SpeedTestResult)
    (q : querier) : option (option string * SpeedTestResult * querier) :=
  match srv with
  | Err e => Some (Some e, r, q)
  | Ok sv =>
      let r := set_server (sv_name sv) (sv_country sv) r in
      match speed_loop events r (setIsRunning true q) with
      | None => None
      | Some (err, r, q) => Some (err, r, setIsRunning false q)
      end
  end.

Definition countryTest (srv : result server) (r : SpeedTestResult) : option string * SpeedTestResult :=
  match srv with
  | Err e => (Some e, r)
  | Ok sv => (None, set_latency (sv_latency sv) (set_server (sv_name sv) (sv_country sv) r))
  end.

(** ** [BatchSpeedTest] *)

Section BatchSpeed.
  (** The instance, whether the context is done before each tag, the two kinds of test,
      and [errors.Is(err, context.Canceled)]. *)
  Context (found : string -> bool) (ctx_done : nat -> bool) (is_canceled : string -> bool).
  Context (run_test : string -> SpeedTestResult -> option string * SpeedTestResult)
          (country_server : string -> result server).
  Context (testDl testUl simpleDL countryOnly : bool).

Definition keep_error (err : option string) (r : SpeedTestResult) : SpeedTestResult :=
  match err with
  | Some e => if is_canceled e then r else set_error (Some e) r
  | None => r
  end.

Definition hide_speeds (r : SpeedTestResult) : SpeedTestResult :=
  let dl := if negb testDl && negb simpleDL then "" else DlSpeed r in
  let ul := if negb testUl then "" else UlSpeed r in
  set_speeds dl ul (DlBytes r) (UlBytes r) r.

(** The result of one tag, once its goroutine, if it has one, is done. *)
Definition speed_result (tag : string) : SpeedTestResult :=
  let r := new_result tag in
  if negb (found tag) then set_error (Some ("no outbound with tag " ++ tag ++ " found")) r
  else if countryOnly then let '(err, r) := countryTest (country_server tag) r in keep_error err r
  else let '(err, r) := run_test tag r in hide_speeds (keep_error err r).

Fixpoint speed_results (n : nat) (tags : list string) : list SpeedTestResult :=
  match tags with
  | [] => []
  | tag :: tags => if ctx_done n then [] else speed_result tag :: speed_results (S n) tags
  end.

Definition BatchSpeedTest (tags : list string) : list SpeedTestResult := speed_results 0 tags.

  (** The pointer of the first result; the goroutines of the country mode publish theirs in
      the order [schedule]. *)
  Context (base : nat) (schedule : list nat).

Definition speed_pointers (tags : list string) : list nat := seq base (length (BatchSpeedTest tags)).

Definition country_buffer (tags : list string) (buffer : list nat) : list nat :=
  Reclaim (speed_pointers tags) (if countryOnly then foldl (fun b r => AddResult r b) buffer schedule else buffer).

Definition cancelled_before (n : nat) : Prop := exists m, (m < n)%nat /\ ctx_done m = true.

Lemma speed_results_spec tags : forall n,
  exists k, (k <= length tags)%nat /\ speed_results n tags = speed_result <$> take k tags /\
    (forall m, (m < k)%nat -> ctx_done (n + m) = false) /\
    ((k < length tags)%nat -> ctx_done (n + k) = true).
Proof.
  induction tags as [|tag tags IH]; intros n; cbn [speed_results].
  { exists 0%nat. split_and!; cbn; [lia | done | lia | lia]. }
  destruct (ctx_done n) eqn:Hc.
  { exists 0%nat. split_and!; cbn; [lia | done | lia | by rewrite Nat.add_0_r]. }
  destruct (IH (S n)) as (k & Hk & Hr & Hno & Hyes). exists (S k). split_and!; cbn.
  - lia.
  - by rewrite Hr.
  - intros [|m] Hm; [by rewrite Nat.add_0_r|]. rewrite Nat.add_succ_r. apply (Hno m). lia.
  - intros Hlt. rewrite Nat.add_succ_r. apply Hyes. lia.
Qed.

(** A speed test reports the tags in order, up to the first it found the context done
    before; and in the country mode, however its goroutines finish, the reporter keeps
    what it held and nothing of this batch. *)
Theorem BatchSpeedTest_in_order tags buffer :
  (exists k, BatchSpeedTest tags = speed_result <$> take k tags /\
     (forall m, (m < k)%nat -> ctx_done m = false) /\
     ((k < length tags)%nat -> ctx_done k = true)) /\
  (schedule ≡ₚ speed_pointers tags -> (forall r, r ∈ buffer -> (r < base)%nat) ->
   country_buffer tags buffer = buffer).
Proof.
  split.
  - destruct (speed_results_spec tags 0) as (k & _ & Hr & Hno & Hyes). exists k. split_and!; [done | exact Hno | exact Hyes].
  - intros Hs Hb. unfold country_buffer. rewrite Reclaim_spec.
    assert (filter (.∉ speed_pointers tags) buffer = buffer) as Hkeep.
    { apply list_filter_all. apply Forall_forall. intros r Hr Hin. apply Hb in Hr.
      unfold speed_pointers in Hin. apply elem_of_seq in Hin. lia. }
    destruct countryOnly; [|exact Hkeep].
    assert (foldl (fun b r => AddResult r b) buffer schedule = (buffer ++ schedule)%list) as ->.
    { unfold AddResult. clear. revert buffer. induction schedule as [|r l IH]; intros b; cbn.
      - by rewrite app_nil_r.
      - by rewrite IH, <- app_assoc. }
    rewrite filter_app, Hkeep. rewrite list_filter_none; [by rewrite app_nil_r|].
    apply Forall_forall. intros r Hr Hno. apply Hno. by rewrite <- Hs.
Qed.
End BatchSpeed.

(** ** The handler *)

Record SpeedTestRequest := MkSpeedTestRequest {
  TestDownload : option bool;
  TestUpload : option bool;
  SimpleDownload : option bool;
  SimpleDownloadAddr : option string;
  TimeoutMs : option Z;
  OnlyCountry : option bool;
  CountryConcurrency : option Z
}.

(** The guard of the [SpeedTest] handler; a missing field panics. *)
Definition empty_test (req : SpeedTestRequest) : outcome bool :=
  match TestDownload req, TestUpload req, SimpleDownload req, OnlyCountry req with
  | Some true, _, _, _ => Returns false
  | Some false, Some true, _, _ => Returns false
  | Some false, Some false, Some true, _ => Returns false
  | Some false, Some false, Some false, Some o => Returns (negb o)
  | _, _, _, _ => Panics "runtime error: invalid memory address or nil pointer dereference"
  end.

Record SpeedTestReply := MkSpeedTestReply {
  r_dl : string; r_ul : string; r_latency : Z; r_tag : string; r_error : string;
  r_server : string; r_country : string; r_cancelled : bool; r_dlb : Z; r_ulb : Z
}.

Definition speedTestResultToProto (res : SpeedTestResult) : SpeedTestReply :=
  MkSpeedTestReply (DlSpeed res) (UlSpeed res) (Latency res) (Tag res)
    (default EmptyString (sp_Error res)) (ServerName res) (ServerCountry res) (Cancelled res)
    (DlBytes res) (UlBytes res).

Definition QuerySpeedTest (q : querier) : SpeedTestReply * bool :=
  let '(res, running) := Result q in (speedTestResultToProto res, running).

Definition QueryCountryTest (heap : nat -> option SpeedTestResult) (b : list nat)
    : list SpeedTestReply * list nat :=
  let '(results, b) := Results b in (speedTestResultToProto <$> omap heap results, b).

(** What the handler passes to [BatchSpeedTest]: the seven fields, dereferenced in order;
    the timeout is a duration in nanoseconds. *)
Record speed_args := MkSpeedArgs {
  a_testDl : bool; a_testUl : bool; a_simpleDL : bool; a_simpleAddress : string; a_timeout : Z;
  a_countryOnly : bool; a_countryConcurrency : Z
}.

Section Handler.
  Import Lifecycle TestEnv.
  Context (prepare : testReq -> prog core testEnv) (batch : nat -> list string -> speed_args -> list SpeedTestResult).

Definition speed_fields (inp : SpeedTestRequest) : prog core speed_args :=
  dl ← deref (TestDownload inp);
  ul ← deref (TestUpload inp);
  simple ← deref (SimpleDownload inp);
  addr ← deref (SimpleDownloadAddr inp);
  timeout ← deref (TimeoutMs inp);
  country ← deref (OnlyCountry inp);
  concurrency ← deref (CountryConcurrency inp);
  mret (MkSpeedArgs dl ul simple addr (int64 (timeout * 1000000)) country concurrency).

(** The part under [defer env.close()]: a field that is missing panics here, with the test
    instance up. *)
Definition measure (inp : SpeedTestRequest) (env : testEnv) : prog core (list SpeedTestReply) :=
  deferred (unwind (te_close env))
    (args ← speed_fields inp;
     mret (speedTestResultToProto <$> batch (te_box env) (te_tags env) args)).

Definition not_running_reply (e : string) : SpeedTestReply :=
  MkSpeedTestReply "" "" 0 "proxy" e "" "" false 0 0.

Definition SpeedTest (req : testReq) (inp : SpeedTestRequest) : prog core (list SpeedTestReply) := fun c =>
  match empty_test inp with
  | Panics e => (Panics e, c)
  | Fails e => (Fails e, c)
  | Returns true => (Fails "cannot run empty test", c)
  | Returns false =>
      match prepare req c with
      | (Fails e, c) =>
          if String.eqb e errInstanceNotRunning then (Returns [not_running_reply e], c) else (Fails e, c)
      | (Panics e, c) => (Panics e, c)
      | (Returns env, c) => measure inp env c
      end
  end.
End Handler.

Lemma measure_state batch inp env c :
  (measure batch inp env c).2 = TestEnv.unwind (TestEnv.te_close env) c.
Proof.
  unfold measure, deferred, speed_fields, mbind, prog_bind, deref.
  by destruct (TestDownload inp), (TestUpload inp), (SimpleDownload inp), (SimpleDownloadAddr inp), (TimeoutMs inp),
    (OnlyCountry inp), (CountryConcurrency inp).
Qed.

(** A speed test leaves the core as it found it, however it ends: refused, without an
    instance to measure, failed to come up, measured, or panicking on a field the client
    left out while its own instance was up. *)
Theorem SpeedTest_leaves_no_trace box_parse box_New box_Start xray_Create xray_Start finder has_outbound
    default_tag batch req inp c :
  TestEnv.pools_ok c ->
  let handler := SpeedTest (TestEnv.prepareTestEnv box_parse box_New box_Start xray_Create xray_Start finder
                              has_outbound default_tag) batch in
  let '(r, c') := handler req inp c in
  TestEnv.live_of c' = TestEnv.live_of c /\ Lifecycle.proc_of c' = Lifecycle.proc_of c /\
  ((exists e, empty_test inp = Panics e) \/ empty_test inp = Returns true -> c' = c).
Proof.
  intros Hp. cbv zeta. unfold SpeedTest.
  destruct (empty_test inp) as [[|]|e|e] eqn:He; try by split_and!.
  pose proof (TestEnv.prepareTestEnv_effect box_parse box_New box_Start xray_Create xray_Start finder has_outbound
    default_tag req c Hp) as E.
  destruct (TestEnv.prepareTestEnv _ _ _ _ _ _ _ _ req c) as [[env|e|e] c1]; [| |done].
  - pose proof (measure_state batch inp env c1) as Hm. destruct (measure batch inp env c1) as [r c2]. cbn in Hm. subst c2.
    destruct E as (Hl & Hpr & _). split_and!; [done | done |]. by intros [[? ?]|?].
  - destruct E as [Hl Hpr].
    destruct (String.eqb e TestEnv.errInstanceNotRunning); (split_and!; [done..|]); by intros [[? ?]|?].
Qed.

(** A client that leaves out the address of a simple download: the handler panics with the
    test instance up, and closes it. *)
Definition no_address : SpeedTestRequest :=
  MkSpeedTestRequest (Some false) (Some false) (Some true) None (Some 3000) (Some false) (Some 5).

Definition good_request : TestEnv.testReq := TestEnv.MkTestReq false true "xray" [] "box" ["t"] false "UseIP".

Lemma SpeedTest_leaves_no_trace_witness :
  let '(r, c') := SpeedTest TestEnv.Sample.prepare (fun _ _ _ => []) good_request no_address Lifecycle.Sample.core1 in
  r = Panics "runtime error: invalid memory address or nil pointer dereference" /\
  TestEnv.live_of c' = TestEnv.live_of Lifecycle.Sample.core1.
Proof.
  pose proof (SpeedTest_leaves_no_trace Lifecycle.Sample.ok Lifecycle.Sample.ok Lifecycle.Sample.starts
    Lifecycle.Sample.ok Lifecycle.Sample.starts "eth0" (fun _ _ => false) (fun _ => "direct")
    (fun _ _ _ => []) good_request no_address Lifecycle.Sample.core1 TestEnv.sample_pools_ok) as H.
  assert ((SpeedTest TestEnv.Sample.prepare (fun _ _ _ => []) good_request no_address Lifecycle.Sample.core1).1 =
    Panics "runtime error: invalid memory address or nil pointer dereference") as E by (vm_compute; reflexivity).
  cbv zeta in H. unfold TestEnv.Sample.prepare in *.
  destruct (SpeedTest _ _ good_request no_address Lifecycle.Sample.core1) as [r c']. split; [exact E | exact (proj1 H)].
Defined.

(** Three tags, one unknown, in the country mode: published in another order than the
    results, beside an older result of the reporter. *)
Lemma BatchSpeedTest_in_order_witness :
  country_buffer (fun t => negb (String.eqb t "gone")) (fun _ => false) (fun _ => false)
    (fun _ r => (None, r)) (fun _ => Ok (MkServer "srv" "NL" 12)) false false false true 10
    [11; 10; 12]%nat ["a"; "gone"; "b"] [3]%nat = [3]%nat.
Proof.
  apply (BatchSpeedTest_in_order (fun t => negb (String.eqb t "gone")) (fun _ => false) (fun _ => false)
    (fun _ r => (None, r)) (fun _ => Ok (MkServer "srv" "NL" 12)) false false false true 10
    [11; 10; 12]%nat ["a"; "gone"; "b"] [3]%nat).
  - apply (perm_swap 10%nat 11%nat).
  - intros r Hr. apply list_elem_of_singleton in Hr. subst. lia.
Defined.
