(* ===== verification/BoxLife.v ===== *)
(** * The box: [internal/boxbox/box.go] and [api.go], and [internal/boxmain/check.go]

    The fork of sing-box's [Box]: what [New] creates and registers for a config, in which
    order [Start] brings the managers up and [Close] takes them down. The managers
    themselves are sing-box's; a call on one is an entry of a trace with the outcome it
    has. *)

From S2P Require Export Prelude GoStr.
Local Open Scope string_scope.

(** ** Registries: [Context] *)

(** The registries of a context, by the name of the implementation they hold. *)
Record registries := MkRegistries {
  inboundOptions : option string;
  inboundRegistry : option string;
  outboundOptions : option string;
  outboundRegistry : option string;
  endpointOptions : option string;
  endpointRegistry : option string;
  dnsTransportOptions : option string;
  dnsTransportRegistry : option string;
  serviceOptions : option string;
  serviceRegistry : option string;
  certificateOptions : option string;
  certificateProviderRegistry : option string
}.

Definition missing (o : option string) : bool := match o with None => true | Some _ => false end.

(** A pair of registries is replaced when [guard] says so. *)
Definition with_registry (guard : bool) (r : string) (options registry : option string)
    : option string * option string :=
  if guard then (Some r, Some r) else (options, registry).

Definition Context (ctx : registries) (inb outb endp dnst serv cert : string) : registries :=
  let '(io, i) := with_registry (missing (inboundOptions ctx) || missing (inboundRegistry ctx)) inb
                    (inboundOptions ctx) (inboundRegistry ctx) in
  let '(oo, o) := with_registry (missing (outboundOptions ctx) || missing (outboundRegistry ctx)) outb
                    (outboundOptions ctx) (outboundRegistry ctx) in
  let '(eo, e) := with_registry (missing (endpointOptions ctx) || missing (endpointRegistry ctx)) endp
                    (endpointOptions ctx) (endpointRegistry ctx) in
  let '(dop, d) := with_registry (missing (dnsTransportRegistry ctx)) dnst
                    (dnsTransportOptions ctx) (dnsTransportRegistry ctx) in
  let '(so, s) := with_registry (missing (serviceRegistry ctx)) serv (serviceOptions ctx) (serviceRegistry ctx) in
  let '(co, c) := with_registry (missing (certificateProviderRegistry ctx)) cert
                    (certificateOptions ctx) (certificateProviderRegistry ctx) in
  MkRegistries io i oo o eo e dop d so s co c.

(** ** [New] *)

Record Experimental := MkExperimental {
  CacheFileEnabled : bool;               (* a cache file section that is enabled *)
  ClashAPI : option string;              (* its external controller *)
  V2RayListen : option string
}.

Record CertificateOptions := MkCertificateOptions {
  Store : string;
  Certificate : list string;
  CertificatePath : list string;
  CertificateDirectoryPath : list string
}.

Record Options := MkOptions {
  o_experimental : Experimental;
  o_platformLog : bool;                  (* a [PlatformLogWriter] *)
  o_services : list (string * string);   (* type and tag *)
  o_certificate : CertificateOptions;
  o_ntp : option bool;                   (* enabled: whether it writes to the system *)
  o_dns : list string;                   (* the tags of each section, "" when absent *)
  o_endpoints : list string;
  o_inbounds : list string;
  o_outbounds : list string;
  o_providers : list string;
  o_platform : bool                      (* a [PlatformInterface] in the context *)
}.

Definition needCacheFile (o : Options) : bool := CacheFileEnabled (o_experimental o) || o_platformLog o.
Definition needClashAPI (o : Options) : bool :=
  match ClashAPI (o_experimental o) with Some _ => true | None => false end.
Definition needV2RayAPI (o : Options) : bool :=
  match V2RayListen (o_experimental o) with Some l => negb (String.eqb l EmptyString) | None => false end.

Section New.
  (** sing-box's constants and constructors: what fails, and with what. *)
  Context (TypeAPI CertificateStoreSystem : string) (IsAndroid : bool).
  Context (construct : string -> result unit) (create : string -> string -> result unit)
          (v2ray_has_stats : bool).

Definition needAPIService (o : Options) : bool := existsb (fun s => String.eqb (fst s) TypeAPI) (o_services o).

Definition observable_log (o : Options) : bool :=
  match ClashAPI (o_experimental o) with Some c => negb (String.eqb c EmptyString) | None => false end.

Definition check_registries (ctx : registries) : result unit :=
  if missing (endpointRegistry ctx) then Err "missing endpoint registry in context"
  else if missing (inboundRegistry ctx) then Err "missing inbound registry in context"
  else if missing (outboundRegistry ctx) then Err "missing outbound registry in context"
  else if missing (dnsTransportRegistry ctx) then Err "missing DNS transport registry in context"
  else if missing (serviceRegistry ctx) then Err "missing service registry in context"
  else if missing (certificateProviderRegistry ctx) then Err "missing certificate provider registry in context"
  else Ok tt.

Definition needCertificateStore (o : Options) : bool :=
  let c := o_certificate o in
  IsAndroid
  || (negb (String.eqb (Store c) EmptyString) && negb (String.eqb (Store c) CertificateStoreSystem))
  || (0 <? length (Certificate c))%nat || (0 <? length (CertificatePath c))%nat
  || (0 <? length (CertificateDirectoryPath c))%nat.

(** An error with what was being created. *)
Definition causing (msg : string) (r : result unit) : result unit :=
  match r with Ok _ => Ok tt | Err e => Err (msg ++ ": " ++ e) end.

(** The entry at index [i] of a section: its tag, or its index when it has none. *)
Definition tag_of (i : nat) (tag : string) : string :=
  if String.eqb tag EmptyString then itoa (Z.of_nat i) else tag.

Fixpoint create_section (name kind : string) (i : nat) (tags : list string) : result (list string) :=
  match tags with
  | [] => Ok []
  | t :: tags =>
      match create kind (tag_of i t) with
      | Err e => Err ("initialize " ++ name ++ "[" ++ itoa (Z.of_nat i) ++ "]: " ++ e)
      | Ok _ => created ← create_section name kind (S i) tags; Ok (tag_of i t :: created)
      end
  end.

(** What a box consists of: the internal services in the order they were added, and the
    tags of each manager. *)
Record parts := MkParts {
  b_internal : list string;
  b_dns : list string;
  b_endpoints : list string;
  b_inbounds : list string;
  b_services : list string;
  b_outbounds : list string;
  b_providers : list string
}.

(** What is built before any entry of the config. *)
Definition new_core (o : Options) : result unit :=
  _ ← causing "create log factory" (construct "log");
  _ ← (if needCertificateStore o then construct "certificate" else Ok tt);
  _ ← construct "netns";
  _ ← causing "initialize DNS router" (construct "dns-router");
  _ ← causing "initialize network manager" (construct "network");
  causing "initialize router" (construct "router").

(** The DNS servers, and then the router's rules over them. *)
Definition new_dns (o : Options) : result (list string) :=
  dns ← create_section "DNS server" "dns" 0 (o_dns o);
  _ ← causing "initialize dns router" (construct "dns-rules");
  Ok dns.

(** The other sections; the internal services and the DNS servers are given. *)
Definition new_sections (o : Options) (internal dns : list string) : result parts :=
  endpoints ← create_section "endpoint" "endpoint" 0 (o_endpoints o);
  inbounds ← create_section "inbound" "inbound" 0 (o_inbounds o);
  services ← create_section "service" "service" 0 (snd <$> o_services o);
  outbounds ← create_section "outbound" "outbound" 0 (o_outbounds o);
  providers ← create_section "certificate provider" "certificate-provider" 0 (o_providers o);
  Ok (MkParts internal dns endpoints inbounds services outbounds providers).

(** The services a config may call for. *)
Definition new_features (o : Options) : result unit :=
  _ ← (if o_platform o then causing "initialize platform interface" (construct "platform") else Ok tt);
  _ ← (if needClashAPI o then causing "create clash-server" (construct "clash-api") else Ok tt);
  _ ← (if needV2RayAPI o then causing "create v2ray-server" (construct "v2ray-api") else Ok tt);
  match o_ntp o with
  | Some write =>
      _ ← (if write then construct "NTP `write_to_system`" else Ok tt);
      causing "create NTP service" (construct "ntp")
  | None => Ok tt
  end.

(** [internalServices], in the order they are appended. *)
Definition internal_services (o : Options) : list string :=
  ((if needCertificateStore o then ["certificate"] else [])
  ++ ["netns"]
  ++ (if needClashAPI o || needAPIService o || o_platformLog o then ["traffic"; "clash-mode"] else [])
  ++ (if needCacheFile o then ["cache-file"] else [])
  ++ (if needClashAPI o then ["clash-api"] else [])
  ++ (if needV2RayAPI o && v2ray_has_stats then ["v2ray-api"] else [])
  ++ (match o_ntp o with Some _ => ["ntp service"] | None => [] end))%list.

Definition New (o : Options) (ctx : registries) : result parts :=
  _ ← check_registries ctx;
  _ ← new_core o;
  dns ← new_dns o;
  p ← new_sections o (internal_services o) dns;
  _ ← new_features o;
  Ok p.
End New.

(** ** Life cycle *)

Local Open Scope list_scope.

Inductive component :=
| Logger
| Network | DnsTransport | DnsRouter | Connection | Router | Outbound | Inbound | Endpoint
| Service | CertificateProvider
| HttpClient
| Internal (name : string).

#[export] Instance component_eq_dec : EqDecision component.
Proof. solve_decision. Defined.

Inductive stage := StateInitialize | StateStart | StatePostStart | StateStarted.

#[export] Instance stage_eq_dec : EqDecision stage.
Proof. solve_decision. Defined.

Inductive event :=
| EStart (st : stage) (c : component)
| EClose (c : component).

#[export] Instance event_eq_dec : EqDecision event.
Proof. solve_decision. Defined.

(** A box between calls: what was done to its parts, and whether [done] is closed. *)
Record box := MkBox { bx_trace : list event; bx_done : bool }.

Section Life.
  #[local] Set Default Proof Using "Type".
  Context (internal : list string).
  (** What starting a part at a stage, and closing one, comes to; a close may panic. *)
  Context (start_part : stage -> component -> result unit) (close_part : component -> outcome unit).

Definition internals : list component := Internal <$> internal.

(** The calls of [preStart] and of the rest of [start], in order; [adapter.Start] takes
    the services it is given through the stage in that order, up to the first failure. *)
Definition at_stage (st : stage) (cs : list component) : list (stage * component) := pair st <$> cs.

Definition preStart_calls : list (stage * component) :=
  at_stage StateStart [Logger]
  ++ at_stage StateInitialize internals
  ++ at_stage StateInitialize [Network; DnsTransport; DnsRouter; Connection; Router; Outbound; Inbound;
       Endpoint; Service; CertificateProvider]
  ++ at_stage StateStart [Outbound; DnsTransport; Network; Connection]
  ++ at_stage StateStart [HttpClient]
  ++ at_stage StateStart [Router; DnsRouter].

Definition start_calls : list (stage * component) :=
  preStart_calls
  ++ at_stage StateStart internals
  ++ at_stage StateStart [Endpoint]
  ++ at_stage StateStart [CertificateProvider]
  ++ at_stage StateStart [Inbound; Service]
  ++ at_stage StatePostStart [Outbound; Network; DnsTransport; DnsRouter; Connection; Router; Endpoint;
       CertificateProvider; Inbound; Service]
  ++ at_stage StatePostStart internals
  ++ at_stage StateStarted [Network; DnsTransport; DnsRouter; Connection; Router; Outbound; Endpoint;
       CertificateProvider; Inbound; Service]
  ++ at_stage StateStarted internals.

Definition log_event (e : event) (b : box) : box := MkBox (bx_trace b ++ [e]) (bx_done b).

Definition run_calls (calls : list (stage * component)) : prog box unit :=
  for_each (fun c b =>
    (match start_part c.1 c.2 with Ok _ => Returns tt | Err e => Fails e end,
     log_event (EStart c.1 c.2) b)) calls.

(** The close order. *)
Definition close_order : list component :=
  [Service; Inbound; CertificateProvider; Endpoint; Outbound; Router; Connection; DnsRouter;
   DnsTransport; Network; HttpClient] ++ internals ++ [Logger].

(** Each part is closed whatever the ones before returned; the errors are collected. *)
Fixpoint close_parts (cs : list component) (errs : list string) : prog box (list string) := fun b =>
  match cs with
  | [] => (Returns errs, b)
  | c :: cs =>
      let b := log_event (EClose c) b in
      match close_part c with
      | Returns _ => close_parts cs errs b
      | Fails e => close_parts cs (errs ++ [e]) b
      | Panics e => (Panics e, b)
      end
  end.

Definition ErrClosed : string := "file already closed".

(** [Close]: the errors it collected, or [os.ErrClosed]. *)
Definition Close : prog box (list string) := fun b =>
  if bx_done b then (Returns [ErrClosed], b)
  else close_parts close_order [] (MkBox (bx_trace b) true).

(** [Start]: a failed start closes the box and returns the error; the deferred [recover]
    swallows a panic of that close, and the function then returns a nil error. *)
Definition Start (b : box) : outcome unit * box :=
  match run_calls start_calls b with
  | (Fails e, b) =>
      match Close b with
      | (Panics _, b) => (Returns tt, b)
      | (_, b) => (Fails e, b)
      end
  | r => r
  end.

(** [PreStart] panics again instead. *)
Definition PreStart (b : box) : outcome unit * box :=
  match run_calls preStart_calls b with
  | (Fails e, b) =>
      match Close b with
      | (Panics v, b) => (Panics ("panic on early close: " ++ v)%string, b)
      | (_, b) => (Fails e, b)
      end
  | r => r
  end.

(** [boxmain.Check]: a config that can be built is closed again. *)
Definition Check (parsed : result Options) (new : Options -> result parts) : result unit * option box :=
  match parsed with
  | Err e => (Err e, None)
  | Ok o =>
      match new o with
      | Err e => (Err e, None)
      | Ok _ => (Ok tt, Some (snd (Close (MkBox [] false))))
      end
  end.

(** ** Properties *)

Definition started (c : stage * component) : event := EStart c.1 c.2.

Definition all_components : list component :=
  [Logger; Network; DnsTransport; DnsRouter; Connection; Router; Outbound; Inbound; Endpoint; Service;
   CertificateProvider; HttpClient] ++ internals.

Lemma close_order_all : close_order ≡ₚ all_components.
Proof.
  unfold close_order, all_components. rewrite (Permutation_app_comm internals [Logger]), app_assoc.
  apply Permutation_app_tail. vm_compute. solve_Permutation.
Qed.

(** The errors of the parts that fail to close, in order. *)
Definition close_error (c : component) : option string :=
  match close_part c with Fails e => Some e | _ => None end.

Lemma close_parts_spec cs : forall errs b,
  (forall c v, close_part c <> Panics v) ->
  close_parts cs errs b =
  (Returns (errs ++ omap close_error cs), MkBox (bx_trace b ++ (EClose <$> cs)) (bx_done b)).
Proof.
  induction cs as [|c cs IH]; intros errs b Hp; cbn [close_parts].
  - cbn. rewrite !app_nil_r. by destruct b.
  - unfold close_error at 1. cbn [omap list_omap fmap list_fmap].
    destruct (close_part c) as [u|e|v] eqn:E; [| |by apply Hp in E]; rewrite IH by done; cbn;
      by rewrite <- !app_assoc.
Qed.

Lemma run_calls_spec calls : forall b,
  match run_calls calls b with
  | (Returns _, b') => b' = MkBox (bx_trace b ++ (started <$> calls)) (bx_done b)
  | (Fails e, b') => exists k c, calls !! k = Some c /\ start_part c.1 c.2 = Err e /\
      (forall j c', (j < k)%nat -> calls !! j = Some c' -> start_part c'.1 c'.2 = Ok tt) /\
      b' = MkBox (bx_trace b ++ (started <$> take (S k) calls)) (bx_done b)
  | (Panics _, _) => False
  end.
Proof.
  induction calls as [|c calls IH]; intros b; cbn [run_calls for_each].
  - cbn. rewrite app_nil_r. by destruct b.
  - unfold mbind, prog_bind. destruct (start_part c.1 c.2) as [[]|e] eqn:E.
    + specialize (IH (log_event (EStart c.1 c.2) b)). unfold run_calls in IH.
      destruct (for_each _ calls _) as [[u|e|e] b']; [| |done].
      * subst b'. cbn. by rewrite <- app_assoc.
      * destruct IH as (k & c' & Hk & He & Hpre & ->). exists (S k), c'. split_and!; try done.
        -- intros [|j] c'' Hj; cbn; [by intros [= <-]|]. apply Hpre. lia.
        -- cbn. by rewrite <- app_assoc.
    + exists 0%nat, c. split_and!; try done. intros j c' Hj. lia.
Qed.



(** The stages a part goes through. *)
Definition stages_of (c : component) : list stage :=
  omap (fun sc => if decide (sc.2 = c) then Some sc.1 else None) start_calls.

Definition wanted_stages (c : component) : list stage :=
  match c with
  | Logger | HttpClient => [StateStart]
  | _ => [StateInitialize; StateStart; StatePostStart; StateStarted]
  end.

Lemma stages_internal st n :
  NoDup internal -> n ∈ internal ->
  omap (fun sc => if decide (sc.2 = Internal n) then Some sc.1 else None) (at_stage st internals) = [st].
Proof.
  clear start_part close_part.
  unfold at_stage, internals. induction internal as [|m l IH]; [by intros _ ?%elem_of_nil|].
  intros [Hm Hnd]%NoDup_cons Hin. cbn. destruct (decide (Internal m = Internal n)) as [[= ->]|Hne].
  - f_equal. clear IH Hin Hnd. induction l as [|k l IH]; [done|]. cbn.
    rewrite decide_False by (intros [= ->]; apply Hm; by left). apply IH. set_solver.
  - apply elem_of_cons in Hin as [->|Hin]; [done|]. by apply IH.
Qed.

Lemma stages_other st c :
  (forall n, c <> Internal n) ->
  omap (fun sc => if decide (sc.2 = c) then Some sc.1 else None) (at_stage st internals) = [].
Proof.
  intros Hc. unfold at_stage, internals. induction internal as [|m l IH]; [done|]. cbn.
  rewrite decide_False by (intros Hm; by apply (Hc m)). exact IH.
Qed.

(** A start that succeeds has taken every manager and internal service through the
    four stages in their order, each once, and the logger and the HTTP client through the
    one they have. *)
Theorem start_stages c :
  NoDup internal -> c ∈ all_components -> stages_of c = wanted_stages c.
Proof.
  clear start_part close_part.
  intros Hnd Hc. unfold stages_of, start_calls, preStart_calls. rewrite !omap_app.
  destruct c as [ | | | | | | | | | | | |n];
    [rewrite !stages_other by done; reflexivity .. |].
  rewrite !stages_internal; [reflexivity | done |..].
  all: unfold all_components in Hc; apply elem_of_app in Hc as [Hc|(m & [= ->] & Hin)%list_elem_of_fmap];
    [by vm_compute in Hc; repeat (apply elem_of_cons in Hc as [Hc|Hc]; [done|]); apply elem_of_nil in Hc | done].
Qed.
End Life.

(** ** [CloseWithTimeout] *)

Inductive close_log := LogSlow | LogClosed.

(** What it logs before it returns, and whether the box is closed by then; the close takes
    [took] of a budget [d]. *)
Definition CloseWithTimeout (took d : Z) (block : bool) : list close_log * bool :=
  if (took <? d)%Z then ([LogClosed], true)
  else if block then ([LogSlow; LogClosed], true)
  else ([LogSlow], false).

(** ** What [New] makes of a config *)

(** [Context] fills in every registry [New] asks for, and keeps the pairs that are there. *)
Lemma Context_complete ctx inb outb endp dnst serv cert :
  check_registries (Context ctx inb outb endp dnst serv cert) = Ok tt /\
  (forall io i, inboundOptions ctx = Some io -> inboundRegistry ctx = Some i ->
     inboundRegistry (Context ctx inb outb endp dnst serv cert) = Some i).
Proof.
  destruct ctx as [[] [] [] [] [] [] [] [] [] [] [] []]; split; try reflexivity; cbn; congruence.
Qed.

Section NewSpec.
  Context (TypeAPI CertificateStoreSystem : string) (IsAndroid : bool).
  Context (construct : string -> result unit) (create : string -> string -> result unit) (v2ray_has_stats : bool).

Lemma create_section_spec name kind tags : forall i created,
  create_section create name kind i tags = Ok created ->
  created = imap (fun j t => tag_of (i + j) t) tags /\ Forall (fun t => create kind t = Ok tt) created.
Proof.
  induction tags as [|t tags IH]; intros i created; cbn [create_section]; [by intros [= <-]|].
  destruct (create kind (tag_of i t)) as [[]|e] eqn:E; [|done].
  unfold mbind, result_bind. destruct (create_section create name kind (S i) tags) as [l|e] eqn:Er; [|done].
  intros [= <-]. apply IH in Er as [-> Hall]. split.
  - cbn. f_equal; [by rewrite Nat.add_0_r|]. apply imap_ext. intros j x _. cbn. by rewrite Nat.add_succ_r.
  - by constructor.
Qed.

(** The results of a sequence that came to an end. *)
Ltac open_results := repeat match goal with
  | H : mbind _ ?r = Ok _ |- _ =>
      let E := fresh "E" in destruct r as [?|?] eqn:E; [|discriminate H]; cbn [mbind result_bind] in H
  | H : Ok _ = Ok _ |- _ => injection H as <-
  end.

(** A config that can be built gives every section its entries, in order and with
    their tags, an entry without one being named by its index; each of them was created;
    and the network namespace manager is among the internal services, the cache file
    exactly when it is enabled or a platform log is given. *)
Theorem New_creates_every_entry o ctx p :
  New TypeAPI CertificateStoreSystem IsAndroid construct create v2ray_has_stats o ctx = Ok p ->
  b_dns p = imap tag_of (o_dns o) /\ b_endpoints p = imap tag_of (o_endpoints o) /\
  b_inbounds p = imap tag_of (o_inbounds o) /\ b_services p = imap tag_of (snd <$> o_services o) /\
  b_outbounds p = imap tag_of (o_outbounds o) /\ b_providers p = imap tag_of (o_providers o) /\
  Forall (fun t => create "outbound" t = Ok tt) (b_outbounds p) /\
  Forall (fun t => create "inbound" t = Ok tt) (b_inbounds p) /\
  ("netns" ∈ b_internal p) /\
  ("cache-file" ∈ b_internal p <-> needCacheFile o = true).
Proof.
  unfold New, new_sections, new_dns. intros H. open_results. cbn [b_dns b_endpoints b_inbounds b_services b_outbounds b_providers b_internal].
  repeat match goal with H : create_section _ _ _ _ _ = Ok _ |- _ => apply create_section_spec in H as [? ?] end.
  split_and!; try done.
  - unfold internal_services. rewrite !elem_of_app, !elem_of_cons. tauto.
  - unfold internal_services. rewrite !elem_of_app. destruct (needCertificateStore _ _ _), (needClashAPI o || _ || _), (needCacheFile o),
      (needClashAPI o), (needV2RayAPI o && _), (o_ntp o); cbn;
      rewrite ?elem_of_cons, ?elem_of_nil; naive_solver.
Qed.
End NewSpec.

(** ** Concrete boxes *)

Module Sample.
Definition start_part (st : stage) (c : component) : result unit :=
  match st, c with StateStart, Inbound => Err "address already in use" | _, _ => Ok tt end.
Definition close_part (c : component) : outcome unit :=
  match c with Router => Fails "busy" | _ => Returns tt end.
Definition panicking (c : component) : outcome unit :=
  match c with Router => Panics "nil map" | _ => Returns tt end.
Definition options : Options :=
  MkOptions (MkExperimental true (Some "127.0.0.1:9090") None) false [] (MkCertificateOptions "" [] [] [])
    None ["dns-remote"; ""] [] ["tun-in"] ["proxy"; ""] [] false.
Definition ctx : registries :=
  Context (MkRegistries None None None None None None None None None None None None)
    "in" "out" "ep" "dns" "svc" "cert".
End Sample.

Lemma sample_no_panic c v : Sample.close_part c <> Panics v.
Proof. by destruct c. Qed.



Lemma start_stages_witness :
  stages_of ["netns"; "cache-file"] (Internal "cache-file") =
  [StateInitialize; StateStart; StatePostStart; StateStarted].
Proof.
  apply (start_stages ["netns"; "cache-file"] (Internal "cache-file")).
  - apply NoDup_cons; split; [set_solver | apply NoDup_singleton].
  - apply elem_of_app. right. right. left.
Defined.

Lemma New_creates_every_entry_witness : exists p,
  New "api" "system" false (fun _ => Ok tt) (fun _ _ => Ok tt) false Sample.options Sample.ctx = Ok p /\
  b_outbounds p = ["proxy"; "1"] /\ b_internal p = ["netns"; "traffic"; "clash-mode"; "cache-file"; "clash-api"].
Proof.
  eexists. split; [vm_compute; reflexivity|].
  pose proof (New_creates_every_entry "api" "system" false (fun _ => Ok tt) (fun _ _ => Ok tt) false
    Sample.options Sample.ctx _ eq_refl) as (_ & _ & _ & _ & H & _).
  split; [exact H | reflexivity].
Defined.

(** A failed start whose close panics is reported as a success: the deferred [recover] of
    [Start] leaves the unnamed result nil. *)
Theorem failed_start_returns_nil :
  exists b, Start ["netns"] Sample.start_part Sample.panicking (MkBox [] false) = (Returns tt, b) /\
  EStart StatePostStart Outbound ∉ bx_trace b.
Proof. eexists. split; [vm_compute; reflexivity|]. vm_compute. intros H. repeat (apply elem_of_cons in H as [H|H]; [done|]). by apply elem_of_nil in H. Qed.
