(* ===== verification/WinIpcfg.v ===== *)
(** * Windows interface configuration: [internal/winipcfg]

    Socket addresses as the bytes the IP helper library reads ([types.go]), the address
    and route tables of an interface and its DNS servers ([luid.go], [netsh.go]). The
    library's calls are parameters; machines are little-endian, as every Windows one. *)

From S2P Require Export Prelude GoStr GoNet.
Local Open Scope string_scope.
Open Scope Z_scope.

(** ** [RawSockaddrInet] *)

(** Winsock's values. *)
Definition AF_UNSPEC : Z := 0.
Definition AF_INET : Z := 2.
Definition AF_INET6 : Z := 23.

(** The union: the family, and the 26 bytes that follow it. *)
Record RawSockaddrInet := MkSockaddr { sa_family : Z; sa_data : list Z }.

Definition zero_sockaddr : RawSockaddrInet := MkSockaddr 0 (replicate 26 0).

(** The two bytes of a 16-bit integer in memory, read in network order. *)
Definition ntohs (i : Z) : Z := of_be_bytes 0 (reverse (be_bytes 2 i)).
Definition htons (i : Z) : Z := of_be_bytes 0 (reverse (be_bytes 2 i)).

(** [ParseUint(zone, 10, 32)], 0 when it fails. *)
Definition scope_of (zone : string) : Z :=
  if String.eqb zone EmptyString then 0 else default 0 (parse_uint 32 zone).

(** [SetAddrPort]: [RawSockaddrInet4] overlays 14 bytes of the data (port, address, eight
    zero bytes), [RawSockaddrInet6] all of it (port, flow info, address, scope). *)
Definition SetAddrPort (a : Addr) (port : Z) (sa : RawSockaddrInet) : result RawSockaddrInet :=
  match a with
  | Addr4 b =>
      Ok (MkSockaddr AF_INET
            (be_bytes 2 port ++ be_bytes 4 b ++ replicate 8 0 ++ drop 14 (sa_data sa))%list)
  | Addr6 b zone =>
      Ok (MkSockaddr AF_INET6
            (be_bytes 2 port ++ replicate 4 0 ++ be_bytes 16 b ++ reverse (be_bytes 4 (scope_of zone)))%list)
  | NoAddr => Err "The parameter is incorrect."
  end.

Definition SetAddr (a : Addr) (sa : RawSockaddrInet) : result RawSockaddrInet := SetAddrPort a 0 sa.

Definition slice (from n : nat) (l : list Z) : list Z := take n (drop from l).

(** The scope identifier is a native, little-endian integer. *)
Definition sa_scope (sa : RawSockaddrInet) : Z := of_be_bytes 0 (reverse (slice 22 4 (sa_data sa))).

Definition sockaddr_Addr (sa : RawSockaddrInet) : Addr :=
  if sa_family sa =? AF_INET then Addr4 (of_be_bytes 0 (slice 2 4 (sa_data sa)))
  else if sa_family sa =? AF_INET6 then
    Addr6 (of_be_bytes 0 (slice 6 16 (sa_data sa)))
      (if sa_scope sa =? 0 then EmptyString else itoa (sa_scope sa))
  else NoAddr.

Definition Port (sa : RawSockaddrInet) : Z :=
  if (sa_family sa =? AF_INET) || (sa_family sa =? AF_INET6) then of_be_bytes 0 (slice 0 2 (sa_data sa))
  else 0.

Definition AddrPort (sa : RawSockaddrInet) : Addr * Z := (sockaddr_Addr sa, Port sa).

(** ** [IPAddressPrefix] *)

Record IPAddressPrefix := MkIPAddressPrefix { RawPrefix : RawSockaddrInet; PrefixLength : Z }.

Definition SetPrefix (p : Prefix) (x : IPAddressPrefix) : result IPAddressPrefix :=
  raw ← SetAddr (p_addr p) (RawPrefix x);
  Ok (MkIPAddressPrefix raw (uint8 (p_bits p))).

(** [PrefixFrom] of the address without its zone. *)
Definition prefix_of (x : IPAddressPrefix) : option Prefix :=
  match sockaddr_Addr (RawPrefix x) with
  | NoAddr => None
  | a => Some (MkPrefix (WithZone a EmptyString) (PrefixLength x))
  end.

(** ** Lemmas on the bytes *)

Lemma length_be_bytes n z : length (be_bytes n z) = n.
Proof. revert z. induction n as [|n IH]; intros z; cbn [be_bytes]; [done|]. rewrite length_app, IH. cbn. lia. Qed.

Lemma of_be_bytes_0 n z : 0 <= z < 256 ^ Z.of_nat n -> of_be_bytes 0 (be_bytes n z) = z.
Proof. intros Hz. rewrite of_be_bytes_be by done. lia. Qed.

Lemma slice_app k n l1 l2 l3 :
  length l1 = k -> length l2 = n -> slice k n (l1 ++ l2 ++ l3) = l2.
Proof. intros <- <-. unfold slice. rewrite drop_app_length. apply take_app_length. Qed.

Lemma slice_0 n l1 l2 : length l1 = n -> slice 0 n (l1 ++ l2) = l1.
Proof. intros <-. apply take_app_length. Qed.

Definition addr_ok (a : Addr) : Prop :=
  match a with
  | NoAddr => False
  | Addr4 b => 0 <= b < 2 ^ 32
  | Addr6 b _ => 0 <= b < 2 ^ 128
  end.

(** A zone that is not a number, or is zero, does not survive. *)
Definition numeric_zone (a : Addr) : Addr :=
  match a with
  | Addr6 b zone => Addr6 b (if scope_of zone =? 0 then EmptyString else itoa (scope_of zone))
  | _ => a
  end.

Lemma scope_range zone : 0 <= scope_of zone < 2 ^ 32.
Proof.
  unfold scope_of. destruct (String.eqb zone EmptyString); [lia|].
  destruct (parse_uint 32 zone) eqn:E; cbn; [by apply parse_uint_range in E | lia].
Qed.

(** Reading a socket address back gives what was set, whatever the structure held
    before: the same port and address, an IPv6 zone as the number it denotes; the
    structure keeps its size; and an address that is neither IPv4 nor IPv6 is refused. *)
Theorem SetAddrPort_roundtrip a port sa :
  0 <= port < 2 ^ 16 -> length (sa_data sa) = 26%nat ->
  match SetAddrPort a port sa with
  | Ok sa' => length (sa_data sa') = 26%nat /\ (addr_ok a -> AddrPort sa' = (numeric_zone a, port))
  | Err _ => a = NoAddr
  end.
Proof.
  intros Hport Hlen. destruct a as [|b|b zone]; cbn [SetAddrPort]; [done| |].
  - split; [cbn [sa_data]; rewrite !length_app, !length_be_bytes, length_replicate, length_drop; lia|].
    intros Hb. unfold AddrPort, sockaddr_Addr, Port. cbn [sa_family sa_data numeric_zone].
    change (AF_INET =? AF_INET) with true. cbn [orb]. f_equal.
    + f_equal. rewrite slice_app by apply length_be_bytes. apply of_be_bytes_0. exact Hb.
    + rewrite slice_0 by apply length_be_bytes.
      apply of_be_bytes_0. exact Hport.
  - pose proof (scope_range zone) as Hs. cbn [sa_data sa_family].
    split; [rewrite !length_app, !length_be_bytes, length_replicate, length_reverse, length_be_bytes; lia|].
    intros Hb. unfold AddrPort, sockaddr_Addr, Port, sa_scope. cbn [sa_family sa_data numeric_zone].
    change (AF_INET6 =? AF_INET) with false. change (AF_INET6 =? AF_INET6) with true. cbn [orb].
    assert (of_be_bytes 0 (reverse (slice 22 4 (be_bytes 2 port ++ replicate 4 0 ++ be_bytes 16 b ++
              reverse (be_bytes 4 (scope_of zone))))) = scope_of zone) as ->.
    { rewrite !app_assoc.
      rewrite <- (app_nil_r (reverse (be_bytes 4 (scope_of zone)))) at 1.
      rewrite slice_app; [| by rewrite !length_app, !length_be_bytes, length_replicate |
        by rewrite length_reverse, length_be_bytes].
      rewrite reverse_involutive. apply of_be_bytes_0. exact Hs. }
    f_equal.
    + f_equal. rewrite app_assoc, slice_app by
        (rewrite ?length_app, ?length_be_bytes, ?length_replicate; done).
      apply of_be_bytes_0. exact Hb.
    + rewrite slice_0 by apply length_be_bytes.
      apply of_be_bytes_0. exact Hport.
Qed.

Lemma htons_ntohs x : 0 <= x < 2 ^ 16 -> ntohs (htons x) = x.
Proof.
  intros Hx. unfold ntohs, htons. cbn [be_bytes reverse rev_append app of_be_bytes].
  rewrite !Z.mul_0_r, !Z.add_0_l. 
  pose proof (Z.div_mod x 256). pose proof (Z.mod_pos_bound x 256).
  assert (x / 256 mod 256 = x / 256) as -> by (apply Z.mod_small; split; [apply Z.div_pos; lia | apply Z.div_lt_upper_bound; lia]).
  assert (0 <= x / 256 < 256) by (split; [apply Z.div_pos; lia | apply Z.div_lt_upper_bound; lia]).
  rewrite (Z.add_comm (256 * (x mod 256))), (Z.mul_comm 256 (x mod 256)).
  rewrite Z.mod_add, Z.div_add by lia. rewrite (Z.mod_small (x / 256)), (Z.div_small (x / 256)) by lia.
  rewrite Z.add_0_l, Z.mod_mod by lia. lia.
Qed.

(** The comment on [SetAddrPort] says every other member is set to zero; setting an IPv4
    address leaves the last twelve bytes of the union as they were. *)
Example SetAddrPort_keeps_bytes :
  SetAddrPort (Addr4 1) 0 (MkSockaddr AF_INET6 (replicate 26 7)) =
  Ok (MkSockaddr AF_INET (replicate 5 0 ++ [1] ++ replicate 8 0 ++ replicate 12 7)%list).
Proof. reflexivity. Qed.

(** ** The tables of an interface: [luid.go]

    The unicast addresses and the routes of the machine are two tables of the same kind:
    rows that belong to an interface, found by key, created and deleted one at a time. *)

Record UnicastRow := MkUnicastRow {
  ur_luid : Z;
  ur_Address : RawSockaddrInet;
  ur_OnLinkPrefixLength : Z;
  ur_ValidLifetime : Z;
  ur_PreferredLifetime : Z;
  ur_DadState : Z
}.

Record ForwardRow := MkForwardRow {
  fr_luid : Z;
  fr_Destination : IPAddressPrefix;
  fr_NextHop : RawSockaddrInet;
  fr_ValidLifetime : Z;
  fr_PreferredLifetime : Z;
  fr_Metric : Z
}.

(** [DadStatePreferred], the last of its enumeration. *)
Definition DadStatePreferred : Z := 4.
Definition infinite_lifetime : Z := 4294967295.

Record RouteData := MkRouteData { Destination : Prefix; NextHop : Addr; Metric : Z }.

Section Table.
  Context {Sys Row : Type} (delete_row : Row -> prog Sys unit).

(** The loop of the flush functions: it goes on after a failure, and remembers the last. *)
Fixpoint delete_rows (rows : list Row) (err : option string) (s : Sys) : option string * Sys :=
  match rows with
  | [] => (err, s)
  | r :: rows =>
      match delete_row r s with
      | (Fails e, s') => delete_rows rows (Some e) s'
      | (_, s') => delete_rows rows err s'
      end
  end.
End Table.

Section Luid.
  Context {Sys : Type} (luid : Z).
  (** The IP helper library: the rows its initialisers fill in, and its calls. *)
  Context (initializeUnicast : UnicastRow) (initializeForward : ForwardRow).
  Context (getUnicastTable : Z -> Sys -> result (list UnicastRow))
          (getForwardTable : Z -> Sys -> result (list ForwardRow)).
  Context (createUnicast deleteUnicast : UnicastRow -> prog Sys unit)
          (createForward deleteForward : ForwardRow -> prog Sys unit)
          (getForwardEntry : ForwardRow -> Sys -> result ForwardRow).

Definition unicast_row (a : Prefix) (valid preferred dad : Z) : result UnicastRow :=
  addr ← SetAddr (p_addr a) (ur_Address initializeUnicast);
  Ok (MkUnicastRow luid addr (uint8 (p_bits a)) valid preferred dad).

Definition AddIPAddress (a : Prefix) : prog Sys unit :=
  row ← lift_result (unicast_row a infinite_lifetime infinite_lifetime DadStatePreferred);
  createUnicast row.

Definition AddIPAddresses (addresses : list Prefix) : prog Sys unit := for_each AddIPAddress addresses.

(** [FlushIPAddresses] ignores the rows that cannot be deleted. *)
Definition FlushIPAddresses (family : Z) : prog Sys unit := fun s =>
  match getUnicastTable family s with
  | Err e => (Fails e, s)
  | Ok t =>
      let '(_, s) := delete_rows deleteUnicast (filter (fun r => ur_luid r = luid) t) None s in
      (Returns tt, s)
  end.

Definition SetIPAddresses (addresses : list Prefix) : prog Sys unit :=
  _ ← FlushIPAddresses AF_UNSPEC; AddIPAddresses addresses.

(** The filter the [ForFamily] functions apply to what they add. *)
Definition wrong_family (family : Z) (a : Addr) : bool :=
  (negb (Is4 a) && (family =? AF_INET)) || (negb (Is6 a) && (family =? AF_INET6)).

Definition SetIPAddressesForFamily (family : Z) (addresses : list Prefix) : prog Sys unit :=
  _ ← FlushIPAddresses family;
  for_each (fun a => when (negb (wrong_family family (p_addr a))) (AddIPAddress a)) addresses.

Definition DeleteIPAddress (a : Prefix) : prog Sys unit :=
  row ← lift_result (unicast_row a (ur_ValidLifetime initializeUnicast)
                       (ur_PreferredLifetime initializeUnicast) (ur_DadState initializeUnicast));
  deleteUnicast row.

Definition forward_row (destination : Prefix) (nextHop : Addr) (valid preferred metric : Z)
    : result ForwardRow :=
  dst ← SetPrefix destination (fr_Destination initializeForward);
  hop ← SetAddr nextHop (fr_NextHop initializeForward);
  Ok (MkForwardRow luid dst hop valid preferred metric).

Definition Route (destination : Prefix) (nextHop : Addr) (s : Sys) : result ForwardRow :=
  row ← forward_row destination nextHop infinite_lifetime infinite_lifetime (fr_Metric initializeForward);
  getForwardEntry row s.

Definition AddRoute (destination : Prefix) (nextHop : Addr) (metric : Z) : prog Sys unit :=
  row ← lift_result (forward_row destination nextHop (fr_ValidLifetime initializeForward)
                       (fr_PreferredLifetime initializeForward) metric);
  createForward row.

Definition AddRoutes (routes : list RouteData) : prog Sys unit :=
  for_each (fun rd => AddRoute (Destination rd) (NextHop rd) (Metric rd)) routes.

Definition FlushRoutes (family : Z) : prog Sys unit := fun s =>
  match getForwardTable family s with
  | Err e => (Fails e, s)
  | Ok t =>
      match delete_rows deleteForward (filter (fun r => fr_luid r = luid) t) None s with
      | (Some e, s) => (Fails e, s)
      | (None, s) => (Returns tt, s)
      end
  end.

Definition SetRoutes (routes : list RouteData) : prog Sys unit :=
  _ ← FlushRoutes AF_UNSPEC; AddRoutes routes.

Definition SetRoutesForFamily (family : Z) (routes : list RouteData) : prog Sys unit :=
  _ ← FlushRoutes family;
  for_each (fun rd =>
    when (negb (wrong_family family (p_addr (Destination rd))))
      (AddRoute (Destination rd) (NextHop rd) (Metric rd))) routes.

Definition DeleteRoute (destination : Prefix) (nextHop : Addr) : prog Sys unit := fun s =>
  match forward_row destination nextHop (fr_ValidLifetime initializeForward)
          (fr_PreferredLifetime initializeForward) (fr_Metric initializeForward) with
  | Err e => (Fails e, s)
  | Ok row =>
      match getForwardEntry row s with
      | Err e => (Fails e, s)
      | Ok row => deleteForward row s
      end
  end.
End Luid.

(** ** What the calls promise, and what the interface functions make of it *)

Section TableLaws.
  Context {Sys Row Key : Type} `{EqDecision Key}.
  Context (rows : Sys -> list Row) (key : Row -> Key) (locked : Row -> option string).
  Context (delete_row : Row -> prog Sys unit).

(** Deleting a row of the table removes the entry with its key, unless the system holds
    on to it; then it says why and changes nothing. *)
Definition delete_law : Prop := forall r s, r ∈ rows s ->
  match locked r with
  | Some e => delete_row r s = (Fails e, s)
  | None => exists s', delete_row r s = (Returns tt, s') /\
      rows s' = filter (fun x => key x <> key r) (rows s)
  end.

Definition last_error (err : option string) (l : list Row) : option string :=
  match last (omap locked l) with Some e => Some e | None => err end.

Definition gone (l : list Row) (x : Row) : Prop := exists r, r ∈ l /\ locked r = None /\ key r = key x.

Lemma NoDup_fmap_filter (P : Row -> Prop) `{forall x, Decision (P x)} (t : list Row) :
  NoDup (key <$> t) -> NoDup (key <$> filter P t).
Proof.
  induction t as [|x t IH]; [done|]. rewrite fmap_cons, NoDup_cons. intros [Hx Hnd].
  rewrite filter_cons. case_decide; [|by apply IH]. rewrite fmap_cons, NoDup_cons.
  split; [|by apply IH]. intros (y & Hy & [_ Hin]%list_elem_of_filter)%list_elem_of_fmap.
  apply Hx. rewrite Hy. by apply list_elem_of_fmap_2.
Qed.

Lemma key_inj (t : list Row) x y : NoDup (key <$> t) -> x ∈ t -> y ∈ t -> key x = key y -> x = y.
Proof.
  induction t as [|z t IH]; [set_solver|]. rewrite fmap_cons, NoDup_cons. intros [Hz Hnd].
  rewrite !elem_of_cons. intros [->|Hx] [->|Hy] Hk; [done | | |by apply IH].
  - exfalso. apply Hz. rewrite Hk. by apply list_elem_of_fmap_2.
  - exfalso. apply Hz. rewrite <- Hk. by apply list_elem_of_fmap_2.
Qed.

Lemma delete_rows_spec l : forall err s,
  delete_law -> NoDup (key <$> rows s) -> NoDup l -> (forall r, r ∈ l -> r ∈ rows s) ->
  exists s', delete_rows delete_row l err s = (last_error err l, s') /\
    NoDup (key <$> rows s') /\ forall x, x ∈ rows s' <-> x ∈ rows s /\ ~ gone l x.
Proof.
  induction l as [|r l IH]; intros err s Hlaw Hnd Hl Hin; cbn [delete_rows].
  { exists s. split; [done|]. split; [done|]. intros x. split; [|tauto]. intros Hx. split; [done|].
    intros (r & Hr & _). set_solver. }
  apply NoDup_cons in Hl as [Hr Hl].
  pose proof (Hlaw r s (Hin r ltac:(by left))) as Hdel. destruct (locked r) as [e|] eqn:Hlock.
  - rewrite Hdel. destruct (IH (Some e) s Hlaw Hnd Hl ltac:(intros x Hx; apply Hin; by right))
      as (s' & -> & Hnd' & Hs'). exists s'. split_and!; [|done|].
    + unfold last_error. cbn [omap list_omap]. rewrite Hlock.
      destruct (omap locked l) as [|e' es] eqn:Ho; cbn; [done|].
      destruct (last (e' :: es)) eqn:El; [done|]. by apply last_None in El.
    + intros x. rewrite Hs'. unfold gone. split; intros [? Hg]; (split; [done|]);
        intros (r' & Hr' & Hl' & Hk); apply Hg.
      * apply elem_of_cons in Hr' as [->|Hr']; [congruence|]. by exists r'.
      * exists r'. split; [by right | done].
  - destruct Hdel as (s1 & -> & Hrows).
    assert (NoDup (key <$> rows s1)) as Hnd1.
    { rewrite Hrows. by apply NoDup_fmap_filter. }
    destruct (IH err s1 Hlaw Hnd1 Hl) as (s' & -> & Hnd' & Hs').
    { intros x Hx. rewrite Hrows, list_elem_of_filter. split; [|apply Hin; by right].
      intros Hk. apply Hr. assert (x = r) as <-; [|done].
      eapply key_inj; [exact Hnd | apply Hin; by right | apply Hin; by left | done]. }
    exists s'. split_and!; [|done|].
    + unfold last_error. cbn [omap list_omap]. by rewrite Hlock.
    + intros x. rewrite Hs', Hrows, list_elem_of_filter. unfold gone. split.
      * intros [[Hk Hx] Hg]. split; [done|]. intros (r' & Hr' & Hl' & Hk').
        apply elem_of_cons in Hr' as [->|Hr']; [congruence|]. apply Hg. by exists r'.
      * intros [Hx Hg]. split_and!; [|done|].
        -- intros Hk. apply Hg. exists r. split; [by left | done].
        -- intros (r' & Hr' & Hl' & Hk'). apply Hg. exists r'. split; [by right | done].
Qed.
End TableLaws.

(** ** An interface's addresses and routes after a change *)

Section Exact.
  Context {Sys : Type} (luid : Z).
  Context (unicast : Sys -> list UnicastRow) (forward : Sys -> list ForwardRow).
  Context (initializeUnicast : UnicastRow) (initializeForward : ForwardRow).
  Context (getUnicastTable : Z -> Sys -> result (list UnicastRow))
          (getForwardTable : Z -> Sys -> result (list ForwardRow)).
  Context (createUnicast deleteUnicast : UnicastRow -> prog Sys unit)
          (createForward deleteForward : ForwardRow -> prog Sys unit).

(** The entry a row is: an address of an interface, or a destination through a hop. *)
Definition unicast_key (r : UnicastRow) : Z * Addr := (ur_luid r, sockaddr_Addr (ur_Address r)).
Definition forward_key (r : ForwardRow) : Z * option Prefix * Addr :=
  (fr_luid r, prefix_of (fr_Destination r), sockaddr_Addr (fr_NextHop r)).

Definition in_family (family : Z) (sa : RawSockaddrInet) : bool :=
  (family =? AF_UNSPEC) || (sa_family sa =? family).

  (** What the IP helper library documents: a table query returns the rows of the family,
      a created row is the table's last, deletions as in [delete_law]. *)
  Context (unicast_locked : UnicastRow -> option string) (forward_locked : ForwardRow -> option string).
  Context (get_unicast : forall family s,
    getUnicastTable family s = Ok (filter (fun r => in_family family (ur_Address r) = true) (unicast s))).
  Context (get_forward : forall family s, getForwardTable family s =
    Ok (filter (fun r => in_family family (RawPrefix (fr_Destination r)) = true) (forward s))).
  Context (create_unicast : forall r s s', createUnicast r s = (Returns tt, s') ->
    unicast s' = (unicast s ++ [r])%list).
  Context (create_forward : forall r s s', createForward r s = (Returns tt, s') ->
    forward s' = (forward s ++ [r])%list).
  Context (delete_unicast : delete_law unicast unicast_key unicast_locked deleteUnicast).
  Context (delete_forward : delete_law forward forward_key forward_locked deleteForward).

Lemma gone_iff {Row Key} (key : Row -> Key) locked (t l : list Row) x :
  NoDup (key <$> t) -> (forall r, r ∈ l -> r ∈ t) -> x ∈ t ->
  gone key locked l x <-> x ∈ l /\ locked x = None.
Proof.
  intros Hnd Hsub Hx. unfold gone. split.
  - intros (r & Hr & Hl & Hk). assert (r = x) as <-; [|done].
    eapply key_inj; eauto.
  - intros [Hl Hlock]. by exists x.
Qed.

Lemma adds_exact {A Row} (rows : Sys -> list Row) (mk : A -> option Row) (add : A -> prog Sys unit) l :
  (forall a s s', add a s = (Returns tt, s') -> rows s' = (rows s ++ option_list (mk a))%list) ->
  forall s s', for_each add l s = (Returns tt, s') -> rows s' = (rows s ++ omap mk l)%list.
Proof.
  intros Hadd. induction l as [|a l IH]; intros s s'; cbn [for_each].
  - intros [= <-]. by rewrite app_nil_r.
  - intros (u & s1 & H1 & H2)%bind_returns. destruct u. apply Hadd in H1. apply IH in H2.
    rewrite H2, H1, <- app_assoc. f_equal. cbn. by destruct (mk a).
Qed.

Definition new_unicast (family : Z) (a : Prefix) : option UnicastRow :=
  if wrong_family family (p_addr a) then None
  else match unicast_row luid initializeUnicast a infinite_lifetime infinite_lifetime DadStatePreferred with
       | Ok r => Some r | Err _ => None end.

Definition new_forward (family : Z) (rd : RouteData) : option ForwardRow :=
  if wrong_family family (p_addr (Destination rd)) then None
  else match forward_row luid initializeForward (Destination rd) (NextHop rd)
               (fr_ValidLifetime initializeForward) (fr_PreferredLifetime initializeForward) (Metric rd) with
       | Ok r => Some r | Err _ => None end.

(** Setting the addresses of an interface for a family succeeds only with the table
    exact: the addresses of other interfaces and families are untouched, the interface's
    own of that family are gone except those the system holds on to, and the given ones
    of the family are there, in order. *)
Theorem SetIPAddressesForFamily_exact family addresses s s' :
  NoDup (unicast_key <$> unicast s) ->
  SetIPAddressesForFamily luid initializeUnicast getUnicastTable createUnicast deleteUnicast
    family addresses s = (Returns tt, s') ->
  exists kept, unicast s' = (kept ++ omap (new_unicast family) addresses)%list /\
    forall x, x ∈ kept <-> x ∈ unicast s /\
      ~ (ur_luid x = luid /\ in_family family (ur_Address x) = true /\ unicast_locked x = None).
Proof.
  intros Hnd. unfold SetIPAddressesForFamily. intros (u & s1 & Hflush & Hadd)%bind_returns. destruct u.
  unfold FlushIPAddresses in Hflush. rewrite get_unicast in Hflush.
  set (l := filter (fun r => ur_luid r = luid) _) in Hflush.
  assert (forall r, r ∈ l <-> r ∈ unicast s /\ ur_luid r = luid /\ in_family family (ur_Address r) = true) as Hl.
  { intros r. unfold l. rewrite !list_elem_of_filter. tauto. }
  destruct (delete_rows_spec unicast unicast_key unicast_locked deleteUnicast l None s delete_unicast Hnd)
    as (s2 & Hdel & _ & Hkept).
  { apply NoDup_filter, NoDup_filter. by apply NoDup_fmap_1 in Hnd. }
  { by intros r [? _]%Hl. }
  rewrite Hdel in Hflush. injection Hflush as <-.
  exists (unicast s2). split.
  - eapply adds_exact; [|exact Hadd]. intros a t t' Ha. unfold new_unicast.
    destruct (wrong_family family (p_addr a)) eqn:Hw; cbn beta in Ha; rewrite Hw in Ha; cbn in Ha.
    + unfold when in Ha. injection Ha as <-. by rewrite app_nil_r.
    + unfold AddIPAddress in Ha. destruct (unicast_row _ _ a _ _ _) as [r|e]; [|done].
      by apply create_unicast in Ha.
  - intros x. rewrite Hkept. split; intros [Hx Hg]; (split; [done|]).
    + intros (H1 & H2 & H3). apply Hg. apply (gone_iff unicast_key unicast_locked (unicast s));
        [done | by intros r [? _]%Hl | done |]. split; [by apply Hl | done].
    + intros H. apply (gone_iff unicast_key unicast_locked (unicast s)) in H as [[_ H]%Hl Hlock];
        [tauto | done | by intros r [? _]%Hl | done].
Qed.

(** Setting the routes of an interface for a family succeeds only when all its routes
    of the family could be deleted, and then with the table exact; when one could not be,
    the others are deleted all the same, no route is added and the last error is
    returned. *)
Theorem SetRoutesForFamily_exact family routes s :
  NoDup (forward_key <$> forward s) ->
  let mine := filter (fun r => fr_luid r = luid)
    (filter (fun r => in_family family (RawPrefix (fr_Destination r)) = true) (forward s)) in
  let '(r, s') := SetRoutesForFamily luid initializeForward getForwardTable createForward deleteForward
                    family routes s in
  match last (omap forward_locked mine) with
  | Some e => r = Fails e /\
      forall x, x ∈ forward s' <-> x ∈ forward s /\ ~ (x ∈ mine /\ forward_locked x = None)
  | None => r = Returns tt ->
      exists kept, forward s' = (kept ++ omap (new_forward family) routes)%list /\
        forall x, x ∈ kept <-> x ∈ forward s /\ x ∉ mine
  end.
Proof.
  intros Hnd mine.
  assert (forall r, r ∈ mine -> r ∈ forward s) as Hsub.
  { intros r. unfold mine. rewrite !list_elem_of_filter. tauto. }
  destruct (delete_rows_spec forward forward_key forward_locked deleteForward mine None s delete_forward Hnd)
    as (s2 & Hdel & _ & Hkept); [by apply NoDup_filter, NoDup_filter; apply NoDup_fmap_1 in Hnd | done |].
  assert (forall x, x ∈ forward s2 <-> x ∈ forward s /\ ~ (x ∈ mine /\ forward_locked x = None)) as Hx.
  { intros x. rewrite Hkept. split; intros [Hin Hg]; (split; [done|]); intros H; apply Hg;
      by apply (gone_iff forward_key forward_locked (forward s)). }
  destruct (SetRoutesForFamily _ _ _ _ _ _ _ s) as [r s'] eqn:HS.
  unfold SetRoutesForFamily, FlushRoutes, mbind, prog_bind in HS. rewrite get_forward in HS.
  fold mine in HS. rewrite Hdel in HS. unfold last_error in HS.
  destruct (last (omap forward_locked mine)) as [e|] eqn:Hlast.
  - injection HS as <- <-. done.
  - intros ->. exists (forward s2). split.
    + eapply adds_exact; [|exact HS]. intros rd t t' Ha. unfold new_forward.
      destruct (wrong_family family (p_addr (Destination rd))) eqn:Hw; cbn beta in Ha; rewrite Hw in Ha; cbn in Ha.
      * unfold when in Ha. injection Ha as <-. by rewrite app_nil_r.
      * unfold AddRoute in Ha. destruct (forward_row _ _ _ _ _ _ _) as [row|e]; [|done].
        by apply create_forward in Ha.
    + intros x. rewrite Hx. apply last_None in Hlast.
      split; intros [Hin Hno]; (split; [done|]); intros H; apply Hno.
      * split; [done|]. destruct (forward_locked x) as [e|] eqn:He; [|done].
        assert (e ∈ omap forward_locked mine) as Hin' by (apply list_elem_of_omap; eauto).
        rewrite Hlast in Hin'. by apply elem_of_nil in Hin'.
      * by destruct H.
Qed.
End Exact.

(** ** Interface rows and DNS servers *)

(** The patch of [MibIPInterfaceRow.get] to the site prefix length the system reports. *)
Definition patch_site_prefix (family len : Z) : Z :=
  if family =? AF_INET then (if 32 <? len then 0 else len)
  else if family =? AF_INET6 then (if 128 <? len then 128 else len)
  else len.

Lemma patch_site_prefix_bounds family len :
  0 <= len -> (family = AF_INET -> 0 <= patch_site_prefix family len <= 32) /\
  (family = AF_INET6 -> 0 <= patch_site_prefix family len <= 128).
Proof.
  intros Hl. unfold patch_site_prefix, AF_INET, AF_INET6.
  split; intros ->; cbn; case_match; lia.
Qed.

(** What the adapter query answers: done, a larger size, or another error. *)
Inductive gaa_answer := GaaDone | GaaOverflow (size : Z) | GaaError (e : string).

(** The loop of [GetAdaptersAddresses]: the buffer grows as long as the call asks for a
    larger one; the size is a uint32. *)
Fixpoint adapters_loop (api : Z -> gaa_answer) (fuel : nat) (size : Z) : option (result Z) :=
  match fuel with
  | O => None
  | S fuel =>
      match api size with
      | GaaDone => Some (Ok size)
      | GaaError e => Some (Err e)
      | GaaOverflow size' =>
          if size' <=? size then Some (Err "ERROR_BUFFER_OVERFLOW") else adapters_loop api fuel size'
      end
  end.

Definition GetAdaptersAddresses (api : Z -> gaa_answer) : option (result Z) :=
  adapters_loop api (Z.to_nat (2 ^ 32 - 15000)) 15000.

Lemma adapters_loop_total api fuel : forall size,
  (forall n size', api n = GaaOverflow size' -> size' < 2 ^ 32) ->
  size < 2 ^ 32 -> 2 ^ 32 - size <= Z.of_nat fuel -> exists r, adapters_loop api fuel size = Some r.
Proof.
  induction fuel as [|fuel IH]; intros size Hapi Hs Hf; [lia|]. cbn [adapters_loop].
  destruct (api size) as [|size'|e] eqn:E; [eauto | | eauto].
  destruct (size' <=? size) eqn:Hle; [eauto|]. apply IH; [done | by eapply Hapi | lia].
Qed.

(** The flags of [DnsInterfaceSettings]. *)
Definition FlagIPv6 : Z := 1.
Definition FlagNameserver : Z := 2.
Definition FlagSearchList : Z := 4.
Definition FlagRegistrationEnabled : Z := 8.

Record DnsInterfaceSettings := MkDnsSettings {
  ds_Flags : Z;
  ds_NameServer : string;
  ds_SearchList : string;
  ds_RegistrationEnabled : Z
}.

(** An error of [SetInterfaceDnsSettings]; older systems do not export the procedure. *)
Inductive dns_error := ProcNotFound | DnsError (e : string).

Section Dns.
  (** The system, which the calls change. *)
  Context {Sys Guid : Type} (luid_GUID : Z -> result Guid) (interface_index : Z -> Z -> result Z).
  Context (SetInterfaceDnsSettings : Guid -> DnsInterfaceSettings -> Sys -> option dns_error * Sys).
  (** [Addr.String] of an IPv6 address, and whether a string can be passed as UTF-16. *)
  Context (addr6_string : Z -> string -> string) (utf16 : string -> result unit).
  (** A run of [netsh] on a script: its output and error; and the local machine's registry. *)
  Context (netsh : string -> Sys -> (string * option string) * Sys).
  Context {Key : Type} (OpenKey : string -> Sys -> result Key) (guid_string : Guid -> string).
  Context (GetStringsValue : Key -> string -> Sys -> result (list string)).
  Context (SetStringValue : Key -> string -> string -> prog Sys unit).
  Context (luid : Z).

Definition addr_string (a : Addr) : string :=
  match a with
  | NoAddr => "invalid IP"
  | Addr4 b => print_addr4 b
  | Addr6 b z => addr6_string b z
  end.

Definition of_family (family : Z) (a : Addr) : bool :=
  (Is4 a && (family =? AF_INET)) || (Is6 a && (family =? AF_INET6)).

Definition crlf : string := String (ascii_of_nat 13) (String (ascii_of_nat 10) EmptyString).
Definition lf : string := String (ascii_of_nat 10) EmptyString.

(** [runNetsh]: a run that prints anything but noise has failed. *)
Definition clean_output (output : string) : string :=
  let s := replace_all output crlf lf in
  let s := replace_all s "netsh>" EmptyString in
  let s := replace_all s "There are no Domain Name Servers (DNS) configured on this computer." EmptyString in
  trim_space s.

Definition runNetsh (cmds : list string) : prog Sys unit := fun s =>
  let '((output, err), s) := netsh (join crlf (cmds ++ ["exit" ++ crlf])) s in
  let cleaned := clean_output output in
  match err with
  | Some e => (Fails ("netsh: " ++ e ++ ": " ++ hash_q cleaned), s)
  | None => if String.eqb cleaned EmptyString then (Returns tt, s) else (Fails ("netsh: " ++ hash_q cleaned), s)
  end.

Definition netsh_flush (family index : Z) : string :=
  "interface ipv" ++ (if family =? AF_INET then "4" else "6") ++ " set dnsservers name=" ++ itoa index
  ++ " source=static address=none validate=no".
Definition netsh_add (family index : Z) (a : Addr) : string :=
  "interface ipv" ++ (if family =? AF_INET then "4" else "6") ++ " add dnsservers name=" ++ itoa index
  ++ " address=" ++ addr_string a ++ " validate=no".

Definition fallback_script (family index : Z) (servers : list Addr) : list string :=
  netsh_flush family index :: (netsh_add family index <$> filter (fun a => of_family family a = true) servers).

Definition fallbackSetDNSForFamily (family : Z) (servers : list Addr) : prog Sys unit :=
  index ← lift_result (interface_index luid family);
  runNetsh (fallback_script family index servers).

Definition with_text {A} (text : string) (r : result A) : result A :=
  match r with Err e => Err (text ++ ": " ++ e) | r => r end.

Definition fallbackSetDNSDomain (domain : string) : prog Sys unit :=
  guid ← lift_result (with_text "Error converting luid to guid" (luid_GUID luid));
  key ← (fun s => lift_result (with_text "Error opening adapter-specific TCP/IP network registry key"
    (OpenKey ("SYSTEM\CurrentControlSet\Services\Tcpip\Parameters\Adapters\" ++ guid_string guid) s)) s);
  paths ← (fun s => lift_result (with_text "Error reading IpConfig registry key"
    (GetStringsValue key "IpConfig" s)) s);
  match paths with
  | [] => throw "No TCP/IP interfaces found on adapter"
  | path :: _ =>
      key ← (fun s => lift_result (with_text "Unable to open TCP/IP network registry key"
        (OpenKey ("SYSTEM\CurrentControlSet\Services\" ++ path) s)) s);
      SetStringValue key "Domain" domain
  end.

Definition fallbackDisableDNSRegistration : prog Sys unit :=
  index ← lift_result (interface_index luid AF_INET);
  runNetsh ["interface ipv6 set dnsservers name=" ++ itoa index ++ " register=none"].

Definition dns_settings (family : Z) (servers : list Addr) (domains : list string) : DnsInterfaceSettings :=
  let flags := Z.lor FlagNameserver FlagSearchList in
  MkDnsSettings (if family =? AF_INET6 then Z.lor flags FlagIPv6 else flags)
    (join "," (addr_string <$> filter (fun a => of_family family a = true) servers)) (join "," domains) 0.

(** A failed call is retried with [netsh] only where the procedure does not exist. *)
Definition with_fallback (g : Guid) (settings : DnsInterfaceSettings) (fallback : prog Sys unit)
  : prog Sys unit := fun s =>
  match SetInterfaceDnsSettings g settings s with
  | (None, s) => (Returns tt, s)
  | (Some (DnsError e), s) => (Fails e, s)
  | (Some ProcNotFound, s) => fallback s
  end.

Definition SetDNS (family : Z) (servers : list Addr) (domains : list string) : prog Sys unit :=
  if negb (family =? AF_INET) && negb (family =? AF_INET6) then throw "ERROR_PROTOCOL_UNREACHABLE"
  else
    let settings := dns_settings family servers domains in
    _ ← lift_result (utf16 (ds_NameServer settings));
    _ ← lift_result (utf16 (ds_SearchList settings));
    g ← lift_result (luid_GUID luid);
    with_fallback g settings
      (_ ← fallbackSetDNSForFamily family servers;
       fallbackSetDNSDomain (match domains with d :: _ => d | [] => EmptyString end)).

Definition FlushDNS (family : Z) : prog Sys unit := SetDNS family [] [].

Definition DisableDNSRegistration : prog Sys unit :=
  g ← lift_result (luid_GUID luid);
  with_fallback g (MkDnsSettings FlagRegistrationEnabled EmptyString EmptyString 0)
    fallbackDisableDNSRegistration.

(** An adapter of [GetAdaptersAddresses]: its DNS servers as bytes, [None] where the
    socket address is of no known family. *)
Record Adapter := MkAdapter { ad_LUID : Z; ad_dns : list (option (list Z)) }.

Definition AddrFromSlice (b : list Z) : option Addr :=
  if decide (length b = 4%nat) then Some (Addr4 (of_be_bytes 0 b))
  else if decide (length b = 16%nat) then Some (Addr6 (of_be_bytes 0 b) EmptyString)
  else None.

Fixpoint dns_addrs (l : list (option (list Z))) : result (list Addr) :=
  match l with
  | [] => Ok []
  | None :: _ => Err "ERROR_INVALID_PARAMETER"
  | Some b :: l => r ← dns_addrs l; Ok (match AddrFromSlice b with Some a => a :: r | None => r end)
  end.

Fixpoint adapter_dns (l : list Adapter) : result (list Addr) :=
  match l with
  | [] => Ok []
  | ad :: l =>
      r1 ← (if ad_LUID ad =? luid then dns_addrs (ad_dns ad) else Ok []);
      r2 ← adapter_dns l; Ok (r1 ++ r2)%list
  end.

(** [DNS], given the adapters. *)
Definition DNS (adapters : Sys -> result (list Adapter)) (s : Sys) : result (list Addr) :=
  l ← adapters s; adapter_dns l.

(** The servers of a family reach the system in order, through the settings where the
    procedure exists and through the script otherwise; those of the other never do. *)
Lemma fallback_matches_settings family index servers :
  (family = AF_INET \/ family = AF_INET6) ->
  length (fallback_script family index servers) =
    S (length (filter (fun a => of_family family a = true) servers)) /\
  forall a, a ∈ servers -> of_family family a = negb (wrong_family family a).
Proof.
  intros Hf. split; [unfold fallback_script; cbn; by rewrite length_fmap|].
  intros a _. unfold of_family, wrong_family, AF_INET, AF_INET6 in *.
  destruct Hf as [-> | ->], a; reflexivity.
Qed.
End Dns.

(** ** A concrete machine *)

Module Sample.
Record sys := MkSys { s_unicast : list UnicastRow; s_forward : list ForwardRow }.

Definition unicast0 : UnicastRow := MkUnicastRow 0 zero_sockaddr 255 0 0 0.
Definition forward0 : ForwardRow := MkForwardRow 0 (MkIPAddressPrefix zero_sockaddr 0) zero_sockaddr 0 0 0.

Definition get_unicast (family : Z) (s : sys) : result (list UnicastRow) :=
  Ok (filter (fun r => in_family family (ur_Address r) = true) (s_unicast s)).
Definition get_forward (family : Z) (s : sys) : result (list ForwardRow) :=
  Ok (filter (fun r => in_family family (RawPrefix (fr_Destination r)) = true) (s_forward s)).
Definition create_unicast (r : UnicastRow) : prog sys unit :=
  modify (fun s => MkSys (s_unicast s ++ [r]) (s_forward s)).
Definition create_forward (r : ForwardRow) : prog sys unit :=
  modify (fun s => MkSys (s_unicast s) (s_forward s ++ [r])).

(** The system holds on to routes of metric 99. *)
Definition locked (r : ForwardRow) : option string := if fr_Metric r =? 99 then Some "in use" else None.
Definition delete_unicast (r : UnicastRow) : prog sys unit :=
  modify (fun s => MkSys (filter (fun x => unicast_key x <> unicast_key r) (s_unicast s)) (s_forward s)).
Definition delete_forward (r : ForwardRow) : prog sys unit := fun s =>
  match locked r with
  | Some e => (Fails e, s)
  | None => (Returns tt, MkSys (s_unicast s) (filter (fun x => forward_key x <> forward_key r) (s_forward s)))
  end.

Definition row (luid addr : Z) : UnicastRow :=
  MkUnicastRow luid (MkSockaddr AF_INET (be_bytes 2 0 ++ be_bytes 4 addr ++ replicate 20 0)%list) 24 0 0 4.
Definition route (luid addr metric : Z) : ForwardRow :=
  MkForwardRow luid (MkIPAddressPrefix (MkSockaddr AF_INET (be_bytes 2 0 ++ be_bytes 4 addr ++ replicate 20 0)%list) 24)
    zero_sockaddr 0 0 metric.
Definition machine : sys := MkSys [row 7 1; row 8 1; row 7 2] [route 7 1 5; route 7 2 99; route 8 1 5].
End Sample.

Lemma SetAddrPort_roundtrip_witness : exists sa,
  SetAddrPort (Addr6 1 "12") 443 (MkSockaddr AF_INET (replicate 26 7)) = Ok sa /\ AddrPort sa = (Addr6 1 "12", 443).
Proof.
  eexists. split; [reflexivity|].
  exact (proj2 (SetAddrPort_roundtrip (Addr6 1 "12") 443 (MkSockaddr AF_INET (replicate 26 7))
    ltac:(lia) eq_refl) ltac:(cbn; lia)).
Defined.

Lemma SetIPAddressesForFamily_exact_witness : exists s',
  SetIPAddressesForFamily 7 Sample.unicast0 Sample.get_unicast Sample.create_unicast Sample.delete_unicast
    AF_INET [MkPrefix (Addr4 9) 24; MkPrefix (Addr6 1 "") 64] Sample.machine = (Returns tt, s') /\
  (length (Sample.s_unicast s') = 2)%nat /\
  exists kept, Sample.s_unicast s' = (kept ++ omap (new_unicast 7 Sample.unicast0 AF_INET)
    [MkPrefix (Addr4 9) 24; MkPrefix (Addr6 1 "") 64])%list /\
  forall x, x ∈ kept <-> x ∈ Sample.s_unicast Sample.machine /\
    ~ (ur_luid x = 7 /\ in_family AF_INET (ur_Address x) = true /\ @None string = None).
Proof.
  eexists. split; [vm_compute; reflexivity|]. split; [reflexivity|].
  apply (SetIPAddressesForFamily_exact 7 Sample.s_unicast Sample.unicast0 Sample.get_unicast
    Sample.create_unicast Sample.delete_unicast (fun _ => None)) with (s := Sample.machine).
  - reflexivity.
  - intros r s s'. by intros [= <-].
  - intros r s Hr. eexists. split; reflexivity.
  - vm_compute. repeat constructor; set_solver.
  - vm_compute. reflexivity.
Defined.

Lemma sample_routes_nodup : NoDup (forward_key <$> Sample.s_forward Sample.machine).
Proof. vm_compute. repeat constructor; set_solver. Qed.

(** A route the system holds on to: the others of the interface go, none is added. *)
Lemma SetRoutesForFamily_exact_witness :
  let '(r, s') := SetRoutesForFamily 7 Sample.forward0 Sample.get_forward Sample.create_forward
    Sample.delete_forward AF_INET [MkRouteData (MkPrefix (Addr4 9) 24) (Addr4 3) 1] Sample.machine in
  r = Fails "in use" /\ Sample.s_forward s' = [Sample.route 7 2 99; Sample.route 8 1 5].
Proof.
  pose proof (SetRoutesForFamily_exact 7 Sample.s_forward Sample.forward0 Sample.get_forward
    Sample.create_forward Sample.delete_forward Sample.locked (fun _ _ => eq_refl)
    (fun r s s' H => match H in _ = p return Sample.s_forward (snd p) = _ with eq_refl => eq_refl end)
    ltac:(intros r s Hr; unfold Sample.delete_forward; destruct (Sample.locked r);
          [reflexivity | eexists; split; reflexivity])
    AF_INET [MkRouteData (MkPrefix (Addr4 9) 24) (Addr4 3) 1] Sample.machine sample_routes_nodup) as H.
  cbv zeta in H.
  assert (snd (SetRoutesForFamily 7 Sample.forward0 Sample.get_forward Sample.create_forward
    Sample.delete_forward AF_INET [MkRouteData (MkPrefix (Addr4 9) 24) (Addr4 3) 1] Sample.machine) =
    Sample.MkSys (Sample.s_unicast Sample.machine) [Sample.route 7 2 99; Sample.route 8 1 5]) as E
    by (vm_compute; reflexivity).
  destruct (SetRoutesForFamily _ _ _ _ _ _ _ _) as [r s']. cbn in E. subst s'.
  split; [|reflexivity]. exact (proj1 H).
Defined.
