(* ===== verification/WinTypes.v ===== *)
(** * Memory layout of the structures passed to Windows: src/internal/winipcfg/types.go,
    types_32.go and types_64.go

    The structures are handed to the system as they lie in memory. Go aligns an eight byte
    integer to four bytes on 386 and arm, so types_32.go has explicit padding where
    types_64.go has none. [align], [size] and [leaves] are the rules of the Go compiler;
    [Types32] and [Types64] are the declarations of the two files, those of types.go are
    before them. *)

From S2P Require Import Prelude GoStr.

#[local] Open Scope string_scope.
#[local] Open Scope list_scope.

(** ** Types and their layout *)

(** A type as far as memory is concerned: an integer or bool by its size, a pointer, an
    array, a structure; a field called _ is padding. *)
#[warnings="-register-all"]
Inductive ty :=
| Scalar (w : Z)
| Pointer
| Array (n : nat) (t : ty)
| Struct (fields : list (string * ty)).

Section TyInd.
  Context (P : ty -> Prop) (HS : forall w, P (Scalar w)) (HP : P Pointer)
    (HA : forall n t, P t -> P (Array n t)) (HF : forall fs, Forall (fun f => P (snd f)) fs -> P (Struct fs)).

Fixpoint ty_nested_ind (t : ty) : P t :=
  match t with
  | Scalar w => HS w
  | Pointer => HP
  | Array n t => HA n t (ty_nested_ind t)
  | Struct fs => HF fs ((fix go fs : Forall (fun f => P (snd f)) fs := match fs with
      | [] => Forall_nil_2 _
      | f :: fs => Forall_cons_2 _ f fs (ty_nested_ind (snd f)) (go fs)
      end) fs)
  end.
End TyInd.

(** A target: the size of a pointer, which is also the largest alignment of the compiler. *)
Record target := Target { ptr_size : Z }.
Definition win_32 : target := Target 4.    (* 386 and arm *)
Definition win_64 : target := Target 8.    (* amd64 and arm64 *)

Definition round_up (x a : Z) : Z := (x + a - 1) / a * a.

(** Where a piece of memory lies, how long it is, and which field it is. *)
Record leaf := Leaf { l_field : string; l_off : Z; l_size : Z }.

#[export] Instance leaf_eq_dec : EqDecision leaf.
Proof. solve_decision. Defined.

Definition shift (d : Z) (l : leaf) : leaf := Leaf (l_field l) (d + l_off l) (l_size l).
Definition under (name : string) (l : leaf) : leaf :=
  Leaf (if bool_decide (l_field l = "") then name else name ++ "." ++ l_field l)%string (l_off l) (l_size l).

Section Layout.
  #[local] Set Default Proof Using "Type".
  Context (p : target).

Fixpoint align (t : ty) : Z :=
  match t with
  | Scalar w => Z.min w (ptr_size p)
  | Pointer => ptr_size p
  | Array _ t => align t
  | Struct fs => foldr (fun f a => Z.max (align (snd f)) a) 1%Z fs
  end.

(** A field goes to the next multiple of its alignment; the whole is rounded up. *)
Fixpoint size (t : ty) : Z :=
  match t with
  | Scalar w => w
  | Pointer => ptr_size p
  | Array n t => Z.of_nat n * size t
  | Struct fs =>
      round_up (foldl (fun off f => round_up off (align (snd f)) + size (snd f)) 0 fs)
        (foldr (fun f a => Z.max (align (snd f)) a) 1 fs)
  end%Z.

(** The elements of an array, one after the other. *)
Fixpoint elements_at (n : nat) (w off : Z) (ls : list leaf) : list leaf :=
  match n with
  | O => []
  | S n => (shift off <$> ls) ++ elements_at n w (off + w) ls
  end.

(** The integers and pointers of a value, in order; padding is left out. *)
Fixpoint leaves (t : ty) : list leaf :=
  match t with
  | Scalar w => [Leaf "" 0 w]
  | Pointer => [Leaf "" 0 (ptr_size p)]
  | Array n t => elements_at n (size t) 0 (leaves t)
  | Struct fs =>
      (fix go (off : Z) (fs : list (string * ty)) : list leaf :=
         match fs with
         | [] => []
         | (name, t) :: fs =>
             let at_ := round_up off (align t) in
             (if bool_decide (name = "_") then [] else (fun l => shift at_ (under name l)) <$> leaves t)
             ++ go (at_ + size t)%Z fs
         end) 0%Z fs
  end.

Fixpoint field_leaves (off : Z) (fs : list (string * ty)) : list leaf :=
  match fs with
  | [] => []
  | (name, t) :: fs =>
      (if bool_decide (name = "_") then [] else (fun l => shift (round_up off (align t)) (under name l)) <$> leaves t)
      ++ field_leaves (round_up off (align t) + size t) fs
  end.

Lemma leaves_struct fs : leaves (Struct fs) = field_leaves 0 fs.
Proof. reflexivity. Qed.

(** Integers of one, two, four or eight bytes. *)
Fixpoint wf_ty (t : ty) : bool :=
  match t with
  | Scalar w => bool_decide (w ∈ [1; 2; 4; 8]%Z)
  | Pointer => true
  | Array _ t => wf_ty t
  | Struct fs => forallb (fun f => wf_ty (snd f)) fs
  end.

(** ** What every layout guarantees *)

(** Leaves between two addresses, in order and apart; each at a multiple of what the target
    aligns its size to, as a value at a multiple of [a] needs. *)
Definition before (l1 l2 : leaf) : Prop := (l_off l1 + l_size l1 <= l_off l2)%Z.
Definition placed (lo hi a : Z) (l : leaf) : Prop :=
  (lo <= l_off l /\ 0 < l_size l /\ l_off l + l_size l <= hi)%Z /\
  (Z.min (l_size l) (ptr_size p) | l_off l)%Z /\ (Z.min (l_size l) (ptr_size p) | a)%Z.
Definition laid (lo hi a : Z) (ls : list leaf) : Prop :=
  Forall (placed lo hi a) ls /\ StronglySorted before ls.

Lemma laid_app lo mid1 mid2 hi a l1 l2 :
  laid lo mid1 a l1 -> laid mid2 hi a l2 -> (lo <= mid1 <= mid2)%Z -> (mid2 <= hi)%Z -> laid lo hi a (l1 ++ l2).
Proof.
  intros [H1 S1] [H2 S2] Hm Hh. split.
  - apply Forall_app. split; (eapply Forall_impl; [eassumption|]); intros l [Hl ?]; (split; [lia | done]).
  - apply StronglySorted_app_2; [|done|done]. intros x y Hx Hy. rewrite Forall_forall in H1, H2.
    destruct (H1 x Hx) as [? _], (H2 y Hy) as [? _]. unfold before. lia.
Qed.

Lemma laid_shift d lo hi a ls : (a | d)%Z -> laid lo hi a ls -> laid (d + lo) (d + hi) a (shift d <$> ls).
Proof.
  intros Hd [H S]. split.
  - apply Forall_fmap. eapply Forall_impl; [exact H|]. intros l (Hl & Ho & Ha). unfold placed; cbn.
    split; [lia|]. split; [|done]. apply Z.divide_add_r; [exact (Z.divide_trans _ _ _ Ha Hd) | done].
  - clear H. induction S as [|l ls S IH F]; cbn; [constructor|]. constructor; [done|].
    apply Forall_fmap. eapply Forall_impl; [exact F|]. intros l' H. unfold before in *; cbn. lia.
Qed.

Lemma laid_weaken lo hi lo' hi' a a' ls :
  (lo' <= lo)%Z -> (hi <= hi')%Z -> (a | a')%Z -> laid lo hi a ls -> laid lo' hi' a' ls.
Proof.
  intros Hlo Hhi Ha [H S]. split; [|done]. eapply Forall_impl; [exact H|].
  intros l (Hl & Ho & Hd). split; [lia|]. split; [done|]. exact (Z.divide_trans _ _ _ Hd Ha).
Qed.

(** The name of a field does not matter. *)
Lemma laid_under name lo hi a ls : laid lo hi a ls -> laid lo hi a (under name <$> ls).
Proof.
  intros [H S]. split.
  - apply Forall_fmap. exact H.
  - clear H. induction S as [|l ls S IH F]; cbn; [constructor|]. constructor; [done|]. apply Forall_fmap. exact F.
Qed.

Lemma laid_elements n w off a ls :
  (0 <= w)%Z -> (a | w)%Z -> (a | off)%Z -> laid 0 w a ls -> laid off (off + Z.of_nat n * w) a (elements_at n w off ls).
Proof.
  intros Hw Ha. revert off. induction n as [|n IH]; intros off Ho Hl; cbn [elements_at]; [split; constructor|].
  eapply (laid_app off (off + w) (off + w)); [| |lia|lia].
  - pose proof (laid_shift off 0 w a ls Ho Hl) as H. by rewrite Z.add_0_r in H.
  - replace (off + Z.of_nat (S n) * w)%Z with (off + w + Z.of_nat n * w)%Z by lia.
    apply IH; [by apply Z.divide_add_r | done].
Qed.

Section Sound.
  Context (Hp : ptr_size p = 4%Z \/ ptr_size p = 8%Z).

Definition pow2 (a : Z) : Prop := (a = 1 \/ a = 2 \/ a = 4 \/ a = 8)%Z.

Lemma pow2_divide a b : pow2 a -> pow2 b -> (a <= b)%Z -> (a | b)%Z.
Proof. intros Ha Hb Hle. exists (b / a)%Z. destruct Ha as [->|[->|[->| ->]]], Hb as [->|[->|[->| ->]]]; first [reflexivity | lia]. Qed.

Lemma round_up_spec x a : pow2 a -> (a | round_up x a)%Z /\ (x <= round_up x a < x + a)%Z.
Proof.
  intros Ha. unfold round_up. split; [by exists ((x + a - 1) / a)%Z|].
  assert (0 < a)%Z by (destruct Ha as [->|[->|[->| ->]]]; lia).
  pose proof (Z.div_mod (x + a - 1) a ltac:(lia)). pose proof (Z.mod_pos_bound (x + a - 1) a ltac:(lia)). lia.
Qed.

Definition struct_align (fs : list (string * ty)) : Z := foldr (fun f a => Z.max (align (snd f)) a) 1%Z fs.

(** The invariant of a field's type. *)
Definition type_ok (t : ty) : Prop :=
  pow2 (align t) /\ (0 <= size t)%Z /\ (align t | size t)%Z /\ laid 0 (size t) (align t) (leaves t).

Lemma struct_align_pow2 fs : Forall (fun f => pow2 (align (snd f))) fs -> pow2 (struct_align fs).
Proof.
  unfold struct_align. induction 1 as [|f fs Hf _ IH]; cbn [foldr]; [by left|].
  destruct (Z.max_spec (align (snd f)) (foldr (fun f a => Z.max (align (snd f)) a) 1%Z fs)) as [[_ ->]|[_ ->]]; done.
Qed.

(** The fields from an offset on, under an alignment that each of theirs divides. *)
Lemma laid_fields A fs : forall off, (0 <= off)%Z ->
  Forall (fun f => type_ok (snd f) /\ (align (snd f) | A)%Z) fs ->
  let end_ := foldl (fun off f => round_up off (align (snd f)) + size (snd f))%Z off fs in
  (off <= end_)%Z /\ laid off end_ A (field_leaves off fs).
Proof.
  induction fs as [|[name t] fs IH]; intros off Hoff HF; cbn [foldl field_leaves]; [split; [lia|]; split; constructor|].
  apply Forall_cons in HF as [[(Ha & Hs & Hd & Hl) HA] HF]. cbn [snd] in *.
  destruct (round_up_spec off (align t) Ha) as [Hr Hb]. set (at_ := round_up off (align t)) in *.
  destruct (IH (at_ + size t)%Z ltac:(lia) HF) as [Hend Hrest]. split; [lia|].
  eapply (laid_app off (at_ + size t) (at_ + size t)); [|exact Hrest|lia|lia].
  case_bool_decide; [split; constructor|].
  rewrite (list_fmap_compose (under name) (shift at_)).
  eapply (laid_weaken (at_ + 0) (at_ + size t)); [lia|lia|exact HA|].
  apply laid_shift; [done|]. by apply laid_under.
Qed.

Lemma struct_align_divides fs : Forall (fun f => pow2 (align (snd f))) fs ->
  Forall (fun f => (align (snd f) | struct_align fs)%Z) fs.
Proof.
  intros H. apply Forall_forall. intros f Hf. pose proof (struct_align_pow2 fs H) as HS.
  rewrite Forall_forall in H. apply pow2_divide; [by apply H | done |].
  unfold struct_align. clear H HS. induction fs as [|g fs IH]; [by apply not_elem_of_nil in Hf|].
  cbn [foldr]. apply elem_of_cons in Hf as [->|Hf]; [lia|]. specialize (IH Hf). lia.
Qed.

Lemma type_sound t : wf_ty t = true -> type_ok t.
Proof using Hp.
  induction t as [w| |n t IH|fs IH] using ty_nested_ind; cbn [wf_ty]; intros Hw; unfold type_ok.
  - apply bool_decide_eq_true in Hw. cbn [align size leaves].
    assert (pow2 w) as H2 by (unfold pow2; set_solver). clear Hw.
    split_and!.
    + destruct H2 as [->|[->|[->| ->]]], Hp as [->| ->]; unfold pow2; cbn; lia.
    + destruct H2 as [->|[->|[->| ->]]]; lia.
    + apply pow2_divide; [|done|lia]. destruct H2 as [->|[->|[->| ->]]], Hp as [->| ->]; unfold pow2; cbn; lia.
    + split; [|repeat constructor]. repeat constructor; cbn; try lia; try apply Z.divide_0_r; try done.
      destruct H2 as [->|[->|[->| ->]]]; lia.
  - cbn [align size leaves]. split_and!; [destruct Hp as [->| ->]; unfold pow2; lia | lia | done |].
    split; [|repeat constructor]. repeat constructor; cbn; try lia; try apply Z.divide_0_r. by rewrite Z.min_id.
  - destruct (IH Hw) as (Ha & Hs & Hd & Hl). cbn [align size leaves].
    split_and!; [done | lia | by apply Z.divide_mul_r |].
    apply (laid_elements n (size t) 0); [done | done | apply Z.divide_0_r | done].
  - assert (Forall (fun f => type_ok (snd f)) fs) as Hok.
    { apply Forall_forall. intros f Hf. rewrite Forall_forall in IH. apply IH; [done|].
      rewrite forallb_forall in Hw. apply Hw. by apply list_elem_of_In. }
    assert (Forall (fun f => pow2 (align (snd f))) fs) as H2 by (eapply Forall_impl; [exact Hok|]; by intros f (? & _)).
    pose proof (struct_align_pow2 fs H2) as HA.
    destruct (laid_fields (struct_align fs) fs 0 ltac:(lia)) as [He Hl].
    { apply Forall_and. split; [exact Hok | by apply struct_align_divides]. }
    rewrite leaves_struct. cbn [align size]. fold (struct_align fs).
    destruct (round_up_spec (foldl (fun off f => round_up off (align (snd f)) + size (snd f))%Z 0%Z fs) (struct_align fs) HA)
      as [Hr Hb].
    split_and!; [done | lia | done |].
    eapply laid_weaken; [| | |exact Hl]; [lia | lia | done].
Qed.
End Sound.
End Layout.

(** ** The declarations *)

Definition U8 : ty := Scalar 1.      (* bool, byte and uint8 *)
Definition U16 : ty := Scalar 2.
Definition U32 : ty := Scalar 4.
Definition U64 : ty := Scalar 8.

(** The enumerations, by the integers they are. *)
Definition IPAAFlags : ty := U32.
Definition AddressFamily : ty := U16.
Definition IfOperStatus : ty := U32.
Definition IfType : ty := U32.
Definition NdisMedium : ty := U32.
Definition NdisPhysicalMedium : ty := U32.
Definition NetIfAccessType : ty := U32.
Definition NetIfAdminStatus : ty := U32.
Definition NetIfConnectionType : ty := U32.
Definition NetIfDirectionType : ty := U32.
Definition NetIfMediaConnectState : ty := U32.
Definition DadState : ty := U32.
Definition PrefixOrigin : ty := U32.
Definition LinkLocalAddressBehavior : ty := U32.
Definition OffloadRod : ty := U8.
Definition RouteOrigin : ty := U32.
Definition RouteProtocol : ty := U32.
Definition RouterDiscoveryBehavior : ty := U32.
Definition SuffixOrigin : ty := U32.
Definition TunnelType : ty := U32.
Definition InterfaceAndOperStatusFlags : ty := U8.
Definition LUID : ty := U64.

Definition anySize : nat := 1.
Definition maxDNSSuffixStringLength : nat := 256.
Definition maxDHCPv6DUIDLength : nat := 130.
Definition ifMaxStringSize : nat := 256.
Definition ifMaxPhysAddressLength : nat := 32.
Definition ScopeLevelCount : nat := 16.

Section Declarations.
  (** Types and a constant of golang.org/x/sys/windows. *)
  Context (GUID SocketAddress : ty) (MAX_ADAPTER_ADDRESS_LENGTH : nat).

Definition IPAdapterDNSSuffix : ty :=
  Struct [("Next", Pointer); ("str", Array maxDNSSuffixStringLength U16)].

Definition RawSockaddrInet : ty :=
  Struct [("Family", AddressFamily); ("data", Array 26 U8)].

Definition IPAddressPrefix : ty :=
  Struct [("RawPrefix", RawSockaddrInet); ("PrefixLength", U8); ("_", Array 2 U8)].

Definition MibIPforwardRow2 : ty :=
  Struct [("InterfaceLUID", LUID); ("InterfaceIndex", U32); ("DestinationPrefix", IPAddressPrefix);
    ("NextHop", RawSockaddrInet); ("SitePrefixLength", U8); ("ValidLifetime", U32);
    ("PreferredLifetime", U32); ("Metric", U32); ("Protocol", RouteProtocol); ("Loopback", U8);
    ("AutoconfigureAddress", U8); ("Publish", U8); ("Immortal", U8); ("Age", U32);
    ("Origin", RouteOrigin)].

Definition DnsInterfaceSettings : ty :=
  Struct [("Version", U32); ("_", Array 4 U8); ("Flags", U64); ("Domain", Pointer);
    ("NameServer", Pointer); ("SearchList", Pointer); ("RegistrationEnabled", U32);
    ("RegisterAdapterName", U32); ("EnableLLMNR", U32); ("QueryAdapterName", U32);
    ("ProfileNameServer", Pointer)].

(** types_32.go *)

Definition IPAdapterWINSServerAddress_32 : ty :=
  Struct [("Length", U32); ("_", U32); ("Next", Pointer); ("Address", SocketAddress);
    ("_", Array 4 U8)].

Definition IPAdapterGatewayAddress_32 : ty :=
  Struct [("Length", U32); ("_", U32); ("Next", Pointer); ("Address", SocketAddress);
    ("_", Array 4 U8)].

Definition IPAdapterAddresses_32 : ty :=
  Struct [("Length", U32); ("IfIndex", U32); ("Next", Pointer); ("adapterName", Pointer);
    ("FirstUnicastAddress", Pointer); ("FirstAnycastAddress", Pointer);
    ("FirstMulticastAddress", Pointer); ("FirstDNSServerAddress", Pointer); ("dnsSuffix", Pointer);
    ("description", Pointer); ("friendlyName", Pointer);
    ("physicalAddress", Array MAX_ADAPTER_ADDRESS_LENGTH U8); ("physicalAddressLength", U32);
    ("Flags", IPAAFlags); ("MTU", U32); ("IfType", IfType); ("OperStatus", IfOperStatus);
    ("IPv6IfIndex", U32); ("ZoneIndices", Array 16 U32); ("FirstPrefix", Pointer);
    ("TransmitLinkSpeed", U64); ("ReceiveLinkSpeed", U64); ("FirstWINSServerAddress", Pointer);
    ("FirstGatewayAddress", Pointer); ("Ipv4Metric", U32); ("Ipv6Metric", U32); ("LUID", LUID);
    ("DHCPv4Server", SocketAddress); ("CompartmentID", U32); ("NetworkGUID", GUID);
    ("ConnectionType", NetIfConnectionType); ("TunnelType", TunnelType);
    ("DHCPv6Server", SocketAddress); ("dhcpv6ClientDUID", Array maxDHCPv6DUIDLength U8);
    ("dhcpv6ClientDUIDLength", U32); ("DHCPv6IAID", U32); ("FirstDNSSuffix", Pointer);
    ("_", Array 4 U8)].

Definition MibIPInterfaceRow_32 : ty :=
  Struct [("Family", AddressFamily); ("_", Array 4 U8); ("InterfaceLUID", LUID);
    ("InterfaceIndex", U32); ("MaxReassemblySize", U32); ("InterfaceIdentifier", U64);
    ("MinRouterAdvertisementInterval", U32); ("MaxRouterAdvertisementInterval", U32);
    ("AdvertisingEnabled", U8); ("ForwardingEnabled", U8); ("WeakHostSend", U8);
    ("WeakHostReceive", U8); ("UseAutomaticMetric", U8);
    ("UseNeighborUnreachabilityDetection", U8); ("ManagedAddressConfigurationSupported", U8);
    ("OtherStatefulConfigurationSupported", U8); ("AdvertiseDefaultRoute", U8);
    ("RouterDiscoveryBehavior", RouterDiscoveryBehavior); ("DadTransmits", U32);
    ("BaseReachableTime", U32); ("RetransmitTime", U32); ("PathMTUDiscoveryTimeout", U32);
    ("LinkLocalAddressBehavior", LinkLocalAddressBehavior); ("LinkLocalAddressTimeout", U32);
    ("ZoneIndices", Array ScopeLevelCount U32); ("SitePrefixLength", U32); ("Metric", U32);
    ("NLMTU", U32); ("Connected", U8); ("SupportsWakeUpPatterns", U8);
    ("SupportsNeighborDiscovery", U8); ("SupportsRouterDiscovery", U8); ("ReachableTime", U32);
    ("TransmitOffload", OffloadRod); ("ReceiveOffload", OffloadRod); ("DisableDefaultRoutes", U8)].

Definition mibIPInterfaceTable_32 : ty :=
  Struct [("numEntries", U32); ("_", Array 4 U8); ("table", Array anySize MibIPInterfaceRow_32)].

Definition MibIfRow2_32 : ty :=
  Struct [("InterfaceLUID", LUID); ("InterfaceIndex", U32); ("InterfaceGUID", GUID);
    ("alias", Array (S ifMaxStringSize) U16); ("description", Array (S ifMaxStringSize) U16);
    ("physicalAddressLength", U32); ("physicalAddress", Array ifMaxPhysAddressLength U8);
    ("permanentPhysicalAddress", Array ifMaxPhysAddressLength U8); ("MTU", U32); ("Type", IfType);
    ("TunnelType", TunnelType); ("MediaType", NdisMedium);
    ("PhysicalMediumType", NdisPhysicalMedium); ("AccessType", NetIfAccessType);
    ("DirectionType", NetIfDirectionType);
    ("InterfaceAndOperStatusFlags", InterfaceAndOperStatusFlags); ("OperStatus", IfOperStatus);
    ("AdminStatus", NetIfAdminStatus); ("MediaConnectState", NetIfMediaConnectState);
    ("NetworkGUID", GUID); ("ConnectionType", NetIfConnectionType); ("_", Array 4 U8);
    ("TransmitLinkSpeed", U64); ("ReceiveLinkSpeed", U64); ("InOctets", U64); ("InUcastPkts", U64);
    ("InNUcastPkts", U64); ("InDiscards", U64); ("InErrors", U64); ("InUnknownProtos", U64);
    ("InUcastOctets", U64); ("InMulticastOctets", U64); ("InBroadcastOctets", U64);
    ("OutOctets", U64); ("OutUcastPkts", U64); ("OutNUcastPkts", U64); ("OutDiscards", U64);
    ("OutErrors", U64); ("OutUcastOctets", U64); ("OutMulticastOctets", U64);
    ("OutBroadcastOctets", U64); ("OutQLen", U64)].

Definition mibIfTable2_32 : ty :=
  Struct [("numEntries", U32); ("_", Array 4 U8); ("table", Array anySize MibIfRow2_32)].

Definition MibUnicastIPAddressRow_32 : ty :=
  Struct [("Address", RawSockaddrInet); ("_", Array 4 U8); ("InterfaceLUID", LUID);
    ("InterfaceIndex", U32); ("PrefixOrigin", PrefixOrigin); ("SuffixOrigin", SuffixOrigin);
    ("ValidLifetime", U32); ("PreferredLifetime", U32); ("OnLinkPrefixLength", U8);
    ("SkipAsSource", U8); ("DadState", DadState); ("ScopeID", U32); ("CreationTimeStamp", U64)].

Definition mibUnicastIPAddressTable_32 : ty :=
  Struct [("numEntries", U32); ("_", Array 4 U8);
    ("table", Array anySize MibUnicastIPAddressRow_32)].

Definition MibAnycastIPAddressRow_32 : ty :=
  Struct [("Address", RawSockaddrInet); ("_", Array 4 U8); ("InterfaceLUID", LUID);
    ("InterfaceIndex", U32); ("ScopeID", U32)].

Definition mibAnycastIPAddressTable_32 : ty :=
  Struct [("numEntries", U32); ("_", Array 4 U8);
    ("table", Array anySize MibAnycastIPAddressRow_32)].

Definition mibIPforwardTable2_32 : ty :=
  Struct [("numEntries", U32); ("_", Array 4 U8); ("table", Array anySize MibIPforwardRow2)].

(** types_64.go *)

Definition IPAdapterWINSServerAddress_64 : ty :=
  Struct [("Length", U32); ("_", U32); ("Next", Pointer); ("Address", SocketAddress)].

Definition IPAdapterGatewayAddress_64 : ty :=
  Struct [("Length", U32); ("_", U32); ("Next", Pointer); ("Address", SocketAddress)].

Definition IPAdapterAddresses_64 : ty :=
  Struct [("Length", U32); ("IfIndex", U32); ("Next", Pointer); ("adapterName", Pointer);
    ("FirstUnicastAddress", Pointer); ("FirstAnycastAddress", Pointer);
    ("FirstMulticastAddress", Pointer); ("FirstDNSServerAddress", Pointer); ("dnsSuffix", Pointer);
    ("description", Pointer); ("friendlyName", Pointer);
    ("physicalAddress", Array MAX_ADAPTER_ADDRESS_LENGTH U8); ("physicalAddressLength", U32);
    ("Flags", IPAAFlags); ("MTU", U32); ("IfType", IfType); ("OperStatus", IfOperStatus);
    ("IPv6IfIndex", U32); ("ZoneIndices", Array 16 U32); ("FirstPrefix", Pointer);
    ("TransmitLinkSpeed", U64); ("ReceiveLinkSpeed", U64); ("FirstWINSServerAddress", Pointer);
    ("FirstGatewayAddress", Pointer); ("Ipv4Metric", U32); ("Ipv6Metric", U32); ("LUID", LUID);
    ("DHCPv4Server", SocketAddress); ("CompartmentID", U32); ("NetworkGUID", GUID);
    ("ConnectionType", NetIfConnectionType); ("TunnelType", TunnelType);
    ("DHCPv6Server", SocketAddress); ("dhcpv6ClientDUID", Array maxDHCPv6DUIDLength U8);
    ("dhcpv6ClientDUIDLength", U32); ("DHCPv6IAID", U32); ("FirstDNSSuffix", Pointer)].

Definition MibIPInterfaceRow_64 : ty :=
  Struct [("Family", AddressFamily); ("InterfaceLUID", LUID); ("InterfaceIndex", U32);
    ("MaxReassemblySize", U32); ("InterfaceIdentifier", U64);
    ("MinRouterAdvertisementInterval", U32); ("MaxRouterAdvertisementInterval", U32);
    ("AdvertisingEnabled", U8); ("ForwardingEnabled", U8); ("WeakHostSend", U8);
    ("WeakHostReceive", U8); ("UseAutomaticMetric", U8);
    ("UseNeighborUnreachabilityDetection", U8); ("ManagedAddressConfigurationSupported", U8);
    ("OtherStatefulConfigurationSupported", U8); ("AdvertiseDefaultRoute", U8);
    ("RouterDiscoveryBehavior", RouterDiscoveryBehavior); ("DadTransmits", U32);
    ("BaseReachableTime", U32); ("RetransmitTime", U32); ("PathMTUDiscoveryTimeout", U32);
    ("LinkLocalAddressBehavior", LinkLocalAddressBehavior); ("LinkLocalAddressTimeout", U32);
    ("ZoneIndices", Array ScopeLevelCount U32); ("SitePrefixLength", U32); ("Metric", U32);
    ("NLMTU", U32); ("Connected", U8); ("SupportsWakeUpPatterns", U8);
    ("SupportsNeighborDiscovery", U8); ("SupportsRouterDiscovery", U8); ("ReachableTime", U32);
    ("TransmitOffload", OffloadRod); ("ReceiveOffload", OffloadRod); ("DisableDefaultRoutes", U8)].

Definition mibIPInterfaceTable_64 : ty :=
  Struct [("numEntries", U32); ("table", Array anySize MibIPInterfaceRow_64)].

Definition MibIfRow2_64 : ty :=
  Struct [("InterfaceLUID", LUID); ("InterfaceIndex", U32); ("InterfaceGUID", GUID);
    ("alias", Array (S ifMaxStringSize) U16); ("description", Array (S ifMaxStringSize) U16);
    ("physicalAddressLength", U32); ("physicalAddress", Array ifMaxPhysAddressLength U8);
    ("permanentPhysicalAddress", Array ifMaxPhysAddressLength U8); ("MTU", U32); ("Type", IfType);
    ("TunnelType", TunnelType); ("MediaType", NdisMedium);
    ("PhysicalMediumType", NdisPhysicalMedium); ("AccessType", NetIfAccessType);
    ("DirectionType", NetIfDirectionType);
    ("InterfaceAndOperStatusFlags", InterfaceAndOperStatusFlags); ("OperStatus", IfOperStatus);
    ("AdminStatus", NetIfAdminStatus); ("MediaConnectState", NetIfMediaConnectState);
    ("NetworkGUID", GUID); ("ConnectionType", NetIfConnectionType); ("TransmitLinkSpeed", U64);
    ("ReceiveLinkSpeed", U64); ("InOctets", U64); ("InUcastPkts", U64); ("InNUcastPkts", U64);
    ("InDiscards", U64); ("InErrors", U64); ("InUnknownProtos", U64); ("InUcastOctets", U64);
    ("InMulticastOctets", U64); ("InBroadcastOctets", U64); ("OutOctets", U64);
    ("OutUcastPkts", U64); ("OutNUcastPkts", U64); ("OutDiscards", U64); ("OutErrors", U64);
    ("OutUcastOctets", U64); ("OutMulticastOctets", U64); ("OutBroadcastOctets", U64);
    ("OutQLen", U64)].

Definition mibIfTable2_64 : ty :=
  Struct [("numEntries", U32); ("table", Array anySize MibIfRow2_64)].

Definition MibUnicastIPAddressRow_64 : ty :=
  Struct [("Address", RawSockaddrInet); ("InterfaceLUID", LUID); ("InterfaceIndex", U32);
    ("PrefixOrigin", PrefixOrigin); ("SuffixOrigin", SuffixOrigin); ("ValidLifetime", U32);
    ("PreferredLifetime", U32); ("OnLinkPrefixLength", U8); ("SkipAsSource", U8);
    ("DadState", DadState); ("ScopeID", U32); ("CreationTimeStamp", U64)].

Definition mibUnicastIPAddressTable_64 : ty :=
  Struct [("numEntries", U32); ("table", Array anySize MibUnicastIPAddressRow_64)].

Definition MibAnycastIPAddressRow_64 : ty :=
  Struct [("Address", RawSockaddrInet); ("InterfaceLUID", LUID); ("InterfaceIndex", U32);
    ("ScopeID", U32)].

Definition mibAnycastIPAddressTable_64 : ty :=
  Struct [("numEntries", U32); ("table", Array anySize MibAnycastIPAddressRow_64)].

Definition mibIPforwardTable2_64 : ty :=
  Struct [("numEntries", U32); ("table", Array anySize MibIPforwardRow2)].

(** What the package relies on of them. *)
Definition windows_types : Prop :=
  GUID = Struct [("Data1", U32); ("Data2", U16); ("Data3", U16); ("Data4", Array 8 U8)] /\
  SocketAddress = Struct [("Sockaddr", Pointer); ("SockaddrLength", U32)] /\
  MAX_ADAPTER_ADDRESS_LENGTH = 8%nat.

(** The structures without pointers, as either file has them. *)
Definition rows : list (ty * ty) :=
  [(MibIPInterfaceRow_32, MibIPInterfaceRow_64); (MibIfRow2_32, MibIfRow2_64);
   (MibUnicastIPAddressRow_32, MibUnicastIPAddressRow_64); (MibAnycastIPAddressRow_32, MibAnycastIPAddressRow_64);
   (MibIPforwardRow2, MibIPforwardRow2)].

(** The tables of them. *)
Definition tables : list (ty * ty) :=
  [(mibIPInterfaceTable_32, mibIPInterfaceTable_64); (mibIfTable2_32, mibIfTable2_64);
   (mibUnicastIPAddressTable_32, mibUnicastIPAddressTable_64);
   (mibAnycastIPAddressTable_32, mibAnycastIPAddressTable_64); (mibIPforwardTable2_32, mibIPforwardTable2_64)].

(** The structures with pointers. *)
Definition linked_32 : list ty :=
  [IPAdapterWINSServerAddress_32; IPAdapterGatewayAddress_32; IPAdapterAddresses_32; DnsInterfaceSettings].
Definition linked_64 : list ty :=
  [IPAdapterWINSServerAddress_64; IPAdapterGatewayAddress_64; IPAdapterAddresses_64; DnsInterfaceSettings].
End Declarations.

(** [get] of a table: [numEntries] rows from where [table] begins, one row's size apart. *)
Definition table_offset (p : target) (tab : ty) : Z :=
  match filter (fun l => has_prefix (l_field l) "table" = true) (leaves p tab) with l :: _ => l_off l | [] => 0%Z end.

Definition get (p : target) (tab row : ty) (numEntries : nat) : list leaf :=
  elements_at numEntries (size p row) (table_offset p tab) (leaves p row).

(** ** The two files declare the same memory *)

Definition GUID_win : ty := Struct [("Data1", U32); ("Data2", U16); ("Data3", U16); ("Data4", Array 8 U8)].
Definition SocketAddress_win : ty := Struct [("Sockaddr", Pointer); ("SockaddrLength", U32)].

(** Every integer and pointer at a multiple of its own size. *)
Definition natural (p : target) (t : ty) : Prop := Forall (fun l => (l_size l | l_off l)%Z) (leaves p t).

#[export] Instance divide_dec (a b : Z) : Decision (a | b)%Z.
Proof.
  destruct (decide (a = 0)%Z) as [->|Ha].
  - destruct (decide (b = 0)%Z) as [->|Hb]; [left; apply Z.divide_0_r | right; intros H; by apply Hb, Z.divide_0_l].
  - destruct (decide (b mod a = 0)%Z) as [H|H]; [left | right]; by rewrite <- Z.mod_divide.
Defined.

#[export] Instance natural_dec p t : Decision (natural p t).
Proof. unfold natural. apply _. Defined.

Definition same_layout (x : ty * ty) : Prop :=
  leaves win_32 (fst x) = leaves win_64 (snd x) /\ size win_32 (fst x) = size win_64 (snd x).

#[export] Instance same_layout_dec x : Decision (same_layout x).
Proof. unfold same_layout. apply _. Defined.

Lemma rows_checked : Forall same_layout (rows GUID_win ++ tables GUID_win).
Proof. apply (bool_decide_unpack _). vm_compute. exact I. Qed.

Lemma linked_checked :
  Forall (fun t => natural win_32 t /\ (8 | size win_32 t)%Z) (linked_32 GUID_win SocketAddress_win 8) /\
  Forall (fun t => natural win_64 t /\ (8 | size win_64 t)%Z) (linked_64 GUID_win SocketAddress_win 8).
Proof. apply (bool_decide_unpack _). vm_compute. exact I. Qed.

Lemma rows_wf : Forall (fun x => wf_ty (snd x) = true /\ align win_64 (snd x) = 8%Z) (rows GUID_win) /\
  Forall (fun x => table_offset win_32 (fst x) = 8%Z /\ table_offset win_64 (snd x) = 8%Z) (tables GUID_win).
Proof. apply (bool_decide_unpack _). vm_compute. exact I. Qed.

(** The rows of a table, however many, lie one after the other behind its header. *)
Lemma get_laid tab row n : wf_ty row = true -> align win_64 row = 8%Z -> table_offset win_64 tab = 8%Z ->
  laid win_64 8 (8 + Z.of_nat n * size win_64 row) 8 (get win_64 tab row n).
Proof.
  intros Hw Ha Ht. destruct (type_sound win_64 (or_intror eq_refl) row Hw) as (_ & Hs & Hd & Hl).
  rewrite Ha in Hd, Hl. unfold get. rewrite Ht. by apply laid_elements.
Qed.

(** the structures without pointers have the same memory on 32 and on 64 bit Windows:
    every field, and so every row of a table of any length, at the same place; there the
    rows are disjoint, inside the table, and every integer at a multiple of its size, as
    the system has it. The structures with pointers keep that alignment on either. *)
Theorem layouts_portable GUID SocketAddress MAX_ADAPTER_ADDRESS_LENGTH :
  windows_types GUID SocketAddress MAX_ADAPTER_ADDRESS_LENGTH ->
  Forall same_layout (rows GUID ++ tables GUID) /\
  (forall i tab row n, tables GUID !! i = Some tab -> rows GUID !! i = Some row ->
     get win_32 (fst tab) (fst row) n = get win_64 (snd tab) (snd row) n /\
     StronglySorted before (get win_64 (snd tab) (snd row) n) /\
     Forall (fun l => (8 <= l_off l)%Z /\ (l_off l + l_size l <= 8 + Z.of_nat n * size win_64 (snd row))%Z /\
                      (Z.min (l_size l) 8 | l_off l)%Z) (get win_32 (fst tab) (fst row) n)) /\
  Forall (fun t => natural win_32 t /\ (8 | size win_32 t)%Z) (linked_32 GUID SocketAddress MAX_ADAPTER_ADDRESS_LENGTH) /\
  Forall (fun t => natural win_64 t /\ (8 | size win_64 t)%Z) (linked_64 GUID SocketAddress MAX_ADAPTER_ADDRESS_LENGTH).
Proof.
  intros (-> & -> & ->). split; [exact rows_checked|]. split; [|exact linked_checked].
  intros i tab row n Htab Hrow. pose proof rows_checked as Hc. apply Forall_app in Hc as [Hc _].
  destruct rows_wf as [Hw Ho].
  destruct (Forall_lookup_1 _ _ _ _ Hw Hrow) as [Hwf Ha], (Forall_lookup_1 _ _ _ _ Ho Htab) as [H32 H64],
    (Forall_lookup_1 _ _ _ _ Hc Hrow) as [Hl Hsz].
  destruct (get_laid (snd tab) (snd row) n Hwf Ha H64) as [HF HS].
  assert (get win_32 (fst tab) (fst row) n = get win_64 (snd tab) (snd row) n) as E
    by (unfold get; by rewrite H32, H64, Hl, Hsz).
  split_and!; [exact E | exact HS |]. rewrite E. eapply Forall_impl; [exact HF|].
  intros l ((? & ? & ?) & ? & _). done.
Qed.

Lemma layouts_portable_witness :
  windows_types GUID_win SocketAddress_win 8 /\
  Forall same_layout (rows GUID_win ++ tables GUID_win) /\ size win_32 (IPAdapterAddresses_32 GUID_win SocketAddress_win 8) = 376%Z.
Proof.
  assert (windows_types GUID_win SocketAddress_win 8) as H by (by split_and!).
  split; [exact H|]. split; [exact (proj1 (layouts_portable _ _ _ H)) | vm_compute; reflexivity].
Defined.

(** Without the padding of types_32.go a 32 bit build would read other fields. *)
Example unpadded_differs :
  size win_32 MibUnicastIPAddressRow_64 = 76%Z /\ ~ same_layout (MibUnicastIPAddressRow_64, MibUnicastIPAddressRow_64).
Proof. split; [vm_compute; reflexivity|]. apply (bool_decide_unpack _). vm_compute. exact I. Qed.
