(* ===== verification/WinCalls.v ===== *)
(** * Calls of the IP helper library: the rest of src/internal/winipcfg/luid.go and winipcfg.go

    Queries of one entry by an interface's LUID, the functions that copy a table the
    library allocated and free it, the list of adapters, and [SetInterfaceDnsSettings],
    which passes a structure by value. What the tables hold and how they are changed is
    [WinIpcfg]. *)

From S2P Require Import Prelude Frames WinIpcfg.
From S2P Require Import GoNet.

#[local] Open Scope string_scope.
#[local] Open Scope list_scope.
#[local] Open Scope Z_scope.

(** ** One entry *)

Section Entry.
  #[local] Set Default Proof Using "Type".
  (** The library's calls on a row; [initialize] is what [Init] puts into one. *)
  Context {IPRow IfRow Guid : Type}.
  Context (initializeIPInterfaceEntry : IPRow) (with_key : Z -> Z -> IPRow -> IPRow).
  Context (family_of site_prefix : IPRow -> Z) (with_site_prefix : Z -> IPRow -> IPRow).
  Context (getIPInterfaceEntry : IPRow -> result IPRow) (zeroIf : Z -> IfRow) (getIfEntry2 : IfRow -> result IfRow).
  Context (getUnicastIPAddressEntry : UnicastRow -> result UnicastRow).
  Context (convertInterfaceLUIDToGUID : Z -> result Guid) (convertInterfaceGUIDToLUID : Guid -> result Z)
    (convertInterfaceIndexToLUID : Z -> result Z).

(** [MibIPInterfaceRow.get]: the site prefix length as [Set] takes it. *)
Definition ip_row_get (row : IPRow) : result IPRow :=
  row ← getIPInterfaceEntry row;
  Ok (with_site_prefix (patch_site_prefix (family_of row) (site_prefix row)) row).

Definition IPInterface (luid family : Z) : result IPRow :=
  ip_row_get (with_key luid family initializeIPInterfaceEntry).

Definition Interface (luid : Z) : result IfRow := getIfEntry2 (zeroIf luid).
Definition GUID (luid : Z) : result Guid := convertInterfaceLUIDToGUID luid.
Definition LUIDFromGUID (guid : Guid) : result Z := convertInterfaceGUIDToLUID guid.
Definition LUIDFromIndex (index : Z) : result Z := convertInterfaceIndexToLUID (uint32 index).

(** [IPAddress]: the row of an address, all else zero. *)
Definition IPAddress (luid : Z) (addr : Addr) : result UnicastRow :=
  sa ← SetAddr addr (MkSockaddr 0 (replicate 26 0));
  getUnicastIPAddressEntry (MkUnicastRow luid sa 0 0 0 0).

(** A row read back can be set again: the patched length is one Windows accepts. *)
Lemma IPInterface_site_prefix luid family row :
  (forall r, 0 <= site_prefix r) -> (forall r n, site_prefix (with_site_prefix n r) = n) ->
  (forall r n, family_of (with_site_prefix n r) = family_of r) ->
  IPInterface luid family = Ok row ->
  (family_of row = AF_INET -> 0 <= site_prefix row <= 32) /\ (family_of row = AF_INET6 -> 0 <= site_prefix row <= 128).
Proof.
  intros Hpos Hs Hf H. unfold IPInterface, ip_row_get in H.
  destruct (getIPInterfaceEntry _) as [r|e]; [|done]. injection H as <-. rewrite Hs, Hf.
  by apply patch_site_prefix_bounds.
Qed.

End Entry.

(** ** Tables *)

Section Table.
  #[local] Set Default Proof Using "Type".
  Context {Row : Type} (api : Z -> result (list Row)).

(** A table is copied and then freed; the state is the tables the library has allocated. *)
Definition GetTable (key : Z) : prog pool (list Row) := fun p =>
  match api key with
  | Err e => (Fails e, p)
  | Ok rows =>
      let tab := p_next p in
      (t ← mret rows; _ ← modify (release tab); mret t) (alloc p)
  end.

(** Nothing the library allocated stays behind. *)
Lemma GetTable_frees key p : pool_ok p ->
  p_live (snd (GetTable key p)) = p_live p /\
  fst (GetTable key p) = match api key with Ok rows => Returns rows | Err e => Fails e end.
Proof.
  intros Hp. unfold GetTable. destruct (api key) as [rows|e]; [|done]. cbn. split; [|done]. by apply release_alloc.
Qed.
End Table.

(** The tables there are, by family or level. *)
Section Tables.
  Context {IPRow IfRow AnyRow : Type}.
  Context (getIPInterfaceTable : Z -> result (list IPRow)) (getIfTable2Ex : Z -> result (list IfRow))
    (getUnicastIPAddressTable : Z -> result (list UnicastRow)) (getAnycastIPAddressTable : Z -> result (list AnyRow))
    (getIPForwardTable2 : Z -> result (list ForwardRow)).

Definition GetIPInterfaceTable (family : Z) : prog pool (list IPRow) := GetTable getIPInterfaceTable family.
Definition GetIfTable2Ex (level : Z) : prog pool (list IfRow) := GetTable getIfTable2Ex level.
Definition GetUnicastIPAddressTable (family : Z) : prog pool (list UnicastRow) := GetTable getUnicastIPAddressTable family.
Definition GetAnycastIPAddressTable (family : Z) : prog pool (list AnyRow) := GetTable getAnycastIPAddressTable family.
Definition GetIPForwardTable2 (family : Z) : prog pool (list ForwardRow) := GetTable getIPForwardTable2 family.
End Tables.

(** ** [SetInterfaceDnsSettings] *)

(** The GUID is 16 bytes in memory; read as words of [n] bytes, little-endian. *)
Fixpoint words (count n : nat) (guid : list byte) : list Z :=
  match count with
  | O => []
  | S count => get_le (take n guid) :: words count n (drop n guid)
  end.

Inductive dns_call := ByPtr (guid : list byte) | ByQwords (guid1 guid2 : Z) | ByDwords (guid1 guid2 guid3 guid4 : Z).

Definition SetInterfaceDnsSettings_call (goarch : string) (guid : list byte) : outcome dns_call :=
  if bool_decide (goarch = "amd64") then Returns (ByPtr guid)
  else if bool_decide (goarch = "arm64") then
    match words 2 8 guid with [w0; w1] => Returns (ByQwords w0 w1) | _ => Panics "unreachable" end
  else if bool_decide (goarch ∈ ["arm"; "386"]) then
    match words 4 4 guid with [w0; w1; w2; w3] => Returns (ByDwords w0 w1 w2 w3) | _ => Panics "unreachable" end
  else Panics "unknown calling convention".

(** What a callee that takes the structure by value finds: its words in order. *)
Definition received (c : dns_call) : list byte :=
  match c with
  | ByPtr guid => guid
  | ByQwords a b => put_le 8 a ++ put_le 8 b
  | ByDwords a b c d => put_le 4 a ++ put_le 4 b ++ put_le 4 c ++ put_le 4 d
  end.

Lemma words_bytes n count : forall guid, length guid = (count * n)%nat ->
  mjoin (put_le n <$> words count n guid) = guid /\ length (words count n guid) = count.
Proof.
  induction count as [|count IH]; intros guid Hl; cbn [words].
  - split; [|done]. by destruct guid.
  - destruct (IH (drop n guid)) as [E1 E2]; [rewrite length_drop; lia|].
    cbn [fmap list_fmap mjoin list_join length]. rewrite E2. split; [|done].
    transitivity (take n guid ++ drop n guid); [|apply take_drop]. f_equal; [|exact E1].
    rewrite <- (put_get_le (take n guid)) at 2. f_equal. rewrite length_take. lia.
Qed.

(** On every architecture Windows has, the callee gets the same sixteen bytes. *)
Theorem dns_settings_guid_intact goarch guid :
  length guid = 16%nat -> (goarch ∈ ["amd64"; "arm64"; "arm"; "386"]) ->
  exists c, SetInterfaceDnsSettings_call goarch guid = Returns c /\ received c = guid.
Proof.
  intros Hl Ha. unfold SetInterfaceDnsSettings_call.
  case_bool_decide; [by exists (ByPtr guid)|]. case_bool_decide.
  - destruct (words_bytes 8 2 guid Hl) as [E1 E2].
    destruct (words 2 8 guid) as [|a [|b [|]]]; try done.
    exists (ByQwords a b). split; [done|]. rewrite <- E1. cbn. by rewrite app_nil_r.
  - rewrite bool_decide_true by set_solver. destruct (words_bytes 4 4 guid Hl) as [E1 E2].
    destruct (words 4 4 guid) as [|a [|b [|c [|d [|]]]]]; try done.
    exists (ByDwords a b c d). split; [done|]. rewrite <- E1. cbn. by rewrite app_nil_r.
Qed.

Lemma dns_settings_guid_intact_witness :
  exists c, SetInterfaceDnsSettings_call "386" (put_le 16 (2 ^ 100)) = Returns c /\ received c = put_le 16 (2 ^ 100).
Proof.
  apply dns_settings_guid_intact; [reflexivity|].
  apply (bool_decide_unpack _). vm_compute. exact I.
Defined.
