(* ===== verification/WinApi.v ===== *)
(** * The system call bindings: src/internal/winipcfg/zwinipcfg_windows.go

    The generated functions that call iphlpapi.dll, each as it is written, the [//sys]
    declarations of winipcfg.go they were generated from, and the methods of types.go that
    pass a row or a table on to one of them. A pointer is the address it holds; what the
    library does with its arguments is a parameter. *)

From S2P Require Import Prelude Frames WinCalls.
#[local] Open Scope string_scope.
#[local] Open Scope list_scope.
#[local] Open Scope Z_scope.

Section Dll.
  #[local] Set Default Proof Using "Type".
  (** The procedures of iphlpapi.dll, by name: [None] for one this Windows does not have;
      the first result register. [missing] and [Errno] are the error texts. *)
  Context {Sys : Type} (procedure : string -> option (list Z -> Sys -> Z * Sys)).
  Context (missing : string -> string) (Errno : Z -> string).

(** [LazyProc.Find], and [Addr], which panics where [Find] fails. *)
Definition Find (proc : string) : prog Sys unit :=
  match procedure proc with Some _ => mret tt | None => throw (missing proc) end.

Definition Addr (proc : string) : prog Sys (list Z -> Sys -> Z * Sys) :=
  match procedure proc with Some f => mret f | None => panic (missing proc) end.

(** [syscall.Syscall] and [Syscall6] pass the first [nargs] of their words. *)
Definition invoke (f : list Z -> Sys -> Z * Sys) (args : list Z) : prog Sys Z := fun s =>
  let '(r0, s) := f args s in (Returns r0, s).

Definition Syscall_words (proc : string) (nargs : nat) (words : list Z) : prog Sys Z :=
  f ← Addr proc; invoke f (take nargs words).

Definition Syscall (proc : string) (nargs : nat) (a1 a2 a3 : Z) : prog Sys Z :=
  Syscall_words proc nargs [a1; a2; a3].
Definition Syscall6 (proc : string) (nargs : nat) (a1 a2 a3 a4 a5 a6 : Z) : prog Sys Z :=
  Syscall_words proc nargs [a1; a2; a3; a4; a5; a6].

(** [if r0 != 0 { ret = syscall.Errno(r0) }]. *)
Definition errno (r0 : Z) : prog Sys unit :=
  if bool_decide (r0 <> 0) then throw (Errno r0) else mret tt.

(** [errnoErr]: the generator writes it whether or not a function needs it. *)
Definition errnoERROR_IO_PENDING : Z := 997.
Definition errnoErr (EINVAL e : Z) : Z := if bool_decide (e = 0) then EINVAL else e.

(** ** The generated functions *)

Definition cancelMibChangeNotify2 (notificationHandle : Z) : prog Sys unit :=
  r0 ← Syscall "CancelMibChangeNotify2" 1 notificationHandle 0 0; errno r0.

Definition convertInterfaceGUIDToLUID (interfaceGUID interfaceLUID : Z) : prog Sys unit :=
  r0 ← Syscall "ConvertInterfaceGuidToLuid" 2 interfaceGUID interfaceLUID 0; errno r0.

Definition convertInterfaceIndexToLUID (interfaceIndex interfaceLUID : Z) : prog Sys unit :=
  r0 ← Syscall "ConvertInterfaceIndexToLuid" 2 interfaceIndex interfaceLUID 0; errno r0.

Definition convertInterfaceLUIDToGUID (interfaceLUID interfaceGUID : Z) : prog Sys unit :=
  r0 ← Syscall "ConvertInterfaceLuidToGuid" 2 interfaceLUID interfaceGUID 0; errno r0.

Definition createAnycastIPAddressEntry (row : Z) : prog Sys unit :=
  r0 ← Syscall "CreateAnycastIpAddressEntry" 1 row 0 0; errno r0.

Definition createIPForwardEntry2 (route : Z) : prog Sys unit :=
  r0 ← Syscall "CreateIpForwardEntry2" 1 route 0 0; errno r0.

Definition createUnicastIPAddressEntry (row : Z) : prog Sys unit :=
  r0 ← Syscall "CreateUnicastIpAddressEntry" 1 row 0 0; errno r0.

Definition deleteAnycastIPAddressEntry (row : Z) : prog Sys unit :=
  r0 ← Syscall "DeleteAnycastIpAddressEntry" 1 row 0 0; errno r0.

Definition deleteIPForwardEntry2 (route : Z) : prog Sys unit :=
  r0 ← Syscall "DeleteIpForwardEntry2" 1 route 0 0; errno r0.

Definition deleteUnicastIPAddressEntry (row : Z) : prog Sys unit :=
  r0 ← Syscall "DeleteUnicastIpAddressEntry" 1 row 0 0; errno r0.

Definition freeMibTable (memory : Z) : prog Sys unit :=
  _ ← Syscall "FreeMibTable" 1 memory 0 0; mret tt.

Definition getAnycastIPAddressEntry (row : Z) : prog Sys unit :=
  r0 ← Syscall "GetAnycastIpAddressEntry" 1 row 0 0; errno r0.

Definition getAnycastIPAddressTable (family table : Z) : prog Sys unit :=
  r0 ← Syscall "GetAnycastIpAddressTable" 2 family table 0; errno r0.

Definition getIfEntry2 (row : Z) : prog Sys unit :=
  r0 ← Syscall "GetIfEntry2" 1 row 0 0; errno r0.

Definition getIfTable2Ex (level table : Z) : prog Sys unit :=
  r0 ← Syscall "GetIfTable2Ex" 2 level table 0; errno r0.

Definition getIPForwardEntry2 (route : Z) : prog Sys unit :=
  r0 ← Syscall "GetIpForwardEntry2" 1 route 0 0; errno r0.

Definition getIPForwardTable2 (family table : Z) : prog Sys unit :=
  r0 ← Syscall "GetIpForwardTable2" 2 family table 0; errno r0.

Definition getIPInterfaceEntry (row : Z) : prog Sys unit :=
  r0 ← Syscall "GetIpInterfaceEntry" 1 row 0 0; errno r0.

Definition getIPInterfaceTable (family table : Z) : prog Sys unit :=
  r0 ← Syscall "GetIpInterfaceTable" 2 family table 0; errno r0.

Definition getUnicastIPAddressEntry (row : Z) : prog Sys unit :=
  r0 ← Syscall "GetUnicastIpAddressEntry" 1 row 0 0; errno r0.

Definition getUnicastIPAddressTable (family table : Z) : prog Sys unit :=
  r0 ← Syscall "GetUnicastIpAddressTable" 2 family table 0; errno r0.

Definition initializeIPForwardEntry (route : Z) : prog Sys unit :=
  _ ← Syscall "InitializeIpForwardEntry" 1 route 0 0; mret tt.

Definition initializeIPInterfaceEntry (row : Z) : prog Sys unit :=
  _ ← Syscall "InitializeIpInterfaceEntry" 1 row 0 0; mret tt.

Definition initializeUnicastIPAddressEntry (row : Z) : prog Sys unit :=
  _ ← Syscall "InitializeUnicastIpAddressEntry" 1 row 0 0; mret tt.

Definition notifyIPInterfaceChange (family : Z) (callback : Z) (callerContext : Z) (initialNotification : bool) (notificationHandle : Z) : prog Sys unit :=
  let _p0 := if initialNotification then 1 else 0 in
  r0 ← Syscall6 "NotifyIpInterfaceChange" 5 family callback callerContext _p0 notificationHandle 0; errno r0.

Definition notifyRouteChange2 (family : Z) (callback : Z) (callerContext : Z) (initialNotification : bool) (notificationHandle : Z) : prog Sys unit :=
  let _p0 := if initialNotification then 1 else 0 in
  r0 ← Syscall6 "NotifyRouteChange2" 5 family callback callerContext _p0 notificationHandle 0; errno r0.

Definition notifyUnicastIPAddressChange (family : Z) (callback : Z) (callerContext : Z) (initialNotification : bool) (notificationHandle : Z) : prog Sys unit :=
  let _p0 := if initialNotification then 1 else 0 in
  r0 ← Syscall6 "NotifyUnicastIpAddressChange" 5 family callback callerContext _p0 notificationHandle 0; errno r0.

Definition setInterfaceDnsSettingsByDwords (guid1 guid2 guid3 guid4 settings : Z) : prog Sys unit :=
  _ ← Find "SetInterfaceDnsSettings";
  r0 ← Syscall6 "SetInterfaceDnsSettings" 5 guid1 guid2 guid3 guid4 settings 0; errno r0.

Definition setInterfaceDnsSettingsByQwords (guid1 guid2 settings : Z) : prog Sys unit :=
  _ ← Find "SetInterfaceDnsSettings";
  r0 ← Syscall "SetInterfaceDnsSettings" 3 guid1 guid2 settings; errno r0.

Definition setInterfaceDnsSettingsByPtr (guid settings : Z) : prog Sys unit :=
  _ ← Find "SetInterfaceDnsSettings";
  r0 ← Syscall "SetInterfaceDnsSettings" 2 guid settings 0; errno r0.

Definition setIPForwardEntry2 (route : Z) : prog Sys unit :=
  r0 ← Syscall "SetIpForwardEntry2" 1 route 0 0; errno r0.

Definition setIPInterfaceEntry (row : Z) : prog Sys unit :=
  r0 ← Syscall "SetIpInterfaceEntry" 1 row 0 0; errno r0.

Definition setUnicastIPAddressEntry (row : Z) : prog Sys unit :=
  r0 ← Syscall "SetUnicastIpAddressEntry" 1 row 0 0; errno r0.

(** ** What they were generated from *)

(** The types of the parameters, as far as they decide how one is passed; an argument. *)
Inductive param := TPointer | TWord | TBool.
Inductive argument := Word (z : Z) | Bool (b : bool).

Definition accepts (p : param) (a : argument) : Prop :=
  match p, a with
  | (TPointer | TWord), Word _ => True
  | TBool, Bool _ => True
  | _, _ => False
  end.

(** [//sys name(params) (ret error) = iphlpapi.proc], with a question mark for a procedure
    that may be missing. *)
Record declaration := Decl {
  d_name : string; d_params : list param; d_ret : bool; d_proc : string; d_optional : bool
}.

Definition interface_calls : list declaration :=
  [Decl "freeMibTable" [TPointer] false "FreeMibTable" false;
   Decl "initializeIPInterfaceEntry" [TPointer] false "InitializeIpInterfaceEntry" false;
   Decl "getIPInterfaceTable" [TWord; TPointer] true "GetIpInterfaceTable" false;
   Decl "getIPInterfaceEntry" [TPointer] true "GetIpInterfaceEntry" false;
   Decl "setIPInterfaceEntry" [TPointer] true "SetIpInterfaceEntry" false;
   Decl "getIfEntry2" [TPointer] true "GetIfEntry2" false;
   Decl "getIfTable2Ex" [TWord; TPointer] true "GetIfTable2Ex" false;
   Decl "convertInterfaceLUIDToGUID" [TPointer; TPointer] true "ConvertInterfaceLuidToGuid" false;
   Decl "convertInterfaceGUIDToLUID" [TPointer; TPointer] true "ConvertInterfaceGuidToLuid" false;
   Decl "convertInterfaceIndexToLUID" [TWord; TPointer] true "ConvertInterfaceIndexToLuid" false].

Definition unicast_calls : list declaration :=
  [Decl "getUnicastIPAddressTable" [TWord; TPointer] true "GetUnicastIpAddressTable" false;
   Decl "initializeUnicastIPAddressEntry" [TPointer] false "InitializeUnicastIpAddressEntry" false;
   Decl "getUnicastIPAddressEntry" [TPointer] true "GetUnicastIpAddressEntry" false;
   Decl "setUnicastIPAddressEntry" [TPointer] true "SetUnicastIpAddressEntry" false;
   Decl "createUnicastIPAddressEntry" [TPointer] true "CreateUnicastIpAddressEntry" false;
   Decl "deleteUnicastIPAddressEntry" [TPointer] true "DeleteUnicastIpAddressEntry" false].

Definition anycast_calls : list declaration :=
  [Decl "getAnycastIPAddressTable" [TWord; TPointer] true "GetAnycastIpAddressTable" false;
   Decl "getAnycastIPAddressEntry" [TPointer] true "GetAnycastIpAddressEntry" false;
   Decl "createAnycastIPAddressEntry" [TPointer] true "CreateAnycastIpAddressEntry" false;
   Decl "deleteAnycastIPAddressEntry" [TPointer] true "DeleteAnycastIpAddressEntry" false].

Definition route_calls : list declaration :=
  [Decl "getIPForwardTable2" [TWord; TPointer] true "GetIpForwardTable2" false;
   Decl "initializeIPForwardEntry" [TPointer] false "InitializeIpForwardEntry" false;
   Decl "getIPForwardEntry2" [TPointer] true "GetIpForwardEntry2" false;
   Decl "setIPForwardEntry2" [TPointer] true "SetIpForwardEntry2" false;
   Decl "createIPForwardEntry2" [TPointer] true "CreateIpForwardEntry2" false;
   Decl "deleteIPForwardEntry2" [TPointer] true "DeleteIpForwardEntry2" false].

Definition notification_calls : list declaration :=
  [Decl "notifyIPInterfaceChange" [TWord; TWord; TWord; TBool; TPointer] true "NotifyIpInterfaceChange" false;
   Decl "notifyUnicastIPAddressChange" [TWord; TWord; TWord; TBool; TPointer] true "NotifyUnicastIpAddressChange" false;
   Decl "notifyRouteChange2" [TWord; TWord; TWord; TBool; TPointer] true "NotifyRouteChange2" false;
   Decl "cancelMibChangeNotify2" [TWord] true "CancelMibChangeNotify2" false].

Definition dns_calls : list declaration :=
  [Decl "setInterfaceDnsSettingsByPtr" [TPointer; TPointer] true "SetInterfaceDnsSettings" true;
   Decl "setInterfaceDnsSettingsByQwords" [TWord; TWord; TPointer] true "SetInterfaceDnsSettings" true;
   Decl "setInterfaceDnsSettingsByDwords" [TWord; TWord; TWord; TWord; TPointer] true "SetInterfaceDnsSettings" true].

Definition declarations : list declaration :=
  interface_calls ++ unicast_calls ++ anycast_calls ++ route_calls ++ notification_calls ++ dns_calls.

(** How a declaration is carried out: the arguments are words in order, filled up with
    zeros, and a result that is not zero is the error. *)
Definition word (a : argument) : Z :=
  match a with Word z => z | Bool b => if b then 1 else 0 end.

Definition carry_out (d : declaration) (args : list argument) : prog Sys unit :=
  let n := length args in
  let size := if bool_decide (n <= 3)%nat then 3%nat else 6%nat in
  _ ← (if d_optional d then Find (d_proc d) else mret tt);
  r0 ← Syscall_words (d_proc d) n ((word <$> args) ++ replicate (size - n) 0);
  if d_ret d then errno r0 else mret tt.

(** The function of a name, on a list of arguments. *)
Definition no_match : prog Sys unit := panic "wrong arguments".
Definition on1 (f : Z -> prog Sys unit) (args : list argument) : prog Sys unit :=
  match args with [Word a] => f a | _ => no_match end.
Definition on2 (f : Z -> Z -> prog Sys unit) (args : list argument) : prog Sys unit :=
  match args with [Word a; Word b] => f a b | _ => no_match end.
Definition on3 (f : Z -> Z -> Z -> prog Sys unit) (args : list argument) : prog Sys unit :=
  match args with [Word a; Word b; Word c] => f a b c | _ => no_match end.
Definition on5 (f : Z -> Z -> Z -> Z -> Z -> prog Sys unit) (args : list argument) : prog Sys unit :=
  match args with [Word a; Word b; Word c; Word d; Word e] => f a b c d e | _ => no_match end.
Definition on5b (f : Z -> Z -> Z -> bool -> Z -> prog Sys unit) (args : list argument) : prog Sys unit :=
  match args with [Word a; Word b; Word c; Bool d; Word e] => f a b c d e | _ => no_match end.

Definition bindings : list (string * (list argument -> prog Sys unit)) :=
  [("cancelMibChangeNotify2", on1 cancelMibChangeNotify2);
   ("convertInterfaceGUIDToLUID", on2 convertInterfaceGUIDToLUID);
   ("convertInterfaceIndexToLUID", on2 convertInterfaceIndexToLUID);
   ("convertInterfaceLUIDToGUID", on2 convertInterfaceLUIDToGUID);
   ("createAnycastIPAddressEntry", on1 createAnycastIPAddressEntry);
   ("createIPForwardEntry2", on1 createIPForwardEntry2);
   ("createUnicastIPAddressEntry", on1 createUnicastIPAddressEntry);
   ("deleteAnycastIPAddressEntry", on1 deleteAnycastIPAddressEntry);
   ("deleteIPForwardEntry2", on1 deleteIPForwardEntry2);
   ("deleteUnicastIPAddressEntry", on1 deleteUnicastIPAddressEntry);
   ("freeMibTable", on1 freeMibTable);
   ("getAnycastIPAddressEntry", on1 getAnycastIPAddressEntry);
   ("getAnycastIPAddressTable", on2 getAnycastIPAddressTable);
   ("getIfEntry2", on1 getIfEntry2);
   ("getIfTable2Ex", on2 getIfTable2Ex);
   ("getIPForwardEntry2", on1 getIPForwardEntry2);
   ("getIPForwardTable2", on2 getIPForwardTable2);
   ("getIPInterfaceEntry", on1 getIPInterfaceEntry);
   ("getIPInterfaceTable", on2 getIPInterfaceTable);
   ("getUnicastIPAddressEntry", on1 getUnicastIPAddressEntry);
   ("getUnicastIPAddressTable", on2 getUnicastIPAddressTable);
   ("initializeIPForwardEntry", on1 initializeIPForwardEntry);
   ("initializeIPInterfaceEntry", on1 initializeIPInterfaceEntry);
   ("initializeUnicastIPAddressEntry", on1 initializeUnicastIPAddressEntry);
   ("notifyIPInterfaceChange", on5b notifyIPInterfaceChange);
   ("notifyRouteChange2", on5b notifyRouteChange2);
   ("notifyUnicastIPAddressChange", on5b notifyUnicastIPAddressChange);
   ("setInterfaceDnsSettingsByDwords", on5 setInterfaceDnsSettingsByDwords);
   ("setInterfaceDnsSettingsByQwords", on3 setInterfaceDnsSettingsByQwords);
   ("setInterfaceDnsSettingsByPtr", on2 setInterfaceDnsSettingsByPtr);
   ("setIPForwardEntry2", on1 setIPForwardEntry2);
   ("setIPInterfaceEntry", on1 setIPInterfaceEntry);
   ("setUnicastIPAddressEntry", on1 setUnicastIPAddressEntry)].

(** The function bound to a name. *)
Fixpoint bound (name : string) (l : list (string * (list argument -> prog Sys unit))) :
    option (list argument -> prog Sys unit) :=
  match l with
  | [] => None
  | (n, f) :: l => if String.eqb name n then Some f else bound name l
  end.

(** ** The methods of types.go *)

Definition MibIPInterfaceRow_Init (row : Z) : prog Sys unit := initializeIPInterfaceEntry row.
Definition MibIPInterfaceRow_Set (row : Z) : prog Sys unit := setIPInterfaceEntry row.
Definition mibIPInterfaceTable_free (tab : Z) : prog Sys unit := freeMibTable tab.
Definition MibIfRow2_get (row : Z) : prog Sys unit := getIfEntry2 row.
Definition mibIfTable2_free (tab : Z) : prog Sys unit := freeMibTable tab.
Definition MibUnicastIPAddressRow_Init (row : Z) : prog Sys unit := initializeUnicastIPAddressEntry row.
Definition MibUnicastIPAddressRow_get (row : Z) : prog Sys unit := getUnicastIPAddressEntry row.
Definition MibUnicastIPAddressRow_Set (row : Z) : prog Sys unit := setUnicastIPAddressEntry row.
Definition MibUnicastIPAddressRow_Create (row : Z) : prog Sys unit := createUnicastIPAddressEntry row.
Definition MibUnicastIPAddressRow_Delete (row : Z) : prog Sys unit := deleteUnicastIPAddressEntry row.
Definition mibUnicastIPAddressTable_free (tab : Z) : prog Sys unit := freeMibTable tab.
Definition MibAnycastIPAddressRow_get (row : Z) : prog Sys unit := getAnycastIPAddressEntry row.
Definition MibAnycastIPAddressRow_Create (row : Z) : prog Sys unit := createAnycastIPAddressEntry row.
Definition MibAnycastIPAddressRow_Delete (row : Z) : prog Sys unit := deleteAnycastIPAddressEntry row.
Definition mibAnycastIPAddressTable_free (tab : Z) : prog Sys unit := freeMibTable tab.
Definition MibIPforwardRow2_Init (row : Z) : prog Sys unit := initializeIPForwardEntry row.
Definition MibIPforwardRow2_get (row : Z) : prog Sys unit := getIPForwardEntry2 row.
Definition MibIPforwardRow2_Set (row : Z) : prog Sys unit := setIPForwardEntry2 row.
Definition MibIPforwardRow2_Create (row : Z) : prog Sys unit := createIPForwardEntry2 row.
Definition MibIPforwardRow2_Delete (row : Z) : prog Sys unit := deleteIPForwardEntry2 row.
Definition mibIPforwardTable2_free (tab : Z) : prog Sys unit := freeMibTable tab.

(** ** [SetInterfaceDnsSettings] down to the library *)

(** [guid] is at the address [at_guid]; the settings at [settings]. *)
Definition SetInterfaceDnsSettings (goarch : string) (guid : list byte) (at_guid settings : Z) : prog Sys unit :=
  match SetInterfaceDnsSettings_call goarch guid with
  | Returns (ByPtr _) => setInterfaceDnsSettingsByPtr at_guid settings
  | Returns (ByQwords a b) => setInterfaceDnsSettingsByQwords a b settings
  | Returns (ByDwords a b c d) => setInterfaceDnsSettingsByDwords a b c d settings
  | Fails e => throw e
  | Panics e => panic e
  end.

(** ** Theorems *)

(** The function of a declaration is the one carried out. *)
Definition follows (d : declaration) : Prop :=
  forall args s, Forall2 accepts (d_params d) args ->
    exists f, bound (d_name d) bindings = Some f /\ f args s = carry_out d args s.

Lemma accepts_word p a : accepts p a -> p <> TBool -> exists z, a = Word z.
Proof. destruct p, a; cbn; try done; eauto. Qed.

Lemma accepts_bool a : accepts TBool a -> exists b, a = Bool b.
Proof. destruct a; cbn; try done; eauto. Qed.

Ltac binding :=
  intros args s Hargs;
  repeat match goal with
  | H : Forall2 _ (_ :: _) _ |- _ =>
      let Ha := fresh "Ha" in
      apply Forall2_cons_inv_l in H as (? & ? & Ha & H & ->);
      first [apply accepts_bool in Ha as [? ->] | apply accepts_word in Ha as [? ->]; [|done]]
  end;
  match goal with H : Forall2 _ [] _ |- _ => apply Forall2_nil_inv_l in H as -> end;
  eexists; split; [reflexivity|].

Lemma declarations_follow : Forall follows declarations.
Proof.
  unfold declarations, interface_calls, unicast_calls, anycast_calls, route_calls, notification_calls, dns_calls.
  cbn [app]. repeat apply Forall_cons_2; try apply Forall_nil_2; unfold follows; cbn [d_name d_params].
  all: binding.
  all: reflexivity.
Qed.

(** C38: every generated function does what its [//sys] declaration says, for all arguments
    of the declared types, and there are no others: the procedure named gets exactly the
    declared arguments in order, a procedure marked optional is looked up first so that its
    absence is an error instead of a panic, and a result that is not zero is the error. *)
Theorem bindings_follow_declarations :
  bindings.*1 ≡ₚ d_name <$> declarations /\ Forall follows declarations.
Proof.
  split; [|apply declarations_follow].
  apply (bool_decide_unpack _). vm_compute. exact I.
Qed.

(** The words the library gets for the GUID: its address on amd64, else its bytes. *)
Definition guid_words (goarch : string) (guid : list byte) (at_guid : Z) (ws : list Z) : Prop :=
  if bool_decide (goarch = "amd64") then ws = [at_guid]
  else exists n, (n * length ws = 16)%nat /\ mjoin (put_le n <$> ws) = guid.

(** on every architecture [SetInterfaceDnsSettings] makes at most one call, with the
    GUID (by address, or its sixteen bytes in machine words) and then the settings; a
    Windows without the procedure gives an error and no call, and never a panic. *)
Theorem dns_settings_reach_library goarch guid at_guid settings s :
  length guid = 16%nat -> goarch ∈ ["amd64"; "arm64"; "arm"; "386"] ->
  exists ws, guid_words goarch guid at_guid ws /\
    SetInterfaceDnsSettings goarch guid at_guid settings s =
      match procedure "SetInterfaceDnsSettings" with
      | None => (Fails (missing "SetInterfaceDnsSettings"), s)
      | Some f => (invoke f (ws ++ [settings]) ≫= errno) s
      end.
Proof.
  intros Hl Ha. unfold SetInterfaceDnsSettings, SetInterfaceDnsSettings_call, guid_words.
  case_bool_decide as E1; [|case_bool_decide as E2; [|rewrite bool_decide_true by set_solver]].
  - exists [at_guid]. split; [done|]. unfold setInterfaceDnsSettingsByPtr, Find, Syscall, Syscall_words, Addr, mbind, prog_bind.
    by destruct (procedure _).
  - destruct (words_bytes 8 2 guid Hl) as [Hb Hw]. destruct (words 2 8 guid) as [|a [|b [|]]]; try done.
    exists [a; b]. split; [by exists 8%nat|].
    unfold setInterfaceDnsSettingsByQwords, Find, Syscall, Syscall_words, Addr, mbind, prog_bind. by destruct (procedure _).
  - destruct (words_bytes 4 4 guid Hl) as [Hb Hw]. destruct (words 4 4 guid) as [|a [|b [|c [|d [|]]]]]; try done.
    exists [a; b; c; d]. split; [by exists 4%nat|].
    unfold setInterfaceDnsSettingsByDwords, Find, Syscall6, Syscall_words, Addr, mbind, prog_bind. by destruct (procedure _).
Qed.
End Dll.

(** A library that records its calls and refuses each with error 5. *)
Definition refusing (proc : string) : option (list Z -> list (string * list Z) -> Z * list (string * list Z)) :=
  Some (fun args calls => (5, calls ++ [(proc, args)])).

Lemma dns_settings_reach_library_witness :
  exists ws, guid_words "386" (put_le 16 (2 ^ 32 + 7)) 4096 ws /\
    SetInterfaceDnsSettings refusing (fun p => p) (fun _ => "denied") "386" (put_le 16 (2 ^ 32 + 7)) 4096 8192 [] =
      (Fails "denied", [("SetInterfaceDnsSettings", ws ++ [8192])]) /\ ws = [7; 1; 0; 0].
Proof.
  destruct (dns_settings_reach_library refusing (fun p => p) (fun _ => "denied") "386" (put_le 16 (2 ^ 32 + 7)) 4096 8192 [])
    as (ws & Hw & E).
  - reflexivity.
  - apply (bool_decide_unpack _). vm_compute. exact I.
  - exists ws. split; [exact Hw|]. split; [exact E|].
    vm_compute in E. injection E as E. change ([7; 1; 0; 0] ++ [8192] = ws ++ [8192]) in E. by apply app_inj_tail in E as [<- _].
Defined.
