(* ===== verification/WinConsts.v ===== *)
(** * The enumerations of src/internal/winipcfg/types.go and its accessors

    The constants of the IP helper headers, block by block, with the Go type each one has,
    and the methods that read the fields of a row: strings up to their NUL, addresses up to
    their length. *)

From S2P Require Import Prelude.
#[local] Open Scope string_scope.
#[local] Open Scope list_scope.
#[local] Open Scope Z_scope.

(** ** Constants *)

(** The widths the named types have. *)
Inductive width := Uint8 | Uint16 | Uint32 | Int32.

Definition in_width (w : width) (z : Z) : bool :=
  match w with
  | Uint8 => bool_decide (0 <= z < 2 ^ 8)
  | Uint16 => bool_decide (0 <= z < 2 ^ 16)
  | Uint32 => bool_decide (0 <= z < 2 ^ 32)
  | Int32 => bool_decide (- 2 ^ 31 <= z < 2 ^ 31)
  end.

Definition named_types : list (string * width) :=
  [("AddressFamily", Uint16);
   ("IPAAFlags", Uint32);
   ("IfOperStatus", Uint32);
   ("IfType", Uint32);
   ("MibIfEntryLevel", Uint32);
   ("NdisMedium", Uint32);
   ("NdisPhysicalMedium", Uint32);
   ("NetIfAccessType", Uint32);
   ("NetIfAdminStatus", Uint32);
   ("NetIfConnectionType", Uint32);
   ("NetIfDirectionType", Uint32);
   ("NetIfMediaConnectState", Uint32);
   ("DadState", Uint32);
   ("PrefixOrigin", Uint32);
   ("LinkLocalAddressBehavior", Int32);
   ("OffloadRod", Uint8);
   ("RouteOrigin", Uint32);
   ("RouteProtocol", Uint32);
   ("RouterDiscoveryBehavior", Int32);
   ("SuffixOrigin", Uint32);
   ("MibNotificationType", Uint32);
   ("TunnelType", Uint32);
   ("InterfaceAndOperStatusFlags", Uint8);
   ("GAAFlags", Uint32);
   ("ScopeLevel", Uint32)].

(** A constant of a block; an entry with a value and no type of its own is untyped, whatever
    the type of the first entry. *)
Record constant := Const { c_name : string; c_type : option string; c_value : Z }.

(** Entries that repeat the first one's type and expression of [iota]. *)
Definition iota (type : string) (f : Z -> Z) (names : list string) : list constant :=
  imap (fun i n => Const n (Some type) (f (Z.of_nat i))) names.

Definition untyped (l : list (string * Z)) : list constant :=
  (fun p => Const p.1 None p.2) <$> l.

Definition value_in (l : list constant) (name : string) : Z :=
  match list_find (fun c => c_name c = name) l with Some (_, c) => c_value c | None => 0 end.

Definition sizes : list constant :=
  untyped [("anySize", 1); ("maxDNSSuffixStringLength", 256); ("maxDHCPv6DUIDLength", 130);
           ("ifMaxStringSize", 256); ("ifMaxPhysAddressLength", 32)].

Definition IfType_consts_low : list constant :=
  untyped
    [("IfTypeRegular1822", 2); ("IfTypeHdh1822", 3); ("IfTypeDdnX25", 4); ("IfTypeRfc877X25", 5);
     ("IfTypeEthernetCSMACD", 6); ("IfTypeISO88023CSMACD", 7); ("IfTypeISO88024Tokenbus", 8);
     ("IfTypeISO88025Tokenring", 9); ("IfTypeISO88026Man", 10); ("IfTypeStarlan", 11);
     ("IfTypeProteon10Mbit", 12); ("IfTypeProteon80Mbit", 13); ("IfTypeHyperchannel", 14); ("IfTypeFddi", 15);
     ("IfTypeLapB", 16); ("IfTypeSdlc", 17); ("IfTypeDs1", 18); ("IfTypeE1", 19); ("IfTypeBasicISDN", 20);
     ("IfTypePrimaryISDN", 21); ("IfTypePropPoint2PointSerial", 22); ("IfTypePPP", 23);
     ("IfTypeSoftwareLoopback", 24); ("IfTypeEon", 25); ("IfTypeEthernet3Mbit", 26); ("IfTypeNsip", 27);
     ("IfTypeSlip", 28); ("IfTypeUltra", 29); ("IfTypeDs3", 30); ("IfTypeSip", 31); ("IfTypeFramerelay", 32);
     ("IfTypeRs232", 33); ("IfTypePara", 34); ("IfTypeArcnet", 35); ("IfTypeArcnetPlus", 36);
     ("IfTypeAtm", 37); ("IfTypeMioX25", 38); ("IfTypeSonet", 39); ("IfTypeX25Ple", 40);
     ("IfTypeIso88022LLC", 41); ("IfTypeLocaltalk", 42); ("IfTypeSmdsDxi", 43);
     ("IfTypeFramerelayService", 44); ("IfTypeV35", 45); ("IfTypeHssi", 46); ("IfTypeHippi", 47);
     ("IfTypeModem", 48); ("IfTypeAal5", 49); ("IfTypeSonetPath", 50); ("IfTypeSonetVt", 51);
     ("IfTypeSmdsIcip", 52); ("IfTypePropVirtual", 53); ("IfTypePropMultiplexor", 54); ("IfTypeIEEE80212", 55);
     ("IfTypeFibrechannel", 56); ("IfTypeHippiinterface", 57); ("IfTypeFramerelayInterconnect", 58);
     ("IfTypeAflane8023", 59); ("IfTypeAflane8025", 60); ("IfTypeCctemul", 61); ("IfTypeFastether", 62);
     ("IfTypeISDN", 63); ("IfTypeV11", 64); ("IfTypeV36", 65); ("IfTypeG703_64k", 66); ("IfTypeG703_2mb", 67);
     ("IfTypeQllc", 68); ("IfTypeFastetherFX", 69); ("IfTypeChannel", 70); ("IfTypeIEEE80211", 71);
     ("IfTypeIBM370parchan", 72); ("IfTypeEscon", 73); ("IfTypeDlsw", 74); ("IfTypeISDNS", 75);
     ("IfTypeISDNU", 76); ("IfTypeLapD", 77); ("IfTypeIpswitch", 78); ("IfTypeRsrb", 79);
     ("IfTypeAtmLogical", 80); ("IfTypeDs0", 81); ("IfTypeDs0Bundle", 82); ("IfTypeBsc", 83);
     ("IfTypeAsync", 84); ("IfTypeCnr", 85); ("IfTypeIso88025rDtr", 86); ("IfTypeEplrs", 87);
     ("IfTypeArap", 88); ("IfTypePropCnls", 89); ("IfTypeHostpad", 90); ("IfTypeTermpad", 91);
     ("IfTypeFramerelayMpi", 92); ("IfTypeX213", 93); ("IfTypeAdsl", 94); ("IfTypeRadsl", 95);
     ("IfTypeSdsl", 96); ("IfTypeVdsl", 97); ("IfTypeIso88025Crfprint", 98); ("IfTypeMyrinet", 99);
     ("IfTypeVoiceEm", 100); ("IfTypeVoiceFxo", 101); ("IfTypeVoiceFxs", 102); ("IfTypeVoiceEncap", 103);
     ("IfTypeVoiceOverip", 104); ("IfTypeAtmDxi", 105); ("IfTypeAtmFuni", 106); ("IfTypeAtmIma", 107);
     ("IfTypePPPmultilinkbundle", 108); ("IfTypeIpoverCdlc", 109); ("IfTypeIpoverClaw", 110);
     ("IfTypeStacktostack", 111); ("IfTypeVirtualipaddress", 112); ("IfTypeMpc", 113);
     ("IfTypeIpoverAtm", 114); ("IfTypeIso88025Fiber", 115); ("IfTypeTdlc", 116);
     ("IfTypeGigabitethernet", 117); ("IfTypeHdlc", 118); ("IfTypeLapF", 119); ("IfTypeV37", 120);
     ("IfTypeX25Mlp", 121); ("IfTypeX25Huntgroup", 122); ("IfTypeTransphdlc", 123); ("IfTypeInterleave", 124);
     ("IfTypeFast", 125); ("IfTypeIP", 126)].

Definition IfType_consts_high : list constant :=
  untyped
    [("IfTypeDocscableMaclayer", 127); ("IfTypeDocscableDownstream", 128); ("IfTypeDocscableUpstream", 129);
     ("IfTypeA12mppswitch", 130); ("IfTypeTunnel", 131); ("IfTypeCoffee", 132); ("IfTypeCes", 133);
     ("IfTypeAtmSubinterface", 134); ("IfTypeL2Vlan", 135); ("IfTypeL3Ipvlan", 136); ("IfTypeL3Ipxvlan", 137);
     ("IfTypeDigitalpowerline", 138); ("IfTypeMediamailoverip", 139); ("IfTypeDtm", 140); ("IfTypeDcn", 141);
     ("IfTypeIpforward", 142); ("IfTypeMsdsl", 143); ("IfTypeIEEE1394", 144); ("IfTypeIfGsn", 145);
     ("IfTypeDvbrccMaclayer", 146); ("IfTypeDvbrccDownstream", 147); ("IfTypeDvbrccUpstream", 148);
     ("IfTypeAtmVirtual", 149); ("IfTypeMplsTunnel", 150); ("IfTypeSrp", 151); ("IfTypeVoiceoveratm", 152);
     ("IfTypeVoiceoverframerelay", 153); ("IfTypeIdsl", 154); ("IfTypeCompositelink", 155);
     ("IfTypeSs7Siglink", 156); ("IfTypePropWirelessP2P", 157); ("IfTypeFrForward", 158);
     ("IfTypeRfc1483", 159); ("IfTypeUsb", 160); ("IfTypeIEEE8023adLag", 161);
     ("IfTypeBgpPolicyAccounting", 162); ("IfTypeFrf16MfrBundle", 163); ("IfTypeH323Gatekeeper", 164);
     ("IfTypeH323Proxy", 165); ("IfTypeMpls", 166); ("IfTypeMfSiglink", 167); ("IfTypeHdsl2", 168);
     ("IfTypeShdsl", 169); ("IfTypeDs1Fdl", 170); ("IfTypePos", 171); ("IfTypeDvbAsiIn", 172);
     ("IfTypeDvbAsiOut", 173); ("IfTypePlc", 174); ("IfTypeNfas", 175); ("IfTypeTr008", 176);
     ("IfTypeGr303Rdt", 177); ("IfTypeGr303Idt", 178); ("IfTypeIsup", 179);
     ("IfTypePropDocsWirelessMaclayer", 180); ("IfTypePropDocsWirelessDownstream", 181);
     ("IfTypePropDocsWirelessUpstream", 182); ("IfTypeHiperlan2", 183); ("IfTypePropBwaP2MP", 184);
     ("IfTypeSonetOverheadChannel", 185); ("IfTypeDigitalWrapperOverheadChannel", 186); ("IfTypeAal2", 187);
     ("IfTypeRadioMac", 188); ("IfTypeAtmRadio", 189); ("IfTypeImt", 190); ("IfTypeMvl", 191);
     ("IfTypeReachDsl", 192); ("IfTypeFrDlciEndpt", 193); ("IfTypeAtmVciEndpt", 194);
     ("IfTypeOpticalChannel", 195); ("IfTypeOpticalTransport", 196); ("IfTypeIEEE80216Wman", 237);
     ("IfTypeWwanpp", 243); ("IfTypeWwanpp2", 244); ("IfTypeIEEE802154", 259); ("IfTypeXboxWireless", 281)].

Definition IPAAFlags_consts : list constant :=
  iota "IPAAFlags" (Z.shiftl 1)
    ["IPAAFlagDdnsEnabled"; "IPAAFlagRegisterAdapterSuffix"; "IPAAFlagDhcpv4Enabled"; "IPAAFlagReceiveOnly";
     "IPAAFlagNoMulticast"; "IPAAFlagIpv6OtherStatefulConfig"; "IPAAFlagNetbiosOverTcpipEnabled";
     "IPAAFlagIpv4Enabled"; "IPAAFlagIpv6Enabled"; "IPAAFlagIpv6ManagedAddressConfigurationSupported"].

Definition IfOperStatus_consts : list constant :=
  iota "IfOperStatus" (fun i => i + 1)
    ["IfOperStatusUp"; "IfOperStatusDown"; "IfOperStatusTesting"; "IfOperStatusUnknown"; "IfOperStatusDormant";
     "IfOperStatusNotPresent"; "IfOperStatusLowerLayerDown"].

Definition IfType_consts : list constant :=
  [Const "IfTypeOther" (Some "IfType") 1] ++
  IfType_consts_low ++
  IfType_consts_high.

Definition MibIfEntryLevel_consts : list constant :=
  [Const "MibIfEntryNormal" (Some "MibIfEntryLevel") 0] ++
  untyped
    [("MibIfEntryNormalWithoutStatistics", 2)].

Definition NdisMedium_consts : list constant :=
  iota "NdisMedium" (fun i => i)
    ["NdisMedium802_3"; "NdisMedium802_5"; "NdisMediumFddi"; "NdisMediumWan"; "NdisMediumLocalTalk";
     "NdisMediumDix"; "NdisMediumArcnetRaw"; "NdisMediumArcnet878_2"; "NdisMediumAtm"; "NdisMediumWirelessWan";
     "NdisMediumIrda"; "NdisMediumBpc"; "NdisMediumCoWan"; "NdisMedium1394"; "NdisMediumInfiniBand";
     "NdisMediumTunnel"; "NdisMediumNative802_11"; "NdisMediumLoopback"; "NdisMediumWiMAX"; "NdisMediumIP";
     "NdisMediumMax"].

Definition NdisPhysicalMedium_consts : list constant :=
  iota "NdisPhysicalMedium" (fun i => i)
    ["NdisPhysicalMediumUnspecified"; "NdisPhysicalMediumWirelessLan"; "NdisPhysicalMediumCableModem";
     "NdisPhysicalMediumPhoneLine"; "NdisPhysicalMediumPowerLine"; "NdisPhysicalMediumDSL";
     "NdisPhysicalMediumFibreChannel"; "NdisPhysicalMedium1394"; "NdisPhysicalMediumWirelessWan";
     "NdisPhysicalMediumNative802_11"; "NdisPhysicalMediumBluetooth"; "NdisPhysicalMediumInfiniband";
     "NdisPhysicalMediumWiMax"; "NdisPhysicalMediumUWB"; "NdisPhysicalMedium802_3"; "NdisPhysicalMedium802_5";
     "NdisPhysicalMediumIrda"; "NdisPhysicalMediumWiredWAN"; "NdisPhysicalMediumWiredCoWan";
     "NdisPhysicalMediumOther"; "NdisPhysicalMediumNative802_15_4"; "NdisPhysicalMediumMax"].

Definition NetIfAccessType_consts : list constant :=
  iota "NetIfAccessType" (fun i => i + 1)
    ["NetIfAccessLoopback"; "NetIfAccessBroadcast"; "NetIfAccessPointToPoint"; "NetIfAccessPointToMultiPoint";
     "NetIfAccessMax"].

Definition NetIfAdminStatus_consts : list constant :=
  iota "NetIfAdminStatus" (fun i => i + 1)
    ["NetIfAdminStatusUp"; "NetIfAdminStatusDown"; "NetIfAdminStatusTesting"].

Definition NetIfConnectionType_consts : list constant :=
  iota "NetIfConnectionType" (fun i => i + 1)
    ["NetIfConnectionDedicated"; "NetIfConnectionPassive"; "NetIfConnectionDemand"; "NetIfConnectionMaximum"].

Definition NetIfDirectionType_consts : list constant :=
  iota "NetIfDirectionType" (fun i => i)
    ["NetIfDirectionSendReceive"; "NetIfDirectionSendOnly"; "NetIfDirectionReceiveOnly";
     "NetIfDirectionMaximum"].

Definition NetIfMediaConnectState_consts : list constant :=
  iota "NetIfMediaConnectState" (fun i => i)
    ["MediaConnectStateUnknown"; "MediaConnectStateConnected"; "MediaConnectStateDisconnected"].

Definition DadState_consts : list constant :=
  iota "DadState" (fun i => i)
    ["DadStateInvalid"; "DadStateTentative"; "DadStateDuplicate"; "DadStateDeprecated"; "DadStatePreferred"].

Definition PrefixOrigin_consts : list constant :=
  iota "PrefixOrigin" (fun i => i)
    ["PrefixOriginOther"; "PrefixOriginManual"; "PrefixOriginWellKnown"; "PrefixOriginDHCP";
     "PrefixOriginRouterAdvertisement"] ++
  untyped
    [("PrefixOriginUnchanged", (Z.shiftl 1 4))].

Definition LinkLocalAddressBehavior_consts : list constant :=
  iota "LinkLocalAddressBehavior" (fun i => i)
    ["LinkLocalAddressAlwaysOff"; "LinkLocalAddressDelayed"; "LinkLocalAddressAlwaysOn"] ++
  untyped
    [("LinkLocalAddressUnchanged", (-1))].

Definition OffloadRod_consts : list constant :=
  iota "OffloadRod" (Z.shiftl 1)
    ["ChecksumSupported"; "OptionsSupported"; "DatagramChecksumSupported"; "StreamChecksumSupported";
     "StreamOptionsSupported"; "FastPathCompatible"; "LargeSendOffloadSupported"; "GiantSendOffloadSupported"].

Definition RouteOrigin_consts : list constant :=
  iota "RouteOrigin" (fun i => i)
    ["RouteOriginManual"; "RouteOriginWellKnown"; "RouteOriginDHCP"; "RouteOriginRouterAdvertisement";
     "RouteOrigin6to4"].

Definition RouteProtocol_consts : list constant :=
  iota "RouteProtocol" (fun i => i + 1)
    ["RouteProtocolOther"; "RouteProtocolLocal"; "RouteProtocolNetMgmt"; "RouteProtocolIcmp";
     "RouteProtocolEgp"; "RouteProtocolGgp"; "RouteProtocolHello"; "RouteProtocolRip"; "RouteProtocolIsIs";
     "RouteProtocolEsIs"; "RouteProtocolCisco"; "RouteProtocolBbn"; "RouteProtocolOspf"; "RouteProtocolBgp";
     "RouteProtocolIdpr"; "RouteProtocolEigrp"; "RouteProtocolDvmrp"; "RouteProtocolRpl"; "RouteProtocolDHCP"] ++
  untyped
    [("RouteProtocolNTAutostatic", 10002); ("RouteProtocolNTStatic", 10006);
     ("RouteProtocolNTStaticNonDOD", 10007)].

Definition RouterDiscoveryBehavior_consts : list constant :=
  iota "RouterDiscoveryBehavior" (fun i => i)
    ["RouterDiscoveryDisabled"; "RouterDiscoveryEnabled"; "RouterDiscoveryDHCP"] ++
  untyped
    [("RouterDiscoveryUnchanged", (-1))].

Definition SuffixOrigin_consts : list constant :=
  iota "SuffixOrigin" (fun i => i)
    ["SuffixOriginOther"; "SuffixOriginManual"; "SuffixOriginWellKnown"; "SuffixOriginDHCP";
     "SuffixOriginLinkLayerAddress"; "SuffixOriginRandom"] ++
  untyped
    [("SuffixOriginUnchanged", (Z.shiftl 1 4))].

Definition MibNotificationType_consts : list constant :=
  iota "MibNotificationType" (fun i => i)
    ["MibParameterNotification"; "MibAddInstance"; "MibDeleteInstance"; "MibInitialNotification"].

Definition TunnelType_consts : list constant :=
  [Const "TunnelTypeNone" (Some "TunnelType") 0] ++
  untyped
    [("TunnelTypeOther", 1); ("TunnelTypeDirect", 2); ("TunnelType6to4", 11); ("TunnelTypeIsatap", 13);
     ("TunnelTypeTeredo", 14); ("TunnelTypeIPHTTPS", 15)].

Definition InterfaceAndOperStatusFlags_consts : list constant :=
  iota "InterfaceAndOperStatusFlags" (Z.shiftl 1)
    ["IAOSFHardwareInterface"; "IAOSFFilterInterface"; "IAOSFConnectorPresent"; "IAOSFNotAuthenticated";
     "IAOSFNotMediaConnected"; "IAOSFPaused"; "IAOSFLowPower"; "IAOSFEndPointInterface"].

Definition GAAFlags_bits : list constant :=
  iota "GAAFlags" (Z.shiftl 1)
    ["GAAFlagSkipUnicast"; "GAAFlagSkipAnycast"; "GAAFlagSkipMulticast"; "GAAFlagSkipDNSServer";
     "GAAFlagIncludePrefix"; "GAAFlagSkipFriendlyName"; "GAAFlagIncludeWinsInfo"; "GAAFlagIncludeGateways";
     "GAAFlagIncludeAllInterfaces"; "GAAFlagIncludeAllCompartments"; "GAAFlagIncludeTunnelBindingOrder";
     "GAAFlagSkipDNSInfo"].

(** The [|] of some of them. *)
Definition GAAFlags_or (names : list string) : Z :=
  foldr (fun n z => Z.lor (value_in GAAFlags_bits n) z) 0 names.

Definition GAAFlags_consts : list constant :=
  GAAFlags_bits ++
  [Const "GAAFlagDefault" (Some "GAAFlags") 0;
   Const "GAAFlagSkipAll" (Some "GAAFlags") (GAAFlags_or
     ["GAAFlagSkipUnicast"; "GAAFlagSkipAnycast"; "GAAFlagSkipMulticast"; "GAAFlagSkipDNSServer";
      "GAAFlagSkipFriendlyName"; "GAAFlagSkipDNSInfo"]);
   Const "GAAFlagIncludeAll" (Some "GAAFlags") (GAAFlags_or
     ["GAAFlagIncludePrefix"; "GAAFlagIncludeWinsInfo"; "GAAFlagIncludeGateways"; "GAAFlagIncludeAllInterfaces";
      "GAAFlagIncludeAllCompartments"; "GAAFlagIncludeTunnelBindingOrder"])].

Definition ScopeLevel_consts : list constant :=
  [Const "ScopeLevelInterface" (Some "ScopeLevel") 1] ++
  untyped
    [("ScopeLevelLink", 2); ("ScopeLevelSubnet", 3); ("ScopeLevelAdmin", 4); ("ScopeLevelSite", 5);
     ("ScopeLevelOrganization", 8); ("ScopeLevelGlobal", 14); ("ScopeLevelCount", 16)].

Definition DnsInterfaceSettings_versions : list constant :=
  untyped
    [("DnsInterfaceSettingsVersion1", 1); ("DnsInterfaceSettingsVersion2", 2); ("DnsInterfaceSettingsVersion3", 3)].

Definition DnsInterfaceSettings_flags : list constant :=
  untyped
    [("DnsInterfaceSettingsFlagIPv6", 0x0001); ("DnsInterfaceSettingsFlagNameserver", 0x0002);
     ("DnsInterfaceSettingsFlagSearchList", 0x0004); ("DnsInterfaceSettingsFlagRegistrationEnabled", 0x0008);
     ("DnsInterfaceSettingsFlagRegisterAdapterName", 0x0010); ("DnsInterfaceSettingsFlagDomain", 0x0020);
     ("DnsInterfaceSettingsFlagHostname", 0x0040); ("DnsInterfaceSettingsFlagEnableLLMNR", 0x0080);
     ("DnsInterfaceSettingsFlagQueryAdapterName", 0x0100); ("DnsInterfaceSettingsFlagProfileNameserver", 0x0200);
     ("DnsInterfaceSettingsFlagDisableUnconstrainedQueries", 0x0400);
     ("DnsInterfaceSettingsFlagSupplementalSearchList", 0x0800); ("DnsInterfaceSettingsFlagDOH", 0x1000);
     ("DnsInterfaceSettingsFlagDOHProfile", 0x2000)].

(** The blocks whose entries are alternatives, and those whose entries are flags. *)
Definition enumerations : list (list constant) :=
  [IfOperStatus_consts; IfType_consts; MibIfEntryLevel_consts; NdisMedium_consts;
   NdisPhysicalMedium_consts; NetIfAccessType_consts; NetIfAdminStatus_consts; NetIfConnectionType_consts;
   NetIfDirectionType_consts; NetIfMediaConnectState_consts; DadState_consts; PrefixOrigin_consts;
   LinkLocalAddressBehavior_consts; RouteOrigin_consts; RouteProtocol_consts; RouterDiscoveryBehavior_consts;
   SuffixOrigin_consts; MibNotificationType_consts; TunnelType_consts; ScopeLevel_consts;
   DnsInterfaceSettings_versions].

Definition flag_sets : list (list constant) :=
  [IPAAFlags_consts; OffloadRod_consts; InterfaceAndOperStatusFlags_consts; GAAFlags_bits; DnsInterfaceSettings_flags].

Definition constants : list constant := mjoin enumerations ++ mjoin flag_sets ++ drop 12 GAAFlags_consts.

(** ** Accessors *)

Section Accessors.
  #[local] Set Default Proof Using "Type".
  (** x/sys's conversions: of an array, and of what a pointer points at, up to the NUL. *)
  Context (UTF16ToString UTF16PtrToString : list Z -> string) (BytePtrToString : option (list Z) -> string).

(** The fields of [IPAdapterAddresses] and [MibIfRow2] these methods read; a nil pointer is
    [None], an array the list of its elements. *)
Record adapter_fields := MkAdapterFields {
  adapterName : option (list Z);
  dnsSuffix : option (list Z);
  description : option (list Z);
  friendlyName : option (list Z);
  physicalAddress : list Z;              (* [8]byte *)
  physicalAddressLength : Z;
  dhcpv6ClientDUID : list Z;             (* [130]byte *)
  dhcpv6ClientDUIDLength : Z
}.

Record ifrow_fields := MkIfRowFields {
  alias : list Z;
  row_description : list Z;
  row_physicalAddress : list Z;          (* [32]byte *)
  permanentPhysicalAddress : list Z;     (* [32]byte *)
  row_physicalAddressLength : Z
}.

(** [a[:n]] of an array, [n] unsigned. *)
Definition slice_to (a : list Z) (n : Z) : outcome (list Z) :=
  if bool_decide (n <= Z.of_nat (length a)) then Returns (take (Z.to_nat n) a)
  else Panics "runtime error: slice bounds out of range".

Definition from_pointer (p : option (list Z)) : string :=
  match p with None => "" | Some units => UTF16PtrToString units end.

Definition IPAdapterDNSSuffix_String (str : list Z) : string := UTF16ToString str.
Definition AdapterName (addr : adapter_fields) : string := BytePtrToString (adapterName addr).
Definition DNSSuffix (addr : adapter_fields) : string := from_pointer (dnsSuffix addr).
Definition Description (addr : adapter_fields) : string := from_pointer (description addr).
Definition FriendlyName (addr : adapter_fields) : string := from_pointer (friendlyName addr).
Definition PhysicalAddress (addr : adapter_fields) : outcome (list Z) :=
  slice_to (physicalAddress addr) (physicalAddressLength addr).
Definition DHCPv6ClientDUID (addr : adapter_fields) : outcome (list Z) :=
  slice_to (dhcpv6ClientDUID addr) (dhcpv6ClientDUIDLength addr).

Definition Alias (row : ifrow_fields) : string := UTF16ToString (alias row).
Definition Row_Description (row : ifrow_fields) : string := UTF16ToString (row_description row).
Definition Row_PhysicalAddress (row : ifrow_fields) : outcome (list Z) :=
  slice_to (row_physicalAddress row) (row_physicalAddressLength row).
Definition PermanentPhysicalAddress (row : ifrow_fields) : outcome (list Z) :=
  slice_to (permanentPhysicalAddress row) (row_physicalAddressLength row).

Lemma slice_to_spec a n : 0 <= n ->
  match slice_to a n with
  | Returns s => Z.of_nat (length s) = n /\ exists rest, a = s ++ rest
  | Panics _ => Z.of_nat (length a) < n
  | Fails _ => False
  end.
Proof.
  intros Hn. unfold slice_to. case_bool_decide; [|lia]. split; [rewrite length_take; lia|].
  exists (drop (Z.to_nat n) a). by rewrite take_drop.
Qed.

(** The two addresses of a row have the one length, and reading either panics only when the
    system reports a length above the thirty-two bytes there are. *)
Theorem row_addresses_bounded row :
  0 <= row_physicalAddressLength row <= 32 ->
  length (row_physicalAddress row) = 32%nat -> length (permanentPhysicalAddress row) = 32%nat ->
  exists p q, Row_PhysicalAddress row = Returns p /\ PermanentPhysicalAddress row = Returns q /\
    Z.of_nat (length p) = row_physicalAddressLength row /\ length q = length p.
Proof.
  intros Hn H1 H2. unfold Row_PhysicalAddress, PermanentPhysicalAddress, slice_to.
  rewrite H1, H2, !bool_decide_true by lia. eexists _, _. split_and!; [done..| |]; rewrite !length_take; lia.
Qed.
End Accessors.

(** *** Properties *)

(** A typed constant is representable in its type. *)
Definition fits (c : constant) : bool :=
  match c_type c with
  | None => true
  | Some t =>
      match list_find (fun p => p.1 = t) named_types with
      | Some (_, (_, w)) => in_width w (c_value c)
      | None => false
      end
  end.

(** Each flag is one bit and no two share it. *)
Definition one_bit (z : Z) : bool := bool_decide (0 < z /\ Z.land z (z - 1) = 0).

Fixpoint disjoint_bits (l : list Z) : bool :=
  match l with
  | [] => true
  | z :: l => one_bit z && forallb (fun z' => Z.eqb (Z.land z z') 0) l && disjoint_bits l
  end.

Lemma disjoint_bits_spec l : disjoint_bits l = true ->
  forall i j a b, l !! i = Some a -> l !! j = Some b -> 0 < a /\ (i <> j -> Z.land a b = 0).
Proof.
  assert (disjoint_bits l = true -> forall i j a b, (i < j)%nat -> l !! i = Some a -> l !! j = Some b -> Z.land a b = 0) as Hlt.
  { induction l as [|z l IH]; intros Hd i j a b Hij Ha Hb; [done|]. cbn in Hd.
    apply andb_true_iff in Hd as [[_ Hz]%andb_true_iff Hd]. destruct j as [|j]; [lia|]. destruct i as [|i]; cbn in *.
    - injection Ha as ->. rewrite forallb_forall in Hz. apply Z.eqb_eq, Hz, list_elem_of_In, list_elem_of_lookup. by exists j.
    - eapply IH; [exact Hd | | exact Ha | exact Hb]. lia. }
  intros Hd i j a b Ha Hb. split.
  - clear Hlt Hb. revert i Ha. induction l as [|z l IH]; intros i Ha; [done|]. cbn in Hd.
    apply andb_true_iff in Hd as [[Hz _]%andb_true_iff Hd]. destruct i as [|i]; [|by eapply IH].
    injection Ha as ->. unfold one_bit in Hz. apply bool_decide_eq_true in Hz. lia.
  - intros Hne. destruct (Nat.lt_total i j) as [|[|]]; [by eapply Hlt | done |].
    rewrite Z.land_comm. by eapply Hlt.
Qed.

(** every typed constant is representable in its type, no name is declared twice, the
    alternatives of an enumeration have different values, any two flags of a set are
    different bits, and what [GAAFlagSkipAll] skips [GAAFlagIncludeAll] does not
    include. *)
Theorem constants_consistent :
  Forall (fun c => fits c = true) constants /\ NoDup (c_name <$> constants) /\
  Forall (fun l => NoDup (c_value <$> l)) enumerations /\
  Forall (fun l => forall i j a b, c_value <$> l !! i = Some a -> c_value <$> l !! j = Some b ->
    0 < a /\ (i <> j -> Z.land a b = 0)) flag_sets /\
  Z.land (value_in GAAFlags_consts "GAAFlagSkipAll") (value_in GAAFlags_consts "GAAFlagIncludeAll") = 0.
Proof.
  split_and!; [apply (bool_decide_unpack _); vm_compute; exact I .. | | reflexivity].
  assert (Forall (fun l => disjoint_bits (c_value <$> l) = true) flag_sets) as H
    by (apply (bool_decide_unpack _); vm_compute; exact I).
  eapply Forall_impl; [exact H|]. intros l Hl i j a b Ha Hb.
  apply (disjoint_bits_spec _ Hl i j); by rewrite list_lookup_fmap.
Qed.
