(* ===== verification/BoxDns.v ===== *)
(** * System DNS hijacking: [internal/boxdns], [internal/sysdns], [rpc/systemdns]

    While the core serves DNS, the default interface's servers are prefixed with the local
    one and followed by a mark that says whether they came by DHCP ([setSystemDNS]); the
    mark is how [restoreSystemDNS] finds its way back. The manager is called by the RPC
    and by the interface monitor. [Darwin] is the [networksetup] variant. *)

From S2P Require Export Prelude GoStr GoNet WinIpcfg.
Local Open Scope string_scope.
Open Scope Z_scope.

Definition nameServerRegistryKey : string := "NameServer".
Definition localAddr : string := "127.1.1.1".
Definition dhcpMarkAddr : string := "127.1.2.3".
Definition setMarkAddr : string := "127.3.2.1".

(** The fields of [control.Interface] the manager reads. *)
Record Interface := MkInterface { if_Index : Z; if_Name : string }.

(** [windows.GUID]. *)
Record GUID := MkGUID { Data1 : Z; Data2 : Z; Data3 : Z; Data4 : list Z }.

(** The calls of the system. *)
Record Windows (Sys Key : Type) := MkWindows {
  w_LUIDFromIndex : Z -> result Z;
  w_GUID : Z -> result GUID;
  w_interface_index : Z -> Z -> result Z;
  w_settings : GUID -> DnsInterfaceSettings -> Sys -> option dns_error * Sys;
  w_addr6_string : Z -> string -> string;
  w_utf16 : string -> result unit;
  w_netsh : string -> Sys -> (string * option string) * Sys;
  w_OpenKey : string -> Sys -> result Key;
  w_guid_string : GUID -> string;
  w_GetStringsValue : Key -> string -> Sys -> result (list string);
  w_SetStringValue : Key -> string -> string -> prog Sys unit;
  w_GetStringValue : Key -> string -> Sys -> result string;
  w_adapters : Sys -> result (list Adapter);
  w_uuid_string : list Z -> string;
  w_flush_cache : Sys -> Sys;
  w_default : Sys -> option Interface
}.

(** [*DnsManager] and the package's variables. *)
Record DnsManager := MkDnsManager { lastIfc : option Interface }.
Record dns_state (Sys : Type) := MkDns {
  dnsIsSet : bool;
  DnsManagerInstance : option DnsManager;
  d_sys : Sys
}.
Arguments MkDns {Sys}. Arguments dnsIsSet {Sys}.
Arguments DnsManagerInstance {Sys}. Arguments d_sys {Sys}.

(** Little-endian [PutUint32] and [PutUint16], and the bytes of a UUID. *)
Definition put_le (n : nat) (z : Z) : list Z := reverse (be_bytes n z).
Definition guid_bytes (g : GUID) : list Z :=
  let data1 := put_le 4 (Data1 g) in
  let data2 := put_le 2 (Data2 g) in
  let data3 := put_le 2 (Data3 g) in
  let at_ l i := nth i l 0 in
  ([at_ data1 3; at_ data1 2; at_ data1 1; at_ data1 0; at_ data2 1; at_ data2 0;
    at_ data3 1; at_ data3 0]%nat ++ Data4 g)%list.

Lemma guid_bytes_be g :
  guid_bytes g = (be_bytes 4 (Data1 g) ++ be_bytes 2 (Data2 g) ++ be_bytes 2 (Data3 g) ++ Data4 g)%list.
Proof. reflexivity. Qed.

Section Manager.
  #[local] Set Default Proof Using "Type".
  Context {Sys Key : Type} (W : Windows Sys Key).
  Local Abbreviation LUIDFromIndex := (w_LUIDFromIndex _ _ W).
  Local Abbreviation flush_cache := (w_flush_cache _ _ W).

Definition String_ (a : Addr) : string := addr_string (w_addr6_string _ _ W) a.

Definition luid_DNS (luid : Z) : Sys -> result (list Addr) := DNS luid (w_adapters _ _ W).

Definition luid_SetDNS (luid : Z) : Z -> list Addr -> list string -> prog Sys unit :=
  SetDNS (w_GUID _ _ W) (w_interface_index _ _ W) (w_settings _ _ W) (w_addr6_string _ _ W)
    (w_utf16 _ _ W) (w_netsh _ _ W) (w_OpenKey _ _ W) (w_guid_string _ _ W)
    (w_GetStringsValue _ _ W) (w_SetStringValue _ _ W) luid.

Definition ifcIdxtoUUID (index : Z) : result (list Z) :=
  luid ← LUIDFromIndex (uint32 index);
  guid ← w_GUID _ _ W luid;
  Ok (guid_bytes guid).

(** The manager's monitor is never nil ([init]). *)
Definition getInterfaceGuid (ifc : Interface) : result string :=
  u ← ifcIdxtoUUID (if_Index ifc);
  Ok ("{" ++ w_uuid_string _ _ W u ++ "}").

Definition is_addr (addr : string) (a : Addr) : bool := String.eqb (String_ a) addr.

Definition interfaces_key : string := "SYSTEM\\CurrentControlSet\\Services\\Tcpip\\Parameters\\Interfaces\\".

Definition isIfcDNSDhcp (ifc : Interface) (s : Sys) : result bool :=
  luid ← LUIDFromIndex (uint32 (if_Index ifc));
  dnsServers ← luid_DNS luid s;
  if existsb (is_addr dhcpMarkAddr) dnsServers then Ok true
  else
    guidStr ← getInterfaceGuid ifc;
    key ← w_OpenKey _ _ W (interfaces_key ++ guidStr) s;
    match w_GetStringValue _ _ W key nameServerRegistryKey s with
    | Ok manualNSs => Ok (negb (0 <? String.length (trim_space manualNSs))%nat)
    | Err _ => Ok true
    end.

Definition is_mark (a : Addr) : bool := is_addr setMarkAddr a || is_addr dhcpMarkAddr a.

(** The loop over the servers: those that are no mark, whether there was one, and whether
    the last one says DHCP. *)
Definition scan (dnsServers : list Addr) : list Addr * bool * bool :=
  foldl (fun '(newDnsServers, wasSet, wasDHCP) server =>
      if is_mark server then (newDnsServers, true, is_addr dhcpMarkAddr server)
      else (newDnsServers ++ [server], wasSet, wasDHCP)%list)
    ([], false, false) dnsServers.

Definition drop_local (servers : list Addr) : list Addr :=
  match servers with
  | a :: servers' => if is_addr localAddr a then servers' else servers
  | [] => []
  end.

(** The flush's own error is dropped, as every other is after it is logged. *)
Definition apply_servers (luid : Z) (servers : list Addr) (s : Sys) : Sys :=
  match luid_SetDNS luid AF_INET servers [] s with
  | (Returns _, s) => flush_cache s
  | (_, s) => s
  end.

Definition restoreSystemDNS (ifx : Interface) (s : Sys) : Sys :=
  match (luid ← LUIDFromIndex (uint32 (if_Index ifx)); l ← luid_DNS luid s; Ok (luid, l)) with
  | Err _ => s
  | Ok (luid, dnsServers) =>
      let '(newDnsServers, wasSet, isDhcp) := scan dnsServers in
      if negb wasSet then s
      else
        let newDnsServers := drop_local newDnsServers in
        apply_servers luid (if isDhcp : bool then [] else newDnsServers) s
  end.

(** [netip.ParseAddr] of the constants. *)
Definition addr_of (a : string) : Addr := default NoAddr (parse_addr4 a).

Definition setSystemDNS (ifx : Interface) (s : Sys) : Sys :=
  match (luid ← LUIDFromIndex (uint32 (if_Index ifx)); l ← luid_DNS luid s; Ok (luid, l)) with
  | Err _ => s
  | Ok (luid, dnsServers) =>
      let '(newDnsServers, wasSet, wasDHCP) := scan dnsServers in
      let newDnsServers := if wasSet : bool then drop_local newDnsServers else newDnsServers in
      let newDnsServers := addr_of localAddr :: newDnsServers in
      let dhcp := match isIfcDNSDhcp ifx s with Ok b => b | Err _ => false end in
      let mark := if dhcp || wasDHCP then dhcpMarkAddr else setMarkAddr in
      apply_servers luid (newDnsServers ++ [addr_of mark])%list s
  end.

Definition on_sys (f : Sys -> Sys) (d : dns_state Sys) : dns_state Sys :=
  MkDns (dnsIsSet d) (DnsManagerInstance d) (f (d_sys d)).

(** The monitor's callback. *)
Definition HandleSystemDNS (ifc : option Interface) (d : dns_state Sys) : dns_state Sys :=
  match DnsManagerInstance d, ifc with
  | Some m, Some ifc =>
      let d := on_sys (if dnsIsSet d then setSystemDNS ifc else restoreSystemDNS ifc) d in
      match lastIfc m with
      | Some last => if negb (if_Index last =? if_Index ifc) then on_sys (restoreSystemDNS last) d else d
      | None => d
      end
  | _, _ => d
  end.

Definition SetSystemDNS (ifc : option Interface) (clear : bool) : prog (dns_state Sys) unit := fun d =>
  match DnsManagerInstance d with
  | None => (Fails "No dns Manager, you may need to restart Nunya", d)
  | Some m =>
      match (match ifc with Some i => Some i | None => w_default _ _ W (d_sys d) end) with
      | None => (Fails "Default interface is nil!", d)
      | Some ifc =>
          if clear
          then (Returns tt, MkDns false (Some m) (restoreSystemDNS ifc (d_sys d)))
          else (Returns tt, MkDns true (Some (MkDnsManager (Some ifc))) (setSystemDNS ifc (d_sys d)))
      end
  end.

(** The RPC; [in.Clear] is a pointer. *)
Definition rpc_SetSystemDNS (clear : option bool) : prog (dns_state Sys) unit :=
  clear ← deref clear; SetSystemDNS None clear.

(** [init], with the results of creating the two monitors; a monitor that fails to start
    leaves the instance in place. *)
Definition init (update_monitor default_monitor : result unit) (d : dns_state Sys) : dns_state Sys :=
  match update_monitor, default_monitor with
  | Ok _, Ok _ => MkDns (dnsIsSet d) (Some (MkDnsManager None)) (d_sys d)
  | _, _ => d
  end.

Definition DefaultInterface (d : dns_state Sys) : option Interface :=
  _ ← DnsManagerInstance d; w_default _ _ W (d_sys d).

(** rpc/egress.go: the interface instances are bound to, empty where there is none, and the
    RPC, whose index is 32 bits wide. *)
Definition defaultInterfaceFinder (d : dns_state Sys) : string :=
  match DefaultInterface d with None => "" | Some ifc => if_Name ifc end.

Definition GetDefaultInterface (d : dns_state Sys) : result (string * Z) :=
  match DefaultInterface d with
  | None => Err "no default interface"
  | Some ifc => Ok (if_Name ifc, int32 (if_Index ifc))
  end.

(** ** What the system does with these calls

    The IPv4 servers configured on an interface, those of its DHCP lease, and its IPv6
    ones. The configured ones are in force unless there are none; the IPv4 servers are
    listed before the IPv6 ones ([ipv6_first_keeps_local] is the other order). *)
Context (static lease v6 : Sys -> Z -> list Addr).

Definition in_force (s : Sys) (luid : Z) : list Addr :=
  match static s luid with [] => lease s luid | l => l end.

(** Only the IPv4 servers of one interface differ. *)
Definition updated (luid : Z) (l : list Addr) (s s' : Sys) : Prop :=
  static s' luid = l /\
  (forall luid', luid' <> luid -> static s' luid' = static s luid') /\
  (forall luid', lease s' luid' = lease s luid') /\ (forall luid', v6 s' luid' = v6 s luid').

Definition same_dns (s s' : Sys) : Prop :=
  forall luid, static s' luid = static s luid /\ lease s' luid = lease s luid /\ v6 s' luid = v6 s luid.

#[local] Instance same_dns_equivalence : Equivalence same_dns.
Proof.
  split; intros s; unfold same_dns; [auto | |].
  - intros s' H luid. by destruct (H luid) as (-> & -> & ->).
  - intros s' s'' H1 H2 luid. destruct (H1 luid) as (<- & <- & <-). auto.
Qed.

(** An IPv4 address. *)
Definition ok4 (a : Addr) : Prop := exists b, a = Addr4 b /\ 0 <= b < 2 ^ 32.

(** The interfaces there are. *)
Definition known (luid : Z) : Prop := exists i, LUIDFromIndex i = Ok luid.

Record windows_laws : Prop := {
  wl_luid i : exists luid, LUIDFromIndex i = Ok luid;
  wl_guid luid : known luid -> exists g, w_GUID _ _ W luid = Ok g;
  wl_list s luid : known luid -> luid_DNS luid s = Ok (in_force s luid ++ v6 s luid)%list;
  wl_v4 s luid : Forall ok4 (static s luid ++ lease s luid);
  wl_v6 s luid : Forall (fun a => Is4 a = false /\ is_mark a = false) (v6 s luid);
  wl_utf16 l : w_utf16 _ _ W (ds_NameServer (dns_settings (w_addr6_string _ _ W) AF_INET l [])) = Ok tt;
  wl_utf16_empty : w_utf16 _ _ W EmptyString = Ok tt;
  wl_settings luid g l s : known luid -> w_GUID _ _ W luid = Ok g ->
    Forall ok4 (filter (fun a => Is4 a = true) l) -> exists s', w_settings _ _ W g (dns_settings (w_addr6_string _ _ W) AF_INET l []) s = (None, s') /\
      updated luid (filter (fun a => Is4 a = true) l) s s';
  wl_flush s : same_dns s (flush_cache s);
  wl_key name s : exists k, w_OpenKey _ _ W name s = Ok k;
  (* [NameServer] holds the configured servers *)
  wl_registry ifc luid name k s : LUIDFromIndex (uint32 (if_Index ifc)) = Ok luid ->
    getInterfaceGuid ifc = Ok name -> w_OpenKey _ _ W (interfaces_key ++ name) s = Ok k ->
    (exists v, w_GetStringValue _ _ W k nameServerRegistryKey s = Ok v /\
       (trim_space v = EmptyString <-> static s luid = [])) \/
    (exists e, w_GetStringValue _ _ W k nameServerRegistryKey s = Err e /\ static s luid = [])
}.

Context (HW : windows_laws).

Definition unmarked (l : list Addr) : Prop := Forall (fun a => is_mark a = false) l.

Lemma scan_unmarked l acc b1 b2 : unmarked l ->
  foldl (fun '(newDnsServers, wasSet, wasDHCP) server =>
      if is_mark server then (newDnsServers, true, is_addr dhcpMarkAddr server)
      else (newDnsServers ++ [server], wasSet, wasDHCP)%list) (acc, b1, b2) l = ((acc ++ l)%list, b1, b2).
Proof.
  intros H. revert acc. induction H as [|a l Ha Hl IH]; intros acc; simpl; [by rewrite app_nil_r|].
  rewrite Ha, IH. by rewrite <- app_assoc.
Qed.

Lemma updated_same luid l s s' s'' : updated luid l s s' -> same_dns s' s'' -> updated luid l s s''.
Proof.
  intros (H1 & H2 & H3 & H4) H. split_and!; intros.
  - destruct (H luid) as (-> & _). done.
  - destruct (H luid') as (-> & _). auto.
  - destruct (H luid') as (_ & -> & _). auto.
  - destruct (H luid') as (_ & _ & ->). auto.
Qed.

Lemma apply_servers_updated luid l s : known luid -> Forall ok4 (filter (fun a => Is4 a = true) l) ->
  updated luid (filter (fun a => Is4 a = true) l) s (apply_servers luid l s).
Proof using HW.
  intros Hk Hok. unfold apply_servers, luid_SetDNS, SetDNS, mbind, prog_bind, lift_result. cbn -[dns_settings].
  rewrite (wl_utf16 HW). cbn -[dns_settings].
  change (ds_SearchList _) with EmptyString. rewrite (wl_utf16_empty HW).
  destruct (wl_guid HW luid Hk) as [g Hg]. rewrite Hg.
  destruct (wl_settings HW luid g l s Hk Hg Hok) as (s' & Hs & Hu). unfold with_fallback.
  rewrite Hs. eapply updated_same; [exact Hu | apply (wl_flush HW)].
Qed.

(** An interface the manager has taken over: the local server, those it had and the mark. *)
Definition mark_of (dhcp : bool) : Addr := addr_of (if dhcp then dhcpMarkAddr else setMarkAddr).
Definition taken (s : Sys) (luid : Z) (base : list Addr) (dhcp : bool) : Prop :=
  static s luid = (addr_of localAddr :: base ++ [mark_of dhcp])%list /\ unmarked base /\
  (dhcp = false -> base <> []).
Definition clean (s : Sys) (luid : Z) : Prop := unmarked (in_force s luid).

Lemma is_mark_mark dhcp : is_mark (mark_of dhcp) = true.
Proof. by destruct dhcp. Qed.
Lemma dhcp_mark_of dhcp : is_addr dhcpMarkAddr (mark_of dhcp) = dhcp.
Proof. by destruct dhcp. Qed.
Lemma local_is_local : is_addr localAddr (addr_of localAddr) = true.
Proof. reflexivity. Qed.
Lemma local_unmarked : is_mark (addr_of localAddr) = false.
Proof. reflexivity. Qed.

Lemma v6_unmarked s luid : unmarked (v6 s luid).
Proof using HW. eapply Forall_impl; [apply (wl_v6 HW)|]. by intros a []. Qed.

Lemma scan_app_mark l l' dhcp : unmarked l -> unmarked l' ->
  scan (l ++ mark_of dhcp :: l')%list = ((l ++ l')%list, true, dhcp).
Proof.
  intros Hl Hl'. unfold scan. rewrite foldl_app, scan_unmarked by done. cbn [foldl].
  by rewrite is_mark_mark, dhcp_mark_of, scan_unmarked.
Qed.

Lemma ok4_Is4 l : Forall ok4 l -> Forall (fun a => Is4 a = true) l.
Proof. intros H. eapply Forall_impl; [exact H|]. by intros a (b & -> & _). Qed.
Lemma local_ok4 : ok4 (addr_of localAddr).
Proof. exists 2130772225. by vm_compute. Qed.
Lemma mark_ok4 dhcp : ok4 (mark_of dhcp).
Proof. exists (if dhcp then 2130772483 else 2130903553). by destruct dhcp; vm_compute. Qed.

(** The IPv4 part of what is written back. *)
Lemma v4_part l s luid : Forall ok4 l ->
  filter (fun a => Is4 a = true) (l ++ v6 s luid)%list = l.
Proof using HW.
  intros H%ok4_Is4. rewrite filter_app, list_filter_all by done. rewrite list_filter_none; [by rewrite app_nil_r|].
  eapply Forall_impl; [apply (wl_v6 HW)|]. intros a [-> _]. done.
Qed.

Lemma unmarked_app l l' : unmarked (l ++ l')%list <-> unmarked l /\ unmarked l'.
Proof. apply Forall_app. Qed.

Lemma v4_Forall s luid l : in_force s luid = l -> Forall ok4 l.
Proof using HW.
  intros <-. pose proof (wl_v4 HW s luid) as [H1 H2]%Forall_app. unfold in_force.
  by destruct (static s luid).
Qed.

Lemma taken_in_force s luid base dhcp : taken s luid base dhcp ->
  in_force s luid = (addr_of localAddr :: base ++ [mark_of dhcp])%list /\ Forall ok4 base.
Proof using HW.
  intros (H & _ & _). assert (in_force s luid = (addr_of localAddr :: base ++ [mark_of dhcp])%list) as E.
  { unfold in_force. by rewrite H. }
  split; [done|]. apply v4_Forall in E. by apply Forall_cons in E as [_ [E _]%Forall_app].
Qed.

(** What the two functions read of a taken interface. *)
Lemma scan_taken s luid base dhcp : known luid -> taken s luid base dhcp ->
  exists l, luid_DNS luid s = Ok l /\ scan l = (addr_of localAddr :: base ++ v6 s luid, true, dhcp)%list.
Proof using HW.
  intros Hk H. eexists. split; [by apply (wl_list HW)|]. destruct (taken_in_force _ _ _ _ H) as [-> _].
  destruct H as (_ & Hb & _). rewrite <- app_comm_cons, <- app_assoc. cbn [app].
  rewrite (app_comm_cons base). rewrite scan_app_mark; [done | by constructor | apply v6_unmarked].
Qed.

Lemma scan_clean s luid : known luid -> clean s luid ->
  exists l, luid_DNS luid s = Ok l /\ scan l = (in_force s luid ++ v6 s luid, false, false)%list /\
    existsb (is_addr dhcpMarkAddr) l = false.
Proof using HW.
  intros Hk H. assert (unmarked (in_force s luid ++ v6 s luid)%list) as Hu.
  { apply unmarked_app. split; [done | apply v6_unmarked]. }
  eexists. split; [by apply (wl_list HW)|]. split; [by apply (scan_unmarked _ [])|].
  apply not_true_is_false. intros (a & Ha & Hm)%existsb_elem.
  unfold unmarked in Hu. rewrite Forall_forall in Hu. specialize (Hu a Ha).
  unfold is_mark in Hu. rewrite Hm in Hu.
  by rewrite orb_true_r in Hu.
Qed.

(** The registry tells whether the interface's servers come from DHCP. *)
Lemma dhcp_of_registry ifc luid s l : LUIDFromIndex (uint32 (if_Index ifc)) = Ok luid ->
  luid_DNS luid s = Ok l -> existsb (is_addr dhcpMarkAddr) l = false ->
  isIfcDNSDhcp ifc s = Ok (bool_decide (static s luid = [])).
Proof using HW.
  intros Hl Hd Hn. pose proof (ex_intro _ _ Hl : known luid) as Hk. unfold isIfcDNSDhcp. rewrite Hl. cbn. rewrite Hd. cbn. rewrite Hn.
  unfold getInterfaceGuid, ifcIdxtoUUID. rewrite Hl. cbn. destruct (wl_guid HW luid Hk) as [g Hg]. rewrite Hg. cbn.
  match goal with |- context [w_OpenKey _ _ W (interfaces_key ++ ?n) s] =>
    destruct (wl_key HW (interfaces_key ++ n) s) as [k HK];
    pose proof (wl_registry HW ifc luid n k s Hl) as Hr end.
  rewrite HK. cbn. destruct Hr as [(v & Hv & E) | (e & He & E)]; [| done | | ].
  - unfold getInterfaceGuid, ifcIdxtoUUID. rewrite Hl. cbn. by rewrite Hg.
  - rewrite Hv. f_equal. case_bool_decide as C.
    + apply E in C. by rewrite C.
    + destruct (trim_space v); [by destruct C; apply E | done].
  - rewrite He. by rewrite bool_decide_true.
Qed.

(** *** The two functions on an interface that is clean or taken *)
Lemma setSystemDNS_clean ifc luid s : LUIDFromIndex (uint32 (if_Index ifc)) = Ok luid -> clean s luid ->
  let dhcp := bool_decide (static s luid = []) in
  taken (setSystemDNS ifc s) luid (in_force s luid) dhcp /\
  updated luid (addr_of localAddr :: in_force s luid ++ [mark_of dhcp])%list s (setSystemDNS ifc s).
Proof using HW.
  intros Hl Hc dhcp. pose proof (ex_intro _ _ Hl : known luid) as Hk. destruct (scan_clean s luid Hk Hc) as (l & Hd & Hs & Hn).
  assert (updated luid (addr_of localAddr :: in_force s luid ++ [mark_of dhcp])%list s (setSystemDNS ifc s)) as Hu.
  { unfold setSystemDNS. rewrite Hl. cbn [mbind result_bind]. rewrite Hd. cbn [mbind result_bind]. rewrite Hs.
    rewrite (dhcp_of_registry ifc luid s l Hl Hd Hn), orb_false_r. fold (mark_of dhcp).
    rewrite <- app_comm_cons, <- app_assoc.
    pose proof (apply_servers_updated luid
      (addr_of localAddr :: in_force s luid ++ v6 s luid ++ [mark_of dhcp])%list s Hk) as Hu.
    pose proof (v4_Forall s luid _ eq_refl) as Hv.
    rewrite filter_cons, app_assoc, filter_app, v4_part in Hu by done.
    specialize (Hu ltac:(constructor; [apply local_ok4 | apply Forall_app; split; [done|];
      destruct dhcp; (constructor; [apply mark_ok4 | constructor])])).
    rewrite <- app_assoc in Hu.
    fold dhcp. clearbody dhcp. destruct dhcp; exact Hu. }
  split; [|done]. split; [by destruct Hu | split; [exact Hc|]].
  intros E%bool_decide_eq_false_1. unfold in_force. by destruct (static s luid).
Qed.

Lemma isIfcDNSDhcp_taken ifc luid s base dhcp : LUIDFromIndex (uint32 (if_Index ifc)) = Ok luid ->
  taken s luid base dhcp -> exists b, isIfcDNSDhcp ifc s = Ok b /\ b || dhcp = dhcp.
Proof using HW.
  intros Hl Ht. pose proof (ex_intro _ _ Hl : known luid) as Hk. destruct (scan_taken _ _ _ _ Hk Ht) as (l & Hd & Hs).
  destruct (existsb (is_addr dhcpMarkAddr) l) eqn:E.
  - unfold isIfcDNSDhcp. rewrite Hl. cbn. rewrite Hd. cbn. rewrite E. exists true. split; [done|].
    destruct dhcp; [done | exfalso]. rewrite (wl_list HW) in Hd by done. injection Hd as <-.
    apply existsb_elem in E as (a & Ha & Hm). destruct (taken_in_force _ _ _ _ Ht) as [Hf _].
    rewrite Hf in Ha. destruct Ht as (_ & Hb & _).
    assert (is_mark a = true) as Hma by (unfold is_mark; rewrite Hm; apply orb_true_r).
    apply list_elem_of_In in Ha. rewrite <- app_comm_cons, <- app_assoc in Ha.
    destruct Ha as [<- | [Ha | [<- | Ha]]%in_app_or]; [done | | done |].
    + apply list_elem_of_In in Ha. unfold unmarked in Hb. rewrite Forall_forall in Hb. by rewrite (Hb a Ha) in Hma.
    + apply list_elem_of_In in Ha. pose proof (v6_unmarked s luid) as Hv. unfold unmarked in Hv.
      rewrite Forall_forall in Hv. by rewrite (Hv a Ha) in Hma.
  - erewrite dhcp_of_registry by done. eexists. split; [done|]. destruct Ht as (-> & _). by destruct dhcp.
Qed.

Lemma setSystemDNS_taken ifc luid s base dhcp : LUIDFromIndex (uint32 (if_Index ifc)) = Ok luid ->
  taken s luid base dhcp -> same_dns s (setSystemDNS ifc s).
Proof using HW.
  intros Hl Ht. pose proof (ex_intro _ _ Hl : known luid) as Hk. destruct (scan_taken _ _ _ _ Hk Ht) as (l & Hd & Hs).
  destruct (isIfcDNSDhcp_taken ifc luid s base dhcp Hl Ht) as (b & Hb & E).
  unfold setSystemDNS. rewrite Hl. cbn [mbind result_bind]. rewrite Hd. cbn [mbind result_bind]. rewrite Hs, Hb, E.
  cbn [drop_local]. rewrite local_is_local. fold (mark_of dhcp).
  pose proof (apply_servers_updated luid ((addr_of localAddr :: base ++ v6 s luid) ++ [mark_of dhcp])%list s Hk) as Hu.
  destruct (taken_in_force _ _ _ _ Ht) as [_ Hv4].
  rewrite <- app_comm_cons, filter_cons, filter_app, v4_part in Hu by done.
  specialize (Hu ltac:(constructor; [apply local_ok4 | apply Forall_app; split; [done|];
    destruct dhcp; (constructor; [apply mark_ok4 | constructor])])).
  destruct Hu as (H1 & H2 & H3 & H4). destruct Ht as (Hst & _).
  intros luid'. split_and!; [| apply H3 | apply H4].
  destruct (decide (luid' = luid)) as [-> | Hne]; [| by apply H2]. rewrite Hst. by destruct dhcp.
Qed.

Lemma restoreSystemDNS_clean ifc luid s : LUIDFromIndex (uint32 (if_Index ifc)) = Ok luid ->
  clean s luid -> restoreSystemDNS ifc s = s.
Proof using HW.
  intros Hl Hc. pose proof (ex_intro _ _ Hl : known luid) as Hk. destruct (scan_clean s luid Hk Hc) as (l & Hd & Hs & _).
  unfold restoreSystemDNS. rewrite Hl. cbn [mbind result_bind]. rewrite Hd. cbn [mbind result_bind].
  by rewrite Hs.
Qed.

Lemma restoreSystemDNS_taken ifc luid s base dhcp : LUIDFromIndex (uint32 (if_Index ifc)) = Ok luid ->
  taken s luid base dhcp ->
  updated luid (if dhcp then [] else base) s (restoreSystemDNS ifc s).
Proof using HW.
  intros Hl Ht. pose proof (ex_intro _ _ Hl : known luid) as Hk. destruct (scan_taken _ _ _ _ Hk Ht) as (l & Hd & Hs).
  unfold restoreSystemDNS. rewrite Hl. cbn [mbind result_bind]. rewrite Hd. cbn [mbind result_bind]. rewrite Hs.
  cbn [negb drop_local]. rewrite local_is_local. destruct (taken_in_force _ _ _ _ Ht) as [_ Hv4].
  destruct dhcp; [exact (apply_servers_updated luid [] s Hk (Forall_nil_2 _))|].
  pose proof (apply_servers_updated luid (base ++ v6 s luid)%list s Hk) as Hu. rewrite v4_part in Hu by done. auto.
Qed.

(** *** Runs *)
Lemma same_static s s' luid : same_dns s s' -> static s' luid = static s luid.
Proof. intros H. by destruct (H luid) as (-> & _). Qed.
Lemma same_lease s s' luid : same_dns s s' -> lease s' luid = lease s luid.
Proof. intros H. by destruct (H luid) as (_ & -> & _). Qed.

#[local] Instance taken_proper : Proper (same_dns ==> eq ==> eq ==> eq ==> iff) taken.
Proof.
  intros s s' H luid ? <- base ? <- dhcp ? <-. unfold taken. by rewrite (same_static _ _ luid H).
Qed.

#[local] Instance clean_proper : Proper (same_dns ==> eq ==> iff) clean.
Proof.
  intros s s' H luid ? <-. unfold clean, in_force. by rewrite (same_static _ _ luid H), (same_lease _ _ luid H).
Qed.

Lemma clean_updated luid l s s' luid' : updated luid l s s' -> luid' <> luid -> clean s luid' -> clean s' luid'.
Proof. intros (_ & H & H' & _) Hne. unfold clean, in_force. by rewrite (H luid' Hne), H'. Qed.
Lemma taken_updated luid l s s' luid' base dhcp :
  updated luid l s s' -> luid' <> luid -> taken s luid' base dhcp -> taken s' luid' base dhcp.
Proof. intros (_ & H & _) Hne. unfold taken. by rewrite (H luid' Hne). Qed.

(** Restoring writes back what the interface had. *)
Lemma restore_origin luid s0 s l s' : updated luid l s0 s ->
  updated luid (if bool_decide (static s0 luid = []) then [] else in_force s0 luid) s s' -> same_dns s0 s'.
Proof.
  intros (_ & H2 & H3 & H4) (H1' & H2' & H3' & H4') luid'. split_and!.
  - destruct (decide (luid' = luid)) as [-> | Hne].
    + rewrite H1'. case_bool_decide as E; [done|]. unfold in_force. by destruct (static s0 luid).
    + by rewrite H2', H2.
  - by rewrite H3', H3.
  - by rewrite H4', H4.
Qed.

Lemma iter_set ifc luid s n : LUIDFromIndex (uint32 (if_Index ifc)) = Ok luid -> clean s luid ->
  let s' := Nat.iter (S n) (setSystemDNS ifc) s in
  let dhcp := bool_decide (static s luid = []) in
  taken s' luid (in_force s luid) dhcp /\
  updated luid (addr_of localAddr :: in_force s luid ++ [mark_of dhcp])%list s s'.
Proof using HW.
  intros Hl Hc s' dhcp. subst s'. induction n as [|n [IH1 IH2]]; [by apply setSystemDNS_clean|].
  set (s1 := Nat.iter (S n) _ s) in *. change (Nat.iter (S (S n)) _ s) with (setSystemDNS ifc s1).
  pose proof (setSystemDNS_taken ifc luid s1 _ _ Hl IH1) as Hs. split; [by rewrite <- Hs|].
  by eapply updated_same.
Qed.


Lemma set_on_new A d : DnsManagerInstance d = Some (MkDnsManager None) ->
  SetSystemDNS (Some A) false d =
    (Returns tt, MkDns true (Some (MkDnsManager (Some A))) (setSystemDNS A (d_sys d))).
Proof. unfold SetSystemDNS. by intros ->. Qed.

Lemma handle_switch last ifc s : if_Index last <> if_Index ifc ->
  HandleSystemDNS (Some ifc) (MkDns true (Some (MkDnsManager (Some last))) s) =
    MkDns true (Some (MkDnsManager (Some last))) (restoreSystemDNS last (setSystemDNS ifc s)).
Proof. intros H%Z.eqb_neq. cbn. by rewrite H. Qed.

Lemma in_force_updated luid l s s' luid' : updated luid l s s' -> luid' <> luid ->
  in_force s' luid' = in_force s luid' /\ static s' luid' = static s luid'.
Proof. intros (_ & H & H' & _) Hne. unfold in_force. by rewrite (H luid' Hne), H'. Qed.

(** Taking an interface over while another one that was is restored. *)
Lemma switch A a X x s0 :
  LUIDFromIndex (uint32 (if_Index A)) = Ok a -> LUIDFromIndex (uint32 (if_Index X)) = Ok x ->
  a <> x -> clean s0 a -> clean s0 x ->
  let s := restoreSystemDNS A (setSystemDNS X (setSystemDNS A s0)) in
  let dhcp := bool_decide (static s0 x = []) in
  taken s x (in_force s0 x) dhcp /\
  updated x (addr_of localAddr :: in_force s0 x ++ [mark_of dhcp])%list s0 s.
Proof using HW.
  intros Ha Hx Hne Ca Cx. cbv zeta.
  destruct (setSystemDNS_clean A a s0 Ha Ca) as [T1 U1]. set (s1 := setSystemDNS A s0) in *.
  pose proof (clean_updated _ _ _ _ x U1 ltac:(done) Cx) as Cx1.
  destruct (in_force_updated _ _ _ _ x U1 ltac:(done)) as [E1 E2].
  destruct (setSystemDNS_clean X x s1 Hx Cx1) as [T2 U2]. rewrite E1, E2 in T2, U2.
  set (s2 := setSystemDNS X s1) in *.
  pose proof (restoreSystemDNS_taken A a s2 _ _ Ha (taken_updated _ _ _ _ a _ _ U2 Hne T1)) as U3.
  split; [by eapply taken_updated|]. clear T1 T2 Cx1.
  destruct U1 as (A1 & A2 & A3 & A4), U2 as (B1 & B2 & B3 & B4), U3 as (D1 & D2 & D3 & D4).
  split_and!; intros; [rewrite D2, B1; done | | congruence | congruence].
  destruct (decide (luid' = a)) as [-> | Hn]; [| by rewrite D2, B2, A2].
  rewrite D1. case_bool_decide as E; [done|]. unfold in_force. by destruct (static s0 a).
Qed.

(** When the default interface changes from the one DNS was set on to another, the new
    one is taken over and the old one restored, so clearing leaves every interface as it
    was; but the manager never records the new one: at a second change the one in between
    stays taken over, even after DNS is cleared. *)
Theorem HandleSystemDNS_switches A B C a b c d s1 :
  DnsManagerInstance d = Some (MkDnsManager None) ->
  LUIDFromIndex (uint32 (if_Index A)) = Ok a -> LUIDFromIndex (uint32 (if_Index B)) = Ok b ->
  LUIDFromIndex (uint32 (if_Index C)) = Ok c -> NoDup [a; b; c] ->
  Forall (clean (d_sys d)) [a; b; c] ->
  SetSystemDNS (Some A) false d = (Returns tt, s1) ->
  let once := HandleSystemDNS (Some B) s1 in
  let twice := HandleSystemDNS (Some C) once in
  same_dns (d_sys d) (d_sys (SetSystemDNS (Some B) true once).2) /\
  (let s := d_sys (SetSystemDNS (Some C) true twice).2 in
   static s a = static (d_sys d) a /\ static s c = static (d_sys d) c /\
   static s b = (addr_of localAddr :: in_force (d_sys d) b ++
     [mark_of (bool_decide (static (d_sys d) b = []))])%list).
Proof using HW.
  intros Hd Ha Hb Hc Hnd Hclean H1 once twice. rewrite (set_on_new A d Hd) in H1. injection H1 as <-.
  assert (a <> b /\ a <> c /\ b <> c) as (Hab & Hac & Hbc).
  { rewrite !NoDup_cons in Hnd. clear - Hnd. set_solver. }
  assert (if_Index A <> if_Index B /\ if_Index A <> if_Index C) as [Iab Iac] by (split; congruence).
  apply Forall_cons in Hclean as [Ca [Cb [Cc _]%Forall_cons]%Forall_cons].
  set (s0 := d_sys d) in *. subst once twice. rewrite !handle_switch by done. cbn [SetSystemDNS DnsManagerInstance snd d_sys].
  destruct (switch A a B b s0 Ha Hb Hab Ca Cb) as [T U].
  set (s := restoreSystemDNS A (setSystemDNS B (setSystemDNS A s0))) in *. split.
  - eapply restore_origin; [exact U | by apply restoreSystemDNS_taken].
  - pose proof (clean_updated _ _ _ _ c U ltac:(done) Cc) as Cc'.
    destruct (setSystemDNS_clean C c s Hc Cc') as [Tc Uc].
    rewrite (restoreSystemDNS_clean A a (setSystemDNS C s) Ha).
    2:{ eapply clean_updated; [exact Uc | done | by eapply clean_updated]. }
    pose proof (restore_origin _ _ _ _ _ Uc (restoreSystemDNS_taken C c _ _ _ Hc Tc)) as Hs.
    destruct U as (U1 & U2 & _). rewrite !(same_static _ _ _ Hs), U1, !U2 by done. auto.
Qed.
End Manager.

(** ** A concrete machine

    Four interfaces. The settings are read back from the text the program writes. *)
Module Machine.
Record cfg := MkCfg { c_static : list Z; c_lease : list Z; c_v6 : list Z }.
Definition sys : Type := Z -> cfg.

Definition update (luid : Z) (f : cfg -> cfg) (s : sys) : sys :=
  fun l => if l =? luid then f (s l) else s l.

Definition guid (luid : Z) : GUID := MkGUID luid 0 0 (replicate 8 0).
Definition addr6 (b : Z) (z : string) : string := "::" ++ itoa b.

Definition parse_servers (text : string) : list Z :=
  omap (fun t => match parse_addr4 t with Some (Addr4 b) => Some b | _ => None end) (split_by "," text).

Definition settings (g : GUID) (ds : DnsInterfaceSettings) (s : sys) : option dns_error * sys :=
  (None, update (Data1 g) (fun c => MkCfg (parse_servers (ds_NameServer ds)) (c_lease c) (c_v6 c)) s).

Definition key_luid (name : string) : option Z :=
  find (fun luid => String.eqb name (interfaces_key ++ "{" ++ itoa luid ++ "}")) [0; 1; 2; 3].

Definition name_server (key : string) (s : sys) : result string :=
  match key_luid key with
  | Some luid => Ok (join "," (print_addr4 <$> map (fun x => x mod 2 ^ 32) (c_static (s luid))))
  | None => Err "The system cannot find the file specified."
  end.

(** Addresses as the system lists them, and the other order. *)
Definition addr4 (x : Z) : Addr := Addr4 (x mod 2 ^ 32).
Definition v4_in_force (c : cfg) : list Z := match c_static c with [] => c_lease c | l => l end.
Definition listed (v6_first : bool) (c : cfg) : list (option (list Z)) :=
  let l4 := map (fun x => Some (be_bytes 4 (x mod 2 ^ 32))) (v4_in_force c) in
  let l6 := map (fun x => Some (be_bytes 16 (x mod 2 ^ 128))) (c_v6 c) in
  if v6_first then (l6 ++ l4)%list else (l4 ++ l6)%list.
Definition adapters (v6_first : bool) (s : sys) : result (list Adapter) :=
  Ok (map (fun luid => MkAdapter luid (listed v6_first (s luid))) [0; 1; 2; 3]).

Definition windows (v6_first : bool) : Windows sys string := {|
  w_LUIDFromIndex i := Ok (i mod 4);
  w_GUID luid := Ok (guid luid);
  w_interface_index luid _ := Ok luid;
  w_settings := settings;
  w_addr6_string := addr6;
  w_utf16 _ := Ok tt;
  w_netsh _ s := ((EmptyString, None), s);
  w_OpenKey name _ := Ok name;
  w_guid_string _ := "{}";
  w_GetStringsValue _ _ _ := Ok [];
  w_SetStringValue _ _ _ := mret tt;
  w_GetStringValue key _ := name_server key;
  w_adapters := adapters v6_first;
  w_uuid_string u := itoa (of_be_bytes 0 (take 4 u));
  w_flush_cache s := s;
  w_default _ := Some (MkInterface 1 "Ethernet")
|}.

Definition here (luid : Z) : bool := (0 <=? luid) && (luid <? 4).
Definition static (s : sys) (luid : Z) : list Addr := if here luid then map addr4 (c_static (s luid)) else [].
Definition lease (s : sys) (luid : Z) : list Addr := if here luid then map addr4 (c_lease (s luid)) else [].
Definition v6 (s : sys) (luid : Z) : list Addr :=
  if here luid then map (fun x => Addr6 (x mod 2 ^ 128) EmptyString) (c_v6 (s luid)) else [].
End Machine.

Section MachineLaws.
Import Machine.

Lemma known_here luid : known (windows false) luid -> luid = 0 \/ luid = 1 \/ luid = 2 \/ luid = 3.
Proof. intros [i [= <-]]. pose proof (Z.mod_pos_bound i 4). lia. Qed.

Lemma dns_addrs_app l l' : dns_addrs (l ++ l')%list =
  (r ← dns_addrs l; r' ← dns_addrs l'; Ok (r ++ r')%list).
Proof.
  induction l as [|[b|] l IH]; cbn; [by destruct (dns_addrs l') | | done].
  rewrite IH. destruct (dns_addrs l) as [r|]; [|done]. cbn. destruct (dns_addrs l'); [|done]. cbn.
  by destruct (AddrFromSlice b).
Qed.

Lemma dns_addrs4 l : dns_addrs (map (fun x => Some (be_bytes 4 (x mod 2 ^ 32))) l) = Ok (map addr4 l).
Proof.
  induction l as [|x l IH]; [done|]. cbn -[be_bytes Z.pow]. rewrite IH. cbn -[be_bytes Z.pow].
  unfold AddrFromSlice. rewrite decide_True by apply length_be_bytes.
  rewrite of_be_bytes_0; [done | apply Z.mod_pos_bound; lia].
Qed.

Lemma dns_addrs6 l : dns_addrs (map (fun x => Some (be_bytes 16 (x mod 2 ^ 128))) l) =
  Ok (map (fun x => Addr6 (x mod 2 ^ 128) EmptyString) l).
Proof.
  induction l as [|x l IH]; [done|]. cbn -[be_bytes Z.pow]. rewrite IH. cbn -[be_bytes Z.pow].
  unfold AddrFromSlice. rewrite decide_False by (rewrite length_be_bytes; lia).
  rewrite decide_True by apply length_be_bytes.
  rewrite of_be_bytes_0; [done | apply Z.mod_pos_bound; lia].
Qed.

Lemma machine_list s luid : known (windows false) luid ->
  luid_DNS (windows false) luid s = Ok (in_force static lease s luid ++ v6 s luid)%list.
Proof.
  intros Hk. assert (forall r, adapter_dns luid
    (map (fun luid => MkAdapter luid (listed false (s luid))) [0; 1; 2; 3]) = Ok r <->
    dns_addrs (listed false (s luid)) = Ok r) as E.
  { intros r. cbn -[listed]. destruct (known_here luid Hk) as [-> | [-> | [-> | ->]]]; cbn -[listed];
      (destruct (dns_addrs _); cbn; [by rewrite app_nil_r | done]). }
  unfold luid_DNS, DNS. cbn -[listed]. apply E. unfold listed. rewrite dns_addrs_app, dns_addrs4. cbn -[Z.pow].
  rewrite dns_addrs6. cbn -[Z.pow]. do 2 f_equal.
  - unfold in_force, static, lease, v4_in_force. assert (here luid = true) as -> by
      (destruct (known_here luid Hk) as [-> | [-> | [-> | ->]]]; done). by destruct (c_static (s luid)).
  - unfold v6. destruct (known_here luid Hk) as [-> | [-> | [-> | ->]]]; done.
Qed.

Lemma parse_servers_print l : Forall ok4 l ->
  parse_servers (join "," (addr_string addr6 <$> l)) =
    omap (fun a => match a with Addr4 b => Some b | _ => None end) l.
Proof.
  intros H. unfold parse_servers. destruct (decide (l = [])) as [-> | Hn]; [done|].
  rewrite split_by_join; [| by destruct l |].
  - clear Hn. induction H as [|a l (b & -> & Hb) _ IH]; [done|]. cbn [fmap list_fmap omap list_omap addr_string].
    rewrite parse_print_addr4 by done. by rewrite IH.
  - clear Hn. induction H as [|a l (b & -> & Hb) _ IH]; constructor; [apply lacks_comma_print | done].
Qed.

Lemma machine_settings luid l s : known (windows false) luid ->
  Forall ok4 (filter (fun a => Is4 a = true) l) ->
  exists s', settings (guid luid) (dns_settings addr6 AF_INET l []) s = (None, s') /\
    updated static lease v6 luid (filter (fun a => Is4 a = true) l) s s'.
Proof.
  intros Hk Hok. eexists. split; [reflexivity|]. assert (here luid = true) as Hh by
    (destruct (known_here luid Hk) as [-> | [-> | [-> | ->]]]; done).
  unfold updated, static, lease, v6, update. cbn -[dns_settings]. split_and!; intros.
  - rewrite Hh, Z.eqb_refl. cbn.
    assert (filter (fun a => of_family AF_INET a = true) l = filter (fun a => Is4 a = true) l) as E.
    { apply list_filter_iff. intros []; done. }
    change (omap _ (split_by "," ?t)) with (parse_servers t). rewrite E, parse_servers_print by done.
    clear E. induction Hok as [|a l' (b & -> & Hb) _ IH]; [done|]. cbn. rewrite IH. f_equal.
    unfold addr4. by rewrite Z.mod_small.
  - assert ((luid' =? luid) = false) as -> by lia. done.
  - by destruct (luid' =? luid).
  - by destruct (luid' =? luid).
Qed.

Lemma addr4_ok x : ok4 (addr4 x).
Proof. eexists. split; [reflexivity | apply Z.mod_pos_bound; lia]. Qed.

Lemma machine_known luid : 0 <= luid < 4 ->
  Machine.key_luid (interfaces_key ++ "{" ++ itoa luid ++ "}") = Some luid.
Proof. intros H. assert (luid = 0 \/ luid = 1 \/ luid = 2 \/ luid = 3) as [-> | [-> | [-> | ->]]] by lia; reflexivity. Qed.

Lemma machine_registry ifc luid name k s :
  w_LUIDFromIndex _ _ (windows false) (uint32 (if_Index ifc)) = Ok luid ->
  getInterfaceGuid (windows false) ifc = Ok name ->
  w_OpenKey _ _ (windows false) (interfaces_key ++ name) s = Ok k ->
  exists v, name_server k s = Ok v /\ (trim_space v = EmptyString <-> static s luid = []).
Proof.
  intros Hl Hn Hk. assert (0 <= luid < 4) as Hr.
  { injection Hl as <-. apply Z.mod_pos_bound. lia. }
  injection Hk as <-. unfold getInterfaceGuid, ifcIdxtoUUID in Hn. rewrite Hl in Hn. injection Hn as <-.
  pose proof (of_be_bytes_0 4 luid ltac:(cbn; lia)) as E. cbn in E. rewrite E.
  unfold name_server. rewrite machine_known by done. eexists. split; [reflexivity|].
  unfold static. assert (here luid = true) as -> by (unfold here; lia).
  destruct (c_static (s luid)) as [|x l]; [done|]. split; [intros H; exfalso | done].
  revert H. cbn [map fmap list_fmap join]. destruct (print_addr4_black (x mod 2 ^ 32)) as (c & t & -> & Hc).
  unfold join. destruct (print_addr4 <$> _); cbn [String.concat]; by apply trim_space_black.
Qed.

Lemma machine_laws : windows_laws (windows false) static lease v6.
Proof.
  split.
  - intros i. by eexists.
  - intros luid _. by eexists.
  - apply machine_list.
  - intros s luid. unfold static, lease. destruct (here luid); [|by constructor].
    apply Forall_app. split; apply Forall_forall; intros a (x & -> & _)%list_elem_of_fmap; apply addr4_ok.
  - intros s luid. unfold v6. destruct (here luid); [|by constructor].
    apply Forall_forall. intros a (x & -> & _)%list_elem_of_fmap. done.
  - done.
  - done.
  - intros luid g l s Hk [= <-] Hok. by apply machine_settings.
  - by intros s luid.
  - intros name s. by eexists.
  - intros ifc luid name k s H1 H2 H3. left. by eapply machine_registry.
Qed.

(** A static interface and two by DHCP. *)
Definition machine0 : sys := fun luid =>
  if luid =? 1 then MkCfg [134744072] [16843009] [1] else MkCfg [] [16843009] [].


Lemma HandleSystemDNS_switches_witness :
  let W := windows false in
  let at_ i := MkInterface i "" in
  let s1 := (SetSystemDNS W (Some (at_ 1)) false (MkDns false (Some (MkDnsManager None)) machine0)).2 in
  let once := HandleSystemDNS W (Some (at_ 2)) s1 in
  same_dns static lease v6 machine0 (d_sys (SetSystemDNS W (Some (at_ 2)) true once).2).
Proof.
  apply (HandleSystemDNS_switches (windows false) static lease v6 machine_laws
    (MkInterface 1 "") (MkInterface 2 "") (MkInterface 3 "") 1 2 3
    (MkDns false (Some (MkDnsManager None)) machine0)); try reflexivity.
  - by vm_compute; repeat constructor; set_solver.
  - repeat constructor.
Defined.

(** Where the system lists IPv6 servers first, the local server is not at the head when
    the interface is restored, and stays in its configuration. *)
Example ipv6_first_keeps_local :
  let W := windows true in
  let ifc := MkInterface 1 "Ethernet" in
  (c_static (restoreSystemDNS W ifc (setSystemDNS W ifc machine0) 1),
   c_static (restoreSystemDNS (windows false) ifc (setSystemDNS (windows false) ifc machine0) 1)) =
  ([2130772225; 134744072], [134744072]).
Proof. vm_compute. reflexivity. Qed.
End MachineLaws.

(** ** The [networksetup] variant *)
Module Darwin.
Definition lf : string := String (ascii_of_nat 10) EmptyString.

(** [s[strings.Index(s, substr)+len(substr):]]; without an occurrence the index is -1. *)
Definition after_index (s substr : string) : outcome string :=
  match cut s substr with
  | Some (_, after) => Returns after
  | None =>
      let n := (String.length substr - 1)%nat in
      if (n <=? String.length s)%nat then Returns (drop_str n s)
      else Panics "slice bounds out of range"
  end.
(** [s[:strings.Index(s, substr)]]. *)
Definition before_index (s substr : string) : outcome string :=
  match cut s substr with
  | Some (before, _) => Returns before
  | None => Panics "slice bounds out of range [:-1]"
  end.

Fixpoint find_span (name : string) (spans : list string) : outcome string :=
  match spans with
  | [] => Fails (name ++ " not found in networksetup -listallhardwareports")
  | span :: spans =>
      if contains span ("Device: " ++ name) then
        match after_index span "Hardware Port: " with
        | Returns span => before_index span lf
        | r => r
        end
      else find_span name spans
  end.

(** Given what [networksetup] prints. *)
Definition getInterfaceDisplayName (listing : result string) (name : string) : outcome string :=
  match listing with
  | Err e => Fails e
  | Ok content => find_span name (split_on content "Ethernet Address")
  end.

(** A nil default interface panics. [exec] is the output and error of the command. *)
Definition SetSystemDNS (listing : result string) (exec : list string -> string * option string)
    (default : option string) (addr : string) : outcome unit :=
  match default with
  | None => Panics "runtime error: invalid memory address or nil pointer dereference"
  | Some interfaceName =>
      match getInterfaceDisplayName listing interfaceName with
      | Returns displayName =>
          match exec ["/usr/sbin/networksetup"; "-setdnsservers"; displayName; addr] with
          | (_, None) => Returns tt
          | (output, Some err) =>
              let output := trim_space output in
              Fails (if String.eqb output EmptyString then err else output ++ ": " ++ err)
          end
      | Fails e => Fails e
      | Panics e => Panics e
      end
  end.

Definition port (name device : string) : string :=
  "Hardware Port: " ++ name ++ lf ++ "Device: " ++ device ++ lf ++ "Ethernet Address: 0" ++ lf ++ lf.

Example lookup_ex :
  getInterfaceDisplayName (Ok (port "Wi-Fi" "en0" ++ port "USB" "en1")) "en1" = Returns "USB".
Proof. vm_compute. reflexivity. Qed.

(** The device is matched by prefix: a port listed earlier whose device name continues the
    one asked for is taken instead. *)
Example prefix_taken :
  getInterfaceDisplayName (Ok (port "Dock" "en10" ++ port "Wi-Fi" "en1")) "en1" = Returns "Dock".
Proof. vm_compute. reflexivity. Qed.
End Darwin.
