(* ===== verification/VpnStatus.v ===== *)
(** * VPN endpoint status: [internal/rpc/vpnstatus.go]

    The status of OpenVPN and OpenConnect endpoints as the messages of the API, waiting for
    one to settle, collecting several at once, and answering or cancelling a challenge.
    The endpoints, their manager and the texts of addresses are sing-box's and Go's. *)

From S2P Require Export Prelude GoStr.
Local Open Scope string_scope.
Open Scope Z_scope.

(** ** Messages *)

(** The fields of a protobuf message are pointers: [To] fills one, a getter of an absent
    one gives its default. *)
Abbreviation To := Some.

Record VPNChallengeChoice := MkChoice { ch_Value : option string; ch_Label : option string }.

Record VPNChallengeField := MkField {
  fd_SubmissionKey : option string; fd_Name : option string; fd_Label : option string;
  fd_Kind : option string; fd_Value : option string; fd_Options : list VPNChallengeChoice
}.

Record VPNChallenge := MkChallenge {
  vc_EndpointTag : option string; vc_Id : option string; vc_Kind : option string;
  vc_Username : option string; vc_Message : option string; vc_Banner : option string;
  vc_Error : option string; vc_Url : option string; vc_Echo : option bool;
  vc_Deadline : option Z; vc_Fields : list VPNChallengeField
}.

(** What the status says of a tunnel that is up. *)
Record TunnelFields := MkTunnel {
  tf_Ipv4 : list string; tf_Ipv6 : list string; tf_Dns : list string; tf_Mtu : option Z;
  tf_ConnectedSince : option Z; tf_Server : option string; tf_Network : option string;
  tf_Cipher : option string; tf_Routes : list string; tf_ExcludedRoutes : list string;
  tf_SearchDomains : list string
}.
Definition no_tunnel : TunnelFields := MkTunnel [] [] [] None None None None None [] [] [].

Record VPNEndpointStatus := MkStatus {
  vs_Tag : option string; vs_State : option string; vs_Error : option string;
  vs_Connected : option bool; vs_AuthFailed : option bool;
  vs_tunnel : TunnelFields; vs_Challenge : option VPNChallenge
}.

Definition GetConnected (s : VPNEndpointStatus) : bool := default false (vs_Connected s).
Definition GetState (s : VPNEndpointStatus) : string := default EmptyString (vs_State s).

Record SubmitVPNChallengeRequest := MkSubmit {
  in_EndpointTag : option string; in_ChallengeId : option string; in_Username : option string;
  in_Password : option string; in_Secret : option string; in_FormValues : option (gmap string string)
}.

(** ** sing-box's side *)

Record OpenVPNChallenge := MkOpenVPNChallenge {
  oc_ID : string; oc_Kind : string; oc_Username : string; oc_Message : string;
  oc_SecretMessage : string; oc_PreviousError : string; oc_URL : string; oc_Echo : bool;
  oc_Deadline : option Z
}.

Record ConnectField := MkConnectField {
  cf_SubmissionKey : string; cf_Name : string; cf_Label : string; cf_Kind : string;
  cf_Value : string; cf_Options : list (string * string)
}.

Record OpenConnectAuthChallenge := MkConnectChallenge {
  cc_ID : string; cc_Banner : string; cc_Message : string; cc_Error : string;
  cc_Browser : option (string * string);      (* URL, FinalURL *)
  cc_Form : option (list ConnectField)
}.

Record TunnelInfo (Prefix Addr : Type) := MkInfo {
  ti_IPv4 : list Prefix; ti_IPv6 : list Prefix; ti_DNS : list Addr; ti_MTU : Z;
  ti_ConnectedSince : option Z; ti_Server : string;
  ti_Network : string;                        (* of OpenConnect, the transport *)
  ti_Cipher : string;                         (* of OpenVPN *)
  ti_Routes : list Prefix; ti_ExcludedRoutes : list Prefix; ti_SearchDomains : list string
}.

Record Status (Prefix Addr Challenge : Type) := MkEndpointStatus {
  st_State : string; st_Error : string;
  st_TunnelInfo : option (TunnelInfo Prefix Addr);
  st_Challenge : option Challenge
}.
Arguments ti_IPv4 {_ _}. Arguments ti_IPv6 {_ _}. Arguments ti_DNS {_ _}. Arguments ti_MTU {_ _}.
Arguments ti_ConnectedSince {_ _}. Arguments ti_Server {_ _}. Arguments ti_Network {_ _}.
Arguments ti_Cipher {_ _}. Arguments ti_Routes {_ _}. Arguments ti_ExcludedRoutes {_ _}.
Arguments ti_SearchDomains {_ _}. Arguments st_State {_ _ _}. Arguments st_Error {_ _ _}.
Arguments st_TunnelInfo {_ _ _}. Arguments st_Challenge {_ _ _}.
Arguments MkInfo {_ _}. Arguments MkEndpointStatus {_ _ _}.

Record OpenVPNChallengeResponse := MkVPNResponse { rs_Username : string; rs_Password : string; rs_Secret : string }.

(** ** The mapping *)

Definition vpnAuthFailureText : string := "authentication failed".
Definition vpnChallengeKindForm : string := "form".
Definition vpnChallengeKindBrowser : string := "browser".

(** A zero time is [None]. *)
Definition unixSecondsOrZero (t : option Z) : Z := default 0 t.

Definition vpnErrorIsAuthFailure (text : string) : bool :=
  existsb (fun joined =>
      existsb (fun segment => String.eqb (trim_left segment "(") vpnAuthFailureText) (split_on joined ": "))
    (split_on text " | ").

Fixpoint firstNonEmpty (values : list string) : string :=
  match values with
  | [] => EmptyString
  | value :: values => if String.eqb value EmptyString then firstNonEmpty values else value
  end.

Example auth_failure_ex : (vpnErrorIsAuthFailure "connect: (authentication failed) | retry: authentication failed",
  vpnErrorIsAuthFailure "tls-crypt-v2 client key authentication failed",
  vpnErrorIsAuthFailure "a: (authentication failed") = (true, false, true).
Proof. vm_compute. reflexivity. Qed.

Section Mapping.
  Context {Prefix Addr : Type} (prefix_string : Prefix -> string) (addr_string : Addr -> string).
  (** [adapter.OpenVPNStateError] and the two connected states. *)
  Context (OpenVPNStateError OpenVPNStateConnected OpenConnectStateConnected : string).

Definition vpnStateError : string := OpenVPNStateError.

Definition prefixStrings (prefixes : list Prefix) : list string := map prefix_string prefixes.
Definition addrStrings (addrs : list Addr) : list string := map addr_string addrs.

Definition openVPNChallengeToProto (tag : string) (c : OpenVPNChallenge) : VPNChallenge :=
  {| vc_EndpointTag := To tag; vc_Id := To (oc_ID c); vc_Kind := To (oc_Kind c);
     vc_Username := To (oc_Username c);
     vc_Message := To (firstNonEmpty [oc_Message c; oc_SecretMessage c]);
     vc_Banner := None; vc_Error := To (oc_PreviousError c); vc_Url := To (oc_URL c);
     vc_Echo := To (oc_Echo c); vc_Deadline := To (unixSecondsOrZero (oc_Deadline c)); vc_Fields := [] |}.

Definition fieldToProto (f : ConnectField) : VPNChallengeField :=
  MkField (To (cf_SubmissionKey f)) (To (cf_Name f)) (To (cf_Label f)) (To (cf_Kind f)) (To (cf_Value f))
    (map (fun '(value, label) => MkChoice (To value) (To label)) (cf_Options f)).

Definition openConnectChallengeToProto (tag : string) (c : OpenConnectAuthChallenge) : VPNChallenge :=
  let out kind url fields :=
    {| vc_EndpointTag := To tag; vc_Id := To (cc_ID c); vc_Kind := kind; vc_Username := None;
       vc_Message := To (cc_Message c); vc_Banner := To (cc_Banner c); vc_Error := To (cc_Error c);
       vc_Url := url; vc_Echo := None; vc_Deadline := None; vc_Fields := fields |} in
  match cc_Browser c, cc_Form c with
  | Some (url, final_url), _ => out (To vpnChallengeKindBrowser) (To (firstNonEmpty [url; final_url])) []
  | None, Some fields => out (To vpnChallengeKindForm) None (map fieldToProto fields)
  | None, None => out None None []
  end.

Definition tunnelFields (cipher : option string) (info : TunnelInfo Prefix Addr) : TunnelFields :=
  {| tf_Ipv4 := prefixStrings (ti_IPv4 info); tf_Ipv6 := prefixStrings (ti_IPv6 info);
     tf_Dns := addrStrings (ti_DNS info); tf_Mtu := To (int32 (ti_MTU info));
     tf_ConnectedSince := To (unixSecondsOrZero (ti_ConnectedSince info));
     tf_Server := To (ti_Server info); tf_Network := To (ti_Network info); tf_Cipher := cipher;
     tf_Routes := prefixStrings (ti_Routes info);
     tf_ExcludedRoutes := prefixStrings (ti_ExcludedRoutes info);
     tf_SearchDomains := ti_SearchDomains info |}.

Definition statusToProto {Challenge} (connected : string) (cipher : TunnelInfo Prefix Addr -> option string)
    (challenge : string -> Challenge -> VPNChallenge) (tag : string) (status : Status Prefix Addr Challenge)
    : VPNEndpointStatus :=
  {| vs_Tag := To tag; vs_State := To (st_State status); vs_Error := To (st_Error status);
     vs_Connected := To (String.eqb (st_State status) connected &&
       match st_TunnelInfo status with Some _ => true | None => false end);
     vs_AuthFailed := To (String.eqb (st_State status) vpnStateError && vpnErrorIsAuthFailure (st_Error status));
     vs_tunnel := match st_TunnelInfo status with Some info => tunnelFields (cipher info) info | None => no_tunnel end;
     vs_Challenge := option_map (challenge tag) (st_Challenge status) |}.

Definition openVPNStatusToProto : string -> Status Prefix Addr OpenVPNChallenge -> VPNEndpointStatus :=
  statusToProto OpenVPNStateConnected (fun info => To (ti_Cipher info)) openVPNChallengeToProto.

Definition openConnectStatusToProto : string -> Status Prefix Addr OpenConnectAuthChallenge -> VPNEndpointStatus :=
  statusToProto OpenConnectStateConnected (fun _ => None) openConnectChallengeToProto.

Definition vpnStatusSettled (status : VPNEndpointStatus) : bool :=
  GetConnected status || String.eqb (GetState status) vpnStateError ||
  match vs_Challenge status with Some _ => true | None => false end.
End Mapping.

(** ** Waiting for a status to settle

    The waiter and the endpoint take turns. [StatusUpdated] returns a channel that the next
    change closes: it is the version of the status it was asked at, closed once that is
    past. *)
Record wait_env := MkWaitEnv {
  e_version : nat;
  e_current : VPNEndpointStatus;
  e_expired : bool;                            (* the deadline's timer has fired *)
  e_cancelled : bool                           (* the request's context is done *)
}.

Inductive wait_pc :=
| WLoop                                        (* the top of the loop *)
| WSubscribed (updated : nat)
| WSelect (updated : nat) (status : VPNEndpointStatus)
| WReturned (status : VPNEndpointStatus).

Section Wait.
  Context (OpenVPNStateError : string).
  Local Abbreviation settled := (vpnStatusSettled OpenVPNStateError).

(** [awaitVPNStatus] up to its loop. *)
Definition await_start (timeout : Z) (e : wait_env) : wait_pc :=
  if timeout <=? 0 then WReturned (e_current e) else WLoop.

(** One step of the waiter; the cases of the [select] that are ready race. *)
Inductive await_step (e : wait_env) : wait_pc -> wait_pc -> Prop :=
| await_subscribe : await_step e WLoop (WSubscribed (e_version e))
| await_snapshot updated :
    await_step e (WSubscribed updated)
      (if settled (e_current e) then WReturned (e_current e) else WSelect updated (e_current e))
| await_updated updated status : (updated < e_version e)%nat -> await_step e (WSelect updated status) WLoop
| await_deadline updated status : e_expired e = true -> await_step e (WSelect updated status) (WReturned status)
| await_done updated status : e_cancelled e = true -> await_step e (WSelect updated status) (WReturned status).

Inductive env_step : wait_env -> wait_env -> Prop :=
| env_update e s : env_step e (MkWaitEnv (S (e_version e)) s (e_expired e) (e_cancelled e))
| env_expire e : env_step e (MkWaitEnv (e_version e) (e_current e) true (e_cancelled e))
| env_cancel e : env_step e (MkWaitEnv (e_version e) (e_current e) (e_expired e) true).

Inductive wait_step : wait_env * wait_pc -> wait_env * wait_pc -> Prop :=
| wait_env_step e e' p : env_step e e' -> wait_step (e, p) (e', p)
| wait_waiter_step e p p' : await_step e p p' -> wait_step (e, p) (e, p').

Definition wait_inv (x : wait_env * wait_pc) : Prop :=
  let '(e, p) := x in
  match p with
  | WLoop => True
  | WSubscribed v => (v <= e_version e)%nat
  | WSelect v st => (v <= e_version e)%nat /\ settled st = false /\ (v = e_version e -> st = e_current e)
  | WReturned st => settled st = true \/ e_expired e = true \/ e_cancelled e = true
  end.

Lemma wait_inv_step x y : wait_step x y -> wait_inv x -> wait_inv y.
Proof.
  intros [e e' p He | e p p' Hp]; cbn.
  - destruct He, p; cbn; try tauto; try lia; intros (? & ? & ?); repeat split; auto; lia.
  - destruct Hp; cbn; auto. destruct (settled (e_current e)) eqn:E; cbn; auto.
Qed.

(** The work left for the waiter once the status has settled. *)
Definition wait_work (p : wait_pc) : nat :=
  match p with WSelect _ _ => 3 | WLoop => 2 | WSubscribed _ => 1 | WReturned _ => 0 end.

(** C25: A waiter never misses the status it waits for. Whatever the endpoint, the deadline
    and the request's context do meanwhile: it is blocked only while the endpoint's present
    status is unsettled and nothing ended the wait; once the status is settled and stays
    so, each of its steps brings it nearer to returning; and it returns an unsettled status
    only if the deadline passed or the request was cancelled. *)
Theorem awaitVPNStatus_no_lost_wakeup timeout e0 e p : 0 < timeout ->
  steps wait_step (e0, await_start timeout e0) (e, p) ->
  (forall st, p = WReturned st -> settled st = true \/ e_expired e = true \/ e_cancelled e = true) /\
  ((forall p', ~ await_step e p p') -> (forall st, p <> WReturned st) ->
     settled (e_current e) = false /\ e_expired e = false /\ e_cancelled e = false) /\
  (settled (e_current e) = true -> forall p', await_step e p p' -> (wait_work p' < wait_work p)%nat).
Proof.
  intros Ht Hs. assert (wait_inv (e, p)) as Hi.
  { eapply (steps_invariant wait_step wait_inv); [intros s1 s2 H H'; by eapply wait_inv_step | exact Hs |].
    unfold await_start. by destruct (timeout <=? 0) eqn:E; [lia|]. }
  split_and!.
  - intros st ->. exact Hi.
  - intros Hb Hr. destruct p as [| v | v st | st]; cbn in Hi.
    + exfalso. eapply Hb. constructor.
    + exfalso. eapply Hb. constructor.
    + destruct Hi as (Hv & Hst & Hcur). assert (v = e_version e) as ->.
      { destruct (decide (v < e_version e)%nat); [exfalso; eapply Hb; by constructor | lia]. }
      rewrite <- (Hcur eq_refl). split; [done|]. split; apply not_true_is_false; intros E;
        (eapply Hb; first [by apply await_deadline | by apply await_done]).
    + by destruct (Hr st).
  - intros Hs' p' Hp. destruct Hp; cbn; try lia. by rewrite Hs'; cbn; lia.
Qed.
End Wait.

(** ** Endpoints *)

Section Endpoints.
  #[local] Set Default Proof Using "Type".
  Context {World Prefix Addr : Type}.
  Context (prefix_string : Prefix -> string) (addr_string : Addr -> string).
  Context (OpenVPNStateError OpenVPNStateConnected OpenConnectStateConnected : string).

(** An endpoint of the manager, by what it can do. *)
Inductive Endpoint :=
| OpenVPNEndpoint
    (OpenVPNStatus : World -> Status Prefix Addr OpenVPNChallenge)
    (CompleteChallenge : string -> OpenVPNChallengeResponse -> prog World unit)
    (CancelChallenge : string -> prog World unit)
| OpenConnectEndpoint
    (OpenConnectStatus : World -> Status Prefix Addr OpenConnectAuthChallenge)
    (CompleteAuthChallenge : string -> gmap string string -> prog World unit)
    (CancelAuthChallenge : string -> prog World unit)
| OtherEndpoint.

Record EndpointManager := MkEndpoints {
  em_Get : string -> option Endpoint;
  em_Endpoints : list (string * Endpoint)
}.

(** A running box; its context may hold no manager. *)
Definition Box : Type := option EndpointManager.
Context (currentBox : World -> option Box).

Definition errInstanceNotRunning : string := "Instance is not running".

Definition lookupEndpoint (box : option Box) (tag : string) : result Endpoint :=
  match box with
  | None => Err errInstanceNotRunning
  | Some None => Err "nil endpoint manager"
  | Some (Some endpoints) =>
      match em_Get endpoints tag with
      | None => Err ("endpoint not found: " ++ tag)
      | Some found => Ok found
      end
  end.

Definition not_a_client (tag : string) : string := "endpoint is not an openvpn/openconnect client: " ++ tag.

(** The snapshot of [vpnEndpoint]. *)
Definition resolveVPNEndpoint (box : option Box) (tag : string) : result (World -> VPNEndpointStatus) :=
  found ← lookupEndpoint box tag;
  match found with
  | OpenVPNEndpoint status _ _ =>
      Ok (fun w => openVPNStatusToProto prefix_string addr_string OpenVPNStateError OpenVPNStateConnected tag (status w))
  | OpenConnectEndpoint status _ _ =>
      Ok (fun w => openConnectStatusToProto prefix_string addr_string OpenVPNStateError OpenConnectStateConnected tag (status w))
  | OtherEndpoint => Err (not_a_client tag)
  end.

Definition string_le (a b : string) : Prop := String.leb a b = true.
#[local] Instance string_le_dec a b : Decision (string_le a b) := decide (String.leb a b = true).

Definition vpnEndpointTags (box : option Box) : list string :=
  match box with
  | Some (Some endpoints) =>
      merge_sort string_le (omap (fun '(tag, found) =>
        match found with OtherEndpoint => None | _ => Some tag end) (em_Endpoints endpoints))
  | _ => []
  end.

(** *** Collecting: each row is written by the loop or by the goroutine it starts *)

Definition error_status (tag e : string) : VPNEndpointStatus :=
  MkStatus (To tag) None (To e) (To false) None no_tunnel None.

(** [await] gives what each wait returns. *)
Definition status_row (box : option Box) (await : nat -> (World -> VPNEndpointStatus) -> VPNEndpointStatus)
    (idx : nat) (tag : string) : VPNEndpointStatus :=
  match resolveVPNEndpoint box tag with
  | Err e => error_status tag e
  | Ok endpoint => await idx endpoint
  end.

Definition write_row (out : list (option VPNEndpointStatus)) (w : nat * VPNEndpointStatus)
  : list (option VPNEndpointStatus) := <[w.1 := Some w.2]> out.

(** The rows are written in some order, and read once all are. *)
Definition collectVPNStatus (n : nat) (writes : list (nat * VPNEndpointStatus)) : list (option VPNEndpointStatus) :=
  foldl write_row (replicate n None) writes.

Definition query_tags (box : option Box) (endpoint_tags : list string) : list string :=
  match endpoint_tags with [] => vpnEndpointTags box | tags => tags end.

Definition rows (box : option Box) await (tags : list string) : list (nat * VPNEndpointStatus) :=
  imap (fun idx tag => (idx, status_row box await idx tag)) tags.

(** [timeout_ms] is an int32, so the product stays in an int64. *)
Definition query_timeout (timeout_ms : option Z) : Z := int64 (default 0 timeout_ms * 1000000).

Definition QueryVPNStatus (box : option Box) (endpoint_tags : list string) (writes : list (nat * VPNEndpointStatus))
  : list (option VPNEndpointStatus) :=
  collectVPNStatus (length (query_tags box endpoint_tags)) writes.

(** *** Challenges *)

Definition vpnChallengeResult (action : string) (req : SubmitVPNChallengeRequest) (err : option string) : string :=
  match err with
  | None => EmptyString
  | Some e => action ++ " challenge " ++ default EmptyString (in_ChallengeId req) ++ " on " ++
      default EmptyString (in_EndpointTag req) ++ ": " ++ e
  end.

(** A call of the endpoint; its error goes into the reply. *)
Definition reply_of (action : string) (req : SubmitVPNChallengeRequest) (m : prog World unit) : prog World string :=
  fun w => match m w with
  | (Returns _, w) => (Returns (vpnChallengeResult action req None), w)
  | (Fails e, w) => (Returns (vpnChallengeResult action req (Some e)), w)
  | (Panics e, w) => (Panics e, w)
  end.

Definition SubmitVPNChallenge (req : SubmitVPNChallengeRequest) : prog World string := fun w =>
  let tag := default EmptyString (in_EndpointTag req) in
  let id := default EmptyString (in_ChallengeId req) in
  match lookupEndpoint (currentBox w) tag with
  | Err e => (Returns e, w)
  | Ok (OpenVPNEndpoint _ complete _) =>
      reply_of "submit" req (complete id (MkVPNResponse (default EmptyString (in_Username req))
        (default EmptyString (in_Password req)) (default EmptyString (in_Secret req)))) w
  | Ok (OpenConnectEndpoint status complete _) =>
      match st_Challenge (status w) with
      | Some c =>
          if String.eqb (cc_ID c) id && match cc_Browser c with Some _ => true | None => false end
          then (Returns "openconnect browser (SSO) authentication is not supported", w)
          else reply_of "submit" req (complete id (default ∅ (in_FormValues req))) w
      | None => reply_of "submit" req (complete id (default ∅ (in_FormValues req))) w
      end
  | Ok OtherEndpoint => (Returns (not_a_client tag), w)
  end.

Definition CancelVPNChallenge (req : SubmitVPNChallengeRequest) : prog World string := fun w =>
  let tag := default EmptyString (in_EndpointTag req) in
  let id := default EmptyString (in_ChallengeId req) in
  match lookupEndpoint (currentBox w) tag with
  | Err e => (Returns e, w)
  | Ok (OpenVPNEndpoint _ _ cancel) => reply_of "cancel" req (cancel id) w
  | Ok (OpenConnectEndpoint _ _ cancel) => reply_of "cancel" req (cancel id) w
  | Ok OtherEndpoint => (Returns (not_a_client tag), w)
  end.

(** *** Laws *)

Lemma length_collect ws : forall out, length (foldl write_row out ws) = length out.
Proof. induction ws as [|w ws IH]; intros out; [done|]. cbn [foldl]. rewrite IH. apply length_insert. Qed.

(** Rows written once each do not depend on the order. *)
Lemma foldl_write_lookup ws : forall out i v, NoDup ws.*1 -> (i < length out)%nat -> (i, v) ∈ ws ->
  foldl write_row out ws !! i = Some (Some v).
Proof.
  induction ws as [|[j u] ws IH]; intros out i v Hnd Hi Hin; [by apply not_elem_of_nil in Hin|].
  apply NoDup_cons in Hnd as [Hj Hnd]. cbn [foldl]. apply elem_of_cons in Hin as [[= -> ->] | Hin].
  - clear IH Hnd. assert (forall out, foldl write_row out ws !! j = out !! j) as E.
    { clear Hi out. induction ws as [|[k x] ws IH]; intros out; [done|]. cbn [foldl].
      rewrite IH; [| intros H; apply Hj; by right]. apply list_lookup_insert_ne. intros <-. apply Hj. by left. }
    rewrite E. by apply list_lookup_insert_eq.
  - apply IH; [done | unfold write_row; by rewrite length_insert | done].
Qed.

(** The reply to a status query has one row for each tag, in their order (for no tags,
    those of all OpenVPN and OpenConnect endpoints, sorted), whichever order the waits end
    in: a tag that names no such endpoint gets its error, not connected, and any other what
    its wait returned. *)
Theorem QueryVPNStatus_rows box endpoint_tags await writes :
  writes ≡ₚ rows box await (query_tags box endpoint_tags) ->
  QueryVPNStatus box endpoint_tags writes =
    imap (fun idx tag => Some (status_row box await idx tag)) (query_tags box endpoint_tags) /\
  (endpoint_tags = [] -> Sorted string_le (query_tags box endpoint_tags)).
Proof.
  intros Hp. split.
  - unfold QueryVPNStatus, collectVPNStatus. set (tags := query_tags box endpoint_tags) in *.
    apply list_eq_same_length with (n := length tags);
      [by rewrite length_imap | by rewrite length_collect, length_replicate |].
    intros i x y Hi. rewrite list_lookup_imap.
    destruct (tags !! i) as [tag|] eqn:Ht; [|apply lookup_ge_None in Ht; lia].
    rewrite (foldl_write_lookup _ _ i (status_row box await i tag)).
    + cbn. intros [= <-] [= <-]. done.
    + rewrite Hp. unfold rows. rewrite fmap_imap. apply NoDup_alt. intros a b z.
      rewrite !list_lookup_imap. destruct (tags !! a), (tags !! b); cbn; congruence.
    + by rewrite length_replicate.
    + rewrite Hp. apply list_elem_of_lookup. exists i. unfold rows. by rewrite list_lookup_imap, Ht.
  - intros ->. cbn. destruct box as [[em|]|]; cbn; [| constructor | constructor].
    apply Sorted_merge_sort. intros a b. unfold string_le. destruct (String.leb_total a b); auto.
Qed.
End Endpoints.

(** ** A concrete box: two clients and another endpoint *)
Module Sample.
Definition world : Type := unit.

Definition vpn (state : string) : @Endpoint world string string :=
  OpenVPNEndpoint (fun _ => MkEndpointStatus state "auth: authentication failed" None None)
    (fun _ _ => mret tt) (fun _ => mret tt).
Definition sso : @Endpoint world string string :=
  OpenConnectEndpoint (fun _ => MkEndpointStatus "auth-pending" "" None
      (Some (MkConnectChallenge "7" "" "" "" (Some ("", "https://login")) None)))
    (fun _ _ => throw "answered") (fun _ => mret tt).

Definition endpoints : list (string * @Endpoint world string string) :=
  [("z", vpn "error"); ("wg", OtherEndpoint); ("a", sso)].
Definition box : @Box world string string :=
  Some (MkEndpoints (fun tag => snd <$> find (fun '(t, _) => String.eqb t tag) endpoints) endpoints).

Definition current (_ : world) : option (@Box world string string) := Some box.
Definition id (s : string) : string := s.
Definition await (_ : nat) (snapshot : world -> VPNEndpointStatus) : VPNEndpointStatus := snapshot tt.

Definition status (tag : string) : VPNEndpointStatus :=
  status_row id id "error" "connected" "connected" (Some box) await 0 tag.

Example flags_ex : (vs_AuthFailed (status "z"), vs_AuthFailed (status "a"), vs_Error (status "wg"),
  vc_Url <$> vs_Challenge (status "a")) =
  (Some true, Some false, Some "endpoint is not an openvpn/openconnect client: wg", Some (Some "https://login")).
Proof. vm_compute. reflexivity. Qed.

Example browser_ex :
  (SubmitVPNChallenge current (MkSubmit (To "a") (To "7") None None None None) tt).1 =
  Returns "openconnect browser (SSO) authentication is not supported".
Proof. vm_compute. reflexivity. Qed.

Example submit_ex :
  (SubmitVPNChallenge current (MkSubmit (To "a") (To "8") None None None None) tt).1 =
  Returns "submit challenge 8 on a: answered".
Proof. vm_compute. reflexivity. Qed.
End Sample.

(** Two rows, written in the other order. *)
Lemma QueryVPNStatus_rows_witness :
  QueryVPNStatus (Some Sample.box) [] [(1%nat, Sample.status "z"); (0%nat, Sample.status "a")] =
    [Some (Sample.status "a"); Some (Sample.status "z")].
Proof.
  apply (QueryVPNStatus_rows Sample.id Sample.id "error" "connected" "connected" (Some Sample.box) []
    Sample.await [(1%nat, Sample.status "z"); (0%nat, Sample.status "a")]).
  apply Permutation_swap.
Defined.

Definition sample_env (version : nat) (status : VPNEndpointStatus) : wait_env :=
  MkWaitEnv version status false false.
Definition connecting : VPNEndpointStatus := MkStatus None (To "connecting") None None None no_tunnel None.

(** The status changes between the subscription and the snapshot's use. *)
Lemma awaitVPNStatus_no_lost_wakeup_witness :
  steps (wait_step "error") (sample_env 0 connecting, await_start 5 (sample_env 0 connecting))
    (sample_env 1 (Sample.status "z"), WSelect 0 connecting) /\
  (forall p', await_step "error" (sample_env 1 (Sample.status "z")) (WSelect 0 connecting) p' ->
    (wait_work p' < 3)%nat).
Proof.
  assert (steps (wait_step "error") (sample_env 0 connecting, await_start 5 (sample_env 0 connecting))
    (sample_env 1 (Sample.status "z"), WSelect 0 connecting)) as H.
  { eapply steps_step; [apply wait_waiter_step; constructor|].
    eapply steps_step; [apply wait_waiter_step; constructor|].
    eapply steps_step; [apply wait_env_step; apply (env_update (sample_env 0 connecting) (Sample.status "z"))|].
    constructor. }
  split; [exact H|].
  apply (awaitVPNStatus_no_lost_wakeup "error" 5 (sample_env 0 connecting) _ _ eq_refl H). reflexivity.
Defined.
