(* ===== verification/Warp.v ===== *)
(** * WARP registration: [internal/warp], [rpc/warp.go]

    WireGuard keys and their text form ([keygen.go]), the API client with its tries over
    several hosts ([api.go]), and registering a device as an identity ([register.go]). The
    network, the random source, the JSON codec, ECDSA and PEM are parameters. *)

From S2P Require Export Prelude GoStr.
Local Open Scope string_scope.
Open Scope Z_scope.

(** ** Base64 ([base64.StdEncoding]) *)

Definition b64_alphabet : string := "ABCDEFGHIJKLMNOPQRSTUVWXYZabcdefghijklmnopqrstuvwxyz0123456789+/".

Definition b64_char (n : Z) : ascii :=
  match String.get (Z.to_nat n) b64_alphabet with Some c => c | None => "="%char end.

Fixpoint index_of (c : ascii) (s : string) : option Z :=
  match s with
  | EmptyString => None
  | String d s => if Ascii.eqb c d then Some 0 else Z.succ <$> index_of c s
  end.
Definition b64_digit (c : ascii) : option Z := index_of c b64_alphabet.

(** Three bytes as four digits. *)
Definition sextets (a b c : Z) : list Z :=
  [a / 4; a mod 4 * 16 + b / 16; b mod 16 * 4 + c / 64; c mod 64].

Fixpoint encode (l : list Z) : list ascii :=
  match l with
  | [] => []
  | [a] => (map b64_char (take 2 (sextets a 0 0)) ++ ["="; "="])%list%char
  | [a; b] => (map b64_char (take 3 (sextets a b 0)) ++ ["="])%list%char
  | a :: b :: c :: l => (map b64_char (sextets a b c) ++ encode l)%list
  end.

Definition unsextets (w x y z : Z) : list Z :=
  [w * 4 + x / 16; x mod 16 * 16 + y / 4; y mod 4 * 64 + z].

(** Padding ends the text; the bits it leaves over are not checked. *)
Definition is_pad (c : ascii) : bool := Ascii.eqb c "=".

Fixpoint decode (l : list ascii) : option (list Z) :=
  match l with
  | [] => Some []
  | c1 :: c2 :: c3 :: c4 :: l =>
      w ← b64_digit c1; x ← b64_digit c2;
      if is_pad c4 then
        match l with
        | [] =>
            if is_pad c3 then Some (take 1 (unsextets w x 0 0))
            else y ← b64_digit c3; Some (take 2 (unsextets w x y 0))
        | _ => None
        end
      else
        y ← b64_digit c3; z ← b64_digit c4;
        r ← decode l; Some (unsextets w x y z ++ r)%list
  | _ => None
  end.

Definition newline (c : ascii) : bool := Ascii.eqb c (ascii_of_nat 10) || Ascii.eqb c (ascii_of_nat 13).

Definition EncodeToString (l : list Z) : string := string_of_list_ascii (encode l).
(** The decoder skips line breaks. *)
Definition DecodeString (s : string) : option (list Z) :=
  decode (filter (fun c => newline c = false) (list_ascii_of_string s)).

Example b64_ex : (EncodeToString [0; 255; 16; 131], DecodeString "AP8Qgw==", DecodeString "AP8=Qgw=") =
  ("AP8Qgw==", Some [0; 255; 16; 131], None).
Proof. vm_compute. reflexivity. Qed.

Definition byte (x : Z) : Prop := 0 <= x < 256.

Lemma b64_digits_ok : forallb (fun n => let c := b64_char (Z.of_nat n) in
  bool_decide (b64_digit c = Some (Z.of_nat n)) && negb (Ascii.eqb c "=") && negb (newline c)) (seq 0 64) = true.
Proof. vm_compute. reflexivity. Qed.

Lemma b64_char_spec n : 0 <= n < 64 ->
  b64_digit (b64_char n) = Some n /\ is_pad (b64_char n) = false /\ newline (b64_char n) = false.
Proof.
  intros H. pose proof b64_digits_ok as Ho. rewrite forallb_forall in Ho.
  specialize (Ho (Z.to_nat n)). cbv zeta in Ho. rewrite Z2Nat.id in Ho by lia.
  specialize (Ho ltac:(apply in_seq; lia)). rewrite !andb_true_iff in Ho. destruct Ho as [[H1 H2] H3].
  apply bool_decide_eq_true_1 in H1. apply negb_true_iff in H2, H3. done.
Qed.

Lemma sextets_range a b c : byte a -> byte b -> byte c -> Forall (fun n => 0 <= n < 64) (sextets a b c).
Proof. unfold byte, sextets. intros. repeat constructor; Z.div_mod_to_equations; lia. Qed.

Lemma unsextets_sextets a b c : byte a -> byte b -> byte c ->
  unsextets (a / 4) (a mod 4 * 16 + b / 16) (b mod 16 * 4 + c / 64) (c mod 64) = [a; b; c].
Proof. unfold byte, unsextets. intros. repeat f_equal; Z.div_mod_to_equations; lia. Qed.

(** Three bytes at a time. *)
Lemma bytes_ind (P : list Z -> Prop) :
  P [] -> (forall a, P [a]) -> (forall a b, P [a; b]) -> (forall a b c l, P l -> P (a :: b :: c :: l)) ->
  forall l, P l.
Proof.
  intros H0 H1 H2 H3. fix go 1. intros [|a [|b [|c l]]]; [exact H0 | apply H1 | apply H2 | apply H3, go].
Qed.

Ltac digits :=
  repeat match goal with
  | |- context [b64_digit (b64_char ?n)] =>
      let H := fresh in
      assert (0 <= n < 64) as H by (unfold byte in *; Z.div_mod_to_equations; lia);
      destruct (b64_char_spec n H) as (-> & ? & ?); clear H
  | |- context [is_pad (b64_char ?n)] =>
      let H := fresh in
      assert (0 <= n < 64) as H by (unfold byte in *; Z.div_mod_to_equations; lia);
      destruct (b64_char_spec n H) as (_ & -> & _); clear H
  end.

Lemma decode_encode l : Forall byte l -> decode (encode l) = Some l.
Proof.
  induction l as [|a|a b|a b c l IH] using bytes_ind; intros H.
  - done.
  - apply Forall_cons in H as [Ha _]. cbn -[b64_char b64_digit unsextets is_pad].
    change (is_pad "=") with true. cbn -[b64_char b64_digit unsextets]. digits. cbn -[unsextets Z.div Z.modulo].
    unfold unsextets; cbn [take]. unfold byte in Ha. do 2 f_equal. Z.div_mod_to_equations; lia.
  - apply Forall_cons in H as [Ha [Hb _]%Forall_cons]. cbn -[b64_char b64_digit unsextets is_pad].
    change (is_pad "=") with true. digits. cbn -[b64_char b64_digit unsextets is_pad].
    digits. cbn -[unsextets Z.div Z.modulo]. unfold unsextets; cbn [take]. unfold byte in *.
    do 2 f_equal; [|f_equal]; Z.div_mod_to_equations; lia.
  - apply Forall_cons in H as [Ha [Hb [Hc Hl]%Forall_cons]%Forall_cons].
    cbn -[b64_char b64_digit unsextets is_pad]. digits. cbn -[b64_char b64_digit unsextets is_pad].
    digits. cbn -[unsextets b64_digit b64_char]. digits. rewrite IH by done. cbn -[unsextets].
    by rewrite unsextets_sextets.
Qed.

Lemma encode_no_newline l : Forall byte l -> Forall (fun c => newline c = false) (encode l).
Proof.
  assert (forall n, 0 <= n < 64 -> newline (b64_char n) = false) as Hn by (intros n H; by apply b64_char_spec).
  induction l as [|a|a b|a b c l IH] using bytes_ind; rewrite ?Forall_cons; unfold byte; intros H.
  - constructor.
  - repeat (constructor; [first [reflexivity | apply Hn; Z.div_mod_to_equations; lia]|]). constructor.
  - repeat (constructor; [first [reflexivity | apply Hn; Z.div_mod_to_equations; lia]|]). constructor.
  - repeat (constructor; [first [reflexivity | apply Hn; Z.div_mod_to_equations; lia]|]).
    apply IH. by destruct H as (_ & _ & _ & H).
Qed.

Lemma DecodeString_EncodeToString l : Forall byte l -> DecodeString (EncodeToString l) = Some l.
Proof.
  intros H. unfold DecodeString, EncodeToString. rewrite list_ascii_of_string_of_list_ascii.
  rewrite list_filter_all by (by apply encode_no_newline). by apply decode_encode.
Qed.

(** ** Keys: [keygen.go] *)

Definition KeyLen : nat := 32.

(** The bytes of a [Key]. *)
Abbreviation Key := (list Z).

Definition NewKey (b : list Z) : result Key :=
  if decide (length b = KeyLen) then Ok b
  else Err ("wgtypes: incorrect key size: " ++ itoa (Z.of_nat (length b))).

(** The decoder's error also tells the position, which is left out here. *)
Definition ParseKey (s : string) : result Key :=
  match DecodeString s with
  | None => Err "wgtypes: failed to parse base64-encoded key: illegal base64 data"
  | Some b => NewKey b
  end.

Definition Key_String (k : Key) : string := EncodeToString k.

(** Curve25519 clamping. *)
Definition clamp (k : Key) : Key :=
  let k := alter (fun x => Z.land x 248) 0%nat k in
  alter (fun x => Z.lor (Z.land x 127) 64) 31%nat k.

Section Keygen.
  #[local] Set Default Proof Using "Type".
  Context {World : Type}.
  (** [rand.Read] of so many bytes. *)
  Context (rand_Read : nat -> prog World (list Z)).

Definition GenerateKey : prog World Key := fun w =>
  match rand_Read KeyLen w with
  | (Returns b, w) => lift_result (NewKey b) w
  | (Fails e, w) => (Fails ("wgtypes: failed to read random bytes: " ++ e), w)
  | (Panics e, w) => (Panics e, w)
  end.

Definition GeneratePrivateKey : prog World Key := key ← GenerateKey; mret (clamp key).

(** [rand.Read] fills the slice with bytes. *)
Definition rand_law : Prop := forall n w b w', rand_Read n w = (Returns b, w') -> length b = n /\ Forall byte b.

Lemma clamped_bytes x : byte x ->
  (byte (Z.land x 248) /\ Z.land x 248 mod 8 = 0) /\ 64 <= Z.lor (Z.land x 127) 64 < 128.
Proof.
  intros Hx. assert (forallb (fun n =>
    let lo := Z.land (Z.of_nat n) 248 in let hi := Z.lor (Z.land (Z.of_nat n) 127) 64 in
    (0 <=? lo) && (lo <? 256) && (lo mod 8 =? 0) && (64 <=? hi) && (hi <? 128)) (seq 0 256) = true) as H
    by (vm_compute; reflexivity).
  rewrite forallb_forall in H. specialize (H (Z.to_nat x)). cbv zeta in H. unfold byte in *.
  rewrite Z2Nat.id in H by lia. specialize (H ltac:(apply in_seq; lia)). lia.
Qed.

(** A generated private key is a clamped scalar of 32 bytes (divisible by 8, its top
    bit clear and the next set), and a key read back from its text form is the key. *)
Theorem GeneratePrivateKey_scalar w k w' : rand_law -> GeneratePrivateKey w = (Returns k, w') ->
  length k = KeyLen /\ Forall byte k /\ ParseKey (Key_String k) = Ok k /\
  (exists lo hi, k !! 0%nat = Some lo /\ k !! 31%nat = Some hi /\ lo mod 8 = 0 /\ 64 <= hi < 128).
Proof.
  intros Hr (b & w1 & Hb & [= <- <-])%bind_returns. unfold GenerateKey in Hb.
  destruct (rand_Read KeyLen w) as [[r|e|e] w2] eqn:Hrd; simplify_eq. apply Hr in Hrd as [Hlen Hby].
  unfold lift_result, NewKey in Hb. rewrite decide_True in Hb by done. injection Hb as -> ->.
  assert (length (clamp b) = KeyLen) as Hl by (unfold clamp; by rewrite !length_alter).
  destruct (lookup_lt_is_Some_2 b 0) as [lo Hlo]; [rewrite Hlen; unfold KeyLen; lia|].
  destruct (lookup_lt_is_Some_2 b 31) as [hi Hhi]; [rewrite Hlen; unfold KeyLen; lia|].
  assert (byte lo) as Blo by (eapply (Forall_lookup_1 _ _ _ _ Hby Hlo)).
  assert (byte hi) as Bhi by (eapply (Forall_lookup_1 _ _ _ _ Hby Hhi)).
  assert (Forall byte (clamp b)) as Hc.
  { unfold clamp. apply Forall_alter; [apply Forall_alter; [done|] |].
    - intros x _ Hx. by apply clamped_bytes.
    - intros x _ Hx. apply clamped_bytes in Hx as [_ ?]. unfold byte. lia. }
  split_and!; [done | done | |].
  - unfold ParseKey, Key_String. rewrite DecodeString_EncodeToString by done. unfold NewKey. by rewrite decide_True.
  - exists (Z.land lo 248), (Z.lor (Z.land hi 127) 64). unfold clamp. split_and!.
    + rewrite list_lookup_alter_ne by done. by rewrite list_lookup_alter_eq, Hlo.
    + rewrite list_lookup_alter_eq, list_lookup_alter_ne by done. by rewrite Hhi.
    + by apply clamped_bytes.
    + by apply clamped_bytes.
    + by apply clamped_bytes.
Qed.
End Keygen.

(** ** The API client: [api.go] *)

Definition defaultAPIHost : string := "api.cloudflareclient.com".
Definition apiVersion : string := "v0a4471".
Definition clientVersion : string := "a-6.35-4471".
Definition userAgent : string := "WARP for Android".
Definition maxBodySize : Z := 1048576.
Definition TunnelWireGuard : string := "wireguard".
Definition TunnelMASQUE : string := "masque".

Record registerRequest := MkRegister {
  rr_Key : string; rr_InstallID : string; rr_FCMToken : string; rr_TOS : string; rr_Model : string;
  rr_SerialNumber : string; rr_KeyType : string; rr_TunnelType : string; rr_Locale : string
}.
Record updateKeyRequest := MkUpdate { up_Key : string; up_KeyType : string; up_TunnelType : string }.

(** What is sent as JSON. *)
Inductive body := RegisterBody (r : registerRequest) | UpdateBody (r : updateKeyRequest).

Record peer := MkPeer { pe_PublicKey : string; pe_Host : string; pe_V4 : string; pe_V6 : string }.
Record device := MkDevice {
  dv_ID : string; dv_Token : string; dv_License : string; dv_ClientID : string;
  dv_V4 : string; dv_V6 : string; dv_Peers : list peer
}.

Record http_request := MkRequest {
  rq_method : string; rq_url : string; rq_headers : list (string * string); rq_body : body
}.
(** Reading the body can fail after a part of it. *)
Record http_response := MkResponse { rs_code : Z; rs_status : string; rs_body : result string }.

(** The errors the client tells apart: [*statusError], [*url.Error] with the error it
    wraps, and others. *)
Inductive call_error :=
| EStatus (code : Z) (message : string)
| EUrl (text inner : string)
| EOther (text : string).

Definition error_text (e : call_error) : string :=
  match e with EStatus _ m => m | EUrl t _ => t | EOther t => t end.

(** [errors.As(err, &urlErr)]: the wrapped error. *)
Definition unwrap_url (e : call_error) : call_error :=
  match e with EUrl _ inner => EOther inner | e => e end.

Definition isRejected (e : call_error) : bool :=
  match e with
  | EStatus code _ => (400 <=? code) && (code <? 500) && negb (code =? 429)
  | _ => false
  end.

Fixpoint index_any (s chars : string) : option nat :=
  match s with
  | EmptyString => None
  | String c s' => if in_string c chars then Some 0%nat else S <$> index_any s' chars
  end.

Definition normalize_host (host : string) : string :=
  let host := to_lower (trim_space host) in
  let host := trim_prefix host "https://" in
  let host := trim_prefix host "http://" in
  match index_any host "/?#" with Some index => take_str index host | None => host end.

Definition normalizeHosts (hosts : list string) : list string :=
  match foldl (fun result host =>
      let host := normalize_host host in
      if String.eqb host EmptyString || bool_decide (host ∈ result) then result
      else (result ++ [host])%list) [] hosts
  with
  | [] => [defaultAPIHost]
  | result => result
  end.

Example hosts_ex : normalizeHosts [" HTTPS://a.example/v1 "; "a.example"; "https://"; "b.example?x"] =
  ["a.example"; "b.example"].
Proof. vm_compute. reflexivity. Qed.

(** [io.LimitReader]. *)
Fixpoint limit (n : Z) (s : string) : string :=
  match s with
  | String c s => if n <=? 0 then EmptyString else String c (limit (n - 1) s)
  | EmptyString => EmptyString
  end.

Section Client.
  #[local] Set Default Proof Using "Type".
  Context {World : Type}.
  (** [NewRequest]'s check of the URL; [Do]: whether a connection was got, and the response
      or the error inside its [*url.Error]; and whether the request's context is done. *)
  Context (parse_url : string -> result unit).
  Context (Do : http_request -> World -> (bool * result http_response) * World).
  Context (ctx_done : World -> bool).
  Context (decode_device : string -> result device) (decode_errors : string -> option (list string)).

Definition url_error (method url e : string) : call_error := EUrl (method ++ " " ++ quote url ++ ": " ++ e) e.

Definition responseError (response : http_response) (content : string) : call_error :=
  if rs_code response =? 429 then EStatus 429 "rate limited by Cloudflare, try again later"
  else
    match decode_errors content with
    | Some items =>
        match filter (fun m => m <> EmptyString) items with
        | [] => EStatus (rs_code response) (rs_status response)
        | messages => EStatus (rs_code response) (rs_status response ++ ": " ++ join "; " messages)
        end
    | None => EStatus (rs_code response) (rs_status response)
    end.

Definition request_of (host method path token : string) (b : body) : http_request :=
  {| rq_method := method; rq_url := "https://" ++ host ++ "/" ++ apiVersion ++ path;
     rq_headers := ([("User-Agent", userAgent); ("CF-Client-Version", clientVersion);
       ("Content-Type", "application/json; charset=UTF-8")] ++
       (if String.eqb token EmptyString then [] else [("Authorization", ("Bearer " ++ token)%string)]))%list;
     rq_body := b |}.

Definition read_response (response : http_response) : call_error + device :=
  match rs_body response with
  | Err e => inl (EOther ("read response: " ++ e))
  | Ok content =>
      let content := limit maxBodySize content in
      if (rs_code response <? 200) || (300 <=? rs_code response) then inl (responseError response content)
      else
        match decode_device content with
        | Err e => inl (EOther ("decode response: " ++ e))
        | Ok d => inr d
        end
  end.

(** One call: whether a connection was got, and its result. *)
Definition call (host method path token : string) (b : body) (w : World)
    : (bool * (call_error + device)) * World :=
  let request := request_of host method path token b in
  match parse_url (rq_url request) with
  | Err e => ((false, inl (EUrl ("parse " ++ quote (rq_url request) ++ ": " ++ e) e)), w)
  | Ok _ =>
      match Do request w with
      | ((connected, Err e), w) => ((connected, inl (url_error method (rq_url request) e)), w)
      | ((connected, Ok response), w) => ((connected, read_response response), w)
      end
  end.

(** [register]'s loop, with the failures so far. *)
Fixpoint register_loop (failures hosts : list string) (b : registerRequest) (w : World)
    : result (string * device) * World :=
  match hosts with
  | [] => (Err (join "; " failures), w)
  | host :: hosts =>
      match call host "POST" "/reg" EmptyString (RegisterBody b) w with
      | ((_, inr registered), w) => (Ok (host, registered), w)
      | ((connected, inl err), w) =>
          let err := unwrap_url err in
          let failures := (failures ++ [(host ++ ": " ++ error_text err)%string])%list in
          if (connected && negb (isRejected err)) || ctx_done w
          then (Err (join "; " failures), w)
          else register_loop failures hosts b w
      end
  end.

Definition register (hosts : list string) (b : registerRequest) (w : World)
    : result (string * device) * World := register_loop [] hosts b w.

(** The calls [register] makes, one after the other. *)
Fixpoint calls (hosts : list string) (b : registerRequest) (w : World)
    : list ((bool * (call_error + device)) * bool) * World :=
  match hosts with
  | [] => ([], w)
  | host :: hosts =>
      let '(r, w) := call host "POST" "/reg" EmptyString (RegisterBody b) w in
      let '(rs, w') := calls hosts b w in ((r, ctx_done w) :: rs, w')
  end.

(** The host certainly holds no device of this registration, and the caller still waits. *)
Definition harmless (r : (bool * (call_error + device)) * bool) : bool :=
  match r with
  | ((connected, inl err), done_) => negb ((connected && negb (isRejected (unwrap_url err))) || done_)
  | (_, _) => false
  end.

Definition failure_text (x : string * ((bool * (call_error + device)) * bool)) : string :=
  match x with
  | (host, ((_, inl err), _)) => host ++ ": " ++ error_text (unwrap_url err)
  | (host, _) => host
  end.

Lemma register_loop_spec hosts b : forall failures w r w', register_loop failures hosts b w = (r, w') ->
  exists called rest rs, hosts = (called ++ rest)%list /\ calls called b w = (rs, w') /\
    (match r with
     | Ok (host, d) => exists pre c dn, rs = (pre ++ [((c, inr d), dn)])%list /\
         forallb harmless pre = true /\ last called = Some host
     | Err e =>
         e = join "; " (failures ++ map failure_text (zip called rs))%list /\
         ((forallb harmless rs = true /\ rest = []) \/
          exists pre c err dn, rs = (pre ++ [((c, inl err), dn)])%list /\
            forallb harmless pre = true /\ harmless ((c, inl err), dn) = false)
     end).
Proof.
  induction hosts as [|host hosts IH]; intros failures w r w'; cbn [register_loop].
  - intros [= <- <-]. exists [], [], []. cbn. rewrite app_nil_r. by auto 10.
  - destruct (call host "POST" "/reg" EmptyString (RegisterBody b) w) as [[c [err|d]] w1] eqn:Hc.
    + destruct ((c && negb (isRejected (unwrap_url err))) || ctx_done w1) eqn:E.
      * intros [= <- <-]. exists [host], hosts, [((c, inl err), ctx_done w1)]. cbn [calls]. rewrite Hc.
        split_and!; [done | done | done |]. right. exists [], c, err, (ctx_done w1). cbn. by rewrite E.
      * intros H. destruct (IH _ _ _ _ H) as (called & rest & rs & -> & Hcalls & Hr).
        assert (harmless (c, inl err, ctx_done w1) = true) as Hh by (cbn; by rewrite E).
        exists (host :: called), rest, ((c, inl err, ctx_done w1) :: rs). cbn [calls]. rewrite Hc, Hcalls.
        split_and!; [done | done |]. destruct r as [[h d]|e].
        -- destruct Hr as (pre & c' & dn & -> & Hp & Hl). exists ((c, inl err, ctx_done w1) :: pre), c', dn.
           cbn [app forallb]. rewrite Hh, Hp. split_and!; [done | done |]. by destruct called.
        -- destruct Hr as [-> Hr]. cbn [zip zip_with map failure_text]. rewrite <- app_assoc. split; [done|].
           destruct Hr as [[Hp ->] | (pre & c' & err' & dn & -> & Hp & Hn)].
           ++ left. cbn [forallb]. by rewrite Hh, Hp.
           ++ right. exists ((c, inl err, ctx_done w1) :: pre), c', err', dn. cbn [app forallb]. by rewrite Hh, Hp.
    + intros [= <- <-]. exists [host], hosts, [((c, inr d), ctx_done w1)]. cbn [calls]. rewrite Hc.
      split_and!; [done | done |]. exists [], c, (ctx_done w1). done.
Qed.
End Client.

(** ** Registering: [register.go] *)

Definition defaultWireGuardEndpoint : string := "engage.cloudflareclient.com:2408".
Definition masqueEndpoint : string := "162.159.198.2:443".

Record Identity := MkIdentity {
  DeviceID : string; Token : string; License : string; IPv4 : string; IPv6 : string;
  PrivateKey : string; PeerPublicKey : string; Endpoint : string; Reserved : list Z
}.

Definition fillCommon (response : device) (identity : Identity) : result Identity :=
  if String.eqb (dv_V4 response) EmptyString && String.eqb (dv_V6 response) EmptyString
  then Err "invalid response: missing interface addresses"
  else
    match dv_Peers response with
    | [] => Err "invalid response: missing peer public key"
    | p :: _ =>
        if String.eqb (pe_PublicKey p) EmptyString then Err "invalid response: missing peer public key"
        else
          Ok (MkIdentity (DeviceID identity) (Token identity) (License identity) (dv_V4 response) (dv_V6 response)
            (PrivateKey identity) (PeerPublicKey identity) (Endpoint identity) (Reserved identity))
    end.

(** The first peer, which [fillCommon] has checked; indexing an empty slice panics. *)
Definition first_peer (d : device) : outcome peer :=
  match dv_Peers d with
  | p :: _ => Returns p
  | [] => Panics "runtime error: index out of range [0] with length 0"
  end.

Definition with_peer (identity : Identity) (private_key public_key endpoint : string) (reserved : list Z) : Identity :=
  MkIdentity (DeviceID identity) (Token identity) (License identity) (IPv4 identity) (IPv6 identity)
    private_key public_key endpoint reserved.

Definition fillWireGuard (registered : device) (wgKey : Key) (identity : Identity) : outcome Identity :=
  match fillCommon registered identity with
  | Err e => Fails e
  | Ok identity =>
      match DecodeString (dv_ClientID registered) with
      | None => Fails "decode client_id: illegal base64 data"
      | Some reserved =>
          match first_peer registered with
          | Returns p => Returns (with_peer identity (Key_String wgKey) (pe_PublicKey p)
              (if String.eqb (pe_Host p) EmptyString then defaultWireGuardEndpoint else pe_Host p) reserved)
          | Fails e => Fails e
          | Panics e => Panics e
          end
      end
  end.

Fixpoint hex (l : list Z) : string :=
  match l with
  | [] => EmptyString
  | x :: l => String (hex_digit (Z.to_nat (x / 16))) (String (hex_digit (Z.to_nat (x mod 16))) (hex l))
  end.

Section Register.
  #[local] Set Default Proof Using "Type".
  Context {World Priv : Type}.
  Context (parse_url : string -> result unit).
  Context (Do : http_request -> World -> (bool * result http_response) * World).
  Context (ctx_done : World -> bool).
  Context (decode_device : string -> result device) (decode_errors : string -> option (list string)).
  Context (rand_Read : nat -> prog World (list Z)) (now : World -> string).
  (** [curve25519.ScalarBaseMult]; ECDSA keys and their DER; PEM, and whether a DER key is an
      ECDSA one. *)
  Context (PublicKey : Key -> Key).
  Context (ecdsa_GenerateKey : prog World Priv) (MarshalPKIX MarshalEC : Priv -> result (list Z)).
  Context (pem_Decode : string -> option (list Z)) (ParsePKIX : list Z -> result bool).
  Local Abbreviation call := (call parse_url Do decode_device decode_errors).
  Local Abbreviation register := (register parse_url Do ctx_done decode_device decode_errors).

(** [newClient] fails only on a proxy that is no URL. *)
Definition newClient (proxy : string) : result unit :=
  if String.eqb proxy EmptyString then Ok tt
  else match parse_url proxy with Err e => Err ("parse proxy: parse " ++ quote proxy ++ ": " ++ e) | Ok _ => Ok tt end.

Definition parsePeerPublicKey (content : string) : result string :=
  match pem_Decode content with
  | None => Err "invalid response: peer public key is not PEM"
  | Some block =>
      match ParsePKIX block with
      | Err e => Err ("parse peer public key: " ++ e)
      | Ok false => Err "invalid response: peer public key is not ECDSA"
      | Ok true => Ok (EncodeToString block)
      end
  end.

Definition run_outcome {A} (o : outcome A) : prog World A := fun w => (o, w).

Definition enrollMASQUE (apiHost : string) (registered : device) (identity : Identity) : prog World Identity :=
  privateKey ← ecdsa_GenerateKey;
  publicKeyDER ← lift_result (MarshalPKIX privateKey);
  privateKeyDER ← lift_result (MarshalEC privateKey);
  enrolled ← (fun w =>
    match call apiHost "PATCH" ("/reg/" ++ dv_ID registered) (dv_Token registered)
            (UpdateBody (MkUpdate (EncodeToString publicKeyDER) "secp256r1" TunnelMASQUE)) w with
    | ((_, inr d), w) => (Returns d, w)
    | ((_, inl e), w) => (Fails ("enroll MASQUE key: " ++ error_text e), w)
    end);
  identity ← lift_result (fillCommon enrolled identity);
  p ← run_outcome (first_peer enrolled);
  peerPublicKey ← lift_result (parsePeerPublicKey (pe_PublicKey p));
  mret (with_peer identity (EncodeToString privateKeyDER) peerPublicKey masqueEndpoint (Reserved identity)).

Definition register_body (wgKey : Key) (serial : list Z) (time : string) : registerRequest :=
  {| rr_Key := Key_String (PublicKey wgKey); rr_InstallID := EmptyString; rr_FCMToken := EmptyString;
     rr_TOS := time; rr_Model := "PC"; rr_SerialNumber := hex serial; rr_KeyType := "curve25519";
     rr_TunnelType := TunnelWireGuard; rr_Locale := "en_US" |}.

Definition Register (tunnelType proxy : string) (apiHosts : list string) : prog World Identity :=
  if negb (String.eqb tunnelType TunnelWireGuard) && negb (String.eqb tunnelType TunnelMASQUE)
  then throw ("unknown tunnel type: " ++ tunnelType)
  else
    _ ← lift_result (newClient proxy);
    wgKey ← GeneratePrivateKey rand_Read;
    serial ← rand_Read 8%nat;
    time ← gets now;
    '(apiHost, registered) ← (fun w =>
      match register (normalizeHosts apiHosts) (register_body wgKey serial time) w with
      | (Ok r, w) => (Returns r, w)
      | (Err e, w) => (Fails ("register device: " ++ e), w)
      end);
    if String.eqb (dv_ID registered) EmptyString || String.eqb (dv_Token registered) EmptyString
    then throw "register device: missing id or token in response"
    else
      let identity := MkIdentity (dv_ID registered) (dv_Token registered) (dv_License registered)
        EmptyString EmptyString EmptyString EmptyString EmptyString [] in
      if String.eqb tunnelType TunnelMASQUE then enrollMASQUE apiHost registered identity
      else run_outcome (fillWireGuard registered wgKey identity).

(** *** The RPCs *)

(** Seconds the registration may take, in nanoseconds. *)
Definition register_timeout (api_hosts : list string) : Z :=
  let hosts := match api_hosts with [] => 1 | l => Z.of_nat (length l) end in
  int64 (10 * 10 ^ 9 + hosts * (10 * 10 ^ 9)).

(** The reply: its error, or the identity with the reserved bytes as integers. *)
Definition WarpRegister (tunnel_type proxy : string) (api_hosts : list string) : prog World (string + (Identity * list Z)) :=
  fun w =>
  match Register tunnel_type proxy api_hosts w with
  | (Returns i, w) => (Returns (inr (i, map int32 (Reserved i))), w)
  | (Fails e, w) => (Returns (inl e), w)
  | (Panics e, w) => (Panics e, w)
  end.

Definition GenWgKeyPair : prog World (string + (string * string)) := fun w =>
  match GeneratePrivateKey rand_Read w with
  | (Returns k, w) => (Returns (inr (Key_String k, Key_String (PublicKey k))), w)
  | (Fails e, w) => (Returns (inl e), w)
  | (Panics e, w) => (Panics e, w)
  end.

Lemma normalizeHosts_nodup hosts : NoDup (normalizeHosts hosts) /\ normalizeHosts hosts <> [] /\
  Forall (fun h => h <> EmptyString) (normalizeHosts hosts).
Proof.
  unfold normalizeHosts.
  assert (forall acc, NoDup acc -> Forall (fun h => h <> EmptyString) acc ->
    let r := foldl (fun result host =>
      let host := normalize_host host in
      if String.eqb host EmptyString || bool_decide (host ∈ result) then result
      else (result ++ [host])%list) acc hosts in NoDup r /\ Forall (fun h => h <> EmptyString) r) as H.
  { induction hosts as [|h hosts IH]; intros acc Hn He; cbn [foldl]; [done|]. apply IH; cbv zeta.
    - destruct (String.eqb_spec (normalize_host h) EmptyString); [done|]. cbn [orb]. case_bool_decide; [done|].
      apply NoDup_app. split_and!; [done | | apply NoDup_singleton]. intros x Hx ->%list_elem_of_singleton. done.
    - destruct (String.eqb_spec (normalize_host h) EmptyString); [done|]. cbn [orb]. case_bool_decide; [done|].
      apply Forall_app. split; [done | by constructor]. }
  specialize (H [] (NoDup_nil_2) (Forall_nil_2 _)). cbv zeta in H. destruct H as [H1 H2].
  destruct (foldl _ [] hosts) as [|x l]; [|done]. split_and!; [apply NoDup_singleton | done | by constructor].
Qed.

Lemma length_calls hosts b : forall w rs w',
  calls parse_url Do ctx_done decode_device decode_errors hosts b w = (rs, w') -> length rs = length hosts.
Proof.
  induction hosts as [|h hosts IH]; intros w rs w'; cbn [calls]; [by intros [= <- <-]|].
  destruct (Warp.call _ _ _ _ _ _ _ _ _ w) as [r w1]. destruct (calls _ _ _ _ _ hosts b w1) as [rs1 w2] eqn:E.
  intros [= <- <-]. cbn. f_equal. by eapply IH.
Qed.

Lemma take_last {A} (pre : list A) x (rs : list A) n : rs = (pre ++ [x])%list -> length rs = n ->
  take (n - 1) rs = pre /\ last rs = Some x /\ (1 <= n)%nat.
Proof.
  intros -> <-. rewrite length_app. cbn. split_and!; [| apply last_snoc | lia].
  replace (length pre + 1 - 1)%nat with (length pre + 0)%nat by lia. rewrite take_app_add. cbn. apply app_nil_r.
Qed.

Lemma forallb_take {A} (f : A -> bool) n l : forallb f l = true -> forallb f (take n l) = true.
Proof. revert n. induction l as [|x l IH]; intros [|n]; cbn; [done..|]. intros [-> H]%andb_true_iff. by apply IH. Qed.

Lemma harmless_failed x : harmless x = true -> exists err, x.1.2 = inl err.
Proof. destruct x as [[c [err|d]] dn]; [eauto | done]. Qed.

(** C32: Registering never risks a second device: the hosts contacted are distinct and
    taken in order, and before each one after the first, the one before had not been
    reached or had refused the request (a 4xx other than 429), with the caller still
    waiting. A success is the answer of the last host contacted; a failure names every
    host contacted, and none of them answered with a device. *)
Theorem register_at_most_one hosts b w r w' :
  register (normalizeHosts hosts) b w = (r, w') ->
  exists called rest rs,
    normalizeHosts hosts = (called ++ rest)%list /\ NoDup called /\ called <> [] /\
    calls parse_url Do ctx_done decode_device decode_errors called b w = (rs, w') /\
    forallb harmless (take (length called - 1) rs) = true /\
    (rest <> [] -> forall x, last rs = Some x -> harmless x = false) /\
    match r with
    | Ok (host, d) => last called = Some host /\ exists c dn, last rs = Some ((c, inr d), dn)
    | Err e => e = join "; " (map failure_text (zip called rs)) /\
        Forall (fun x => exists err, x.1.2 = inl err) rs
    end.
Proof.
  intros H. apply register_loop_spec in H as (called & rest & rs & Hh & Hc & Hr).
  destruct (normalizeHosts_nodup hosts) as (Hn & Hne & _). rewrite Hh in Hn, Hne.
  apply NoDup_app in Hn as [Hn _]. pose proof (length_calls _ _ _ _ _ Hc) as Hl.
  exists called, rest, rs. split; [done|]. split; [done|].
  destruct r as [[host d]|e].
  - destruct Hr as (pre & c & dn & E & Hp & Hlast). destruct (take_last _ _ _ _ E Hl) as (-> & -> & Hge).
    split_and!; [intros ->; cbn in Hge; lia | done | done | by intros _ x [= <-] | done | by exists c, dn].
  - destruct Hr as [-> [[Hp ->] | (pre & c & err & dn & E & Hp & Hb)]].
    + split_and!; [by intros -> | done | by apply forallb_take | done | done |].
      apply Forall_forall. intros x Hx. apply harmless_failed. rewrite forallb_forall in Hp.
      by apply Hp, list_elem_of_In.
    + destruct (take_last _ _ _ _ E Hl) as (-> & -> & Hge).
      split_and!; [intros ->; cbn in Hge; lia | done | done | by intros _ x [= <-] | done |].
      rewrite E. apply Forall_app. split; [| by constructor; [eexists|]].
      apply Forall_forall. intros x Hx. apply harmless_failed. rewrite forallb_forall in Hp.
      by apply Hp, list_elem_of_In.
Qed.
End Register.

(** ** A concrete network: a host that is down, one that refuses, one that stalls after
    the request was sent and one that answers *)
Module Network.
Definition world : Type := list string.        (* the URLs requested *)

Definition Do (rq : http_request) (w : world) : (bool * result http_response) * world :=
  let reply r := (r, (w ++ [rq_url rq])%list) in
  if contains (rq_url rq) "down" then reply (false, Err "connection refused")
  else if contains (rq_url rq) "refuse" then reply (true, Ok (MkResponse 403 "403 Forbidden" (Ok "")))
  else if contains (rq_url rq) "stall" then reply (true, Err "timeout")
  else reply (true, Ok (MkResponse 200 "200 OK" (Ok "device"))).

Definition dev : device := MkDevice "id" "token" "free" "AQID" "172.16.0.2" "" [MkPeer "pub" "" "" ""].
Definition decode (s : string) : result device := if String.eqb s "device" then Ok dev else Err "unexpected end of JSON input".
Definition rand (n : nat) : prog world (list Z) := fun w => (Returns (replicate n 255), w).

Definition run (hosts : list string) : result (string * device) * world :=
  register (fun _ => Ok tt) Do (fun _ => false) decode (fun _ => None) (normalizeHosts hosts)
    (register_body (fun k => k) [] [] "now") [].

Example run_ok : (run ["down"; "refuse"; "good"; "other"]).2 =
  ["https://down/v0a4471/reg"; "https://refuse/v0a4471/reg"; "https://good/v0a4471/reg"].
Proof. vm_compute. reflexivity. Qed.

Example run_stall : run ["down"; "stall"; "good"] =
  (Err "down: connection refused; stall: timeout", ["https://down/v0a4471/reg"; "https://stall/v0a4471/reg"]).
Proof. vm_compute. reflexivity. Qed.

Example identity_ex : match (Register (fun _ => Ok tt) Do (fun _ => false) decode (fun _ => None) rand
    (fun _ => "now") (fun k => k) (throw "" : prog world unit) (fun _ => Ok []) (fun _ => Ok []) (fun _ => None)
    (fun _ => Err "") "wireguard" "" ["good"] []).1 with
  | Returns i => (Endpoint i, Reserved i, IPv4 i) | _ => ("", [], "") end =
  ("engage.cloudflareclient.com:2408", [1; 2; 3], "172.16.0.2").
Proof. vm_compute. reflexivity. Qed.
End Network.

Lemma rand_sample_law : rand_law Network.rand.
Proof.
  intros n w b w' [= <- <-]. split; [apply length_replicate|].
  apply Forall_replicate. unfold byte. lia.
Qed.

Lemma GeneratePrivateKey_scalar_witness : exists k,
  GeneratePrivateKey Network.rand [] = (Returns k, []) /\ ParseKey (Key_String k) = Ok k.
Proof.
  eexists. split; [vm_compute; reflexivity|].
  eapply (GeneratePrivateKey_scalar Network.rand [] _ [] rand_sample_law). vm_compute. reflexivity.
Defined.

Lemma register_at_most_one_witness : exists called rest : list string,
  normalizeHosts ["down"; "stall"; "good"] = (called ++ rest)%list /\ NoDup called.
Proof.
  destruct (register_at_most_one (fun _ => Ok tt) Network.Do (fun _ => false) Network.decode (fun _ => None)
    ["down"; "stall"; "good"] (register_body (fun k => k) [] [] "now") [] _ _
    Network.run_stall) as (called & rest & rs & H1 & H2 & _).
  exists called, rest. exact (conj H1 H2).
Defined.
