(* ===== verification/Dashboard.v ===== *)
(** * Installing a dashboard archive: [internal/rpc/dashboard.go]

    The archive is extracted beside the target directory, which it then replaces. Paths
    are lists of elements, cleaned as [path/filepath] does on a Unix system; the file
    system's calls are parameters, described by the regular files they leave. *)

From S2P Require Export Prelude GoStr.
Local Open Scope string_scope.

(** ** Paths *)

Definition path : Type := list string.

(** The elements of a path as the system resolves it (without [..]). *)
Definition elems (s : string) : path :=
  filter (fun e => e <> EmptyString /\ e <> ".") (split_by "/" s).

(** [filepath.Clean] of a relative path, on the elements kept so far, the last first. *)
Fixpoint clean (kept rest : path) : path :=
  match rest with
  | [] => reverse kept
  | e :: rest =>
      if String.eqb e EmptyString || String.eqb e "." then clean kept rest
      else if String.eqb e ".." then
        match kept with
        | k :: kept' => if String.eqb k ".." then clean (e :: kept) rest else clean kept' rest
        | [] => clean [e] rest
        end
      else clean (e :: kept) rest
  end.

(** [filepath.Join]: the empty string where all elements are empty; leading empty elements
    are ignored, so that the result is relative. *)
Definition Join (elements : list string) : option path :=
  if forallb (fun e => String.eqb e EmptyString) elements then None else Some (clean [] elements).

(** [filepath.IsLocal] of such a result. *)
Definition IsLocal (p : option path) : bool :=
  match p with
  | None => false
  | Some (e :: _) => negb (String.eqb e "..")
  | Some [] => true
  end.

Example clean_ex : (Join ["a"; ".."; ".."; "b"], Join [""; "etc"; "passwd"], Join ["a"; ""; "."; "b"]) =
  (Some [".."; "b"], Some ["etc"; "passwd"], Some ["a"; "b"]).
Proof. reflexivity. Qed.

(** ** The archive *)

(** An entry: [zf_Open] is what opening it gives, its bytes up to a read error, if any. *)
Record zip_file := MkZipFile {
  zf_Name : string; zf_IsDir : bool; zf_Open : result (string * option string)
}.

Fixpoint single_directory (dirName : string) (files : list zip_file) : bool :=
  match files with
  | [] => negb (String.eqb dirName EmptyString)
  | file :: files =>
      if zf_IsDir file then single_directory dirName files
      else
        match split_by "/" (zf_Name file) with
        | first :: _ :: _ =>
            if String.eqb dirName EmptyString then single_directory first files
            else if String.eqb dirName first then single_directory dirName files
            else false
        | _ => false
        end
  end.
Definition zipIsInSingleDirectory (files : list zip_file) : bool := single_directory EmptyString files.

(** Where an entry goes, relative to the target. The elements are never empty: splitting
    gives at least one, and two where the directory is trimmed. *)
Definition relativePath (trimDir : bool) (file : zip_file) : option path :=
  let elements := split_by "/" (zf_Name file) in
  Join (if trimDir then tail elements else elements).

(** ** The file system *)

Section Install.
  #[local] Set Default Proof Using "Type".
  Context {FS : Type}.
  (** [os.RemoveAll], [os.MkdirAll], [os.Create] with the copy into it, [os.Rename],
      [adoptExtracted], and [zip.OpenReader]; a call returns its error, if any. *)
  Context (RemoveAll MkdirAll : path -> FS -> option string * FS).
  Context (WriteFile : path -> string -> FS -> option string * FS).
  Context (Rename : path -> path -> FS -> option string * FS).
  Context (adoptExtracted : path -> FS -> option string * FS).
  Context (OpenReader : string -> FS -> result (list zip_file)).

Definition call (f : FS -> option string * FS) : prog FS unit := fun fs =>
  match f fs with
  | (None, fs) => (Returns tt, fs)
  | (Some e, fs) => (Fails e, fs)
  end.

Definition extractZipEntry (file : zip_file) (savePath : path) : prog FS unit :=
  '(data, read_err) ← lift_result (zf_Open file);
  _ ← call (WriteFile savePath data);
  match read_err with Some e => throw e | None => mret tt end.

(** One turn of the loop; it counts the files extracted. *)
Definition extract_one (trimDir : bool) (tempDir : path) (file : zip_file) (extracted : nat) : prog FS nat :=
  if zf_IsDir file then mret extracted
  else
    let relativePath := relativePath trimDir file in
    match relativePath with
    | Some rel =>
        if IsLocal relativePath then
          let savePath := (tempDir ++ rel)%list in
          _ ← call (MkdirAll (take (length savePath - 1) savePath));
          _ ← extractZipEntry file savePath;
          mret (S extracted)
        else throw ("invalid dashboard archive entry: " ++ zf_Name file)
    | None => throw ("invalid dashboard archive entry: " ++ zf_Name file)
    end.

Fixpoint extract (trimDir : bool) (tempDir : path) (files : list zip_file) (extracted : nat) : prog FS nat :=
  match files with
  | [] => mret extracted
  | file :: files => n ← extract_one trimDir tempDir file extracted; extract trimDir tempDir files n
  end.

(** [failed]: the temporary directory is removed, whatever that returns. *)
Definition failed {A} (tempDir : path) (m : prog FS A) : prog FS A :=
  on_error m (fun fs => (RemoveAll tempDir fs).2).

(** The steps after the temporary directory exists. *)
Definition fill_and_swap (files : list zip_file) (tempDir target : path) : prog FS unit :=
  extracted ← extract (zipIsInSingleDirectory files) tempDir files 0%nat;
  _ ← when (Nat.eqb extracted 0) (throw "dashboard archive is empty");
  _ ← cause "hand the dashboard files to the invoking user" (call (adoptExtracted tempDir));
  _ ← call (RemoveAll target);
  call (Rename tempDir target).

Definition InstallDashboard (archivePath targetDir : string) : prog FS unit :=
  if String.eqb archivePath EmptyString || String.eqb targetDir EmptyString
  then throw "missing archive path or target dir"
  else
    files ← (fun fs => cause "open dashboard archive" (lift_result (OpenReader archivePath fs)) fs);
    let tempDir := elems (targetDir ++ ".tmp") in
    _ ← call (RemoveAll tempDir);
    _ ← call (MkdirAll tempDir);
    failed tempDir (fill_and_swap files tempDir (elems targetDir)).

(** ** What the calls do to regular files *)
Context (file : FS -> path -> option string).

Definition under (p q : path) : Prop := exists r, q = (p ++ r)%list.

(** Files other than those under the given paths are as they were. *)
Definition keeps (ps : list path) (fs fs' : FS) : Prop :=
  forall q, (forall p, p ∈ ps -> ~ under p q) -> file fs' q = file fs q.

Record fs_laws : Prop := {
  fl_remove p fs e fs' : RemoveAll p fs = (e, fs') -> keeps [p] fs fs' /\
    (e = None -> forall r, file fs' (p ++ r)%list = None);
  fl_mkdir p fs e fs' : MkdirAll p fs = (e, fs') -> keeps [] fs fs';
  fl_write p data fs e fs' : WriteFile p data fs = (e, fs') ->
    (forall q, q <> p -> file fs' q = file fs q) /\ (e = None -> file fs' p = Some data);
  fl_rename p q fs e fs' : Rename p q fs = (e, fs') -> ~ under p q -> ~ under q p ->
    match e with
    | Some _ => keeps [] fs fs'
    | None => keeps [p; q] fs fs' /\ (forall r, file fs' (q ++ r)%list = file fs (p ++ r)%list) /\
        (forall r, file fs' (p ++ r)%list = None)
    end;
  fl_adopt p fs e fs' : adoptExtracted p fs = (e, fs') -> keeps [] fs fs'
}.

(** The files the archive holds, the last one of a name winning. *)
Definition contents (trimDir : bool) (files : list zip_file) (m : gmap path string) : gmap path string :=
  foldl (fun m f =>
      if zf_IsDir f then m
      else match relativePath trimDir f, zf_Open f with
           | Some rel, Ok (data, _) => <[rel := data]> m
           | _, _ => m
           end) m files.

Definition disjoint (p q : path) : Prop := ~ under p q /\ ~ under q p.

(** ** Laws *)

Lemma keeps_trans ps fs1 fs2 fs3 : keeps ps fs1 fs2 -> keeps ps fs2 fs3 -> keeps ps fs1 fs3.
Proof. intros H1 H2 q Hq. by rewrite H2, H1. Qed.

Lemma keeps_mono ps ps' fs fs' : keeps ps fs fs' -> ps ⊆ ps' -> keeps ps' fs fs'.
Proof. intros H Hs q Hq. apply H. intros p Hp. by apply Hq, Hs. Qed.

Lemma keeps_refl ps fs : keeps ps fs fs.
Proof. done. Qed.

(** A path apart from the given ones keeps its whole tree. *)
Lemma keeps_apart ps fs fs' p : keeps ps fs fs' -> (forall q, q ∈ ps -> disjoint p q) ->
  forall r, file fs' (p ++ r)%list = file fs (p ++ r)%list.
Proof.
  intros H Hd r. apply H. intros q Hq [r' E]. destruct (Hd q Hq) as [H1 H2].
  destruct (app_eq_inv _ _ _ _ E) as [(l & -> & _) | (l & -> & _)]; [apply H2 | apply H1]; eexists; done.
Qed.

Context (L : fs_laws).

Lemma wp_call f (Q : unit -> FS -> Prop) (F : string -> FS -> Prop) fs :
  (forall fs', f fs = (None, fs') -> Q tt fs') -> (forall e fs', f fs = (Some e, fs') -> F e fs') ->
  wp (call f) Q F fs.
Proof. intros H1 H2. unfold wp, call. destruct (f fs) as [[e|] fs']; auto. Qed.

(** The temporary directory holds exactly these files, and nothing else has changed. *)
Definition filled (temp : path) (m : gmap path string) (fs0 fs : FS) : Prop :=
  keeps [temp] fs0 fs /\ forall r, file fs (temp ++ r)%list = m !! r.

Lemma mkdir_files p fs e fs' : MkdirAll p fs = (e, fs') -> forall q, file fs' q = file fs q.
Proof using L. intros H q. apply (fl_mkdir L _ _ _ _ H). by intros ? ?%not_elem_of_nil. Qed.

Lemma write_filled temp m fs0 fs rel data e fs' : filled temp m fs0 fs ->
  WriteFile (temp ++ rel)%list data fs = (e, fs') ->
  keeps [temp] fs0 fs' /\ (e = None -> filled temp (<[rel := data]> m) fs0 fs').
Proof using L.
  intros [Hk Hm] Hw. destruct (fl_write L _ _ _ _ _ Hw) as [H1 H2]. assert (keeps [temp] fs0 fs') as Hk'.
  { eapply keeps_trans; [exact Hk|]. intros q Hq. apply H1. intros ->. apply (Hq temp); [by left | by exists rel]. }
  split; [done|]. intros He. split; [done|]. intros r. destruct (decide (r = rel)) as [-> | Hne].
  - by rewrite H2, lookup_insert_eq.
  - rewrite H1, lookup_insert_ne by (intros E; first [apply Hne | apply Hne; symmetry]; by simplify_list_eq). done.
Qed.

Lemma extract_one_spec trim temp f n m fs0 fs : filled temp m fs0 fs ->
  wp (extract_one trim temp f n)
    (fun n' fs' => filled temp (contents trim [f] m) fs0 fs' /\ n' = (if zf_IsDir f then n else S n))
    (fun _ fs' => keeps [temp] fs0 fs') fs.
Proof using L.
  intros Hf. unfold extract_one, contents. cbn [foldl]. destruct (zf_IsDir f); [by apply wp_ret|].
  destruct (relativePath trim f) as [rel|]; [|by apply wp_throw; destruct Hf].
  destruct (IsLocal (Some rel)); [|by apply wp_throw; destruct Hf].
  wp_step. apply wp_call; [intros fs1 H1 | intros e fs1 H1].
  2:{ destruct Hf as [Hk _]. intros q Hq. rewrite (mkdir_files _ _ _ _ H1). by apply Hk. }
  assert (filled temp m fs0 fs1) as Hf1.
  { destruct Hf as [Hk Hm]. split; [intros q Hq | intros r]; rewrite (mkdir_files _ _ _ _ H1); auto. }
  clear Hf H1. wp_step. unfold extractZipEntry. wp_step.
  destruct (zf_Open f) as [[data rerr]|e] eqn:Ho; [|by destruct Hf1].
  apply (wp_returns _ _ _ _ (data, rerr) fs1); [done|]. wp_step.
  apply wp_call; [intros fs2 H2 | intros e fs2 H2]; destruct (write_filled _ _ _ _ _ _ _ _ Hf1 H2) as [Hk Hd]; [|done].
  destruct rerr; [by apply wp_throw|]. apply wp_ret. wp_step. auto.
Qed.

Definition count_files (files : list zip_file) : nat := length (filter (fun f => zf_IsDir f = false) files).

Lemma extract_spec trim temp files : forall n m fs0 fs, filled temp m fs0 fs ->
  wp (extract trim temp files n)
    (fun n' fs' => filled temp (contents trim files m) fs0 fs' /\ n' = (n + count_files files)%nat)
    (fun _ fs' => keeps [temp] fs0 fs') fs.
Proof using L.
  induction files as [|f files IH]; intros n m fs0 fs Hf; cbn [extract].
  - apply wp_ret. split; [done | cbn; lia].
  - wp_step. eapply wp_mono; [by apply extract_one_spec | | done]. cbv beta. intros n1 fs1 [Hf1 ->].
    eapply wp_mono; [by apply IH | | done]. cbv beta. intros n2 fs2 [Hf2 ->]. split; [exact Hf2|].
    unfold count_files. rewrite filter_cons.
    destruct (zf_IsDir f); [rewrite decide_False by done | rewrite decide_True by done; cbn [length]]; lia.
Qed.

(** A failure of the swap itself: the old directory is being, or has been, removed. *)
Definition swap_failed (files : list zip_file) (temp target : path) (fs0 : FS) (e : string) (fs' : FS) : Prop :=
  exists fs1, filled temp (contents (zipIsInSingleDirectory files) files ∅) fs0 fs1 /\
    (RemoveAll target fs1 = (Some e, fs') \/
     exists fs2, RemoveAll target fs1 = (None, fs2) /\ Rename temp target fs2 = (Some e, fs')).

Lemma fill_and_swap_spec files temp target fs0 fs : disjoint temp target -> filled temp ∅ fs0 fs ->
  wp (fill_and_swap files temp target)
    (fun _ fs' => keeps [temp; target] fs0 fs' /\ (0 < count_files files)%nat /\
       (forall r, file fs' (target ++ r)%list = contents (zipIsInSingleDirectory files) files ∅ !! r) /\
       (forall r, file fs' (temp ++ r)%list = None))
    (fun e fs' => keeps [temp] fs0 fs' \/ swap_failed files temp target fs0 e fs') fs.
Proof using L.
  intros [Hd1 Hd2] Hf. unfold fill_and_swap. wp_step.
  eapply wp_mono; [by apply extract_spec | | by intros e fs' H; left]. cbv beta. intros n fs1 [Hf1 ->].
  wp_step. apply wp_when; intros Hn; [apply wp_throw; left; by destruct Hf1|].
  apply Nat.eqb_neq in Hn. wp_step. apply wp_cause, wp_call; [intros fs2 H2 | intros e fs2 H2].
  2:{ left. eapply keeps_trans; [apply Hf1|]. eapply keeps_mono; [exact (fl_adopt L _ _ _ _ H2) | apply list_subseteq_nil]. }
  assert (filled temp (contents (zipIsInSingleDirectory files) files ∅) fs0 fs2) as Hf2.
  { pose proof (fl_adopt L _ _ _ _ H2) as Ha. destruct Hf1 as [Hk Hm]. split; [intros q Hq | intros r];
      rewrite (Ha _ ltac:(by intros ? ?%not_elem_of_nil)); auto. }
  clear Hf1 H2. wp_step. apply wp_call; [intros fs3 H3 | intros e fs3 H3].
  2:{ right. exists fs2. auto. }
  apply wp_call; [intros fs4 H4 | intros e fs4 H4].
  2:{ right. exists fs2. eauto. }
  destruct (fl_rename L _ _ _ _ _ H4 Hd1 Hd2) as (Hk4 & Hr4 & Hn4). destruct (fl_remove L _ _ _ _ H3) as [Hk3 _].
  destruct Hf2 as [Hk2 Hm2]. split_and!.
  - eapply keeps_trans; [eapply keeps_mono; [exact Hk2 | set_solver] |].
    eapply keeps_trans; [eapply keeps_mono; [exact Hk3 | set_solver] | exact Hk4].
  - lia.
  - intros r. rewrite Hr4, <- Hm2. apply (keeps_apart _ _ _ _ Hk3). intros q ->%list_elem_of_singleton. done.
  - exact Hn4.
Qed.

Lemma InstallDashboard_spec archivePath targetDir fs files :
  let target := elems targetDir in
  let temp := elems (targetDir ++ ".tmp") in
  disjoint temp target -> OpenReader archivePath fs = Ok files ->
  wp (InstallDashboard archivePath targetDir)
    (fun _ fs' => keeps [temp; target] fs fs' /\ (0 < count_files files)%nat /\
       (forall r, file fs' (target ++ r)%list = contents (zipIsInSingleDirectory files) files ∅ !! r) /\
       (forall r, file fs' (temp ++ r)%list = None))
    (fun e fs' => keeps [temp] fs fs' \/
       (exists fs1 fs2, keeps [temp] fs fs1 /\ RemoveAll target fs1 = (Some e, fs2) /\ keeps [temp] fs2 fs') \/
       (keeps [temp; target] fs fs' /\ forall p, file fs' (target ++ p)%list = None)) fs.
Proof using L.
  intros target temp Hd Ho. assert (disjoint target temp) as Hd' by (destruct Hd; by split).
  unfold InstallDashboard. destruct (_ || _); [by apply wp_throw; left|].
  wp_step. unfold wp at 1, cause, lift_result. rewrite Ho. cbv zeta. fold temp.
  wp_step. apply wp_call; [intros fs1 H1 | intros e fs1 H1]; destruct (fl_remove L _ _ _ _ H1) as [Hk1 Hn1];
    [| by left].
  wp_step. apply wp_call; [intros fs2 H2 | intros e fs2 H2].
  2:{ left. intros q Hq. rewrite (mkdir_files _ _ _ _ H2). by apply Hk1. }
  assert (filled temp ∅ fs fs2) as Hf.
  { split; [intros q Hq | intros p]; rewrite (mkdir_files _ _ _ _ H2); [by apply Hk1 | by rewrite Hn1]. }
  unfold failed. fold target. wp_step.
  eapply wp_mono; [apply (fill_and_swap_spec files temp target fs fs2 Hd Hf) | done |]. cbv beta.
  intros e fs3 H3. destruct (RemoveAll temp fs3) as [e' fs4] eqn:H4. cbn.
  destruct (fl_remove L _ _ _ _ H4) as [Hk4 _].
  destruct H3 as [H3 | (fs5 & [Hk5 Hm5] & [H5 | (fs6 & H5 & H6)])].
  - left. by eapply keeps_trans.
  - right. left. exists fs5, fs3. auto.
  - right. right. pose proof (fl_rename L _ _ _ _ _ H6 (proj1 Hd) (proj2 Hd)) as Hk6.
    destruct (fl_remove L _ _ _ _ H5) as [Hk5' Hn5]. split.
    + eapply keeps_trans; [eapply keeps_mono; [exact Hk5 | set_solver] |].
      eapply keeps_trans; [eapply keeps_mono; [exact Hk5' | set_solver] |].
      eapply keeps_trans; [eapply keeps_mono; [exact Hk6 | set_solver] | eapply keeps_mono; [exact Hk4 | set_solver]].
    + intros p. rewrite (keeps_apart _ _ _ target Hk4) by (by intros q ->%list_elem_of_singleton).
      rewrite (Hk6 _ ltac:(by intros ? ?%not_elem_of_nil)). by apply Hn5. 
Qed.

End Install.

(** ** The owner of what was extracted: [adoptExtracted] (dashboard_unix.go) *)

Section Adopt.
  #[local] Set Default Proof Using "Type".
  Context {FS : Type} (file : FS -> path -> option string).
  (** The process's ids, the entries [filepath.WalkDir] visits, each with the error it is
      visited with, and [os.Lchown]. *)
  Context (Geteuid Getuid Getgid : Z) (WalkDir : path -> FS -> list (path * option string)).
  Context (Lchown : path -> Z -> Z -> FS -> option string * FS).

(** The function called for each entry; the first error ends the walk. *)
Fixpoint adopt_entries (entries : list (path * option string)) (fs : FS) : option string * FS :=
  match entries with
  | [] => (None, fs)
  | (p, Some err) :: _ => (Some err, fs)
  | (p, None) :: entries =>
      match Lchown p Getuid Getgid fs with
      | (None, fs) => adopt_entries entries fs
      | r => r
      end
  end.

Definition adoptExtracted (root : path) (fs : FS) : option string * FS :=
  if negb (Geteuid =? 0)%Z then (None, fs)
  else if (Getuid =? 0)%Z then (None, fs)
  else adopt_entries (WalkDir root fs) fs.

(** Whose a path is, if there is something at it. *)
Context (owner : FS -> path -> option (Z * Z)).

(** Changing an owner changes no contents and nobody else's; a walk visits all there is
    under its root, with an error for what it cannot read. *)
Record owner_laws : Prop := {
  ol_chown p u g fs e fs' : Lchown p u g fs = (e, fs') ->
    (forall q, file fs' q = file fs q) /\ (forall q, q <> p \/ e <> None -> owner fs' q = owner fs q) /\
    (e = None -> owner fs' p = Some (u, g));
  ol_walk root fs q : under root q -> is_Some (owner fs q) -> q ∈ (WalkDir root fs).*1
}.
Context (L : owner_laws).

Lemma adopt_entries_spec entries : forall fs e fs', adopt_entries entries fs = (e, fs') ->
  (forall q, file fs' q = file fs q) /\
  (forall q, owner fs' q = owner fs q \/ (q ∈ entries.*1 /\ owner fs' q = Some (Getuid, Getgid))) /\
  (e = None -> forall q, q ∈ entries.*1 -> owner fs' q = Some (Getuid, Getgid)).
Proof using L.
  induction entries as [|[p [err|]] entries IH]; intros fs e fs'; cbn [adopt_entries].
  - intros [= <- <-]. split_and!; [done | by left |]. intros _ q Hq. by apply not_elem_of_nil in Hq.
  - intros [= <- <-]. split_and!; [done | by left | done].
  - destruct (Lchown p Getuid Getgid fs) as [[err|] fs1] eqn:E;
      destruct (ol_chown L _ _ _ _ _ _ E) as (H1 & H2 & H3).
    + intros [= <- <-]. split_and!; [done | | done]. intros q. left. by apply H2; right.
    + intros H. destruct (IH _ _ _ H) as (H4 & H5 & H6).
      assert (forall q, owner fs1 q = owner fs q \/ (q = p /\ owner fs1 q = Some (Getuid, Getgid))) as Hq.
      { intros q. destruct (decide (q = p)) as [->|Hne]; [right; auto | left; apply H2; by left]. }
      split_and!; [by intros q; rewrite H4, H1 | |].
      * intros q. rewrite fmap_cons. destruct (H5 q) as [->|[Hin ->]]; [|right; split; [by right | done]].
        destruct (Hq q) as [->|[-> ->]]; [by left | right; split; [by left | done]].
      * intros He q. rewrite fmap_cons. intros [Eq|Hin]%elem_of_cons; [|by apply H6].
        cbn in Eq. rewrite Eq. destruct (H5 p) as [->|[_ ->]]; auto.
Qed.

(** It is a call as the installation expects of it: no contents are changed. *)
Lemma adoptExtracted_keeps root fs e fs' : adoptExtracted root fs = (e, fs') -> keeps file [] fs fs'.
Proof using L.
  unfold adoptExtracted. destruct (negb _); [by intros [= _ <-]|]. destruct (_ =? 0)%Z; [by intros [= _ <-]|].
  intros H q _. by apply (adopt_entries_spec _ _ _ _ H).
Qed.

(** Whoever may own something under [root]: the invoking user, once it succeeds under
    setuid. *)
Lemma adoptExtracted_owner root fs fs' : Geteuid = 0%Z -> Getuid <> 0%Z -> adoptExtracted root fs = (None, fs') ->
  forall q o, under root q -> owner fs' q = Some o -> o = (Getuid, Getgid).
Proof using L.
  unfold adoptExtracted. intros -> Hu%Z.eqb_neq. rewrite Hu. cbn [Z.eqb negb].
  intros H q o Hq Ho. destruct (adopt_entries_spec _ _ _ _ H) as (_ & H2 & H3).
  destruct (H2 q) as [E|[_ E]]; [|congruence].
  assert (q ∈ (WalkDir root fs).*1) as Hin by (apply (ol_walk L); [done|]; exists o; congruence).
  specialize (H3 eq_refl q Hin). congruence.
Qed.

Section Installed.
  Context (RemoveAll MkdirAll : path -> FS -> option string * FS).
  Context (WriteFile : path -> string -> FS -> option string * FS).
  Context (Rename : path -> path -> FS -> option string * FS).
  Context (OpenReader : string -> FS -> result (list zip_file)).
  (** Removing leaves the owners of what is elsewhere; a renamed tree keeps its owners. *)
  Context (remove_owner : forall p fs fs', RemoveAll p fs = (None, fs') ->
    forall q, ~ under p q -> owner fs' q = owner fs q).
  Context (rename_owner : forall p q fs fs', Rename p q fs = (None, fs') ->
    forall r, owner fs' (q ++ r)%list = owner fs (p ++ r)%list).

Lemma call_returns f (fs fs' : FS) u : call f fs = (Returns u, fs') -> f fs = (None, fs').
Proof. unfold call. destruct (f fs) as [[e|] fs1]; [done | by intros [= _ <-]]. Qed.

Lemma failed_returns (temp : path) (m : prog FS unit) fs fs' :
  failed RemoveAll temp m fs = (Returns tt, fs') -> m fs = (Returns tt, fs').
Proof. unfold failed, on_error. by destruct (m fs) as [[[]|e|e] fs1]. Qed.

(** C36: a dashboard a setuid core has installed for an ordinary user is that user's: nothing
    in the target is left to root or to anybody else. *)
Theorem dashboard_is_invoking_users archivePath targetDir fs fs' :
  let target := elems targetDir in
  let temp := elems (targetDir ++ ".tmp") in
  disjoint temp target -> Geteuid = 0%Z -> Getuid <> 0%Z ->
  InstallDashboard RemoveAll MkdirAll WriteFile Rename adoptExtracted OpenReader archivePath targetDir fs = (Returns tt, fs') ->
  forall r o, owner fs' (target ++ r)%list = Some o -> o = (Getuid, Getgid).
Proof using L remove_owner rename_owner.
  intros target temp [Hd1 Hd2] He Hu H r o Ho. revert H. unfold InstallDashboard. destruct (_ || _); [done|].
  intros (files & fs1 & _ & (? & fs2 & _ & (? & fs3 & _ & H%failed_returns)%bind_returns)%bind_returns)%bind_returns.
  revert H. unfold fill_and_swap. fold target temp.
  intros (n & fs4 & _ & (? & fs5 & _ & (? & fs6 & Ha & (? & fs7 & Hr%call_returns & Hm%call_returns)%bind_returns)%bind_returns)%bind_returns)%bind_returns.
  unfold cause in Ha. destruct (call (adoptExtracted temp) fs5) as [[u|e|e] fs8] eqn:Hc; try done.
  injection Ha as _ <-. apply call_returns in Hc.
  rewrite (rename_owner _ _ _ _ Hm) in Ho.
  rewrite (remove_owner _ _ _ Hr) in Ho.
  - eapply (adoptExtracted_owner temp fs5 fs8); [done | done | done | by exists r | done].
  - intros [r' E]. destruct (app_eq_inv _ _ _ _ E) as [(l & E1 & _) | (l & E1 & _)]; [apply Hd2 | apply Hd1]; by exists l.
Qed.
End Installed.
End Adopt.

(** ** A concrete file system: regular files, and the directories there are *)
Module Disk.
Record fs := MkFs { files : path -> option string; dirs : path -> bool }.

Definition under_b (p q : path) : bool := bool_decide (p `prefix_of` q).

Definition RemoveAll (p : path) (s : fs) : option string * fs :=
  (None, MkFs (fun q => if under_b p q then None else files s q) (fun q => if under_b p q then false else dirs s q)).
Definition MkdirAll (p : path) (s : fs) : option string * fs :=
  (None, MkFs (files s) (fun q => under_b q p || dirs s q)).
Definition WriteFile (p : path) (data : string) (s : fs) : option string * fs :=
  if dirs s p then (Some "is a directory", s)
  else (None, MkFs (fun q => if decide (q = p) then Some data else files s q) (dirs s)).
Definition Rename (p q : path) (s : fs) : option string * fs :=
  if negb (dirs s p) then (Some "no such file or directory", s)
  else
    let move {A} (none : A) (f : path -> A) x :=
      if under_b q x then f (p ++ drop (length q) x)%list else if under_b p x then none else f x in
    (None, MkFs (move None (files s)) (move false (dirs s))).
Definition adopt (p : path) (s : fs) : option string * fs := (None, s).

Definition entry (name data : string) : zip_file := MkZipFile name false (Ok (data, None)).
Definition open_zip (name : string) (s : fs) : result (list zip_file) :=
  if String.eqb name "ui.zip" then
    Ok [MkZipFile "ui-main/" true (Err ""); entry "ui-main/index.html" "new"; entry "ui-main/js/app.js" "js"]
  else if String.eqb name "evil.zip" then Ok [entry "a/ok" ""; entry "b/../../../etc/passwd" "root"]
  else Err "no such file or directory".

Definition disk0 : fs :=
  MkFs (fun q => if decide (q = ["home"; "ui"; "index.html"]) then Some "old" else None)
    (fun q => under_b q ["home"; "ui"]).

Definition install (archive target : string) : outcome unit * fs :=
  InstallDashboard RemoveAll MkdirAll WriteFile Rename adopt open_zip archive target disk0.

Example install_ex : let s := (install "ui.zip" "/home/ui").2 in
  map (files s) [["home"; "ui"; "index.html"]; ["home"; "ui"; "js"; "app.js"]; ["home"; "ui.tmp"; "index.html"]] =
  [Some "new"; Some "js"; None].
Proof. vm_compute. reflexivity. Qed.

Example evil_ex : (install "evil.zip" "/home/ui").1 = Fails "invalid dashboard archive entry: b/../../../etc/passwd".
Proof. vm_compute. reflexivity. Qed.

(** With a trailing slash the temporary directory lies inside the target, which is removed
    before it can be renamed: both dashboards are lost. *)
Example trailing_slash : let '(r, s) := install "ui.zip" "/home/ui/" in
  (r, files s ["home"; "ui"; "index.html"]) = (Fails "no such file or directory", None).
Proof. vm_compute. reflexivity. Qed.
End Disk.

Section DiskLaws.
Import Disk.

Lemma under_b_spec p q : under_b p q = true <-> under p q.
Proof. unfold under_b. apply bool_decide_eq_true. Qed.

Lemma under_b_app p r : under_b p (p ++ r)%list = true.
Proof. apply under_b_spec. by exists r. Qed.

Lemma under_b_false p q : ~ under p q -> under_b p q = false.
Proof. intros H. apply not_true_is_false. by rewrite under_b_spec. Qed.

Lemma disk_laws : fs_laws RemoveAll MkdirAll WriteFile Rename adopt files.
Proof.
  split.
  - intros p fs e fs' [= <- <-]. cbn. split; [| intros _ r; by rewrite under_b_app].
    intros q Hq. cbn. by rewrite under_b_false by (apply Hq; by left).
  - by intros p fs e fs' [= <- <-].
  - intros p data fs e fs'. unfold WriteFile. destruct (dirs fs p); intros [= <- <-]; [done|]. cbn. split.
    + intros q Hq. by rewrite decide_False.
    + intros _. by rewrite decide_True.
  - intros p q fs e fs'. unfold Rename. destruct (negb (dirs fs p)); [by intros [= <- <-]|].
    intros [= <- <-] H1 H2. cbn. split_and!.
    + intros x Hx. cbn. by rewrite !under_b_false by (apply Hx; set_solver).
    + intros r. by rewrite under_b_app, drop_app_length.
    + intros r. rewrite under_b_app. destruct (under_b q (p ++ r)%list) eqn:E; [|done].
      apply under_b_spec in E as [r' E].
      destruct (app_eq_inv _ _ _ _ E) as [(l & -> & _) | (l & -> & _)]; exfalso;
        [apply H2 | apply H1]; by eexists.
  - by intros p fs e fs' [= <- <-].
Qed.

End DiskLaws.

(** ** A concrete file system with owners; its paths are among those ever made *)
Module OwnedDisk.
Record odisk := MkODisk { base : Disk.fs; universe : list path; own : path -> option (Z * Z) }.

Definition owner (s : odisk) (q : path) : option (Z * Z) := if bool_decide (q ∈ universe s) then own s q else None.
Definition file (s : odisk) : path -> option string := Disk.files (base s).

Definition RemoveAll (p : path) (s : odisk) : option string * odisk :=
  (None, MkODisk (Disk.RemoveAll p (base s)).2 (universe s) (fun q => if Disk.under_b p q then None else own s q)).
Definition MkdirAll (p : path) (s : odisk) : option string * odisk :=
  (None, MkODisk (Disk.MkdirAll p (base s)).2 (p :: universe s)
           (fun q => if decide (q = p) then Some (default (0, 0)%Z (owner s p)) else own s q)).
Definition WriteFile (p : path) (data : string) (s : odisk) : option string * odisk :=
  match Disk.WriteFile p data (base s) with
  | (None, b) => (None, MkODisk b (p :: universe s)
                          (fun q => if decide (q = p) then Some (default (0, 0)%Z (owner s p)) else own s q))
  | (Some e, _) => (Some e, s)
  end.
Definition Rename (p q : path) (s : odisk) : option string * odisk :=
  match Disk.Rename p q (base s) with
  | (None, b) =>
      (None, MkODisk b (((fun x => q ++ drop (length p) x)%list <$> universe s) ++ universe s)
               (fun x => if Disk.under_b q x then owner s (p ++ drop (length q) x)%list
                         else if Disk.under_b p x then None else owner s x))
  | (Some e, _) => (Some e, s)
  end.
Definition WalkDir (root : path) (s : odisk) : list (path * option string) :=
  (fun q => (q, None)) <$> filter (fun q => Disk.under_b root q = true /\ is_Some (owner s q)) (universe s).
Definition Lchown (p : path) (u g : Z) (s : odisk) : option string * odisk :=
  match owner s p with
  | None => (Some "no such file or directory", s)
  | Some _ => (None, MkODisk (base s) (universe s) (fun q => if decide (q = p) then Some (u, g) else own s q))
  end.

Lemma owned_laws : owner_laws file WalkDir Lchown owner.
Proof.
  split.
  - intros p u g s e s'. unfold Lchown. destruct (owner s p) as [o|] eqn:E; intros [= <- <-]; [|by split_and!].
    split_and!; [done | |].
    + intros q [Hq|Hq]; [|done]. unfold owner; cbn. case_bool_decide; [|done]. by rewrite decide_False.
    + intros _. unfold owner in *; cbn. case_bool_decide; [|done]. by rewrite decide_True.
  - intros root s q Hu%under_b_spec Ho. unfold WalkDir. rewrite <- list_fmap_compose. apply list_elem_of_fmap.
    exists q. split; [done|]. apply list_elem_of_filter. split; [done|].
    unfold owner in Ho. case_bool_decide; [done | by destruct Ho].
Qed.

Lemma owned_remove p s s' : RemoveAll p s = (None, s') -> forall q, ~ under p q -> owner s' q = owner s q.
Proof. intros [= <-] q Hq. unfold owner; cbn. by rewrite under_b_false. Qed.

Lemma owned_rename p q s s' : Rename p q s = (None, s') -> forall r, owner s' (q ++ r)%list = owner s (p ++ r)%list.
Proof.
  unfold Rename. destruct (Disk.Rename p q (base s)) as [[e|] b]; [done|]. intros [= <-] r.
  unfold owner at 1; cbn. rewrite under_b_app, drop_app_length.
  case_bool_decide as H; [done|]. unfold owner. rewrite bool_decide_false; [done|].
  intros Hin. apply H, elem_of_app. left. apply list_elem_of_fmap. exists (p ++ r)%list. by rewrite drop_app_length.
Qed.

Definition disk0 : odisk := MkODisk Disk.disk0 [["home"; "ui"; "index.html"]] (fun _ => Some (0, 0)%Z).
Definition open_zip (name : string) (s : odisk) : result (list zip_file) := Disk.open_zip name (base s).

Abbreviation install := (InstallDashboard RemoveAll MkdirAll WriteFile Rename (adoptExtracted 0 1000 1000 WalkDir Lchown) open_zip
  "ui.zip" "/home/ui" disk0).
End OwnedDisk.

Lemma dashboard_is_invoking_users_witness : exists s',
  OwnedDisk.install = (Returns tt, s') /\
  OwnedDisk.owner s' ["home"; "ui"; "js"; "app.js"] = Some (1000, 1000)%Z.
Proof.
  assert (OwnedDisk.install = (Returns tt, OwnedDisk.install.2)) as H by (vm_compute; reflexivity).
  exists OwnedDisk.install.2. split; [exact H|].
  assert (is_Some (OwnedDisk.owner OwnedDisk.install.2 ["home"; "ui"; "js"; "app.js"])) as [o Ho]
    by (vm_compute; by eexists).
  rewrite Ho. f_equal.
  eapply (dashboard_is_invoking_users OwnedDisk.file 0 1000 1000 OwnedDisk.WalkDir OwnedDisk.Lchown OwnedDisk.owner
    OwnedDisk.owned_laws OwnedDisk.RemoveAll OwnedDisk.MkdirAll OwnedDisk.WriteFile OwnedDisk.Rename OwnedDisk.open_zip
    OwnedDisk.owned_remove OwnedDisk.owned_rename "ui.zip" "/home/ui" OwnedDisk.disk0 OwnedDisk.install.2);
    [| reflexivity | discriminate | exact H | exact Ho].
  split; intros [r E]; vm_compute in E; discriminate E.
Defined.
