(* ===== verification/ProcessWin.v ===== *)
(** * The extra process on Windows: [internal/process/process_windows.go]

    An elevated core starts the helper with a token of its user's that is not elevated,
    taken from the first source that has one. Handles are numbers of a pool, each with
    whether it is an elevated token; every call of the system may fail, as an oracle that
    sees the call and how many were made before it decides. *)

From S2P Require Export Prelude GoStr.
From S2P Require Process.
Local Open Scope string_scope.

(** ** The system's calls *)

Definition PROCESS_QUERY_INFORMATION : Z := 1024.
Definition PROCESS_QUERY_LIMITED_INFORMATION : Z := 4096.
Definition disableMaxPrivilege : Z := 1.
Definition luaToken : Z := 4.

Inductive sys_call :=
| OpenSelfToken
| DuplicateTokenEx (src : nat)
| GetLinkedToken (src : nat)
| WTSQueryUserToken (id : Z)
| OpenProcess (access pid : Z)
| OpenProcessToken (proc : nat)
| GetTokenGroups (tok : nat)
| CreateRestrictedToken (src : nat) (flags : Z)
| CreateWellKnownSid
| SetTokenInformation (tok : nat)
| CreatePipe
| OpenNUL
| SetHandleInformation (h : nat)
| UTF16 (s : string)
| CreateProcessWithTokenW (tok : nat) (exe cmdline : string)
| StartCmd (token : option nat) (path : string) (args : list string).

(** A process started: its program, arguments and environment, and whether it runs with an
    elevated token. *)
Record child := MkChild {
  ch_path : string; ch_args : list string; ch_env : list string; ch_elevated : bool
}.

Record world := MkWorld {
  w_handles : pool;
  w_elevated : nat -> bool;
  w_time : nat;
  w_children : list child
}.

Inductive runner :=
| CmdRunner (process : nat)
| TokenRunner (hProcess outR errR : nat).      (* the read ends belong to the pumps *)

(** A SID: whether it is valid, is the builtin administrators group, and its
    sub-authorities. *)
Record SID := MkSID { sid_valid : bool; sid_builtin_admins : bool; sid_sub : list Z }.

Definition isAdminSid (sid : option SID) : bool :=
  match sid with
  | None => false
  | Some sid =>
      if negb (sid_valid sid) then false
      else if sid_builtin_admins sid then true
      else
        match sid_sub sid with
        | 21%Z :: _ :: _ as sub => existsb (Z.eqb (List.last sub 0%Z)) [512; 518; 519; 520]%Z
        | _ => false
        end
  end.

Definition adminGroups (groups : list (option SID)) : list (option SID) :=
  filter (fun g => isAdminSid g = true) groups.

Example domain_admins : isAdminSid (Some (MkSID true false [21; 1; 2; 3; 512]%Z)) = true.
Proof. reflexivity. Qed.

(** ** Sessions and shells *)

Definition add_session (out : list Z) (id : Z) : list Z :=
  if (id =? 0)%Z || (id =? 4294967295)%Z then out
  else if decide (id ∈ out) then out else (out ++ [id])%list.

(** Our own session, if it is known, the console's and the active ones. *)
Definition candidateSessions (own : option Z) (console : Z) (active : list Z) : list Z :=
  let out := match own with Some id => add_session [] id | None => [] end in
  foldl add_session (add_session out console) active.

(** [processSession] and [activeSessions], of what the system answers; a session's state is
    [WTSActive] when it is zero. *)
Definition processSession (ProcessIdToSessionId : Z -> result Z) (pid : Z) : option Z :=
  match ProcessIdToSessionId pid with Ok id => Some id | Err _ => None end.

Definition WTSActive : Z := 0.

Definition activeSessions (WTSEnumerateSessions : result (list (Z * Z))) : list Z :=
  match WTSEnumerateSessions with
  | Err _ => []
  | Ok info => fst <$> filter (fun s => s.2 = WTSActive) info
  end.

Definition shellCandidates (processSession : Z -> option Z) (pids prefer : list Z) : list Z :=
  match prefer with
  | [] => pids
  | _ => mjoin ((fun want => filter (fun pid => processSession pid = Some want) pids) <$> prefer)
  end.

(** The processes of a name in a snapshot. *)
Definition findProcesses (snapshot : list (string * Z)) (name : string) : list Z :=
  omap (fun '(exe, pid) => if equal_fold exe name then Some pid else None) snapshot.

Lemma candidateSessions_spec own console active :
  NoDup (candidateSessions own console active) /\
  (forall id, id ∈ candidateSessions own console active <->
     id <> 0%Z /\ id <> 4294967295%Z /\ (own = Some id \/ id = console \/ id ∈ active)).
Proof.
  assert (forall out id, NoDup out -> NoDup (add_session out id) /\ (forall x, x ∈ add_session out id <->
    x ∈ out \/ (x = id /\ id <> 0%Z /\ id <> 4294967295%Z))) as Hadd.
  { intros out id Hn. unfold add_session. destruct (Z.eqb_spec id 0); [|destruct (Z.eqb_spec id 4294967295)]; cbn [orb].
    - split; [done | intros; naive_solver].
    - split; [done | intros; naive_solver].
    - destruct (decide (id ∈ out)); [split; [done | intros; naive_solver]|]. split.
      + apply NoDup_app. split_and!; [done | | apply NoDup_singleton]. by intros x Hx ->%list_elem_of_singleton.
      + intros x. rewrite elem_of_app, list_elem_of_singleton. naive_solver. }
  assert (forall active out, NoDup out -> NoDup (foldl add_session out active) /\
    (forall x, x ∈ foldl add_session out active <-> x ∈ out \/ (x ∈ active /\ x <> 0%Z /\ x <> 4294967295%Z))) as Hfold.
  { intros act. induction act as [|a l IH]; intros out Hn; cbn [foldl].
    - split; [done|]. intros x. rewrite elem_of_nil. naive_solver.
    - destruct (Hadd out a Hn) as [H1 H2]. destruct (IH _ H1) as [H3 H4]. split; [done|].
      intros x. rewrite H4, H2, elem_of_cons. naive_solver. }
  unfold candidateSessions. set (out := match own with Some id => add_session [] id | None => [] end).
  assert (NoDup out /\ forall x, x ∈ out <-> own = Some x /\ x <> 0%Z /\ x <> 4294967295%Z) as [Hn Ho].
  { subst out. destruct own as [id|].
    - destruct (Hadd [] id (NoDup_nil_2)) as [H1 H2]. split; [done|]. intros x. rewrite H2, elem_of_nil. naive_solver.
    - split; [apply NoDup_nil_2|]. intros x. rewrite elem_of_nil. naive_solver. }
  destruct (Hadd out console Hn) as [H1 H2]. destruct (Hfold active _ H1) as [H3 H4].
  split; [done|]. intros id. rewrite H4, H2, Ho. naive_solver.
Qed.

(** ** The environment block *)

Section EnvBlock.
  (** [UTF16FromString] without its final NUL; a string with a NUL in it has no encoding. *)
  Context (utf16 : string -> result (list Z)).

Fixpoint env_units (env : list string) : result (list Z) :=
  match env with
  | [] => Ok []
  | e :: env =>
      if String.eqb e EmptyString then env_units env
      else u ← utf16 e; r ← env_units env; Ok (u ++ 0%Z :: r)%list
  end.

Definition makeEnvBlock (env : list string) : result (list Z) :=
  block ← env_units env;
  let block := (block ++ [0%Z])%list in
  Ok (if decide (length block = 1%nat) then (block ++ [0%Z])%list else block).

(** Reading a block back: the strings up to the empty one. *)
Fixpoint read_block (cur block : list Z) : list (list Z) :=
  match block with
  | [] => []
  | 0%Z :: block => match cur with [] => [] | _ => cur :: read_block [] block end
  | x :: block => read_block (cur ++ [x])%list block
  end.

Lemma read_block_unit u : forall cur r, Forall (fun x => x <> 0%Z) u -> (cur ++ u)%list <> [] ->
  read_block cur (u ++ 0%Z :: r)%list = (cur ++ u)%list :: read_block [] r.
Proof.
  induction u as [|x u IH]; intros cur r Hu Hne; cbn [app].
  - rewrite app_nil_r in *. by destruct cur.
  - apply Forall_cons in Hu as [Hx Hu].
    assert (read_block cur (x :: u ++ 0%Z :: r)%list = read_block (cur ++ [x])%list (u ++ 0%Z :: r)%list) as -> by (by destruct x).
    rewrite IH; [| done | by destruct cur]. by rewrite <- app_assoc.
Qed.

(** The block of an environment is read back as its variables, in order, the empty
    strings apart, and ends in two NULs. *)
Lemma makeEnvBlock_read env block :
  (forall e u, e <> EmptyString -> utf16 e = Ok u -> u <> [] /\ Forall (fun x => x <> 0%Z) u) ->
  makeEnvBlock env = Ok block ->
  Ok <$> read_block [] block = utf16 <$> filter (fun e => e <> EmptyString) env /\
  exists b, block = (b ++ [0; 0]%Z)%list.
Proof.
  intros Hu. unfold makeEnvBlock. destruct (env_units env) as [units|e] eqn:He; [|done]. cbn.
  intros [= <-].
  assert (forall t, Ok <$> read_block [] (units ++ t)%list =
    (utf16 <$> filter (fun e => e <> EmptyString) env ++ []) ++ (Ok <$> read_block [] t) /\
    (units = [] \/ exists b, units = (b ++ [0%Z])%list))%list as H.
  { revert units He. induction env as [|e env IH]; intros units He t; cbn [env_units] in He.
    - injection He as <-. split; [done | by left].
    - rewrite filter_cons. destruct (String.eqb_spec e EmptyString) as [-> | Hne].
      + rewrite decide_False by auto. by apply IH.
      + rewrite decide_True by done. destruct (utf16 e) as [u|] eqn:Hue; [|done].
        destruct (env_units env) as [r|]; [|done]. injection He as <-.
        destruct (Hu e u Hne Hue) as [Hu0 Hu1]. destruct (IH r eq_refl t) as [IH1 IH2]. split.
        * rewrite <- app_assoc. cbn [app]. rewrite read_block_unit by done. cbn. by rewrite IH1, Hue.
        * right. destruct IH2 as [-> | (b & ->)]; [by exists u | exists (u ++ 0%Z :: b)%list]. by rewrite <- app_assoc. }
  destruct (H [0%Z]) as [H1 H2]. destruct (H [0; 0]%Z) as [H3 _]. rewrite app_nil_r in H1, H3. cbn in H1, H3.
  rewrite app_nil_r in H1, H3. destruct (decide _) as [E | E].
  - assert (units = []) as -> by (rewrite length_app in E; destruct units; [done | cbn in E; lia]).
    split; [done | by exists []].
  - split; [done|]. destruct H2 as [-> | (b & ->)]; [done | exists b]. by rewrite <- app_assoc.
Qed.
End EnvBlock.

(** ** Tokens *)

Section Tokens.
  #[local] Set Default Proof Using "Type".
  (** Whether a call fails, and for the calls that open a token of another process or
      session, or derive one, whether it is elevated. *)
  Context (answer : sys_call -> nat -> option string).
  Context (elevated_token : sys_call -> nat -> bool).
  (** What the program finds out about the system it runs on. *)
  Context (ProcessIdToSessionId : Z -> result Z) (GetCurrentProcessId console_session : Z).
  Context (WTSEnumerateSessions : result (list (Z * Z))) (snapshot : list (string * Z)).
  Context (token_groups : list (option SID)).
  Context (LookPath : string -> result string) (ComposeCommandLine : list string -> string).
  Context (environ : list string) (utf16 : string -> result (list Z)).

Definition tick (w : world) : world := MkWorld (w_handles w) (w_elevated w) (S (w_time w)) (w_children w).

(** A call without a handle to return. *)
Definition ask (c : sys_call) : prog world unit := fun w =>
  match answer c (w_time w) with
  | None => (Returns tt, tick w)
  | Some e => (Fails e, tick w)
  end.

(** A new handle. *)
Definition new_handle (elevated : bool) : prog world nat := fun w =>
  let h := p_next (w_handles w) in
  (Returns h, MkWorld (alloc (w_handles w)) (fun x => if decide (x = h) then elevated else w_elevated w x)
    (w_time w) (w_children w)).

Definition close (h : nat) (w : world) : world :=
  MkWorld (release h (w_handles w)) (w_elevated w) (w_time w) (w_children w).
Definition closeAll (hs : list nat) (w : world) : world := foldl (fun w h => close h w) w hs.

(** [defer h.Close()]. *)
Definition defer_close {A} (h : nat) (m : prog world A) : prog world A := fun w =>
  let '(r, w) := m w in (r, close h w).

Definition IsElevated (tok : nat) : prog world bool := gets (fun w => w_elevated w tok).

Definition open_token (c : sys_call) : prog world nat := fun w =>
  (_ ← ask c; new_handle (elevated_token c (w_time w))) w.

(** A duplicate is as elevated as its source. *)
Definition primaryToken (src : nat) : prog world nat :=
  e ← IsElevated src; _ ← ask (DuplicateTokenEx src); new_handle e.

Definition unelevated (src : nat) : prog world nat :=
  e ← IsElevated src;
  if negb e then primaryToken src
  else
    linked ← cause "elevated token has no linked token" (open_token (GetLinkedToken src));
    defer_close linked (
      e ← IsElevated linked;
      if e : bool then throw "linked token is still elevated" else primaryToken linked).

Definition linkedToken (self : nat) : prog world nat := unelevated self.

(** Tries one after the other; the errors of all of them are joined. *)
Fixpoint first_of (errs : list string) (tries : list (string * prog world nat)) : prog world nat := fun w =>
  match tries with
  | [] => (Fails (join (String (ascii_of_nat 10) EmptyString) errs), w)
  | (name, m) :: tries =>
      match m w with
      | (Returns h, w) => (Returns h, w)
      | (Fails e, w) => first_of (errs ++ [(name ++ ": " ++ e)%string])%list tries w
      | (Panics e, w) => (Panics e, w)
      end
  end.

Definition sessions : list Z :=
  candidateSessions (processSession ProcessIdToSessionId GetCurrentProcessId) console_session
    (activeSessions WTSEnumerateSessions).

Definition sessionToken (_ : nat) : prog world nat :=
  match sessions with
  | [] => throw "no active session"
  | _ => first_of [] ((fun id => ("session " ++ itoa id,
      raw ← open_token (WTSQueryUserToken id); defer_close raw (unelevated raw))) <$> sessions)
  end.

(** One access right after the other; here the errors are joined without a name. *)
Fixpoint openProcessToken_from (errs : list string) (accesses : list Z) (pid : Z) : prog world nat := fun w =>
  match accesses with
  | [] => (Fails (join (String (ascii_of_nat 10) EmptyString) errs), w)
  | access :: accesses =>
      match (_ ← ask (OpenProcess access pid); new_handle false) w with
      | (Returns proc, w) =>
          match defer_close proc (open_token (OpenProcessToken proc)) w with
          | (Returns tok, w) => (Returns tok, w)
          | (Fails e, w) => openProcessToken_from (errs ++ [e])%list accesses pid w
          | (Panics e, w) => (Panics e, w)
          end
      | (Fails e, w) => openProcessToken_from (errs ++ [e])%list accesses pid w
      | (Panics e, w) => (Panics e, w)
      end
  end.
Definition openProcessToken : Z -> prog world nat :=
  openProcessToken_from [] [PROCESS_QUERY_INFORMATION; PROCESS_QUERY_LIMITED_INFORMATION].

Definition shellToken (_ : nat) : prog world nat :=
  match shellCandidates (processSession ProcessIdToSessionId) (findProcesses snapshot "explorer.exe") sessions with
  | [] => throw "no explorer.exe in a usable session"
  | pids => first_of [] ((fun pid => ("pid " ++ itoa pid,
      raw ← openProcessToken pid; defer_close raw (unelevated raw))) <$> pids)
  end.

Definition createRestrictedToken (src : nat) (disable : list (option SID)) : prog world nat := fun w =>
  match open_token (CreateRestrictedToken src (Z.lor disableMaxPrivilege luaToken)) w with
  | (Returns tok, w) => (Returns tok, w)
  | (_, w) => open_token (CreateRestrictedToken src disableMaxPrivilege) w
  end.

Definition setMediumIntegrity (tok : nat) : prog world unit :=
  _ ← ask CreateWellKnownSid; ask (SetTokenInformation tok).

Definition restrictedSelfToken (self : nat) : prog world nat :=
  primary ← primaryToken self;
  defer_close primary (
    _ ← ask (GetTokenGroups primary);
    restricted ← createRestrictedToken primary (adminGroups token_groups);
    tok ← defer_close restricted (primaryToken restricted);
    _ ← on_error (cause "cannot lower integrity level" (setMediumIntegrity tok)) (close tok);
    e ← IsElevated tok;
    if e : bool then on_error (throw "restricted token is still elevated") (close tok) else mret tok).

Definition tokenSources (self : nat) : list (string * prog world nat) :=
  [("linked token", linkedToken self); ("session token", sessionToken self);
   ("shell token", shellToken self); ("restricted self token", restrictedSelfToken self)].

Definition unprivilegedToken (self : nat) : prog world nat := first_of [] (tokenSources self).

(** *** What a call leaves open *)

(** From [w] to [w'] exactly the handles [hs], all new, have been left open; nothing was
    started, and no older handle has changed. *)
Definition holds (hs : gset nat) (w w' : world) : Prop :=
  pool_ok (w_handles w') /\ p_live (w_handles w') = hs ∪ p_live (w_handles w) /\
  (forall h, h ∈ hs -> (p_next (w_handles w) <= h)%nat) /\
  w_children w' = w_children w /\
  (p_next (w_handles w) <= p_next (w_handles w'))%nat /\
  (forall x, (x < p_next (w_handles w))%nat -> w_elevated w' x = w_elevated w x).

Lemma holds_refl w : pool_ok (w_handles w) -> holds ∅ w w.
Proof.
  intros H. split_and!; [done | by rewrite (left_id_L ∅ (∪)) | by intros h ?%not_elem_of_empty | done | lia | done].
Qed.

Lemma holds_tick hs w w' : holds hs w w' -> holds hs w (tick w').
Proof. done. Qed.

Lemma holds_trans hs1 hs2 w1 w2 w3 : holds hs1 w1 w2 -> holds hs2 w2 w3 -> holds (hs2 ∪ hs1) w1 w3.
Proof.
  intros (_ & L1 & N1 & C1 & P1 & E1) (O2 & L2 & N2 & C2 & P2 & E2). split_and!; [done | | | congruence | lia |].
  - by rewrite L2, L1, (assoc_L (∪)).
  - intros h [H%N2 | H%N1]%elem_of_union; lia.
  - intros x Hx. rewrite E2 by lia. by apply E1.
Qed.

Lemma holds_close hs h w w' : pool_ok (w_handles w) -> holds hs w w' -> (p_next (w_handles w) <= h)%nat ->
  holds (hs ∖ {[h]}) w (close h w').
Proof.
  intros Hok (O & L & N & C & P & E) Hh. split_and!; [| | | done | done | done].
  - by apply pool_ok_release.
  - cbn. rewrite L. clear - Hok Hh. apply leibniz_equiv. intros x.
    rewrite !elem_of_difference, !elem_of_union, elem_of_difference, elem_of_singleton.
    split; [tauto|]. intros [[H1 H2] | H1]; [tauto|]. split; [by right|]. intros ->. apply Hok in H1. lia.
  - intros x [Hx _]%elem_of_difference. by apply N.
Qed.

(** A new handle with its elevation. *)
Definition gives (h : nat) (e : bool) (w w' : world) : Prop :=
  holds {[h]} w w' /\ w_elevated w' h = e /\ (h < p_next (w_handles w'))%nat.

Lemma gives_next h e w w' : gives h e w w' -> (p_next (w_handles w) <= h < p_next (w_handles w'))%nat.
Proof. intros ((_ & _ & N & _) & _ & H). split; [by apply N, elem_of_singleton | done]. Qed.

Definition opens (m : prog world nat) (e : world -> bool) (w : world) : Prop :=
  wp m (fun h w' => gives h (e w) w w') (fun _ w' => holds ∅ w w') w.

Lemma wp_ask c (Q : unit -> world -> Prop) F w :
  Q tt (tick w) -> (forall e, F e (tick w)) -> wp (ask c) Q F w.
Proof. intros HQ HF. unfold wp, ask. destruct (answer c (w_time w)); auto. Qed.

Lemma wp_new_handle e (Q : nat -> world -> Prop) F w : pool_ok (w_handles w) ->
  (forall h w', gives h e w w' -> h = p_next (w_handles w) -> Q h w') -> wp (new_handle e) Q F w.
Proof.
  intros Hok HQ. unfold wp, new_handle. apply HQ; [|done]. split_and!; cbn; [| by rewrite decide_True | lia].
  split_and!; cbn; [by apply pool_ok_alloc | done | by intros h ->%elem_of_singleton | done | lia |].
  intros x Hx. rewrite decide_False by lia. done.
Qed.

Lemma wp_defer {A} h (m : prog world A) Q F w :
  wp m (fun a w' => Q a (close h w')) (fun e w' => F e (close h w')) w -> wp (defer_close h m) Q F w.
Proof. unfold wp, defer_close. by destruct (m w) as [[a|e|e] w']. Qed.

Lemma open_token_spec c w : pool_ok (w_handles w) ->
  wp (open_token c) (fun h w' => gives h (elevated_token c (w_time w)) w w') (fun _ w' => holds ∅ w w') w.
Proof.
  intros Hok. unfold open_token.
  change (wp ((_ ← ask c; new_handle (elevated_token c (w_time w)))) (fun h w' => gives h (elevated_token c (w_time w)) w w')
    (fun _ w' => holds ∅ w w') w).
  wp_step. apply wp_ask; [| intros e; exact (holds_refl w Hok)].
  apply wp_new_handle; [done|]. by intros h w' H _.
Qed.

Lemma primaryToken_spec src w : pool_ok (w_handles w) -> opens (primaryToken src) (fun w => w_elevated w src) w.
Proof.
  intros Hok. unfold opens, primaryToken, IsElevated. wp_step. wp_step. wp_step.
  apply wp_ask; [| intros e; exact (holds_refl w Hok)]. apply wp_new_handle; [done|]. by intros h w' H _.
Qed.

(** The handle a function opened for itself is closed whatever it returns. *)
Lemma close_after h hs w w1 w2 : pool_ok (w_handles w) -> holds {[h]} w w1 -> holds hs w1 w2 -> h ∉ hs ->
  holds hs w (close h w2).
Proof.
  intros Hok H1 H2 Hn. assert (p_next (w_handles w) <= h)%nat as Hh.
  { destruct H1 as (_ & _ & N & _). by apply N, elem_of_singleton. }
  pose proof (holds_close _ h _ _ Hok (holds_trans _ _ _ _ _ H1 H2) Hh) as H.
  replace ((hs ∪ {[h]}) ∖ {[h]}) with hs in H; [done|]. clear - Hn. apply leibniz_equiv. set_solver.
Qed.

Lemma close_after_none h w w1 w2 : pool_ok (w_handles w) -> holds {[h]} w w1 -> holds ∅ w1 w2 -> holds ∅ w (close h w2).
Proof. intros Hok H1 H2. eapply close_after; [done | exact H1 | done | apply not_elem_of_empty]. Qed.

Lemma close_after_gives h e tok te w w1 w2 : pool_ok (w_handles w) -> gives h e w w1 -> gives tok te w1 w2 ->
  gives tok te w (close h w2).
Proof.
  intros Hok H1 H2. pose proof (gives_next _ _ _ _ H1). pose proof (gives_next _ _ _ _ H2).
  destruct H1 as (H1 & _), H2 as (H2 & E2 & N2). split_and!; [| done | done].
  eapply close_after; [done | exact H1 | done |]. intros ->%elem_of_singleton. lia.
Qed.

(** A token a source gives is not elevated. *)
Definition opens_plain (m : prog world nat) (w : world) : Prop := opens m (fun _ => false) w.

Lemma unelevated_spec src w : pool_ok (w_handles w) -> opens_plain (unelevated src) w.
Proof.
  intros Hok. unfold opens_plain, opens, unelevated, IsElevated. wp_step. wp_step.
  destruct (w_elevated w src) eqn:Hsrc; cbn [negb].
  2:{ eapply wp_mono; [by apply primaryToken_spec | | done]. cbv beta. intros h w'. by rewrite Hsrc. }
  wp_step. apply wp_cause. eapply wp_mono; [by apply open_token_spec | | by intros e w' H].
  cbv beta. intros linked w1 H1. pose proof (proj1 (proj1 H1)) as Hok1. apply wp_defer. wp_step. wp_step.
  destruct (w_elevated w1 linked) eqn:Hl.
  - apply wp_throw. eapply close_after_none; [done | apply H1 | by apply holds_refl].
  - eapply wp_mono; [by apply primaryToken_spec | |]; cbv beta.
    + intros tok w2 H2. rewrite Hl in H2. by eapply close_after_gives.
    + intros e w2 H2. eapply close_after_none; [done | apply H1 | done].
Qed.

Lemma holds_opens m (e : bool) w w1 : holds ∅ w w1 -> opens m (fun _ => e) w1 ->
  wp m (fun h w' => gives h e w w') (fun _ w' => holds ∅ w w') w1.
Proof.
  intros H1 H2. eapply wp_mono; [exact H2 | |]; cbv beta.
  - intros h w2 (Hh & He & Hn). split_and!; [| done | done].
    pose proof (holds_trans _ _ _ _ _ H1 Hh) as H. by rewrite (right_id_L ∅ (∪)) in H.
  - intros e' w2 Hh. pose proof (holds_trans _ _ _ _ _ H1 Hh) as H. by rewrite (left_id_L ∅ (∪)) in H.
Qed.

Lemma first_of_spec tries : (forall name m, (name, m) ∈ tries -> forall w, pool_ok (w_handles w) -> opens_plain m w) ->
  forall errs w, pool_ok (w_handles w) -> opens_plain (first_of errs tries) w.
Proof.
  induction tries as [|[name m] tries IH]; intros Hall errs w Hok; unfold opens_plain, opens; cbn [first_of].
  - unfold wp. by apply holds_refl.
  - pose proof (Hall name m ltac:(by left) w Hok) as Hm. unfold opens_plain, opens, wp in Hm |- *.
    destruct (m w) as [[h|e|e] w1]; [done | | done].
    apply (holds_opens _ false w w1 Hm), IH; [| by destruct Hm].
    intros name' m' Hin. apply (Hall name'). by right.
Qed.

(** *** Every source gives a token that is not elevated, and closes what else it opened *)

Lemma raw_then_unelevated (m : prog world nat) w : pool_ok (w_handles w) ->
  wp m (fun h w' => exists e, gives h e w w') (fun _ w' => holds ∅ w w') w ->
  opens_plain (raw ← m; defer_close raw (unelevated raw)) w.
Proof.
  intros Hok Hm. unfold opens_plain, opens. wp_step. eapply wp_mono; [exact Hm | | done]. cbv beta.
  intros raw w1 [e H1]. apply wp_defer.
  eapply wp_mono; [apply unelevated_spec; by destruct H1 as [[H _] _] | |]; cbv beta.
  - intros tok w2 H2. by eapply close_after_gives.
  - intros e' w2 H2. eapply close_after_none; [done | apply H1 | done].
Qed.

Lemma sessionToken_spec self w : pool_ok (w_handles w) -> opens_plain (sessionToken self) w.
Proof.
  intros Hok. unfold sessionToken. destruct sessions as [|id ids].
  { unfold opens_plain, opens. apply wp_throw. by apply holds_refl. }
  apply first_of_spec; [|done]. intros name m (id' & [= -> ->] & _)%list_elem_of_fmap w' Hok'.
  apply raw_then_unelevated; [done|].
  eapply wp_mono; [by apply open_token_spec | | done]. cbv beta. intros h w1 H. by eexists.
Qed.

Lemma openProcessToken_spec accesses pid : forall errs w0 w, pool_ok (w_handles w0) -> holds ∅ w0 w ->
  wp (openProcessToken_from errs accesses pid) (fun h w' => exists e, gives h e w0 w') (fun _ w' => holds ∅ w0 w') w.
Proof.
  induction accesses as [|access accesses IH]; intros errs w0 w Hok0 H0; [exact H0|]. cbn [openProcessToken_from].
  assert (pool_ok (w_handles w)) as Hok by (by destruct H0).
  assert (wp ((_ ← ask (OpenProcess access pid); new_handle false) : prog world nat) (fun h w' => gives h false w w') (fun _ w' => holds ∅ w w') w) as Hp.
  { wp_step. apply wp_ask; [| intros e; exact (holds_refl w Hok)].
    apply wp_new_handle; [done|]. by intros h w' H _. }
  unfold wp at 1 in Hp. unfold wp. destruct ((_ ← ask (OpenProcess access pid); new_handle false : prog world nat) w) as [[proc|e|e] w1]; [| | done].
  - assert (pool_ok (w_handles w1)) as Hok1 by (by destruct Hp as [[H _] _]).
    assert (wp (defer_close proc (open_token (OpenProcessToken proc)))
      (fun h w' => exists e, gives h e w w') (fun _ w' => holds ∅ w w') w1) as Ht.
    { apply wp_defer. eapply wp_mono; [by apply open_token_spec | |]; cbv beta.
      - intros h w2 H2. eexists. by eapply close_after_gives.
      - intros e w2 H2. eapply close_after_none; [done | apply Hp | done]. }
    unfold wp in Ht. destruct (defer_close _ _ w1) as [[tok|e|e] w2]; [| | done].
    + destruct Ht as [e (Hh & He & Hn)]. exists e. split_and!; [| done | done].
      pose proof (holds_trans _ _ _ _ _ H0 Hh) as H. by rewrite (right_id_L ∅ (∪)) in H.
    + apply (IH _ w0 w2 Hok0). pose proof (holds_trans _ _ _ _ _ H0 Ht) as H. by rewrite (left_id_L ∅ (∪)) in H.
  - apply (IH _ w0 w1 Hok0). pose proof (holds_trans _ _ _ _ _ H0 Hp) as H. by rewrite (left_id_L ∅ (∪)) in H.
Qed.

Lemma shellToken_spec self w : pool_ok (w_handles w) -> opens_plain (shellToken self) w.
Proof.
  intros Hok. unfold shellToken. destruct (shellCandidates _ _ _) as [|pid pids].
  { unfold opens_plain, opens. apply wp_throw. by apply holds_refl. }
  apply first_of_spec; [|done]. intros name m (pid' & [= -> ->] & _)%list_elem_of_fmap w' Hok'.
  apply raw_then_unelevated; [done|]. apply openProcessToken_spec; [done | by apply holds_refl].
Qed.

Lemma createRestrictedToken_spec src groups w : pool_ok (w_handles w) ->
  wp (createRestrictedToken src groups) (fun h w' => exists e, gives h e w w') (fun _ w' => holds ∅ w w') w.
Proof.
  intros Hok. unfold createRestrictedToken, wp at 1.
  pose proof (open_token_spec (CreateRestrictedToken src (Z.lor disableMaxPrivilege luaToken)) w Hok) as H.
  unfold wp in H. destruct (open_token _ w) as [[tok|e|e] w1]; [by eexists | | done].
  assert (pool_ok (w_handles w1)) as Hok1 by (by destruct H).
  pose proof (open_token_spec (CreateRestrictedToken src disableMaxPrivilege) w1 Hok1) as H2. unfold wp in H2.
  destruct (open_token _ w1) as [[tok|e2|e2] w2]; [| | done].
  - destruct H2 as (Hh & He & Hn). eexists. split_and!; [| exact He | done].
    pose proof (holds_trans _ _ _ _ _ H Hh) as Ht. by rewrite (right_id_L ∅ (∪)) in Ht.
  - pose proof (holds_trans _ _ _ _ _ H H2) as Ht. by rewrite (left_id_L ∅ (∪)) in Ht.
Qed.

(** The handle of a token that is given up. *)
Lemma close_given h e w w1 : pool_ok (w_handles w) -> gives h e w w1 -> holds ∅ w (close h w1).
Proof.
  intros Hok [H _]. eapply close_after_none; [done | exact H |]. apply holds_refl. by destruct H.
Qed.

Lemma restrictedSelfToken_spec self w : pool_ok (w_handles w) -> opens_plain (restrictedSelfToken self) w.
Proof.
  intros Hok. unfold opens_plain, opens, restrictedSelfToken. wp_step.
  eapply wp_mono; [by apply primaryToken_spec | | done]. cbv beta. intros primary w1 H1.
  assert (pool_ok (w_handles w1)) as Hok1 by (by destruct H1 as [[H _] _]).
  apply wp_defer.
  eapply (wp_mono _ (fun h w' => gives h false w1 w') _ (fun _ w' => holds ∅ w1 w')).
  2:{ cbv beta. intros tok w2 H2. by eapply close_after_gives. }
  2:{ cbv beta. intros e w2 H2. eapply close_after_none; [done | apply H1 | done]. }
  wp_step. apply wp_ask; [| intros e; exact (holds_refl w1 Hok1)]. wp_step.
  eapply wp_mono; [by apply (createRestrictedToken_spec primary (adminGroups token_groups) (tick w1)) | | done].
  cbv beta. intros restricted w2 [e2 H2]. change (gives restricted e2 w1 w2) in H2.
  assert (pool_ok (w_handles w2)) as Hok2 by (by destruct H2 as [[H _] _]).
  wp_step. apply wp_defer. eapply wp_mono; [by apply primaryToken_spec | |]; cbv beta.
  2:{ intros e w3 H3. eapply close_after_none; [done | apply H2 | done]. }
  intros tok w3 H3. pose proof (close_after_gives _ _ _ _ _ _ _ Hok1 H2 H3) as H4.
  set (w4 := close restricted w3) in *. wp_step. apply wp_on_error, wp_cause, wp_bind, wp_ask; [apply wp_ask|].
  2-3: intros e; exact (close_given _ _ _ _ Hok1 H4).
  unfold IsElevated. wp_step. wp_step. destruct (w_elevated (tick (tick w4)) tok) eqn:E.
  - apply wp_on_error, wp_throw. exact (close_given _ _ _ _ Hok1 H4).
  - apply wp_ret. destruct H4 as (Hh & He & Hn). done.
Qed.

Lemma unprivilegedToken_spec self w : pool_ok (w_handles w) -> opens_plain (unprivilegedToken self) w.
Proof.
  intros Hok. apply first_of_spec; [|done]. intros name m Hin w' Hok'.
  apply list_elem_of_In in Hin. destruct Hin as [[= <- <-] | [[= <- <-] | [[= <- <-] | [[= <- <-] | []]]]].
  - by apply unelevated_spec.
  - by apply sessionToken_spec.
  - by apply shellToken_spec.
  - by apply restrictedSelfToken_spec.
Qed.

(** ** Starting the child *)

Definition pipe : prog world (nat * nat) :=
  _ ← ask CreatePipe; r ← new_handle false; h ← new_handle false; mret (r, h).

Definition spawn (c : child) (w : world) : world :=
  MkWorld (w_handles w) (w_elevated w) (w_time w) (c :: w_children w).

Definition child_env : list string := Process.childEnv environ.

(** [startCmd] of a [newCmd], with the token of its [SysProcAttr] if it has one. *)
Definition startCmd (self : nat) (token : option nat) (path : string) (args : list string) : prog world runner :=
  _ ← ask (StartCmd token path args);
  elevated ← IsElevated (default self token);
  h ← new_handle false;
  _ ← modify (spawn (MkChild path args child_env elevated));
  mret (CmdRunner h).

Definition makeInheritable (h : nat) : prog world unit := ask (SetHandleInformation h).

Definition startWithTokenW (path : string) (args : list string) (tok : nat) : prog world runner :=
  exe ← lift_result (LookPath path);
  '(outR, outW) ← pipe;
  '(errR, errW) ← on_error pipe (closeAll [outR; outW]);
  nul ← on_error (_ ← ask OpenNUL; new_handle false) (closeAll [outR; outW; errR; errW]);
  let all := [outR; outW; errR; errW; nul] in
  _ ← on_error (for_each makeInheritable [outW; errW; nul]) (closeAll all);
  let cmdLine := ComposeCommandLine (exe :: args) in
  _ ← on_error (ask (UTF16 exe)) (closeAll all);
  _ ← on_error (ask (UTF16 cmdLine)) (closeAll all);
  _ ← on_error (lift_result (makeEnvBlock utf16 child_env)) (closeAll all);
  _ ← on_error (cause ("CreateProcessWithTokenW " ++ exe) (ask (CreateProcessWithTokenW tok exe cmdLine))) (closeAll all);
  elevated ← IsElevated tok;
  process ← new_handle false;
  thread ← new_handle false;
  _ ← modify (fun w => close thread (closeAll [outW; errW; nul] w));
  _ ← modify (spawn (MkChild exe args child_env elevated));
  mret (TokenRunner process outR errR).

Definition startWithToken (self : nat) (path : string) (args : list string) (tok : nat) : prog world runner := fun w =>
  match startWithTokenW path args tok w with
  | (Fails err, w) =>
      match startCmd self (Some tok) path args w with
      | (Fails asUserErr, w) =>
          (Fails (err ++ String (ascii_of_nat 10) EmptyString ++ "CreateProcessAsUser: " ++ asUserErr), w)
      | r => r
      end
  | r => r
  end.

Definition selfToken : prog world nat := open_token OpenSelfToken.

Definition startChild (path : string) (args : list string) : prog world runner :=
  self ← cause "cannot open process token" selfToken;
  defer_close self (
    e ← IsElevated self;
    if negb e then startCmd self None path args
    else
      tok ← cause "refusing to start extra process: cannot obtain an unprivileged user token" (unprivilegedToken self);
      defer_close tok (startWithToken self path args tok)).

(** *** What starting leaves *)

Lemma holds_closeAll xs : forall hs w w', pool_ok (w_handles w) -> holds hs w w' ->
  Forall (fun h => p_next (w_handles w) <= h)%nat xs -> holds (hs ∖ list_to_set xs) w (closeAll xs w').
Proof.
  induction xs as [|x xs IH]; intros hs w w' Hok H Hx; unfold closeAll; cbn [foldl list_to_set].
  - by rewrite difference_empty_L.
  - apply Forall_cons in Hx as [Hx Hxs]. pose proof (IH _ _ _ Hok (holds_close _ _ _ _ Hok H Hx) Hxs) as Ht.
    unfold closeAll in Ht. by rewrite difference_difference_l_L in Ht.
Qed.

(** Like [holds], with one child started. *)
Definition started (c : child) (hs : gset nat) (w w' : world) : Prop :=
  w_children w' = c :: w_children w /\
  holds hs w (MkWorld (w_handles w') (w_elevated w') (w_time w') (w_children w)).

Lemma started_close c hs h w w1 w2 : pool_ok (w_handles w) -> holds {[h]} w w1 -> started c hs w1 w2 -> h ∉ hs ->
  started c hs w (close h w2).
Proof.
  intros Hok H1 [Hc H2] Hn. split; [cbn; rewrite Hc; f_equal; by destruct H1 as (_ & _ & _ & -> & _)|].
  pose proof (close_after _ _ _ _ _ Hok H1 H2 Hn) as H. destruct H as (A & B & C & D & E & F).
  split_and!; [done | done | done | done | done | done].
Qed.

Lemma started_next c hs w w' h : started c hs w w' -> h ∈ hs -> (p_next (w_handles w) <= h)%nat.
Proof. intros [_ (_ & _ & N & _)]. apply N. Qed.

(** The handles a runner owns; the read ends are its pumps'. *)
Definition runner_handles (r : runner) : gset nat :=
  match r with CmdRunner p => {[p]} | TokenRunner p o e => {[p; o; e]} end.

(** A child started with a token, as elevated as the token; nothing else is left open. *)
Definition starts (elevated : bool) (run : runner) (w w' : world) : Prop :=
  exists c hs, started c hs w w' /\ hs ⊆ runner_handles run /\ ch_elevated c = elevated /\ ch_env c = child_env.

Lemma spawn_started c hs w w' : holds hs w w' -> started c hs w (spawn c w').
Proof.
  intros (A & B & C & D & E & F). split; [cbn; by rewrite D | by split_and!].
Qed.

Lemma startCmd_spec self token path args w : pool_ok (w_handles w) ->
  wp (startCmd self token path args)
    (fun run w' => starts (w_elevated w (default self token)) run w w') (fun _ w' => holds ∅ w w') w.
Proof.
  intros Hok. unfold startCmd, IsElevated. wp_step. apply wp_ask; [| intros e; exact (holds_refl w Hok)].
  wp_step. wp_step. wp_step. apply wp_new_handle; [done|]. intros h w1 H1 _.
  wp_step. wp_step. apply wp_ret. exists (MkChild path args child_env (w_elevated (tick w) (default self token))), {[h]}.
  split_and!; [| done | done | done]. destruct H1 as [H1 _]. by apply spawn_started.
Qed.

Lemma gives_trans hs h e w w1 w2 : holds hs w w1 -> gives h e w1 w2 -> holds ({[h]} ∪ hs) w w2.
Proof. intros H1 [H2 _]. by eapply holds_trans. Qed.

Lemma wp_pipe hs w0 w (Q : nat * nat -> world -> Prop) F : holds hs w0 w ->
  (forall r h w', holds ({[h]} ∪ ({[r]} ∪ hs)) w0 w' -> (p_next (w_handles w0) <= r)%nat ->
     (p_next (w_handles w0) <= h)%nat -> Q (r, h) w') ->
  (forall e w', holds hs w0 w' -> F e w') -> wp pipe Q F w.
Proof.
  intros H HQ HF. unfold pipe. wp_step. apply wp_ask; [| intros e; by apply HF].
  assert (pool_ok (w_handles w)) as Hok by (by destruct H).
  wp_step. apply wp_new_handle; [done|]. intros r w1 H1 _. wp_step.
  assert (pool_ok (w_handles w1)) as Hok1 by (by destruct H1 as [[? _] _]).
  apply wp_new_handle; [done|]. intros h w2 H2 _. apply wp_ret.
  change (gives r false w w1) in H1. pose proof (gives_trans _ _ _ _ _ _ H H1) as G1.
  pose proof (gives_trans _ _ _ _ _ _ G1 H2) as G2. apply HQ; [exact G2 | |].
  - apply G1. apply elem_of_union_l, elem_of_singleton_2. done.
  - apply G2. apply elem_of_union_l, elem_of_singleton_2. done.
Qed.

Lemma holds_closeAll_none xs hs w w' : pool_ok (w_handles w) -> holds hs w w' -> hs ⊆ list_to_set xs ->
  Forall (fun h => p_next (w_handles w) <= h)%nat xs -> holds ∅ w (closeAll xs w').
Proof.
  intros Hok H Hs Hx. pose proof (holds_closeAll _ _ _ _ Hok H Hx) as Hc.
  replace (hs ∖ list_to_set xs) with (∅ : gset nat) in Hc; [done|]. clear - Hs. apply leibniz_equiv. set_solver.
Qed.

Lemma wp_ask_holds c hs w0 w (Q : unit -> world -> Prop) F : holds hs w0 w ->
  (holds hs w0 (tick w) -> Q tt (tick w)) -> (forall e w', holds hs w0 w' -> F e w') -> wp (ask c) Q F w.
Proof. intros H HQ HF. apply wp_ask; [by apply HQ | intros e; by apply HF]. Qed.

Lemma wp_asks (cs : list nat) f hs w0 (Q : unit -> world -> Prop) F : forall w, holds hs w0 w ->
  (forall w', holds hs w0 w' -> Q tt w') -> (forall e w', holds hs w0 w' -> F e w') ->
  wp (for_each (fun h => ask (f h)) cs) Q F w.
Proof.
  induction cs as [|c cs IH]; intros w H HQ HF; cbn [for_each]; [by apply wp_ret, HQ|].
  wp_step. eapply wp_ask_holds; [exact H | intros H'; by apply IH | done].
Qed.

Lemma startWithTokenW_spec path args tok w : pool_ok (w_handles w) -> (tok < p_next (w_handles w))%nat ->
  wp (startWithTokenW path args tok)
    (fun run w' => starts (w_elevated w tok) run w w') (fun _ w' => holds ∅ w w') w.
Proof.
  intros Hok Ht. unfold startWithTokenW. wp_step. wp_step; [|by apply holds_refl].
  wp_step. eapply (wp_pipe ∅ w); [by apply holds_refl | | by intros e w' H'].
  intros outR outW w1 H1 F1 F2. cbv beta iota. wp_step. apply wp_on_error.
  eapply wp_pipe; [exact H1 | |].
  2:{ intros e w' H'. eapply holds_closeAll_none; [done | exact H' | | by repeat constructor].
      clear. set_solver. }
  intros errR errW w2 H2 F3 F4. cbv beta iota. wp_step. apply wp_on_error. wp_step.
  eapply wp_ask_holds; [exact H2 | clear H2; intros H2 |].
  2:{ intros e w' H'. eapply holds_closeAll_none; [done | exact H' | | by repeat constructor].
      clear. set_solver. }
  assert (pool_ok (w_handles (tick w2))) as Hok2 by (by destruct H2).
  apply wp_new_handle; [done|]. intros nul w3 H3 _.
  pose proof (gives_next _ _ _ _ H3) as N3. pose proof (gives_trans _ _ _ _ _ _ H2 H3) as HA.
  assert (p_next (w_handles w) <= nul)%nat as F5 by (destruct H2 as (_ & _ & _ & _ & ? & _); lia).
  clear H1 H2 H3 N3 Hok2. set (all := [outR; outW; errR; errW; nul]). cbv zeta.
  assert (forall (e : string) w', holds ({[nul]} ∪ ({[errW]} ∪ ({[errR]} ∪ ({[outW]} ∪ ({[outR]} ∪ ∅))))) w w' ->
    holds ∅ w (closeAll all w')) as Hfail.
  { intros e w' H'. eapply holds_closeAll_none; [done | exact H' | | by repeat constructor]. clear. set_solver. }
  wp_step. apply wp_on_error. eapply wp_asks; [exact HA | clear HA w3; intros w3 HA | exact Hfail].
  wp_step. apply wp_on_error. eapply wp_ask_holds; [exact HA | clear HA; intros HA | exact Hfail].
  wp_step. apply wp_on_error. eapply wp_ask_holds; [exact HA | clear HA; intros HA | exact Hfail].
  wp_step. apply wp_on_error. wp_step; [| by apply Hfail].
  wp_step. apply wp_on_error, wp_cause. eapply wp_ask_holds; [exact HA | clear HA; intros HA |].
  2:{ intros e w' H'. by apply Hfail. }
  unfold IsElevated. wp_step. wp_step. set (w4 := tick _) in *.
  assert (w_elevated w4 tok = w_elevated w tok) as -> by (by apply HA).
  assert (pool_ok (w_handles w4)) as Hok4 by (by destruct HA).
  wp_step. apply wp_new_handle; [done|]. intros process w5 H5 _.
  assert (pool_ok (w_handles w5)) as Hok5 by (by destruct H5 as [[? _] _]).
  wp_step. apply wp_new_handle; [done|]. intros thread w6 H6 _.
  pose proof (gives_trans _ _ _ _ _ _ HA H5) as HB. pose proof (gives_trans _ _ _ _ _ _ HB H6) as HC.
  wp_step. wp_step. wp_step. wp_step. apply wp_ret.
  assert (p_next (w_handles w) <= thread)%nat as F6 by (apply HC; apply elem_of_union_l, elem_of_singleton_2; done).
  pose proof (holds_close _ thread _ _ Hok (holds_closeAll [outW; errW; nul] _ _ _ Hok HC ltac:(by repeat constructor)) F6) as HD.
  set (w7 := close thread (closeAll [outW; errW; nul] w6)) in *.
  eexists _, _. split_and!; [apply (spawn_started _ _ _ _ HD) | | reflexivity | reflexivity].
  clear. cbn. set_solver.
Qed.

Lemma starts_after e run w w1 w2 : holds ∅ w w1 -> starts e run w1 w2 -> starts e run w w2.
Proof.
  intros H (c & hs & [Hc Hh] & Hs & He & Henv). exists c, hs. split_and!; [split | done..].
  - rewrite Hc. f_equal. by destruct H as (_ & _ & _ & -> & _).
  - pose proof (holds_trans _ _ _ _ _ H Hh) as Ht. rewrite (right_id_L ∅ (∪)) in Ht.
    destruct Ht as (A & B & C & D & E & F). by split_and!.
Qed.

Lemma starts_close h te e run w w1 w2 : pool_ok (w_handles w) -> gives h te w w1 -> starts e run w1 w2 ->
  starts e run w (close h w2).
Proof.
  intros Hok H1 (c & hs & Hst & Hs & He & Henv). exists c, hs. split_and!; [| done..].
  eapply started_close; [done | apply H1 | done |]. intros Hh.
  pose proof (started_next _ _ _ _ _ Hst Hh). pose proof (gives_next _ _ _ _ H1). lia.
Qed.

Lemma startWithToken_spec self path args tok w : pool_ok (w_handles w) -> (tok < p_next (w_handles w))%nat ->
  wp (startWithToken self path args tok)
    (fun run w' => starts (w_elevated w tok) run w w') (fun _ w' => holds ∅ w w') w.
Proof.
  intros Hok Ht. pose proof (startWithTokenW_spec path args tok w Hok Ht) as HW.
  unfold wp, startWithToken in *. destruct (startWithTokenW path args tok w) as [[run|e|e] w1]; [done | | done].
  assert (pool_ok (w_handles w1)) as Hok1 by (by destruct HW).
  pose proof (startCmd_spec self (Some tok) path args w1 Hok1) as HC. unfold wp in HC. cbn [default] in HC.
  destruct (startCmd self (Some tok) path args w1) as [[run|e2|e2] w2]; [| | done].
  - replace (w_elevated w1 (id tok)) with (w_elevated w tok) in HC by (symmetry; by apply HW).
    by eapply starts_after.
  - pose proof (holds_trans _ _ _ _ _ HW HC) as H. rewrite (right_id_L ∅ (∪)) in H. exact H.
Qed.

Lemma startChild_spec path args w : pool_ok (w_handles w) ->
  wp (startChild path args) (fun run w' => starts false run w w') (fun _ w' => holds ∅ w w') w.
Proof.
  intros Hok. unfold startChild. wp_step. apply wp_cause.
  eapply wp_mono; [by apply open_token_spec | | by intros e w' H]. cbv beta. intros self w1 H1.
  assert (pool_ok (w_handles w1)) as Hok1 by (by destruct H1 as [[? _] _]).
  apply wp_defer. eapply (wp_mono _ (fun run w' => starts false run w1 w') _ (fun _ w' => holds ∅ w1 w')).
  2:{ cbv beta. intros run w2 H2. by eapply starts_close. }
  2:{ cbv beta. intros e w2 H2. eapply close_after_none; [done | apply H1 | done]. }
  unfold IsElevated. wp_step. wp_step. destruct (w_elevated w1 self) eqn:Hself; cbn [negb].
  - wp_step. apply wp_cause. eapply wp_mono; [by apply unprivilegedToken_spec | | by intros e w' H].
    cbv beta. intros tok w2 H2. assert (pool_ok (w_handles w2)) as Hok2 by (by destruct H2 as [[? _] _]).
    apply wp_defer. eapply wp_mono; [apply startWithToken_spec; [done | by apply H2] | |]; cbv beta.
    + intros run w3 H3. destruct (proj2 H2) as [He _]. rewrite He in H3. by eapply starts_close.
    + intros e w3 H3. eapply close_after_none; [done | apply H2 | done].
  - eapply wp_mono; [by apply startCmd_spec | | done]. cbv beta. cbn [default]. intros run w2. by rewrite Hself.
Qed.

(** C20: The helper never runs elevated, whichever of the token sources and of the two ways
    to start it works: a start that succeeds has started one child, with a token that is
    not elevated and the filtered environment, and left open at most the runner's own
    handles; one that fails has started nothing and left no handle open. *)
Theorem startChild_unelevated path args w r w' : pool_ok (w_handles w) ->
  startChild path args w = (r, w') ->
  match r with
  | Returns run => exists c, w_children w' = c :: w_children w /\ ch_elevated c = false /\
      ch_env c = Process.childEnv environ /\ p_live (w_handles w) ⊆ p_live (w_handles w') /\
      p_live (w_handles w') ⊆ runner_handles run ∪ p_live (w_handles w)
  | Fails _ => w_children w' = w_children w /\ p_live (w_handles w') = p_live (w_handles w)
  | Panics _ => False
  end.
Proof.
  intros Hok H. pose proof (startChild_spec path args w Hok) as Hs. unfold wp in Hs. rewrite H in Hs.
  destruct r as [run|e|e]; [| | done].
  - destruct Hs as (c & hs & [Hc (_ & L & _)] & Hsub & He & Henv). exists c. cbn in L. rewrite L.
    split_and!; [done | done | done | apply union_subseteq_r | by apply union_mono_r].
  - destruct Hs as (_ & L & _ & C & _). by rewrite L, (left_id_L ∅ (∪)).
Qed.
End Tokens.

(** ** The runner: one [Wait], any number of [Kill]s *)

Module Runner.

(** Where the goroutine in [Wait] is. *)
Inductive wait_pc :=
| WEnter
| WObject (h : nat)                            (* in [WaitForSingleObject] *)
| WDrain (received : nat)                      (* receiving from [done] *)
| WReturned.

Record tokenRunner := MkRunner {
  hProcess : nat;                              (* 0 once reaped *)
  r_handle : nat;                              (* the handle it was made with *)
  r_exited : bool;                             (* the process has ended *)
  r_pumps : nat;                               (* pumps still copying *)
  r_done : nat;                                (* messages in [done] *)
  r_closed : nat;                              (* calls of [CloseHandle] *)
  r_stale : bool;                              (* [TerminateProcess] of a closed handle *)
  r_wait : wait_pc
}.

Definition start (h : nat) : tokenRunner := MkRunner h h false 2 0 0 false WEnter.

(** [Kill], under the mutex. *)
Definition Kill (t : tokenRunner) : tokenRunner :=
  if Nat.eqb (hProcess t) 0 then t
  else MkRunner (hProcess t) (r_handle t) true (r_pumps t) (r_done t) (r_closed t)
         (r_stale t || (0 <? r_closed t)%nat) (r_wait t).

Definition set_wait (p : wait_pc) (t : tokenRunner) : tokenRunner :=
  MkRunner (hProcess t) (r_handle t) (r_exited t) (r_pumps t) (r_done t) (r_closed t) (r_stale t) p.

(** The steps of [Wait]; it blocks until the process has ended and for each pump. *)
Definition Wait (t : tokenRunner) : option tokenRunner :=
  match r_wait t with
  | WEnter => Some (set_wait (if Nat.eqb (hProcess t) 0 then WReturned else WObject (hProcess t)) t)
  | WObject _ => if r_exited t then Some (set_wait (WDrain 0) t) else None
  | WDrain n =>
      if (n <? 2)%nat then
        match r_done t with
        | O => None
        | S d => Some (MkRunner (hProcess t) (r_handle t) (r_exited t) (r_pumps t) d (r_closed t) (r_stale t) (WDrain (S n)))
        end
      else if Nat.eqb (hProcess t) 0 then Some (set_wait WReturned t)
      else Some (MkRunner 0 (r_handle t) (r_exited t) (r_pumps t) (r_done t) (S (r_closed t)) (r_stale t) WReturned)
  | WReturned => None
  end.

Inductive step : tokenRunner -> tokenRunner -> Prop :=
| step_exit t : step t (MkRunner (hProcess t) (r_handle t) true (r_pumps t) (r_done t) (r_closed t) (r_stale t) (r_wait t))
| step_pump t n : r_pumps t = S n ->           (* a pump reads EOF *)
    step t (MkRunner (hProcess t) (r_handle t) (r_exited t) n (S (r_done t)) (r_closed t) (r_stale t) (r_wait t))
| step_kill t : step t (Kill t)
| step_wait t t' : Wait t = Some t' -> step t t'.

(** Messages account for the pumps; the handle is open until [Wait] is through. *)
Definition received (p : wait_pc) : nat :=
  match p with WEnter | WObject _ => 0 | WDrain n => n | WReturned => 2 end.
Definition inv (t : tokenRunner) : Prop :=
  (r_pumps t + r_done t + received (r_wait t) = 2)%nat /\ r_stale t = false /\
  match r_wait t with
  | WReturned => hProcess t = 0%nat /\ r_closed t = 1%nat /\ r_exited t = true
  | WEnter => hProcess t = r_handle t /\ r_closed t = 0%nat
  | WObject h => hProcess t = r_handle t /\ r_closed t = 0%nat /\ h = r_handle t
  | WDrain n => hProcess t = r_handle t /\ r_closed t = 0%nat /\ r_exited t = true /\ (n <= 2)%nat
  end /\ (0 < r_handle t)%nat.

Lemma runner_inv_start h : (0 < h)%nat -> inv (start h).
Proof. by repeat split. Qed.

Lemma runner_inv_step t t' : inv t -> step t t' -> inv t'.
Proof.
  intros Hi Ht. revert Hi. destruct Ht as [t0 | t0 n E | t0 | t0 t1 E]; unfold inv; cbn; intros (Hn & Hs & Hw & Hh).
  - split_and!; [done | done | by destruct (r_wait t0); naive_solver | done].
  - rewrite E in Hn. split_and!; [lia | done | done | done].
  - unfold Kill. destruct (Nat.eqb_spec (hProcess t0) 0) as [E | E]; [done|]. cbn.
    split_and!; [done | | by destruct (r_wait t0); naive_solver | done].
    rewrite Hs. destruct (r_wait t0); destruct Hw as (? & -> & _) || destruct Hw as (? & ->); done.
  - unfold Wait in E. destruct (r_wait t0) as [|h|n|] eqn:Ew; cbn [received] in Hn.
    + destruct Hw as [Hp Hc]. destruct (Nat.eqb_spec (hProcess t0) 0); [lia|]. injection E as <-. by cbn.
    + destruct (r_exited t0) eqn:Ex; [|done]. injection E as <-. cbn. destruct Hw as (? & ? & _).
      split_and!; try done; lia.
    + destruct Hw as (Hp & Hc & Hx & Hle). destruct (Nat.ltb_spec n 2).
      * destruct (r_done t0) eqn:Ed; [done|]. injection E as <-. cbn. split_and!; try done; lia.
      * destruct (Nat.eqb_spec (hProcess t0) 0); [lia|]. injection E as <-. cbn.
        split_and!; try done; lia.
    + done.
Qed.

(** However kills, the exit of the process and the end of its output interleave with
    the one [Wait], no call is made on a closed handle, the handle is closed once, by
    [Wait], after the process has ended and both pumps are through; and once they are,
    [Wait] is never blocked until it has returned. *)
Theorem tokenRunner_closes_once h t : (0 < h)%nat -> steps step (start h) t ->
  r_stale t = false /\ (r_closed t <= 1)%nat /\
  (r_closed t = 1%nat <-> r_wait t = WReturned) /\
  (r_wait t = WReturned -> r_exited t = true /\ r_pumps t = 0%nat /\ Kill t = t) /\
  (r_exited t = true -> r_pumps t = 0%nat -> r_wait t <> WReturned -> exists t', Wait t = Some t').
Proof.
  intros Hh Hs. assert (inv t) as (Hn & Hst & Hw & Hpos).
  { eapply (steps_invariant step inv); [intros ? ? ? ?; by eapply runner_inv_step | exact Hs | by apply runner_inv_start]. }
  split; [done|]. destruct (r_wait t) as [|h'|n|] eqn:Ew; cbn [received] in Hn.
  - destruct Hw as [Hp Hc]. rewrite Hc. split_and!; [lia | done | done |].
    intros _ _ _. unfold Wait. rewrite Ew. eauto.
  - destruct Hw as (Hp & Hc & _). rewrite Hc. split_and!; [lia | done | done |].
    intros Hx _ _. unfold Wait. rewrite Ew, Hx. eauto.
  - destruct Hw as (Hp & Hc & Hx & Hle). rewrite Hc. split_and!; [lia | done | done |].
    intros _ Hpump _. unfold Wait. rewrite Ew. destruct (Nat.ltb_spec n 2).
    + destruct (r_done t) eqn:Ed; [lia | eauto].
    + destruct (Nat.eqb (hProcess t) 0); eauto.
  - destruct Hw as (Hp & Hc & Hx). rewrite Hc. split_and!; [lia | done | | done].
    intros _. split_and!; [done | lia |]. unfold Kill. by rewrite Hp.
Qed.
End Runner.

(** ** The configuration file *)

Section ConfigFile.
  #[local] Set Default Proof Using "Type".

(** [ByHandleFileInformation], as far as it is read. *)
Record FileInformation := MkInfo {
  VolumeSerialNumber : Z; FileIndexHigh : Z; FileIndexLow : Z; FileAttributes : Z
}.
Definition FILE_ATTRIBUTE_REPARSE_POINT : Z := 1024.

(** The open handles with the object each is of, and the objects users were granted read
    access to. *)
Record disk := MkDisk { d_open : gmap nat FileInformation; d_granted : list FileInformation }.

(** What is at a path now, opened without following a final reparse point; whether the
    information of a handle can be had; the ACL calls before the last. *)
Context (at_path : string -> result FileInformation) (info_ok : FileInformation -> result unit).
Context (users_sid security_info acl set_security : result unit).

Definition open_handle (i : FileInformation) : prog disk nat := fun d =>
  let h := fresh (dom (d_open d)) in
  (Returns h, MkDisk (<[h := i]> (d_open d)) (d_granted d)).
Definition close_handle (h : nat) (d : disk) : disk := MkDisk (delete h (d_open d)) (d_granted d).

Definition GetFileInformation (h : nat) : prog disk FileInformation :=
  i ← gets (fun d => d_open d !! h);
  i ← deref i;
  _ ← lift_result (info_ok i);
  mret i.

Definition reopenSameObject (f : nat) (name : string) : prog disk nat :=
  i ← lift_result (at_path name);
  h ← open_handle i;
  reopened ← on_error (GetFileInformation h) (close_handle h);
  original ← on_error (GetFileInformation f) (close_handle h);
  if negb (VolumeSerialNumber reopened =? VolumeSerialNumber original)%Z ||
     negb (FileIndexHigh reopened =? FileIndexHigh original)%Z ||
     negb (FileIndexLow reopened =? FileIndexLow original)%Z ||
     negb (Z.land (FileAttributes reopened) FILE_ATTRIBUTE_REPARSE_POINT =? 0)%Z
  then on_error (throw "config file identity mismatch (possible path swap)") (close_handle h)
  else mret h.

Definition SetSecurityInfo (h : nat) : prog disk unit := fun d =>
  match set_security, d_open d !! h with
  | Ok _, Some i => (Returns tt, MkDisk (d_open d) (i :: d_granted d))
  | Err e, _ => (Fails e, d)
  | _, None => (Fails "The handle is invalid.", d)
  end.

Definition reopen_for_users (f : nat) (name : string) : prog disk nat :=
  _ ← lift_result users_sid; reopenSameObject f name.
Definition grant_users (h : nat) : prog disk unit :=
  _ ← lift_result security_info; _ ← lift_result acl; SetSecurityInfo h.

(** Every failure is dropped. *)
Definition makeConfigReadable (f : nat) (name : string) (d : disk) : disk :=
  match reopen_for_users f name d with
  | (Returns h, d) =>
      close_handle h (grant_users h d).2
  | (_, d) => d
  end.

(** The same object on the disk, and not a link. *)
Definition same_object (i j : FileInformation) : Prop :=
  VolumeSerialNumber i = VolumeSerialNumber j /\ FileIndexHigh i = FileIndexHigh j /\
  FileIndexLow i = FileIndexLow j /\ Z.land (FileAttributes i) FILE_ATTRIBUTE_REPARSE_POINT = 0%Z.

Lemma reopenSameObject_spec f name d i : d_open d !! f = Some i ->
  wp (reopenSameObject f name)
    (fun h d' => (h ∉ dom (d_open d)) /\ exists j, same_object j i /\
       d' = MkDisk (<[h := j]> (d_open d)) (d_granted d))
    (fun _ d' => d' = d) d.
Proof.
  intros Hf. unfold reopenSameObject. wp_step. wp_step; [|done]. rename a into j.
  wp_step. unfold open_handle, wp at 1. set (h := fresh (dom (d_open d))).
  assert (h ∉ dom (d_open d)) as Hh by apply is_fresh.
  assert (close_handle h (MkDisk (<[h := j]> (d_open d)) (d_granted d)) = d) as Hclose.
  { destruct d as [o g]. unfold close_handle. cbn in *. f_equal. apply delete_insert_id. by apply not_elem_of_dom. }
  unfold GetFileInformation. wp_step. wp_step. wp_step. wp_step. cbn [d_open].
  rewrite lookup_insert_eq. wp_step. eapply wp_deref; [done|]. wp_step. wp_step; [|exact Hclose].
  wp_step. wp_step. wp_step. wp_step. wp_step. cbn [d_open].
  assert (f <> h) as Hne by (intros ->; apply Hh, elem_of_dom; eauto).
  rewrite lookup_insert_ne, Hf by done. wp_step. eapply wp_deref; [done|]. wp_step. wp_step; [|exact Hclose].
  wp_step.
  destruct (_ || _ || _ || _) eqn:E; [by wp_step; wp_step|].
  apply wp_ret. split; [done|]. exists j. split; [|done].
  rewrite !orb_false_iff, !negb_false_iff, !Z.eqb_eq in E. unfold same_object. tauto.
Qed.

(** Read access is granted on the configuration file itself or on nothing, whatever has
    been put at its path since, and no handle stays open. *)
Lemma makeConfigReadable_same_object f name d i : d_open d !! f = Some i ->
  let d' := makeConfigReadable f name d in
  d_open d' = d_open d /\
  (d_granted d' = d_granted d \/ exists j, same_object j i /\ d_granted d' = j :: d_granted d).
Proof.
  intros Hf. unfold makeConfigReadable.
  assert (wp (reopen_for_users f name)
    (fun h d' => (h ∉ dom (d_open d)) /\ exists j, same_object j i /\
       d' = MkDisk (<[h := j]> (d_open d)) (d_granted d)) (fun _ d' => d' = d) d) as Hr.
  { unfold reopen_for_users. wp_step. wp_step; [|done]. by apply reopenSameObject_spec. }
  unfold wp in Hr. destruct (reopen_for_users f name d) as [[h|e|e] d1]; [| by subst; auto | done].
  destruct Hr as (Hh & j & Hj & ->). unfold grant_users, mbind, prog_bind, lift_result, SetSecurityInfo.
  destruct security_info; cbn; [destruct acl; cbn; [destruct set_security; cbn; rewrite ?lookup_insert_eq; cbn|]|].
  all: rewrite delete_insert_id by (by apply not_elem_of_dom); eauto.
Qed.
End ConfigFile.

(** ** A concrete machine: an elevated core without a linked token, a shell in its session,
    and no Secondary Logon service *)
Module Sample.
Definition answer (c : sys_call) (_ : nat) : option string :=
  match c with
  | GetLinkedToken _ => Some "no such logon session"
  | WTSQueryUserToken _ => Some "privilege not held"
  | CreateProcessWithTokenW _ _ _ => Some "service disabled"
  | OpenProcess access _ => if (access =? PROCESS_QUERY_INFORMATION)%Z then Some "access denied" else None
  | _ => None
  end.
Definition elevated_token (c : sys_call) (_ : nat) : bool :=
  match c with OpenSelfToken => true | OpenProcessToken _ => false | _ => true end.

Definition world0 : world := MkWorld (MkPool {[7]} 8) (fun _ => false) 0 [].
Definition environ : list string := ["PATH=C:\"; "NUNYA_CORE_SOCKET=p"].

Abbreviation run :=
  (startChild answer elevated_token
    (fun pid => if (pid =? 40)%Z || (pid =? 99)%Z then Ok 1%Z else if (pid =? 30)%Z then Ok 3%Z else Err "gone") 99%Z 1%Z
    (Ok [(1, 0); (2, 0); (5, 4)]%Z)
    [("System", 4%Z); ("EXPLORER.EXE", 30%Z); ("explorer.exe", 40%Z)] []
    (fun p => Ok p) (join " ") environ (fun _ => Ok [65%Z]) "helper.exe" ["-c"] world0).

Example run_ex : (run.1, ch_elevated <$> head (w_children run.2), elements (p_live (w_handles run.2))) =
  (Returns (CmdRunner 17), Some false, [17; 7]).
Proof. vm_compute. reflexivity. Qed.
End Sample.

Lemma startChild_unelevated_witness : exists c w',
  Sample.run = (Returns (CmdRunner 17), w') /\ w_children w' = c :: w_children Sample.world0 /\ ch_elevated c = false.
Proof.
  assert (pool_ok (w_handles Sample.world0)) as Hok.
  { intros x Hx. cbn in Hx |- *. apply elem_of_singleton in Hx. lia. }
  assert (Sample.run.1 = Returns (CmdRunner 17)) as H by (vm_compute; reflexivity).
  pose proof (surjective_pairing Sample.run) as E. rewrite H in E. revert E.
  generalize Sample.run.2. intros w' E.
  destruct (startChild_unelevated _ _ _ _ _ _ _ _ _ _ _ _ _ _ _ _ _ Hok E) as (c & H1 & H2 & _).
  exists c, w'. exact (conj E (conj H1 H2)).
Defined.

(** The process is killed, its pumps end, and [Wait] returns. *)
Lemma tokenRunner_closes_once_witness : exists t, steps Runner.step (Runner.start 5) t /\
  Runner.r_stale t = false /\ (Runner.r_closed t <= 1)%nat.
Proof.
  assert (steps Runner.step (Runner.start 5) (Runner.MkRunner 5 5 true 1 1 0 false (Runner.WObject 5))) as H.
  { eapply steps_step; [by apply Runner.step_wait|]. eapply steps_step; [apply Runner.step_kill|].
    eapply steps_step; [by apply Runner.step_pump | constructor]. }
  eexists. split; [exact H|].
  destruct (Runner.tokenRunner_closes_once 5 _ ltac:(lia) H) as (H1 & H2 & _). exact (conj H1 H2).
Defined.
