(* ===== verification/MobileLog.v ===== *)
(** * The log pump and the iterators of the mobile bindings

    src/mobile/log.go: lines are queued by whoever logs and delivered to the sink of the
    application by one goroutine. [LogPump] has the operations, each critical section one
    function on the pump, and the steps of the goroutines between them. src/mobile/iterator.go:
    [Iterator]. *)

From stdpp Require Import list_tactics.
From S2P Require Import Prelude GoStr.

#[local] Open Scope string_scope.
#[local] Open Scope list_scope.

Module LogPump.

Definition defaultLogQueueLines : Z := 1024.

Record logEntry := LogEntry { level : Z; message : string }.

#[export] Instance logEntry_eq_dec : EqDecision logEntry.
Proof. solve_decision. Defined.

(** The sink is named by a number. [notify] is the channel of capacity one: whether it
    holds its token. *)
Record logPump := LogPump {
  sink : option nat;
  limit : Z;
  pending : list logEntry;
  notify : bool;
  once : bool;
}.

Definition pump : logPump := LogPump None 0 [] false false.

Definition setLimit (n : Z) (p : logPump) : logPump :=
  LogPump (sink p) n (pending p) (notify p) (once p).

(** The critical section of [setSink]; the rest is [setSink_start] and [wake]. *)
Definition setSink (s : option nat) (p : logPump) : logPump :=
  LogPump s (limit p) (pending p) (notify p) (once p).

Definition effectiveLimit (p : logPump) : nat :=
  Z.to_nat (if (limit p <=? 0)%Z then defaultLogQueueLines else limit p).

(** The queue after one more line. *)
Definition enqueue (n : nat) (q : list logEntry) (e : logEntry) : list logEntry :=
  (if (n <=? length q)%nat then drop 1 q else q) ++ [e].

(** The critical section of [push], and whether [wake] follows it. *)
Definition push (e : logEntry) (p : logPump) : logPump * bool :=
  match sink p with
  | None => (p, false)
  | Some _ =>
      (LogPump (sink p) (limit p) (enqueue (effectiveLimit p) (pending p) e) (notify p) (once p), true)
  end.

Definition wake (p : logPump) : logPump :=
  LogPump (sink p) (limit p) (pending p) true (once p).

(** What the delivering goroutine takes under the lock. *)
Definition take_batch (p : logPump) : option nat * list logEntry * logPump :=
  (sink p, pending p, LogPump (sink p) (limit p) [] (notify p) (once p)).

Definition crlf : string := String "013" (String "010" "").

(** [stdLogWriter.Write]: what it pushes, and the count it returns. The number of
    sing-box's info level is a parameter. *)
Definition stdLogWriter_Write (LevelInfo : Z) (b : string) : option logEntry * nat :=
  let m := trim_right b crlf in
  (if bool_decide (m = "") then None else Some (LogEntry (int32 LevelInfo) m), String.length b).

Definition WriteMessage (lvl : Z) (m : string) : logEntry := LogEntry (int32 lvl) m.

(** ** The goroutines *)

(** Where the delivering goroutine is. *)
Inductive runner :=
| RNone
| RWait
| RTop
| RDeliver (s : nat) (batch : list logEntry).

#[export] Instance runner_eq_dec : EqDecision runner.
Proof. solve_decision. Defined.

(** [w_waking]: callers between their critical section and [wake]; [w_starting]: callers
    of [setSink] before [once.Do]. The rest is history: the lines that were accepted,
    given to a sink, pushed out of a full queue, and taken while there was no sink. *)
Record world := World {
  w_pump : logPump;
  w_runner : runner;
  w_waking : nat;
  w_starting : nat;
  w_accepted : list logEntry;
  w_delivered : list (nat * logEntry);
  w_dropped : list logEntry;
  w_discarded : list logEntry;
}.

Definition initial : world := World pump RNone 0 0 [] [] [] [].

Definition evicted (n : nat) (q : list logEntry) : list logEntry :=
  if (n <=? length q)%nat then take 1 q else [].

Definition do_push (e : logEntry) (w : world) : world :=
  let p := w_pump w in
  let '(p', woken) := push e p in
  if woken then
    World p' (w_runner w) (S (w_waking w)) (w_starting w) (w_accepted w ++ [e]) (w_delivered w)
      (w_dropped w ++ evicted (effectiveLimit p) (pending p)) (w_discarded w)
  else w.

Definition do_setSink (s : option nat) (w : world) : world :=
  World (setSink s (w_pump w)) (w_runner w) (w_waking w)
    (match s with Some _ => S (w_starting w) | None => w_starting w end)
    (w_accepted w) (w_delivered w) (w_dropped w) (w_discarded w).

Definition do_setLimit (n : Z) (w : world) : world :=
  World (setLimit n (w_pump w)) (w_runner w) (w_waking w) (w_starting w)
    (w_accepted w) (w_delivered w) (w_dropped w) (w_discarded w).

(** [once.Do(func() { go p.run() })]. *)
Definition setSink_start (w : world) : world :=
  let p := w_pump w in
  World (LogPump (sink p) (limit p) (pending p) (notify p) true)
    (if once p then w_runner w else RWait) (S (w_waking w)) (pred (w_starting w))
    (w_accepted w) (w_delivered w) (w_dropped w) (w_discarded w).

Definition do_wake (w : world) : world :=
  World (wake (w_pump w)) (w_runner w) (pred (w_waking w)) (w_starting w)
    (w_accepted w) (w_delivered w) (w_dropped w) (w_discarded w).

(** One step of [run]; [None] where it blocks. *)
Definition run_step (w : world) : option world :=
  let p := w_pump w in
  match w_runner w with
  | RNone => None
  | RWait =>
      if notify p then
        Some (World (LogPump (sink p) (limit p) (pending p) false (once p)) RTop (w_waking w)
                (w_starting w) (w_accepted w) (w_delivered w) (w_dropped w) (w_discarded w))
      else None
  | RTop =>
      let '(s, batch, p') := take_batch p in
      match s, batch with
      | Some s, _ :: _ =>
          Some (World p' (RDeliver s batch) (w_waking w) (w_starting w) (w_accepted w)
                  (w_delivered w) (w_dropped w) (w_discarded w))
      | _, _ =>
          Some (World p' RWait (w_waking w) (w_starting w) (w_accepted w)
                  (w_delivered w) (w_dropped w) (w_discarded w ++ batch))
      end
  | RDeliver s (e :: batch) =>
      Some (World p (RDeliver s batch) (w_waking w) (w_starting w) (w_accepted w)
              (w_delivered w ++ [(s, e)]) (w_dropped w) (w_discarded w))
  | RDeliver s [] =>
      Some (World p RTop (w_waking w) (w_starting w) (w_accepted w)
              (w_delivered w) (w_dropped w) (w_discarded w))
  end.

(** The steps of the callers under way and of the delivering goroutine. *)
Inductive internal : world -> world -> Prop :=
| internal_start w : (0 < w_starting w)%nat -> internal w (setSink_start w)
| internal_wake w : (0 < w_waking w)%nat -> internal w (do_wake w)
| internal_run w w' : run_step w = Some w' -> internal w w'.

Inductive log_step : world -> world -> Prop :=
| log_push w e : log_step w (do_push e w)
| log_setSink w s : log_step w (do_setSink s w)
| log_setLimit w n : log_step w (do_setLimit n w)
| log_internal w w' : internal w w' -> log_step w w'.

(** Nothing under way, and the goroutine blocked or not started. *)
Definition quiescent (w : world) : Prop :=
  w_waking w = 0%nat /\ w_starting w = 0%nat /\ run_step w = None.

(** What the goroutine holds. *)
Definition in_flight (w : world) : list (nat * logEntry) :=
  match w_runner w with RDeliver s batch => (s,.) <$> batch | _ => [] end.

(** What is pending, for the sink it will go to. *)
Definition queued (w : world) : list (nat * logEntry) :=
  match sink (w_pump w) with Some s => (s,.) <$> pending (w_pump w) | None => [] end.

(** ** Queueing *)

(** What a queue of at most [n] lines keeps of [q]: its latest. *)
Definition latest (n : nat) (q : list logEntry) : list logEntry := drop (length q - n) q.

Lemma enqueue_latest n q e :
  (0 < n)%nat -> (length q <= n)%nat -> enqueue n q e = latest n (q ++ [e]).
Proof.
  intros Hn Hq. unfold enqueue, latest. rewrite length_app; cbn.
  destruct (Nat.leb_spec n (length q)).
  - replace (length q + 1 - n)%nat with 1%nat by lia. by rewrite drop_app_le by lia.
  - by replace (length q + 1 - n)%nat with 0%nat by lia.
Qed.

Lemma length_latest n q : length (latest n q) = Nat.min n (length q).
Proof. unfold latest. rewrite length_drop. lia. Qed.

Lemma latest_snoc n q e : (0 < n)%nat -> latest n (latest n q ++ [e]) = latest n (q ++ [e]).
Proof.
  intros Hn. unfold latest at 1. rewrite length_app, length_latest; cbn.
  unfold latest. rewrite !length_app; cbn.
  destruct (decide (n <= length q)%nat).
  - rewrite !drop_app_le by (rewrite ?length_drop; lia). rewrite drop_drop. do 2 f_equal. lia.
  - replace (length q - n)%nat with 0%nat by lia. rewrite drop_0. f_equal. lia.
Qed.

Lemma effectiveLimit_pos p : (0 < effectiveLimit p)%nat.
Proof. unfold effectiveLimit, defaultLogQueueLines. destruct (Z.leb_spec (limit p) 0); lia. Qed.

Lemma length_enqueue n q e :
  (0 < n)%nat -> length (enqueue n q e) = if (n <=? length q)%nat then length q else S (length q).
Proof.
  intros Hn. unfold enqueue. rewrite length_app; cbn.
  destruct (Nat.leb_spec n (length q)); [rewrite length_drop|]; lia.
Qed.

Lemma evicted_enqueue n q e : evicted n q ++ enqueue n q e = q ++ [e].
Proof.
  unfold evicted, enqueue. destruct (n <=? length q)%nat; [|done].
  by rewrite app_assoc, take_drop.
Qed.

Definition push_line (p : logPump) (e : logEntry) : logPump := fst (push e p).

Lemma push_line_some p e s :
  sink p = Some s ->
  push_line p e = LogPump (Some s) (limit p) (enqueue (effectiveLimit p) (pending p) e) (notify p) (once p).
Proof. unfold push_line, push. by intros ->. Qed.

(** pushing any sequence of lines onto a queue within its limit leaves exactly the
    latest [limit] of what was queued and pushed, in order (the queue is the bounded lossy
    queue it is meant to be). *)
Theorem push_keeps_latest (p : logPump) (s : nat) (lines : list logEntry) :
  sink p = Some s -> (length (pending p) <= effectiveLimit p)%nat ->
  pending (foldl push_line p lines) = latest (effectiveLimit p) (pending p ++ lines).
Proof.
  intros Hs Hl.
  enough (let p' := foldl push_line p lines in
          sink p' = Some s /\ limit p' = limit p /\
          pending p' = latest (effectiveLimit p) (pending p ++ lines)) as (_ & _ & ?); [done|].
  induction lines as [|e lines IH] using rev_ind; cbn.
  - rewrite app_nil_r. unfold latest. by replace (_ - _)%nat with 0%nat by lia.
  - rewrite foldl_snoc. destruct IH as (E1 & E2 & E3).
    rewrite (push_line_some _ e s E1); cbn. split_and!; [done|done|].
    assert (effectiveLimit (foldl push_line p lines) = effectiveLimit p) as ->
      by (unfold effectiveLimit; by rewrite E2).
    pose proof (effectiveLimit_pos p).
    rewrite E3, enqueue_latest, latest_snoc, <- app_assoc; [done|done|done|].
    rewrite length_latest. lia.
Qed.

Definition line (n : nat) : logEntry := LogEntry 4 (itoa (Z.of_nat n)).

Lemma push_keeps_latest_witness :
  let p := LogPump (Some 1%nat) 2 [line 1] false true in
  (sink p = Some 1%nat /\ (length (pending p) <= effectiveLimit p)%nat) /\
  pending (foldl push_line p [line 2; line 3]) = [line 2; line 3].
Proof.
  split; [split; [reflexivity | vm_compute; lia]|].
  rewrite (push_keeps_latest _ 1); [reflexivity | reflexivity | vm_compute; lia].
Defined.

(** A limit lowered below the queue's length does not shorten it: every push drops one. *)
Lemma lowered_limit_kept p e s n :
  sink p = Some s -> (0 < n <= Z.of_nat (length (pending p)))%Z ->
  length (pending (push_line (setLimit n p) e)) = length (pending p).
Proof.
  intros Hs Hn. rewrite (push_line_some _ e s) by done. cbn.
  rewrite length_enqueue by apply effectiveLimit_pos.
  unfold effectiveLimit; cbn. destruct (Z.leb_spec n 0); [lia|].
  destruct (Nat.leb_spec (Z.to_nat n) (length (pending p))); lia.
Qed.

(** ** The invariant of the goroutines *)

Definition runs_next (w : world) : Prop :=
  match w_runner w with RTop | RDeliver _ _ => True | _ => False end.

Record pump_ok (w : world) : Prop := PumpOk {
  ok_wake : pending (w_pump w) <> [] ->
    notify (w_pump w) = true \/ (0 < w_waking w)%nat \/ runs_next w;
  ok_once : once (w_pump w) = true <-> w_runner w <> RNone;
  ok_started : (pending (w_pump w) <> [] \/ sink (w_pump w) <> None) ->
    once (w_pump w) = true \/ (0 < w_starting w)%nat;
  ok_account : w_accepted w ≡ₚ
    (w_delivered w).*2 ++ w_dropped w ++ w_discarded w ++ (in_flight w).*2 ++ pending (w_pump w);
  ok_order : (w_delivered w).*2 ++ (in_flight w).*2 ++ pending (w_pump w) `sublist_of` w_accepted w;
}.

Lemma pump_ok_initial : pump_ok initial.
Proof. split; cbn; naive_solver. Qed.

Lemma pump_ok_push e w : pump_ok w -> pump_ok (do_push e w).
Proof.
  intros Hw. unfold do_push, push.
  destruct (sink (w_pump w)) as [s|] eqn:Hs; [destruct Hw as [H1 H2 H3 H4 H5] | exact Hw].
  split; cbn; unfold in_flight, runs_next in *; cbn.
  - lia.
  - done.
  - intros _. apply H3. right. by rewrite Hs.
  - rewrite H4. pose proof (evicted_enqueue (effectiveLimit (w_pump w)) (pending (w_pump w)) e) as E.
    rewrite <- !app_assoc. rewrite <- E. clear. solve_Permutation.
  - pose proof (evicted_enqueue (effectiveLimit (w_pump w)) (pending (w_pump w)) e) as E.
    transitivity (((w_delivered w).*2 ++ (match w_runner w with RDeliver s0 batch => (s0,.) <$> batch | _ => [] end).*2
      ++ pending (w_pump w)) ++ [e]).
    + rewrite <- !app_assoc. do 2 (apply sublist_app; [done|]). rewrite <- E. by apply sublist_inserts_l.
    + by apply sublist_app.
Qed.

Lemma pump_ok_setSink s w : pump_ok w -> pump_ok (do_setSink s w).
Proof.
  intros [H1 H2 H3 H4 H5]. split; cbn; try done.
  destruct s as [s|]; [lia|]. intros [?|?]; [|done]. apply H3. by left.
Qed.

Lemma pump_ok_setLimit n w : pump_ok w -> pump_ok (do_setLimit n w).
Proof. by intros []; split. Qed.

Lemma in_flight_start w : pump_ok w -> in_flight (setSink_start w) = in_flight w.
Proof.
  intros [_ H2 _ _ _]. unfold in_flight; cbn. destruct (once (w_pump w)); [done|].
  destruct (w_runner w); try done; exfalso; by apply diff_false_true, H2.
Qed.

Lemma pump_ok_start w : pump_ok w -> pump_ok (setSink_start w).
Proof.
  intros H. pose proof (in_flight_start w H) as E. destruct H as [H1 H2 H3 H4 H5].
  split; rewrite ?E; cbn; try done.
  - intros _. lia.
  - split; [|done]. intros _. destruct (once (w_pump w)); [by apply H2 | done].
  - by left.
Qed.

Lemma pump_ok_wake w : pump_ok w -> pump_ok (do_wake w).
Proof. intros [H1 H2 H3 H4 H5]. split; cbn; try done. by left. Qed.

Lemma snd_tagged (s : nat) (q : list logEntry) : (((s,.) <$> q) : list (nat * logEntry)).*2 = q.
Proof. rewrite <- list_fmap_compose. apply list_fmap_id. Qed.

Lemma pump_ok_take w w' : w_runner w = RTop -> pump_ok w -> run_step w = Some w' -> pump_ok w'.
Proof.
  intros Hr [H1 H2 H3 H4 H5]. unfold run_step, take_batch. rewrite Hr.
  unfold in_flight in H4, H5. rewrite Hr in H2, H4, H5. cbn in H4, H5.
  assert ((w_delivered w).*2 `sublist_of` w_accepted w) as H6
    by (etransitivity; [by apply (sublist_inserts_r (pending (w_pump w))) | exact H5]).
  assert (once (w_pump w) = true <-> RWait <> RNone) as H7 by (rewrite H2; done).
  destruct (sink (w_pump w)) as [s|] eqn:Hs; [destruct (pending (w_pump w)) as [|e q] eqn:Hq|];
    intros [= <-]; split; cbn; unfold in_flight; cbn; try (rewrite Hs);
    rewrite ?app_nil_r in *; auto.
  - by rewrite H2.
  - by rewrite snd_tagged.
  - by rewrite snd_tagged.
  - intros [?|?]; done.
Qed.

Lemma pump_ok_run w w' : pump_ok w -> run_step w = Some w' -> pump_ok w'.
Proof.
  intros Hw Hrun. destruct (decide (w_runner w = RTop)) as [|Hn]; [eauto using pump_ok_take|].
  destruct Hw as [H1 H2 H3 H4 H5]. revert Hrun.
  unfold run_step. unfold in_flight, runs_next in H1, H2, H4, H5.
  destruct (w_runner w) as [| | |s [|e batch]] eqn:Hr; [done| |done| |].
  - destruct (notify (w_pump w)) eqn:Hno; [|done]. intros [= <-].
    split; cbn; unfold in_flight, runs_next; cbn; auto. by rewrite H2.
  - intros [= <-]. split; cbn; unfold in_flight, runs_next; cbn; auto. by rewrite H2.
  - intros [= <-]. cbn in H4, H5.
    split; cbn; unfold in_flight, runs_next; cbn; rewrite ?fmap_app; cbn; auto.
    + by rewrite H2.
    + rewrite H4. solve_Permutation.
    + by rewrite <- app_assoc.
Qed.

Lemma pump_ok_internal w w' : pump_ok w -> internal w w' -> pump_ok w'.
Proof. destruct 2; eauto using pump_ok_start, pump_ok_wake, pump_ok_run. Qed.

Lemma pump_ok_step w w' : pump_ok w -> log_step w w' -> pump_ok w'.
Proof.
  destruct 2; eauto using pump_ok_push, pump_ok_setSink, pump_ok_setLimit, pump_ok_internal.
Qed.

Lemma pump_ok_reachable w : steps log_step initial w -> pump_ok w.
Proof.
  intros H. eapply (steps_invariant log_step pump_ok); eauto using pump_ok_step, pump_ok_initial.
Qed.

(** ** Delivery *)

(** Every line accepted was delivered, dropped from a full queue, discarded without a
    sink, or is on its way, exactly once; what is delivered or on its way is in the order
    in which it was accepted. *)
Lemma lines_accounted w :
  steps log_step initial w ->
  w_accepted w ≡ₚ
    (w_delivered w).*2 ++ w_dropped w ++ w_discarded w ++ (in_flight w).*2 ++ pending (w_pump w) /\
  (w_delivered w).*2 ++ (in_flight w).*2 ++ pending (w_pump w) `sublist_of` w_accepted w.
Proof. intros H%pump_ok_reachable. split; [by apply ok_account | by apply ok_order]. Qed.

Definition runner_work (r : runner) : nat :=
  match r with RNone | RTop => 1 | RWait => 0 | RDeliver _ batch => 2 + length batch end.

(** What the internal steps use up. *)
Definition work (w : world) : nat :=
  6 * w_starting w + 5 * w_waking w + (if notify (w_pump w) then 3 else 0) +
  runner_work (w_runner w) + 3 * length (pending (w_pump w)).

Lemma internal_work w w' : internal w w' -> (work w' < work w)%nat.
Proof.
  destruct 1 as [w H | w H | w w' H]; unfold work; cbn.
  - destruct (once (w_pump w)), (notify (w_pump w)); cbn; destruct (w_runner w); cbn; lia.
  - destruct (notify (w_pump w)); lia.
  - revert H. unfold run_step, take_batch.
    destruct (w_runner w) as [| | |s [|e batch]]; [done| | | |].
    + destruct (notify (w_pump w)); [|done]. intros [= <-]. cbn. lia.
    + destruct (sink (w_pump w)) as [s|]; [destruct (pending (w_pump w)) as [|e q]|];
        intros [= <-]; cbn; destruct (notify (w_pump w)); lia.
    + intros [= <-]. cbn. lia.
    + intros [= <-]. cbn. lia.
Qed.

Lemma internal_wf : well_founded (flip internal).
Proof. apply (well_founded_lt_compat world work). intros w' w. apply internal_work. Qed.

Definition on_the_way (w : world) : list (nat * logEntry) :=
  w_delivered w ++ in_flight w ++ queued w.

Lemma internal_on_the_way w w' s :
  pump_ok w -> internal w w' -> sink (w_pump w) = Some s ->
  sink (w_pump w') = Some s /\ on_the_way w' = on_the_way w.
Proof.
  intros Hok Hi Hs. unfold on_the_way, queued. rewrite ?Hs. destruct Hi as [w H | w H | w w' H].
  - rewrite in_flight_start by done. cbn. by rewrite ?Hs.
  - cbn. by rewrite ?Hs.
  - revert H. unfold run_step, take_batch, in_flight. rewrite ?Hs.
    destruct (w_runner w) as [| | |t [|e batch]]; [done| | | |].
    + destruct (notify (w_pump w)); [|done]. intros [= <-]. cbn. by rewrite ?Hs.
    + destruct (pending (w_pump w)) as [|e q]; intros [= <-]; cbn; rewrite ?Hs; cbn; [done|].
      split; [done|]. by rewrite app_nil_r.
    + intros [= <-]. cbn. by rewrite ?Hs.
    + intros [= <-]. cbn. rewrite ?Hs. by rewrite <- app_assoc.
Qed.

Lemma quiescent_empty w : pump_ok w -> quiescent w -> pending (w_pump w) = [] /\ in_flight w = [].
Proof.
  intros [H1 H2 H3 _ _] (Hw & Hs & Hr). revert Hr. unfold run_step, take_batch, in_flight.
  destruct (w_runner w) as [| | |t [|e batch]] eqn:E; try done.
  - intros _. split; [|done]. destruct (pending (w_pump w)); [done|].
    destruct (H3 ltac:(by left)) as [Ho|?]; [|lia]. by destruct (proj1 H2 Ho).
  - destruct (notify (w_pump w)) eqn:En; [done|]. intros _. split; [|done].
    destruct (pending (w_pump w)); [done|].
    destruct (H1 ltac:(done)) as [?|[?|Hn]]; [done|lia|]. unfold runs_next in Hn. by rewrite E in Hn.
  - destruct (sink (w_pump w)) as [s|]; [destruct (pending (w_pump w))|]; done.
Qed.

(** C29: in every reachable state with a sink, whatever the schedule of the callers and of
    the delivering goroutine from there on: they come to rest after finitely many steps,
    and then every line that was queued or taken has been given to the sink it was queued
    for, in order, and nothing is left in the queue (no wake-up is lost). *)
Theorem queued_lines_delivered (w : world) (s : nat) :
  steps log_step initial w -> sink (w_pump w) = Some s ->
  Acc (flip internal) w /\
  forall w', steps internal w w' -> quiescent w' ->
    w_delivered w' = w_delivered w ++ in_flight w ++ queued w /\ pending (w_pump w') = [].
Proof.
  intros Hr Hs. split; [apply internal_wf|]. intros w' Hrun Hq.
  assert (pump_ok w' /\ sink (w_pump w') = Some s /\ on_the_way w' = on_the_way w) as (Ho & _ & E).
  { eapply (steps_invariant internal (fun v => pump_ok v /\ sink (w_pump v) = Some s /\ on_the_way v = on_the_way w));
      [|done|by eauto using pump_ok_reachable].
    intros v v' (Hv & Hsv & E) Hi.
    destruct (internal_on_the_way v v' s Hv Hi Hsv) as [? ?].
    eauto using pump_ok_internal with congruence. }
  destruct (quiescent_empty w' Ho Hq) as [E1 E2]. split; [|done].
  revert E. unfold on_the_way at 1, queued at 1. rewrite E1, E2.
  destruct (sink (w_pump w')); cbn; rewrite !app_nil_r; done.
Qed.

(** A sink set, two lines logged, the goroutine started and left to run. *)
Abbreviation busy := (do_push (line 2) (do_push (line 1) (do_setSink (Some 1%nat) initial))).

Fixpoint settle (fuel : nat) (w : world) : world :=
  match fuel with
  | 0%nat => w
  | S fuel =>
      if (0 <? w_starting w)%nat then settle fuel (setSink_start w)
      else if (0 <? w_waking w)%nat then settle fuel (do_wake w)
      else match run_step w with Some w' => settle fuel w' | None => w end
  end.

Lemma settle_steps fuel w : steps internal w (settle fuel w).
Proof.
  revert w. induction fuel as [|fuel IH]; intros w; cbn [settle]; [constructor|].
  destruct (Nat.ltb_spec 0 (w_starting w)).
  { eapply steps_step; [by apply internal_start | apply IH]. }
  destruct (Nat.ltb_spec 0 (w_waking w)).
  { eapply steps_step; [by apply internal_wake | apply IH]. }
  destruct (run_step w) as [w'|] eqn:E; [|constructor].
  eapply steps_step; [by apply internal_run | apply IH].
Qed.

Lemma busy_reachable : steps log_step initial busy.
Proof.
  eapply steps_step; [apply (log_setSink _ (Some 1%nat))|].
  eapply steps_step; [apply (log_push _ (line 1))|].
  apply steps_one, log_push.
Qed.

Lemma queued_lines_delivered_witness :
  (sink (w_pump busy) = Some 1%nat /\ quiescent (settle 20 busy)) /\
  w_delivered (settle 20 busy) = [(1%nat, line 1); (1%nat, line 2)].
Proof.
  split; [split; [reflexivity | split; [|split]; vm_compute; reflexivity]|].
  destruct (queued_lines_delivered busy 1 busy_reachable eq_refl) as [_ H].
  destruct (H (settle 20 busy) (settle_steps 20 busy)) as [E _].
  - split; [|split]; vm_compute; reflexivity.
  - etransitivity; [exact E | vm_compute; reflexivity].
Defined.

(** ** Bounds *)

Definition within (B : nat) (w : world) : Prop := (length (pending (w_pump w)) <= B)%nat.

Lemma within_step B w w' :
  within B w -> log_step w w' -> (effectiveLimit (w_pump w) <= B)%nat -> within B w'.
Proof.
  unfold within. intros Hw Hs HB. destruct Hs as [w e | w s | w n | w w' Hi].
  - unfold do_push, push. destruct (sink (w_pump w)); [|done]. cbn.
    rewrite length_enqueue by apply effectiveLimit_pos.
    destruct (Nat.leb_spec (effectiveLimit (w_pump w)) (length (pending (w_pump w)))); lia.
  - done.
  - done.
  - destruct Hi as [w H | w H | w w' H]; [done|done|]. revert H. unfold run_step, take_batch.
    destruct (w_runner w) as [| | |t [|e batch]]; [done| | | |].
    + destruct (notify (w_pump w)); [|done]. by intros [= <-].
    + destruct (sink (w_pump w)) as [s|]; [destruct (pending (w_pump w))|];
        intros [= <-]; cbn; lia.
    + by intros [= <-].
    + by intros [= <-].
Qed.

(** C40: along every interleaving in which no limit above [B] lines is in force (a limit of
    zero or less stands for 1024), the queue never holds more than [B] lines. *)
Theorem queue_bounded (B : nat) (w : world) :
  steps (fun v v' => log_step v v' /\ (effectiveLimit (w_pump v) <= B)%nat) initial w ->
  (length (pending (w_pump w)) <= B)%nat.
Proof.
  intros H. apply (steps_invariant _ (within B) (fun v v' Hv Hs => within_step B v v' Hv (proj1 Hs) (proj2 Hs)) _ _ H).
  unfold within; cbn. lia.
Qed.

Lemma queue_bounded_witness :
  (length (pending (w_pump (do_push (line 1) (do_setSink (Some 1) initial)))) <= 1024)%nat.
Proof.
  apply (queue_bounded 1024).
  eapply steps_step; [split; [apply (log_setSink _ (Some 1%nat)) | vm_compute; lia]|].
  apply steps_one. split; [apply log_push | vm_compute; lia].
Defined.

End LogPump.

Module Iterator.

(** [abstractIterator]: what both sides of the binding agree on. *)
Class abstractIterator (I T : Type) := {
  HasNext : I -> bool;
  Next : I -> T * I;
}.

Record iterator (T : Type) := newIterator { values : list T }.
Arguments newIterator {T} values.
Arguments values {T} i : rename.

Definition Len {T} (i : iterator T) : Z := int32 (Z.of_nat (length (values i))).

Definition iterator_HasNext {T} (i : iterator T) : bool := (0 <? length (values i))%nat.

(** [Next]: past the end, the zero value of the type. *)
Definition iterator_Next {T} `{Inhabited T} (i : iterator T) : T * iterator T :=
  match values i with
  | [] => (inhabitant, i)
  | v :: vs => (v, newIterator vs)
  end.

#[export] Instance iterator_abstract {T} `{Inhabited T} : abstractIterator (iterator T) T := {
  HasNext := iterator_HasNext;
  Next := iterator_Next;
}.

(** [for iterator.HasNext() { values = append(values, iterator.Next()) }]; [None] out of
    fuel, an iterator being free never to end. *)
Fixpoint collect {I T} `{abstractIterator I T} (fuel : nat) (i : I) (acc : list T) : option (list T) :=
  match fuel with
  | 0%nat => None
  | S fuel =>
      if HasNext i then let '(v, i') := Next i in collect fuel i' (acc ++ [v]) else Some acc
  end.

Definition iteratorToArray {I T} `{abstractIterator I T} (fuel : nat) (i : option I) : option (list T) :=
  match i with None => Some [] | Some i => collect fuel i [] end.

Lemma collect_iterator {T} `{Inhabited T} (vs acc : list T) fuel :
  (length vs < fuel)%nat -> collect fuel (newIterator vs) acc = Some (acc ++ vs).
Proof.
  revert vs acc. induction fuel as [|fuel IH]; intros vs acc Hf; [lia|].
  destruct vs as [|v vs]; cbn; [by rewrite app_nil_r|].
  rewrite IH by (cbn in Hf; lia). by rewrite <- app_assoc.
Qed.

(** a list that crosses the binding as an iterator arrives as it was: reading an
    iterator over [vs] ends, one step per element, with exactly [vs]. *)
Theorem iterator_roundtrip {T} `{Inhabited T} (vs : list T) (fuel : nat) :
  (length vs < fuel)%nat -> iteratorToArray fuel (Some (newIterator vs)) = Some vs.
Proof. intros Hf. unfold iteratorToArray. by rewrite collect_iterator. Qed.

Lemma iterator_roundtrip_witness :
  (2 < 3)%nat /\ iteratorToArray 3 (Some (newIterator ["a"; "b"])) = Some ["a"; "b"].
Proof. split; [lia | apply (iterator_roundtrip ["a"; "b"] 3); cbn; lia]. Defined.

Lemma next_past_the_end {T} `{Inhabited T} : iterator_Next (newIterator (T:=T) []) = (inhabitant, newIterator []).
Proof. done. Qed.

End Iterator.
