(* ===== verification/MobileCore.v ===== *)
(** * Instances of the mobile bindings: src/mobile/instance.go, xray.go and test.go

    The objects the bindings open (contexts, histories, boxes, Xray instances and gates)
    are numbered in one pool, so that one nobody will close stays visible as a live one.
    [Instance]s are shared by pointer: they live in a table. A call that fails part way
    runs the clean-ups of its error path. *)

From stdpp Require Import list_tactics.
From S2P Require Import Prelude GoStr.
From S2P Require Lifecycle.

#[local] Open Scope string_scope.
#[local] Open Scope list_scope.

(** ** State *)

Record protectorState := ProtectorState {
  ps_id : nat;            (* which allocation: pointers are compared by identity *)
  platform : nat;
  enabled : bool;
}.

#[export] Instance protectorState_eq_dec : EqDecision protectorState.
Proof. solve_decision. Defined.

Record xrayStack := XrayStack {
  instance : option nat;
  gate : option nat;
  fullGates : list nat;
  fullInstances : list nat;
}.

Record Instance := MkInstance {
  i_platform : nat;
  i_box : nat;
  i_cancel : nat;
  i_xray : xrayStack;
  i_history : nat;
  i_started : bool;
  i_closed : bool;
}.

(** What a running instance can be told to do to its network. *)
Inductive netop := DevicePause | DeviceWake | OpUpdateWIFIState | OpResetNetwork.

Record mob := Mob {
  m_objects : pool;
  m_protector : option protectorState;
  m_controller : bool;                       (* [RegisterDialerController] has been called *)
  m_holders : gmap nat (option nat);         (* the box context in each holder *)
  m_dns : gmap nat (nat * string);           (* [SetOutboundDNS]: holder and strategy *)
  m_instances : gmap nat Instance;
  m_ops : list (nat * netop);
}.

Definition set_objects (p : pool) (m : mob) : mob :=
  Mob p (m_protector m) (m_controller m) (m_holders m) (m_dns m) (m_instances m) (m_ops m).
Definition set_protector (s : option protectorState) (c : bool) (m : mob) : mob :=
  Mob (m_objects m) s c (m_holders m) (m_dns m) (m_instances m) (m_ops m).
Definition set_holders (h : gmap nat (option nat)) (m : mob) : mob :=
  Mob (m_objects m) (m_protector m) (m_controller m) h (m_dns m) (m_instances m) (m_ops m).
Definition set_mdns (d : gmap nat (nat * string)) (m : mob) : mob :=
  Mob (m_objects m) (m_protector m) (m_controller m) (m_holders m) d (m_instances m) (m_ops m).
Definition set_instances (i : gmap nat Instance) (m : mob) : mob :=
  Mob (m_objects m) (m_protector m) (m_controller m) (m_holders m) (m_dns m) i (m_ops m).
Definition add_op (b : nat) (o : netop) (m : mob) : mob :=
  Mob (m_objects m) (m_protector m) (m_controller m) (m_holders m) (m_dns m) (m_instances m)
    (m_ops m ++ [(b, o)]).

(** Opening one object, and closing some. *)
Definition open_object : prog mob nat := fun m =>
  (Returns (p_next (m_objects m)), set_objects (alloc (m_objects m)) m).
Definition close_objects (l : list nat) (m : mob) : mob :=
  set_objects (release_all l (m_objects m)) m.

(** ** The context holder and the protector *)

Definition new_holder : prog mob nat := fun m =>
  let h := fresh (dom (m_holders m)) in (Returns h, set_holders (<[h := None]> (m_holders m)) m).
Definition publish (h ctx : nat) (m : mob) : mob := set_holders (<[h := Some ctx]> (m_holders m)) m.
Definition holder_get (h : nat) (m : mob) : option nat := mjoin (m_holders m !! h).

Section Protector.
  (** [UsePlatformAutoDetectInterfaceControl] and [AutoDetectInterfaceControl] of a platform. *)
  Context (UseAutoDetect : nat -> bool) (AutoDetectInterfaceControl : nat -> Z -> option string).

(** Each call stores a new allocation. *)
Definition next_protector (m : mob) : nat :=
  match m_protector m with Some s => S (ps_id s) | None => 0 end.

Definition installProtector (p : option nat) (m : mob) : mob :=
  match p with
  | None => m
  | Some p => set_protector (Some (ProtectorState (next_protector m) p (UseAutoDetect p))) true m
  end.

(** [releaseProtector] is a load and a compare-and-swap. *)
Definition release_load (p : nat) (m : mob) : option protectorState :=
  match m_protector m with
  | Some s => if decide (platform s = p) then Some s else None
  | None => None
  end.

Definition release_swap (old : option protectorState) (m : mob) : mob :=
  match old with
  | None => m
  | Some s => if decide (m_protector m = Some s) then set_protector None (m_controller m) m else m
  end.

Definition releaseProtector (p : nat) (m : mob) : mob := release_swap (release_load p m) m.

(** [protectDial] on a connection whose [Control] fails or hands over its descriptor. *)
Definition protectDial (conn : result Z) (m : mob) : option string :=
  match m_protector m with
  | None => None
  | Some s =>
      if enabled s then
        match conn with
        | Err e => Some e
        | Ok fd => AutoDetectInterfaceControl (platform s) (int32 fd)
        end
      else None
  end.

Lemma install_between_kept p q m :
  m_protector (release_swap (release_load p m) (installProtector (Some q) m)) =
  m_protector (installProtector (Some q) m).
Proof.
  unfold release_swap, release_load. destruct (m_protector m) as [s|] eqn:E; [|done].
  destruct (decide (platform s = p)); [|done]. case_decide as H; [|done].
  exfalso. cbn in H. unfold next_protector in H. rewrite E in H. injection H as H.
  apply (f_equal ps_id) in H. cbn in H. lia.
Qed.

Lemma releaseProtector_spec p m :
  m_protector (releaseProtector p m) =
  match m_protector m with
  | Some s => if decide (platform s = p) then None else Some s
  | None => None
  end.
Proof.
  unfold releaseProtector, release_swap, release_load. destruct (m_protector m) as [s|] eqn:E; [|by rewrite E].
  destruct (decide (platform s = p)); [|done]. by rewrite decide_True.
Qed.
End Protector.

(** ** What a call opens *)

(** [m'] is [m] with the objects [X] opened. *)
Definition opened (X : gset nat) (m m' : mob) : Prop :=
  p_live (m_objects m') = p_live (m_objects m) ∪ X /\ X ## p_live (m_objects m) /\
  pool_ok (m_objects m') /\ m_instances m' = m_instances m /\ m_protector m' = m_protector m.

Lemma opened_same m : pool_ok (m_objects m) -> opened ∅ m m.
Proof. intros. split_and!; try done. apply leibniz_equiv. set_solver. Qed.

Lemma opened_trans X Y m1 m2 m3 : opened X m1 m2 -> opened Y m2 m3 -> opened (X ∪ Y) m1 m3.
Proof.
  intros (L1 & D1 & _ & I1 & P1) (L2 & D2 & O2 & I2 & P2). rewrite L1 in *.
  split_and!; [rewrite L2; apply leibniz_equiv| |done|congruence|congruence]; clear - D1 D2; set_solver.
Qed.

Lemma opened_empty X m1 m2 m3 : opened X m1 m2 -> opened ∅ m2 m3 -> opened X m1 m3.
Proof.
  intros H1 H2. pose proof (opened_trans _ _ _ _ _ H1 H2) as H.
  by replace (X ∪ ∅) with X in H by (apply leibniz_equiv; set_solver).
Qed.

Lemma opened_fields X m m1 m2 :
  m_objects m2 = m_objects m1 -> m_instances m2 = m_instances m1 ->
  m_protector m2 = m_protector m1 -> opened X m m1 -> opened X m m2.
Proof. unfold opened. by intros -> -> ->. Qed.

Lemma opened_object m : pool_ok (m_objects m) ->
  opened {[p_next (m_objects m)]} m (set_objects (alloc (m_objects m)) m).
Proof.
  intros Hp. pose proof (p_next_fresh _ Hp).
  split_and!; cbn; try done; [apply leibniz_equiv| |by apply pool_ok_alloc]; set_solver.
Qed.

(** Closing what was opened, in any order, leaves nothing open. *)
Lemma opened_close X l m m' :
  opened X m m' -> (forall x, x ∈ X <-> x ∈ l) -> opened ∅ m (close_objects l m').
Proof.
  intros (L & D & O & I & P) Hl. split_and!; cbn; try done.
  - rewrite p_live_release_all, L. apply leibniz_equiv. intros x.
    rewrite elem_of_difference, !elem_of_union, elem_of_list_to_set, <- Hl. set_solver.
  - by apply pool_ok_release_all.
Qed.

Lemma opened_close_list l m m' : opened (list_to_set l) m m' -> opened ∅ m (close_objects l m').
Proof. intros H. eapply opened_close; [exact H|]. intros x. by rewrite elem_of_list_to_set. Qed.

(** With lists for the sets. *)
Definition opened_list (l : list nat) : mob -> mob -> Prop := opened (list_to_set l).

Lemma opened_app l1 l2 m1 m2 m3 :
  opened_list l1 m1 m2 -> opened_list l2 m2 m3 -> opened_list (l1 ++ l2) m1 m3.
Proof. unfold opened_list. rewrite list_to_set_app_L. apply opened_trans. Qed.

Lemma opened_perm l1 l2 m1 m2 : l1 ≡ₚ l2 -> opened_list l1 m1 m2 -> opened_list l2 m1 m2.
Proof.
  unfold opened_list. intros Hl. replace (list_to_set l2) with (list_to_set (C := gset nat) l1); [done|].
  apply leibniz_equiv. intros x. by rewrite !elem_of_list_to_set, Hl.
Qed.

Lemma open_object_wp (Q : nat -> mob -> Prop) F m :
  pool_ok (m_objects m) -> (forall i m', opened_list [i] m m' -> Q i m') -> wp open_object Q F m.
Proof.
  intros Hp HQ. apply HQ. unfold opened_list; cbn. rewrite (right_id_L ∅ (∪)). by apply opened_object.
Qed.

Lemma close_objects_app l1 l2 m : close_objects l2 (close_objects l1 m) = close_objects (l1 ++ l2) m.
Proof. unfold close_objects, release_all. cbn. by rewrite foldl_app. Qed.

Lemma opened_none_live m m' : opened ∅ m m' -> p_live (m_objects m') = p_live (m_objects m).
Proof. intros (-> & _). apply leibniz_equiv. set_solver. Qed.

Lemma opened_ok X m m' : opened X m m' -> pool_ok (m_objects m').
Proof. by intros (_ & _ & ? & _). Qed.

Lemma opened_list_ok l m m' : opened_list l m m' -> pool_ok (m_objects m').
Proof. apply opened_ok. Qed.

#[export] Hint Resolve opened_ok opened_list_ok opened_same : nunya.

(** ** Xray instances and gates *)

Record StartOptions := MkStartOptions {
  CoreConfig : string;
  NeedXray : bool;
  XrayConfig : string;
  XrayOutboundDNSStrategy : string;
  XrayLazyStart : bool;
  XrayIdleSeconds : Z;
  XrayFullIdleSeconds : Z;
  xrayFullConfigs : list string;
}.

Definition AddXrayFullConfig (config : string) (o : StartOptions) : StartOptions :=
  MkStartOptions (CoreConfig o) (NeedXray o) (XrayConfig o) (XrayOutboundDNSStrategy o)
    (XrayLazyStart o) (XrayIdleSeconds o) (XrayFullIdleSeconds o) (xrayFullConfigs o ++ [config]).

(** What a stack holds, in the order [close] goes through it. *)
Definition stack_objects (s : xrayStack) : list nat :=
  option_list (gate s) ++ fullGates s ++ fullInstances s ++ option_list (instance s).

(** [close]; a nil stack is [None]. *)
Definition xrayStack_close (s : option xrayStack) (m : mob) : mob :=
  match s with None => m | Some s => close_objects (stack_objects s) m end.

Definition second : Z := 1000000000.

Section Xray.
  #[local] Set Default Proof Using "Type".
  (** Xray's [CreateXrayInstance] and [Start] of a config, and [xray.StartGate] of a
      config and an idle time; the order in which the goroutines of [startXrayFullGates]
      get to run. *)
  Context (xray_Create xray_Start : string -> result unit) (StartGate : string -> Z -> result unit).
  Context (schedule : list string -> list nat).

(** [xrayPreparer]: nothing without a strategy, else the holder becomes the resolver. *)
Definition xrayPreparer (dnsStrategy : string) (boxCtx : option nat) (i : nat) : prog mob unit := fun m =>
  match boxCtx with
  | Some h =>
      if bool_decide (dnsStrategy = "") then (Returns tt, m)
      else (Returns tt, set_mdns (<[i := (h, dnsStrategy)]> (m_dns m)) m)
  | None => (Returns tt, m)
  end.

Definition create_instance (config : string) : prog mob nat :=
  _ ← lift_result (xray_Create config); open_object.

Definition startXrayInstance (config : string) (prepare : nat -> prog mob unit) : prog mob nat :=
  i ← create_instance config;
  _ ← on_error (prepare i) (close_objects [i]);
  _ ← on_error (lift_result (xray_Start config)) (close_objects [i]);
  mret i.

Definition closeXrayInstances (l : list nat) (m : mob) : mob := close_objects l m.

(** The loop of [startXrayFullConfigs], with the instances started so far. *)
Fixpoint startXrayFullConfigs_from (instances : list nat) (configs : list string)
    (prepare : nat -> prog mob unit) : prog mob (list nat) :=
  match configs with
  | [] => mret instances
  | config :: configs =>
      i ← on_error (startXrayInstance config prepare) (closeXrayInstances instances);
      startXrayFullConfigs_from (instances ++ [i]) configs prepare
  end.

Definition startXrayFullConfigs (configs : list string) (prepare : nat -> prog mob unit) : prog mob (list nat) :=
  startXrayFullConfigs_from [] configs prepare.

(** A copy of the desktop's fan-out. *)
Definition startXrayFullGates (configs : list string) (idle : Z) : prog mob (list nat) := fun m =>
  match Lifecycle.startXrayFullGates (fun config => StartGate config idle) schedule configs (m_objects m) with
  | (Ok gates, p) => (Returns gates, set_objects p m)
  | (Err e, p) => (Fails e, set_objects p m)
  end.

Definition start_gate (config : string) (idle : Z) : prog mob nat :=
  _ ← lift_result (StartGate config idle); open_object.

(** The main instance or gate of [startMainXray]. *)
Definition start_main (o : StartOptions) (prepare : nat -> prog mob unit) : prog mob xrayStack :=
  if NeedXray o then
    if XrayLazyStart o then
      g ← start_gate (XrayConfig o) (XrayIdleSeconds o * second)%Z;
      mret (XrayStack None (Some g) [] [])
    else
      i ← startXrayInstance (XrayConfig o) prepare;
      mret (XrayStack (Some i) None [] [])
  else mret (XrayStack None None [] []).

Definition startMainXray (o : StartOptions) (prepare : nat -> prog mob unit) : prog mob xrayStack :=
  stack ← start_main o prepare;
  if (0 <? length (xrayFullConfigs o))%nat then
    gates ← on_error (startXrayFullGates (xrayFullConfigs o) (XrayFullIdleSeconds o * second)%Z)
              (xrayStack_close (Some stack));
    mret (XrayStack (instance stack) (gate stack) gates (fullInstances stack))
  else mret stack.

(** *** What they open *)

(** A preparer that only sets the resolver. *)
Definition harmless (prepare : nat -> prog mob unit) : Prop :=
  forall i m, wp (prepare i)
    (fun _ m' => m_objects m' = m_objects m /\ m_instances m' = m_instances m /\
                 m_protector m' = m_protector m) (fun _ _ => False) m.

Lemma xrayPreparer_harmless strategy h : harmless (xrayPreparer strategy h).
Proof.
  intros i m. unfold wp, xrayPreparer. destruct h; [|done]. by destruct (bool_decide _).
Qed.

(** [opens m P prog]: it returns having opened exactly the objects it names, or fails
    having opened nothing. *)
Definition opens {A} (m : mob) (names : A -> list nat) (c : prog mob A) : Prop :=
  wp c (fun a m' => opened (list_to_set (names a)) m m') (fun _ m' => opened ∅ m m') m.

Lemma open_object_opens m : pool_ok (m_objects m) -> opens m (fun i => [i]) open_object.
Proof.
  intros Hp. unfold opens, wp, open_object. cbn.
  rewrite (right_id_L ∅ (∪)). by apply opened_object.
Qed.

Lemma lift_open_opens {A} (r : result A) m :
  pool_ok (m_objects m) -> opens m (fun i => [i]) (_ ← lift_result r; open_object).
Proof.
  intros Hp. unfold opens. wp_step. wp_step; [by apply open_object_opens | by apply opened_same].
Qed.

Lemma startXrayInstance_opens config prepare m :
  harmless prepare -> pool_ok (m_objects m) -> opens m (fun i => [i]) (startXrayInstance config prepare).
Proof.
  intros Hpre Hp. unfold opens, startXrayInstance, create_instance. wp_step.
  eapply wp_mono; [by apply lift_open_opens | | done]. cbn beta. intros i m1 Ho.
  wp_step. wp_step. eapply wp_mono; [apply Hpre | | done]. intros _ m2 (E1 & E2 & E3).
  pose proof (opened_fields _ _ _ _ E1 E2 E3 Ho) as Ho2.
  wp_step. wp_step. wp_step; [done|].
  by apply opened_close_list.
Qed.

Lemma startXrayFullConfigs_from_opens prepare configs : forall instances m m1,
  harmless prepare -> opened (list_to_set instances) m m1 ->
  wp (startXrayFullConfigs_from instances configs prepare)
    (fun l m' => opened (list_to_set l) m m') (fun _ m' => opened ∅ m m') m1.
Proof.
  induction configs as [|config configs IH]; intros instances m m1 Hpre Ho; cbn [startXrayFullConfigs_from].
  - by wp_step.
  - wp_step. wp_step. eapply wp_mono; [apply startXrayInstance_opens; eauto with nunya | |].
    + intros i m2 Ho2. apply IH; [done|]. rewrite list_to_set_app_L. by eapply opened_trans.
    + intros e m2 Ho2. apply opened_close_list. by eapply opened_empty.
Qed.

Lemma startXrayFullConfigs_opens prepare configs m :
  harmless prepare -> pool_ok (m_objects m) -> opens m id (startXrayFullConfigs configs prepare).
Proof.
  intros Hpre Hp. apply startXrayFullConfigs_from_opens; [done|]. by apply opened_same.
Qed.

Definition fair : Prop := forall configs, schedule configs ≡ₚ seq 1 (length configs - 1).

Lemma startXrayFullGates_opens configs idle m :
  fair -> pool_ok (m_objects m) -> opens m id (startXrayFullGates configs idle).
Proof.
  intros Hs Hp. unfold opens, wp, startXrayFullGates.
  pose proof (Lifecycle.startXrayFullGates_effect (fun c => StartGate c idle) schedule configs
    (m_objects m) (Hs configs) Hp) as H.
  destruct (Lifecycle.startXrayFullGates _ _ _ _) as [[gs|e] p].
  - destruct H as (_ & _ & Hn & Hl & Hok). split_and!; cbn; try done. clear - Hn. set_solver.
  - destruct H as (Hl & Hok & _). split_and!; cbn; try done.
    rewrite Hl. apply leibniz_equiv. clear. set_solver.
Qed.

Lemma start_main_opens o prepare m :
  harmless prepare -> pool_ok (m_objects m) -> opens m stack_objects (start_main o prepare).
Proof.
  intros Hpre Hp. unfold opens, start_main. destruct (NeedXray o); [destruct (XrayLazyStart o)|].
  - unfold start_gate. wp_step. eapply wp_mono; [by apply lift_open_opens | | done]. intros g m' H. exact H.
  - wp_step. eapply wp_mono; [by apply startXrayInstance_opens | | done]. intros i m' H. exact H.
  - wp_step. by apply opened_same.
Qed.

Lemma startMainXray_opens o prepare m :
  fair -> harmless prepare -> pool_ok (m_objects m) -> opens m stack_objects (startMainXray o prepare).
Proof.
  intros Hs Hpre Hp. unfold opens, startMainXray. wp_step.
  eapply (wp_mono _ (fun s m' => opened (list_to_set (stack_objects s)) m m' /\
      fullGates s = [] /\ fullInstances s = []) _ (fun _ m' => opened ∅ m m')); [ | |done].
  { pose proof (start_main_opens o prepare m Hpre Hp) as H. revert H. unfold opens, wp.
    assert (forall s m', start_main o prepare m = (Returns s, m') -> fullGates s = [] /\ fullInstances s = []) as E.
    { intros s m' H. unfold start_main in H. destruct (NeedXray o); [destruct (XrayLazyStart o)|].
      1,2: apply bind_returns in H as (x & m1 & _ & H); by injection H as <- <-.
      by injection H as <- <-. }
    destruct (start_main o prepare m) as [[s|e|e] m']; [|done|done]. eauto. }
  intros s m1 (Ho & Eg & Ei). destruct (0 <? length (xrayFullConfigs o))%nat; [|by wp_step].
  wp_step. wp_step. eapply wp_mono; [apply startXrayFullGates_opens; eauto with nunya | |].
  - intros gates m2 Ho2. wp_step. unfold stack_objects in *; cbn. rewrite Eg, Ei in *; cbn in *.
    replace (list_to_set _) with (list_to_set (C := gset nat) (option_list (gate s) ++ option_list (instance s)) ∪
      list_to_set gates); [by eapply opened_trans|].
    apply leibniz_equiv. rewrite !list_to_set_app. clear. set_solver.
  - intros e m2 Ho2. apply opened_close_list. by eapply opened_empty.
Qed.
End Xray.

(** ** Instances and test environments *)

(** The fields of [TestRequest] that say what is tested, not how. *)
Record TestRequest := MkTestRequest {
  t_CoreConfig : string;
  t_XrayConfig : string;
  t_NeedXray : bool;
  t_XrayOutboundDNSStrategy : string;
  t_UseDefaultOutbound : bool;
  t_TestCurrent : bool;
  t_tags : list string;
  t_xrayFullConfigs : list string;
  t_TestDownload : bool;
  t_TestUpload : bool;
  t_SimpleDownload : bool;
  t_OnlyCountry : bool;
}.

(** [AddOutboundTag] and the method [AddXrayFullConfig] of a request. *)
Definition AddOutboundTag (tag : string) (r : TestRequest) : TestRequest :=
  MkTestRequest (t_CoreConfig r) (t_XrayConfig r) (t_NeedXray r) (t_XrayOutboundDNSStrategy r)
    (t_UseDefaultOutbound r) (t_TestCurrent r) (t_tags r ++ [tag]) (t_xrayFullConfigs r) (t_TestDownload r)
    (t_TestUpload r) (t_SimpleDownload r) (t_OnlyCountry r).
Definition request_AddXrayFullConfig (config : string) (r : TestRequest) : TestRequest :=
  MkTestRequest (t_CoreConfig r) (t_XrayConfig r) (t_NeedXray r) (t_XrayOutboundDNSStrategy r)
    (t_UseDefaultOutbound r) (t_TestCurrent r) (t_tags r) (t_xrayFullConfigs r ++ [config]) (t_TestDownload r)
    (t_TestUpload r) (t_SimpleDownload r) (t_OnlyCountry r).

(** [te_close]: the clean-ups, each the objects it closes. *)
Record testEnv := MkTestEnv { te_box : nat; te_tags : list string; te_close : list (list nat) }.

(** [unwind] runs the clean-ups in reverse order. *)
Definition unwind (cleanups : list (list nat)) (m : mob) : mob :=
  foldl (fun m l => close_objects l m) m (reverse cleanups).

(** In the order [Close] goes through them. *)
Definition inst_objects (i : Instance) : list nat :=
  [i_cancel i; i_box i; i_history i] ++ stack_objects (i_xray i).

Definition set_started (i : Instance) : Instance :=
  MkInstance (i_platform i) (i_box i) (i_cancel i) (i_xray i) (i_history i) true (i_closed i).
Definition set_closed (i : Instance) : Instance :=
  MkInstance (i_platform i) (i_box i) (i_cancel i) (i_xray i) (i_history i) (i_started i) true.

Definition errInstanceNotRunning : string := "instance is not running".

Section Core.
  #[local] Set Default Proof Using "Type".
  Context (xray_Create xray_Start : string -> result unit) (StartGate : string -> Z -> result unit).
  Context (schedule : list string -> list nat).
  (** The platform; sing-box decoding a config, [box.New], and a box's [Start] and
      [Close]; its outbounds. *)
  Context (UseAutoDetect : nat -> bool).
  Context (decode box_New : string -> result unit) (box_Start box_Close : nat -> result unit).
  Context (has_outbound : nat -> string -> bool) (default_tag : nat -> string).
  (** Whether the timer of [closeBoxWithTimeout] fires before a box has closed. *)
  Context (late : nat -> bool).

Definition parseConfig (config : string) : prog mob unit := cause "decode config" (lift_result (decode config)).

Definition new_box (config : string) : prog mob nat :=
  _ ← lift_result (box_New config); open_object.

(** The goroutine cancels and closes whoever waits for it; only a blocking caller, or
    one that was in time, learns how the close went. *)
Definition closeBoxWithTimeout (cancel box : nat) (block : bool) : prog mob unit :=
  _ ← modify (close_objects [cancel; box]);
  if late box && negb block then mret tt else lift_result (box_Close box).

Definition new_instance (i : Instance) : prog mob nat := fun m =>
  let k := fresh (dom (m_instances m)) in
  (Returns k, set_instances (<[k := i]> (m_instances m)) m).

Definition NewInstance (platform : option nat) (options : option StartOptions) : prog mob nat :=
  match platform, options with
  | None, _ => throw "nil platform interface"
  | Some _, None => throw "nil start options"
  | Some p, Some o =>
      _ ← modify (installProtector UseAutoDetect (Some p));
      holder ← new_holder;
      stack ← startMainXray xray_Create xray_Start StartGate schedule o
                (xrayPreparer (XrayOutboundDNSStrategy o) (Some holder));
      _ ← on_error (parseConfig (CoreConfig o)) (xrayStack_close (Some stack));
      ctx ← open_object;
      history ← open_object;
      box ← on_error (cause "create service" (new_box (CoreConfig o)))
              (fun m => xrayStack_close (Some stack) (close_objects [history] (close_objects [ctx] m)));
      _ ← modify (publish holder ctx);
      new_instance (MkInstance p box ctx stack history false false)
  end.

(** A call on an instance; a nil one would panic. *)
Definition with_instance {A} (k : nat) (f : Instance -> prog mob A) : prog mob A := fun m =>
  match m_instances m !! k with
  | Some i => f i m
  | None => (Panics "runtime error: invalid memory address or nil pointer dereference", m)
  end.

(** The critical section of [Close]: whether the caller is the one that closes. *)
Definition Close_check (k : nat) : prog mob bool := with_instance k (fun i m =>
  if i_closed i then (Returns false, m)
  else (Returns true, set_instances (<[k := set_closed i]> (m_instances m)) m)).

(** The rest of it; the box's error comes last. *)
Definition Close_rest (k : nat) : prog mob unit := with_instance k (fun i m =>
  let '(err, m) := closeBoxWithTimeout (i_cancel i) (i_box i) true m in
  let m := close_objects [i_history i] m in
  let m := xrayStack_close (Some (i_xray i)) m in
  (err, releaseProtector (i_platform i) m)).

Definition Close (k : nat) : prog mob unit :=
  ours ← Close_check k;
  if ours : bool then Close_rest k else mret tt.

(** The critical section of [Start]. *)
Definition Start_check (k : nat) : prog mob unit := with_instance k (fun i m =>
  if i_closed i then (Fails "instance closed", m)
  else if i_started i then (Fails "instance already started", m)
  else (Returns tt, set_instances (<[k := set_started i]> (m_instances m)) m)).

Definition Start (k : nat) : prog mob unit :=
  _ ← Start_check k;
  with_instance k (fun i =>
    on_error (cause "start service" (lift_result (box_Start (i_box i)))) (fun m => snd (Close k m))).

Definition running (k : nat) : prog mob bool :=
  with_instance k (fun i m => (Returns (i_started i && negb (i_closed i)), m)).

(** [Pause], [Wake], [UpdateWIFIState] and [ResetNetwork] reach the box of a running
    instance only. *)
Definition when_running (o : netop) (k : nat) : prog mob unit :=
  r ← running k;
  when r (with_instance k (fun i => modify (add_op (i_box i) o))).

Definition Pause : nat -> prog mob unit := when_running DevicePause.
Definition Wake : nat -> prog mob unit := when_running DeviceWake.
Definition UpdateWIFIState : nat -> prog mob unit := when_running OpUpdateWIFIState.
Definition ResetNetwork : nat -> prog mob unit := when_running OpResetNetwork.

Definition NeedWIFIState (need : nat -> bool) (k : nat) : prog mob bool :=
  r ← running k;
  if r : bool then with_instance k (fun i m => (Returns (need (i_box i)), m)) else mret false.

(** *** Test environments *)

(** Measuring the running instance: [current.running()] is asked of a nil-checked one. *)
Definition current_env (current : option nat) (r : TestRequest) : prog mob testEnv :=
  match current with
  | None => throw errInstanceNotRunning
  | Some k =>
      run ← running k;
      if run : bool then
        with_instance k (fun i m =>
          let box := i_box i in
          let '(tags, useDefault) :=
            if has_outbound box "proxy" then (["proxy"], t_UseDefaultOutbound r) else (t_tags r, true) in
          (Returns (MkTestEnv box (if useDefault then [default_tag box] else tags) []), m))
      else throw errInstanceNotRunning
  end.

Definition test_xray (r : TestRequest) (prepare : nat -> prog mob unit) : prog mob (list (list nat)) :=
  if t_NeedXray r then
    i ← startXrayInstance xray_Create xray_Start (t_XrayConfig r) prepare;
    mret [[i]]
  else mret [].

Definition prepareTestEnv (current : option nat) (testCurrent : bool) (platform : option nat)
    (r : TestRequest) : prog mob testEnv :=
  holder ← new_holder;
  if testCurrent then current_env current r
  else
    _ ← modify (installProtector UseAutoDetect platform);
    let prepare := xrayPreparer (t_XrayOutboundDNSStrategy r) (Some holder) in
    cleanups ← test_xray r prepare;
    full ← on_error (startXrayFullConfigs xray_Create xray_Start (t_xrayFullConfigs r) prepare)
             (unwind cleanups);
    let cleanups := cleanups ++ [full] in
    _ ← on_error (parseConfig (t_CoreConfig r)) (unwind cleanups);
    ctx ← open_object;
    box ← on_error (cause "create service" (new_box (t_CoreConfig r)))
            (fun m => unwind cleanups (close_objects [ctx] m));
    _ ← modify (publish holder ctx);
    let cleanups := cleanups ++ [[ctx; box]] in
    _ ← on_error (cause "start service" (lift_result (box_Start box))) (unwind cleanups);
    mret (MkTestEnv box (if t_UseDefaultOutbound r then [default_tag box] else t_tags r) cleanups).

(** ** What the calls open and close *)

Lemma unwind_objects cleanups m :
  unwind cleanups m = close_objects (mjoin (reverse cleanups)) m.
Proof.
  unfold unwind. generalize (reverse cleanups). intros l. revert m.
  induction l as [|x l IH]; intros m; cbn; [by destruct m|].
  rewrite IH. unfold close_objects, release_all; cbn. by rewrite foldl_app.
Qed.

Lemma opened_unwind m m' cleanups :
  opened (list_to_set (mjoin cleanups)) m m' -> opened ∅ m (unwind cleanups m').
Proof.
  intros H. rewrite unwind_objects. eapply opened_close; [exact H|]. intros x.
  rewrite elem_of_list_to_set, !list_elem_of_join. clear.
  split; intros (l & Hx & Hl); exists l; (split; [done|]); by apply elem_of_reverse.
Qed.

(** [m'] has the live objects and the instances of [m]. *)
Definition frame (m m' : mob) : Prop :=
  p_live (m_objects m') = p_live (m_objects m) /\ pool_ok (m_objects m') /\ m_instances m' = m_instances m.

(** Like [opened_list], by a call that may have installed a protector before. *)
Definition opened_by (l : list nat) (m m' : mob) : Prop := exists m1, frame m m1 /\ opened_list l m1 m'.

Lemma frame_opened m m1 m' : frame m m1 -> opened ∅ m1 m' -> frame m m'.
Proof.
  intros (L & O & I) H. pose proof (opened_none_live _ _ H) as L'. destruct H as (_ & _ & O' & I' & _).
  split_and!; [congruence | done | congruence].
Qed.

Lemma parseConfig_wp config (Q : unit -> mob -> Prop) F m :
  Q tt m -> (forall e, F e m) -> wp (parseConfig config) Q F m.
Proof. intros HQ HF. unfold parseConfig. wp_step. wp_step; [by destruct a | apply HF]. Qed.

Lemma new_box_wp config (Q : nat -> mob -> Prop) F m :
  pool_ok (m_objects m) -> (forall b m', opened_list [b] m m' -> Q b m') -> (forall e, F e m) ->
  wp (new_box config) Q F m.
Proof.
  intros Hp HQ HF. unfold new_box. wp_step. wp_step; [by apply open_object_wp | apply HF].
Qed.

Lemma NewInstance_opens p o m :
  fair schedule -> pool_ok (m_objects m) ->
  wp (NewInstance (Some p) (Some o))
    (fun k m' => exists i m1, opened_by (inst_objects i) m m1 /\
       m_instances m !! k = None /\ m' = set_instances (<[k := i]> (m_instances m)) m1 /\
       i_closed i = false /\ i_platform i = p /\
       m_protector m' = m_protector (installProtector UseAutoDetect (Some p) m))
    (fun _ m' => frame m m' /\ m_protector m' = m_protector (installProtector UseAutoDetect (Some p) m)) m.
Proof.
  intros Hs Hp. cbn [NewInstance]. wp_step. wp_step. wp_step. eapply wp_returns; [reflexivity|].
  set (h := fresh _). set (m0 := set_holders _ _).
  assert (frame m m0) as Hf by done.
  assert (forall l m', opened_list l m0 m' -> frame m (close_objects l m') /\
    m_protector (close_objects l m') = m_protector (installProtector UseAutoDetect (Some p) m)) as Hfail.
  { intros l m' H%opened_close_list. split; [by eapply frame_opened | by destruct H as (_ & _ & _ & _ & ->)]. }
  wp_step. eapply wp_mono; [by apply startMainXray_opens; [|apply xrayPreparer_harmless|] | |].
  2: { intros e m' H. apply (Hfail [] m') in H. by destruct m'. }
  intros stack m1 Ho1. change (opened_list (stack_objects stack) m0 m1) in Ho1. wp_step. wp_step. apply parseConfig_wp; [|intros e; by apply Hfail].
  wp_step. apply open_object_wp; [eauto with nunya|]. intros ctx m2 Ho2.
  wp_step. apply open_object_wp; [eauto with nunya|]. intros hist m3 Ho3.
  wp_step. wp_step. wp_step. apply new_box_wp; [eauto with nunya | |].
  - intros box m4 Ho4. wp_step. wp_step.
    pose proof (opened_app _ _ _ _ _ (opened_app _ _ _ _ _ (opened_app _ _ _ _ _ Ho1 Ho2) Ho3) Ho4) as Ho.
    eapply wp_returns; [reflexivity|].
    destruct Hf as (_ & _ & Hf). pose proof Ho as (_ & _ & _ & Hi & Hpr).
    change (m_instances (publish h ctx m4)) with (m_instances m4). rewrite Hi, Hf.
    exists (MkInstance p box ctx stack hist false false), (publish h ctx m4). split_and!; try done.
    + exists m0. split; [done|].
      refine (opened_fields _ _ m4 _ eq_refl eq_refl eq_refl _).
      eapply opened_perm; [|exact Ho]. unfold inst_objects; cbn. clear. solve_Permutation.
    + apply not_elem_of_dom, is_fresh.
  - intros e.
    pose proof (opened_app _ _ _ _ _ (opened_app _ _ _ _ _ Ho1 Ho2) Ho3) as Ho.
    cbn [xrayStack_close]. rewrite !close_objects_app. apply Hfail.
    eapply opened_perm; [|exact Ho]. clear. solve_Permutation.
Qed.

Lemma startXrayFullConfigs_wp configs prepare m :
  harmless prepare -> pool_ok (m_objects m) ->
  wp (startXrayFullConfigs xray_Create xray_Start configs prepare)
    (fun l m' => opened_list l m m') (fun _ m' => opened_list [] m m') m.
Proof. apply startXrayFullConfigs_opens. Qed.

Lemma test_xray_wp r prepare m :
  harmless prepare -> pool_ok (m_objects m) ->
  wp (test_xray r prepare) (fun cl m' => opened_list (mjoin cl) m m') (fun _ m' => opened_list [] m m') m.
Proof.
  intros Hpre Hp. unfold test_xray. destruct (t_NeedXray r); [|by wp_step; apply opened_same].
  wp_step. eapply wp_mono; [by apply startXrayInstance_opens | | done]. intros i m' H. exact H.
Qed.

Lemma current_env_wp current r m : pool_ok (m_objects m) ->
  match current_env current r m with
  | (Returns env, m') => m' = m /\ te_close env = [] /\
      exists k i, current = Some k /\ m_instances m !! k = Some i /\ te_box env = i_box i /\
        i_started i = true /\ i_closed i = false
  | (Fails _, m') => m' = m
  | (Panics _, m') => exists k, current = Some k /\ m_instances m !! k = None
  end.
Proof.
  intros Hp. unfold current_env. destruct current as [k|]; [|done].
  unfold running, with_instance, mbind, prog_bind. destruct (m_instances m !! k) as [i|] eqn:E; [|by exists k].
  destruct (i_started i) eqn:Es, (i_closed i) eqn:Ec; cbn; try done. rewrite E.
  destruct (if has_outbound (i_box i) "proxy" then _ else _) as [tags useDefault]. cbn. eauto 10.
Qed.

(** The environment of a test of its own. *)
Lemma own_env_opens platform r m :
  pool_ok (m_objects m) ->
  wp (prepareTestEnv None false platform r)
    (fun env m' => opened_by (mjoin (te_close env)) m m' /\ te_box env ∈ mjoin (te_close env))
    (fun _ m' => frame m m') m.
Proof.
  intros Hp. unfold prepareTestEnv. wp_step. eapply wp_returns; [reflexivity|].
  set (h := fresh _). wp_step. wp_step. set (m0 := installProtector _ _ _).
  assert (frame m m0) as Hf by (by destruct platform).
  assert (forall m', opened_list [] m0 m' -> frame m m') as Hnone by (intros m' H; by eapply frame_opened).
  assert (forall cl m', opened_list (mjoin cl) m0 m' -> frame m (unwind cl m')) as Hfail.
  { intros cl m' H%opened_unwind. by eapply frame_opened. }
  wp_step. eapply wp_mono; [apply test_xray_wp; [apply xrayPreparer_harmless | apply Hf] | |by intros e m' ?%Hnone].
  intros cl m1 Ho1. cbv beta in Ho1. wp_step. wp_step.
  eapply wp_mono; [apply startXrayFullConfigs_wp; [apply xrayPreparer_harmless | eauto with nunya] | |].
  2: { intros e m2 Ho2. cbv beta in Ho2. apply Hfail. pose proof (opened_app _ _ _ _ _ Ho1 Ho2) as Ho.
       by rewrite app_nil_r in Ho. }
  intros full m2 Ho2. cbv beta in Ho2. pose proof (opened_app _ _ _ _ _ Ho1 Ho2) as Ho.
  assert (mjoin (cl ++ [full]) = mjoin cl ++ full) as Hcl by (by rewrite join_app; cbn; rewrite app_nil_r).
  rewrite <- Hcl in Ho. wp_step. wp_step. apply parseConfig_wp; [|intros e; by apply Hfail].
  wp_step. apply open_object_wp; [eauto with nunya|]. intros ctx m3 Ho3.
  pose proof (opened_app _ _ _ _ _ Ho Ho3) as Hoc.
  wp_step. wp_step. wp_step. apply new_box_wp; [eauto with nunya | |].
  - intros box m4 Ho4. wp_step. wp_step.
    pose proof (opened_app _ _ _ _ _ Hoc Ho4) as Hob.
    assert (opened_list (mjoin ((cl ++ [full]) ++ [[ctx; box]])) m0 (publish h ctx m4)) as Hall.
    { refine (opened_fields _ _ m4 _ eq_refl eq_refl eq_refl _).
      rewrite join_app. eapply opened_perm; [|exact Hob]. cbn. by rewrite <- app_assoc. }
    wp_step. wp_step. wp_step. wp_step.
    + wp_step. cbn [te_close te_box]. split; [by exists m0|]. rewrite join_app. clear. set_solver.
    + by apply Hfail.
  - intros e. rewrite unwind_objects, close_objects_app.
    eapply frame_opened; [exact Hf|]. eapply opened_close; [exact Hoc|].
    intros x. rewrite elem_of_list_to_set, !elem_of_app, !list_elem_of_join. clear. split.
    + intros [(l & Hx & Hl)|Hx]; [right; exists l | by left]. split; [done|]. by apply elem_of_reverse.
    + intros [Hx|(l & Hx & Hl)]; [by right | left; exists l]. split; [done|]. by apply elem_of_reverse.
Qed.

Lemma prepareTestEnv_opens current tc platform r m :
  pool_ok (m_objects m) ->
  match prepareTestEnv current tc platform r m with
  | (Returns env, m') => opened_by (mjoin (te_close env)) m m'
  | (Fails _, m') => frame m m'
  | (Panics _, _) => True
  end.
Proof.
  intros Hp. destruct tc.
  - unfold prepareTestEnv, mbind, prog_bind, new_holder. set (m0 := set_holders _ m).
    pose proof (current_env_wp current r m0 Hp) as H.
    destruct (current_env current r m0) as [[env|e|e] m']; [|by subst|done].
    destruct H as (-> & -> & _). exists m0. split; [done|]. by apply opened_same.
  - pose proof (own_env_opens platform r m Hp) as H. unfold wp in H.
    change (prepareTestEnv current false platform r m) with (prepareTestEnv None false platform r m).
    destruct (prepareTestEnv None false platform r m) as [[env|e|e] m']; [apply H | done | done].
Qed.

(** ** Calls that interleave *)

(** Who is answerable for what is open: an instance nobody has closed yet, the call of
    [Close] that found it open, a test under way. *)
Inductive owner :=
| Holder (k : nat) (objects : list nat)
| Closer (k : nat) (objects : list nat)
| Tester (cleanups : list (list nat)).

Definition held (o : owner) : list nat :=
  elements (C := gset nat) match o with
  | Holder _ l | Closer _ l => list_to_set l
  | Tester cl => list_to_set (mjoin cl)
  end.

(** [w_starting]: calls of [Start] between the critical section and the end. *)
Record world := World { w_mob : mob; w_owners : list owner; w_starting : list nat }.

Definition hand_over (k : nat) (o : owner) : owner :=
  match o with
  | Holder k' l => if decide (k = k') then Closer k' l else o
  | _ => o
  end.

Inductive mobile_step : world -> world -> Prop :=
| step_new p o m k m' i os st :
    NewInstance p o m = (Returns k, m') -> m_instances m' !! k = Some i ->
    mobile_step (World m os st) (World m' (Holder k (inst_objects i) :: os) st)
| step_new_fails p o m e m' os st :
    NewInstance p o m = (Fails e, m') -> mobile_step (World m os st) (World m' os st)
| step_start k m m' os st :
    Start_check k m = (Returns tt, m') -> mobile_step (World m os st) (World m' os (k :: st))
| step_started k m i os st1 st2 :
    m_instances m !! k = Some i -> box_Start (i_box i) = Ok tt ->
    mobile_step (World m os (st1 ++ k :: st2)) (World m os (st1 ++ st2))
| step_start_fails k m i e (ours : bool) m' os st1 st2 :
    m_instances m !! k = Some i -> box_Start (i_box i) = Err e ->
    Close_check k m = (Returns ours, m') ->
    mobile_step (World m os (st1 ++ k :: st2))
      (World m' (if ours then hand_over k <$> os else os) (st1 ++ st2))
| step_close k (ours : bool) m m' os st :
    Close_check k m = (Returns ours, m') ->
    mobile_step (World m os st) (World m' (if ours then hand_over k <$> os else os) st)
| step_close_rest k l m os1 os2 st :
    mobile_step (World m (os1 ++ Closer k l :: os2) st) (World (snd (Close_rest k m)) (os1 ++ os2) st)
| step_test current tc p r m env m' os st :
    prepareTestEnv current tc p r m = (Returns env, m') ->
    mobile_step (World m os st) (World m' (Tester (te_close env) :: os) st)
| step_test_fails current tc p r m e m' os st :
    prepareTestEnv current tc p r m = (Fails e, m') -> mobile_step (World m os st) (World m' os st)
| step_test_ends cl m os1 os2 st :
    mobile_step (World m (os1 ++ Tester cl :: os2) st) (World (unwind cl m) (os1 ++ os2) st)
| step_op o k m m' os st :
    when_running o k m = (Returns tt, m') -> mobile_step (World m os st) (World m' os st).

Definition open_instance (m : mob) (k : nat) : Prop :=
  exists i, m_instances m !! k = Some i /\ i_closed i = false.

Definition of_instance (o : owner) : option (nat * list nat) :=
  match o with Holder k l | Closer k l => Some (k, l) | Tester _ => None end.

Record owned (m : mob) (os : list owner) : Prop := Owned {
  owned_pool : pool_ok (m_objects m);
  owned_live : elements (p_live (m_objects m)) ≡ₚ os ≫= held;
  owned_open : forall k, (exists l, Holder k l ∈ os) <-> open_instance m k;
  owned_objects : forall o k l, o ∈ os -> of_instance o = Some (k, l) ->
    exists i, m_instances m !! k = Some i /\ inst_objects i = l;
}.

Lemma owned_frame m m' os : frame m m' -> owned m os -> owned m' os.
Proof.
  intros (L & O & I) [H1 H2 H3 H4]. split; [done|by rewrite L| |].
  - intros k. rewrite H3. unfold open_instance. by rewrite I.
  - rewrite I. exact H4.
Qed.

(** Opening: one more owner holds exactly what was opened. *)
Lemma owned_more m m' l os o :
  opened_by l m m' -> held o = elements (C := gset nat) (list_to_set l) ->
  owned m os -> elements (p_live (m_objects m')) ≡ₚ (o :: os) ≫= held /\ pool_ok (m_objects m').
Proof.
  intros (m1 & (L & O & I) & (L1 & D1 & O1 & I1 & _)) Ho [H1 H2 _ _]. split; [|done].
  rewrite L1, elements_disj_union by (symmetry; exact D1). rewrite L, H2.
  cbn. rewrite Ho. apply Permutation_app_comm.
Qed.

(** Closing: what one owner holds goes, what the others hold stays. *)
Lemma live_less m l rest :
  elements (p_live (m_objects m)) ≡ₚ elements (C := gset nat) (list_to_set l) ++ rest ->
  elements (p_live (m_objects (close_objects l m))) ≡ₚ rest.
Proof.
  intros H. cbn. rewrite p_live_release_all.
  assert (NoDup (elements (C := gset nat) (list_to_set l) ++ rest)) as Hnd
    by (rewrite <- H; apply NoDup_elements).
  apply NoDup_app in Hnd as (_ & Hdis & Hr).
  apply NoDup_Permutation; [apply NoDup_elements | done |]. intros x.
  assert (x ∈ p_live (m_objects m) <-> x ∈ (list_to_set l : gset nat) \/ x ∈ rest) as E.
  { rewrite <- elem_of_elements, H, elem_of_app, elem_of_elements. done. }
  rewrite elem_of_elements, elem_of_difference, E.
  specialize (Hdis x). rewrite elem_of_elements in Hdis. clear - Hdis. tauto.
Qed.

Lemma held_middle os1 os2 o : (os1 ++ o :: os2) ≫= held ≡ₚ held o ++ (os1 ++ os2) ≫= held.
Proof. rewrite !bind_app. cbn. solve_Permutation. Qed.

Lemma hand_over_held k (os : list owner) : (hand_over k <$> os) ≫= held = os ≫= held.
Proof.
  induction os as [|o os IH]; [done|]. cbn. rewrite IH. f_equal.
  destruct o; cbn; [|done|done]. by destruct (decide (k = k0)).
Qed.

Lemma hand_over_holder k k' l (os : list owner) :
  Holder k' l ∈ hand_over k <$> os <-> k <> k' /\ Holder k' l ∈ os.
Proof.
  rewrite list_elem_of_fmap. split.
  - intros ([k1 l1|k1 l1|cl] & E & Ho); cbn in E; try done.
    destruct (decide (k = k1)); [done|]. by simplify_eq.
  - intros [Hk Ho]. exists (Holder k' l). cbn. by rewrite decide_False.
Qed.

Lemma hand_over_of_instance k o : of_instance (hand_over k o) = of_instance o.
Proof. destruct o; cbn; [|done|done]. by destruct (decide (k = k0)). Qed.

Lemma owned_new p o m k m' i os :
  fair schedule -> NewInstance p o m = (Returns k, m') -> m_instances m' !! k = Some i ->
  owned m os -> owned m' (Holder k (inst_objects i) :: os).
Proof.
  intros Hs Hnew Hi Hown. destruct p as [p|]; [destruct o as [o|]|]; [|done|done].
  pose proof (NewInstance_opens p o m Hs (owned_pool _ _ Hown)) as H. unfold wp in H. rewrite Hnew in H.
  destruct H as (j & m1 & Hop & Hk & -> & Hc & _). cbn in Hi. rewrite lookup_insert_eq in Hi. simplify_eq.
  destruct (owned_more m m1 _ os (Holder k (inst_objects i)) Hop eq_refl Hown) as [E Hok].
  destruct Hown as [_ _ H3 H4]. split; cbn; [done|exact E| |].
  - intros k'. unfold open_instance in *; cbn. destruct (decide (k = k')) as [<-|Hne].
    + rewrite lookup_insert_eq. split; [by eauto|]. intros _. exists (inst_objects i). by left.
    + rewrite lookup_insert_ne by done. rewrite <- H3. split; intros [l Hl]; exists l.
      * apply elem_of_cons in Hl as [?|?]; [by simplify_eq | done].
      * by right.
  - intros o' k' l [->|Ho]%elem_of_cons Hof.
    + cbn in Hof. simplify_eq. exists i. by rewrite lookup_insert_eq.
    + destruct (H4 o' k' l Ho Hof) as (i' & Hi' & El). exists i'. split; [|done].
      rewrite lookup_insert_ne; [done|]. congruence.
Qed.

(** Marking an instance keeps its objects. *)
Lemma owned_start k m m' os : Start_check k m = (Returns tt, m') -> owned m os -> owned m' os.
Proof.
  unfold Start_check, with_instance. intros Hst [H1 H2 H3 H4].
  destruct (m_instances m !! k) as [i|] eqn:E; [|done].
  destruct (i_closed i) eqn:Ec; [done|]. destruct (i_started i); [done|]. injection Hst as <-.
  split; cbn; [done|done| |].
  - intros k'. rewrite H3. unfold open_instance; cbn. destruct (decide (k = k')) as [<-|Hne].
    + rewrite lookup_insert_eq, E. split; intros (j & Hj & Hcj); simplify_eq; eauto.
    + by rewrite lookup_insert_ne.
  - intros o k' l Ho Hof. destruct (H4 o k' l Ho Hof) as (j & Hj & El).
    destruct (decide (k = k')) as [<-|Hne].
    + rewrite lookup_insert_eq. simplify_eq. by eexists.
    + rewrite lookup_insert_ne by done. eauto.
Qed.

Lemma owned_close k ours m m' os :
  Close_check k m = (Returns ours, m') -> owned m os ->
  owned m' (if ours : bool then hand_over k <$> os else os).
Proof.
  unfold Close_check, with_instance. intros Hst Hown.
  destruct (m_instances m !! k) as [i|] eqn:E; [|done].
  destruct (i_closed i) eqn:Ec; injection Hst as <- <-; [done|].
  destruct Hown as [H1 H2 H3 H4]. split; cbn; [done|by rewrite hand_over_held| |].
  - intros k'. unfold open_instance in *; cbn. setoid_rewrite hand_over_holder.
    destruct (decide (k = k')) as [<-|Hne].
    + rewrite lookup_insert_eq. split; [by intros (? & ? & _)|]. intros (j & Hj & ?). by simplify_eq.
    + rewrite lookup_insert_ne by done. rewrite <- H3. clear - Hne. naive_solver.
  - intros o k' l (o' & -> & Ho)%list_elem_of_fmap Hof. rewrite hand_over_of_instance in Hof.
    destruct (H4 o' k' l Ho Hof) as (j & Hj & El).
    destruct (decide (k = k')) as [<-|Hne].
    + rewrite lookup_insert_eq. simplify_eq. by eexists.
    + rewrite lookup_insert_ne by done. eauto.
Qed.

Lemma releaseProtector_frame p m : pool_ok (m_objects m) -> frame m (releaseProtector p m).
Proof.
  intros Hp. unfold releaseProtector, release_swap. destruct (release_load p m); [|done]. by case_decide.
Qed.

(** [Close_rest] closes the objects of the instance, and the protector of its platform. *)
Lemma Close_rest_effect k m i :
  m_instances m !! k = Some i ->
  Close_rest k m =
    (fst (closeBoxWithTimeout (i_cancel i) (i_box i) true m),
     releaseProtector (i_platform i) (close_objects (inst_objects i) m)).
Proof.
  intros Hi. unfold Close_rest, with_instance. rewrite Hi.
  unfold closeBoxWithTimeout, mbind, prog_bind, modify, lift_result.
  rewrite andb_false_r. destruct (box_Close (i_box i)); cbn [xrayStack_close fst];
    by rewrite !close_objects_app.
Qed.

Lemma owned_less m os1 os2 o l :
  held o = elements (C := gset nat) (list_to_set l) -> of_instance o = None \/ (exists k, o = Closer k l) ->
  owned m (os1 ++ o :: os2) -> owned (close_objects l m) (os1 ++ os2).
Proof.
  intros Ho Hcl [H1 H2 H3 H4]. split.
  - cbn. by apply pool_ok_release_all.
  - apply live_less. by rewrite H2, held_middle, Ho.
  - intros k. change (open_instance (close_objects l m) k) with (open_instance m k). rewrite <- H3.
    split; intros [l' Hl]; exists l'; rewrite elem_of_app, ?elem_of_cons in *.
    + destruct Hl; auto.
    + destruct Hl as [?|[<-|?]]; auto. by destruct Hcl as [|[? ?]].
  - intros o' k l' Ho'. apply H4. rewrite elem_of_app, elem_of_cons in *. destruct Ho'; auto.
Qed.

Lemma owned_close_rest k l m os1 os2 :
  owned m (os1 ++ Closer k l :: os2) -> owned (snd (Close_rest k m)) (os1 ++ os2).
Proof.
  intros Hown. destruct (owned_objects _ _ Hown (Closer k l) k l) as (i & Hi & <-);
    [by apply elem_of_app; right; left | done |].
  rewrite (Close_rest_effect k m i Hi). cbn [snd].
  assert (owned (close_objects (inst_objects i) m) (os1 ++ os2)) as H
    by (eapply (owned_less _ _ _ (Closer k (inst_objects i))); [done | right; by exists k | done]).
  eapply owned_frame; [|exact H]. apply releaseProtector_frame, H.
Qed.

Lemma owned_test current tc p r m env m' os :
  prepareTestEnv current tc p r m = (Returns env, m') -> owned m os ->
  owned m' (Tester (te_close env) :: os).
Proof.
  intros Hpr Hown. pose proof (prepareTestEnv_opens current tc p r m (owned_pool _ _ Hown)) as H.
  rewrite Hpr in H.
  destruct (owned_more m m' _ os (Tester (te_close env)) H eq_refl Hown) as [E Hok].
  assert (m_instances m' = m_instances m) as Hi
    by (destruct H as (m1 & (_ & _ & ?) & (_ & _ & _ & ? & _)); congruence).
  destruct Hown as [_ _ H3 H4]. split; [done|exact E| |].
  - intros k. unfold open_instance in *. rewrite Hi, <- H3. split; intros [l Hl]; exists l.
    + apply elem_of_cons in Hl as [?|?]; done.
    + by right.
  - rewrite Hi. intros o k l [->|Ho]%elem_of_cons Hof; [done|eauto].
Qed.

Lemma owned_test_ends m cl os1 os2 :
  owned m (os1 ++ Tester cl :: os2) -> owned (unwind cl m) (os1 ++ os2).
Proof.
  intros Hown. rewrite unwind_objects. apply (owned_less _ _ _ (Tester cl)); [|by left|exact Hown].
  unfold held. apply (f_equal (fun X : gset nat => elements X)), leibniz_equiv. intros x.
  rewrite !elem_of_list_to_set, !list_elem_of_join. clear.
  split; intros (l & Hx & Hl); exists l; (split; [done|]); by apply elem_of_reverse.
Qed.

Lemma owned_fails p o m e m' os :
  fair schedule -> NewInstance p o m = (Fails e, m') -> owned m os -> owned m' os.
Proof.
  intros Hs Hnew Hown. destruct p as [p|]; [destruct o as [o|]|];
    [|cbn in Hnew; unfold throw in Hnew; by simplify_eq..].
  pose proof (NewInstance_opens p o m Hs (owned_pool _ _ Hown)) as H. unfold wp in H.
  rewrite Hnew in H. destruct H as [H _]. by eapply owned_frame.
Qed.

Lemma owned_step w w' :
  fair schedule -> owned (w_mob w) (w_owners w) -> mobile_step w w' -> owned (w_mob w') (w_owners w').
Proof.
  intros Hs Hown Hst. revert Hown. destruct Hst; cbn; intros Hown.
  - by eapply owned_new.
  - by eapply owned_fails.
  - by eapply owned_start.
  - done.
  - by eapply owned_close.
  - by eapply owned_close.
  - by eapply owned_close_rest.
  - by eapply owned_test.
  - pose proof (prepareTestEnv_opens current tc p r m (owned_pool _ _ Hown)) as Hf. rewrite H in Hf.
    by eapply owned_frame.
  - by apply owned_test_ends.
  - eapply owned_frame; [|exact Hown]. revert H. unfold when_running, running, with_instance, mbind, prog_bind.
    destruct (m_instances m !! k) as [i|]; [|done].
    destruct Hown as [Hp _ _ _].
    destruct (i_started i && negb (i_closed i)); cbn; [|by intros [= <-]].
    destruct (m_instances m !! k); [|done]. by intros [= <-].
Qed.


(** ** One call at a time *)

Lemma Close_first k m i :
  m_instances m !! k = Some i -> i_closed i = false ->
  fst (Close k m) = match box_Close (i_box i) with Ok _ => Returns tt | Err e => Fails e end /\
  m_objects (snd (Close k m)) = release_all (inst_objects i) (m_objects m) /\
  m_instances (snd (Close k m)) !! k = Some (set_closed i).
Proof.
  intros Hi Ec. unfold Close, Close_check, with_instance, mbind at 1 2 3, prog_bind. rewrite Hi, Ec.
  set (m1 := set_instances _ m).
  assert (m_instances m1 !! k = Some (set_closed i)) as Hi1 by apply lookup_insert_eq.
  rewrite (Close_rest_effect k m1 _ Hi1). cbn [fst snd].
  assert (forall p m2, m_objects (releaseProtector p m2) = m_objects m2 /\
            m_instances (releaseProtector p m2) = m_instances m2) as Hr.
  { intros p m2. unfold releaseProtector, release_swap. destruct (release_load p m2); [|done]. by case_decide. }
  destruct (Hr (i_platform (set_closed i)) (close_objects (inst_objects (set_closed i)) m1)) as [-> ->].
  split_and!; [|done|done].
  unfold closeBoxWithTimeout, mbind, prog_bind, modify, lift_result. rewrite andb_false_r; cbn.
  by destruct (box_Close (i_box i)) as [[]|].
Qed.

(** [Start] and [Close] one after the other: [Start] of an open instance starts its box
    once, a second one is refused and so is one after [Close]; when the box fails to start
    everything the instance holds is closed; the first [Close] closes exactly what the
    instance holds and reports the box's error, every later one does nothing. *)
Theorem Start_Close_once k m i :
  m_instances m !! k = Some i ->
  match Start k m with
  | (Returns _, m') =>
      i_closed i = false /\ i_started i = false /\ box_Start (i_box i) = Ok tt /\
      m' = set_instances (<[k := set_started i]> (m_instances m)) m
  | (Fails e, m') =>
      (i_closed i = true /\ e = "instance closed" /\ m' = m) \/
      (i_closed i = false /\ i_started i = true /\ e = "instance already started" /\ m' = m) \/
      (i_closed i = false /\ i_started i = false /\
       box_Start (i_box i) <> Ok tt /\
       m_instances m' !! k = Some (set_closed (set_started i)) /\
       m_objects m' = release_all (inst_objects i) (m_objects m))
  | (Panics _, _) => False
  end /\
  (i_closed i = true -> Close k m = (Returns tt, m)) /\
  (i_closed i = false ->
    let m' := snd (Close k m) in
    fst (Close k m) = match box_Close (i_box i) with Ok _ => Returns tt | Err e => Fails e end /\
    m_objects m' = release_all (inst_objects i) (m_objects m) /\
    m_instances m' !! k = Some (set_closed i) /\ Close k m' = (Returns tt, m')).
Proof.
  intros Hi. split_and!.
  - unfold Start, Start_check, with_instance, mbind, prog_bind. rewrite Hi.
    destruct (i_closed i) eqn:Ec; [by left|]. destruct (i_started i) eqn:Es; [by right; left|].
    cbn. rewrite lookup_insert_eq.
    unfold on_error, cause, lift_result; cbn. destruct (box_Start (i_box i)) as [[]|e] eqn:Eb; [done|].
    right; right. set (m1 := set_instances _ m).
    assert (m_instances m1 !! k = Some (set_started i)) as Hi1 by (cbn; apply lookup_insert_eq).
    destruct (Close_first k m1 (set_started i) Hi1 Ec) as (_ & Ho & Hc). done.
  - intros Ec. unfold Close, Close_check, with_instance, mbind, prog_bind. by rewrite Hi, Ec.
  - intros Ec. destruct (Close_first k m i Hi Ec) as (Hf & Ho & Hc). split_and!; [done..|].
    unfold Close at 1, Close_check, with_instance, mbind, prog_bind. by rewrite Hc.
Qed.

(** ** The protector *)

(** the protector follows the latest instance only: a failed [NewInstance] leaves its
    platform's protector installed, and with two instances of one platform open, closing
    either removes the protector although the other is still open, whose Xray sockets are
    then dialled unprotected. *)
Theorem protector_of_other_instance AutoDetectInterfaceControl k k' m i i' s :
  m_instances m !! k = Some i -> i_closed i = false ->
  m_instances m !! k' = Some i' -> i_closed i' = false -> k <> k' ->
  i_platform i = i_platform i' -> m_protector m = Some s -> platform s = i_platform i' ->
  let m' := snd (Close k m) in
  open_instance m' k' /\ m_protector m' = None /\
  (forall conn, protectDial AutoDetectInterfaceControl conn m' = None).
Proof.
  intros Hi Hc Hi' Hc' Hne Hp Hs Hps. cbn zeta.
  unfold Close, Close_check, with_instance, mbind, prog_bind. rewrite Hi, Hc.
  set (m1 := set_instances _ m).
  assert (m_instances m1 !! k = Some (set_closed i)) as Hi1 by apply lookup_insert_eq.
  rewrite (Close_rest_effect k m1 _ Hi1). cbn [fst snd].
  set (m2 := close_objects _ m1).
  assert (m_protector (releaseProtector (i_platform (set_closed i)) m2) = None) as Hnone.
  { rewrite releaseProtector_spec. cbn. rewrite Hs. rewrite decide_True; [done|congruence]. }
  split_and!; [|exact Hnone|intros conn; unfold protectDial; by rewrite Hnone].
  exists i'. split; [|done]. unfold releaseProtector, release_swap.
  destruct (release_load _ m2); [case_decide|]; cbn; by rewrite lookup_insert_ne.
Qed.

Lemma failed_NewInstance_keeps_protector p o m e m' :
  fair schedule -> pool_ok (m_objects m) ->
  NewInstance (Some p) (Some o) m = (Fails e, m') ->
  exists s, m_protector m' = Some s /\ platform s = p /\ enabled s = UseAutoDetect p.
Proof.
  intros Hs Hp E. pose proof (NewInstance_opens p o m Hs Hp) as H. unfold wp in H. rewrite E in H.
  destruct H as [_ H]. rewrite H. cbn. by eexists.
Qed.
End Core.

(** ** A concrete run *)

Abbreviation all_ok := (fun _ : string => Ok tt).
Abbreviation in_order := (fun l : list string => seq 1 (length l - 1)).
Abbreviation nothing_yet := (Mob (MkPool ∅ 0) None false ∅ ∅ ∅ []).
Abbreviation lazy_options := (MkStartOptions "{}" true "{}" "UseIP" true 60 60 ["a"; "b"]).
Abbreviation no_error := (fun _ : nat => Ok tt).
Abbreviation new_lazy := (NewInstance all_ok all_ok (fun _ _ => Ok tt) in_order (fun _ => true) all_ok all_ok
  (Some 1%nat) (Some lazy_options)).
Abbreviation one_open := (snd (new_lazy nothing_yet)).
Abbreviation two_open := (snd (new_lazy one_open)).

Lemma in_order_fair : fair in_order.
Proof. by intros configs. Qed.


Lemma Start_Close_once_witness :
  m_instances one_open !! 0%nat = Some (MkInstance 1 5 3 (XrayStack None (Some 0%nat) [1%nat; 2%nat] []) 4 false false) /\
  fst (Close no_error (fun _ => false) 0 one_open) = Returns tt.
Proof.
  split; [vm_compute; reflexivity|].
  refine (proj1 (proj2 (proj2 (Start_Close_once no_error no_error (fun _ => false) 0 one_open
    (MkInstance 1 5 3 (XrayStack None (Some 0%nat) [1%nat; 2%nat] []) 4 false false) _)) eq_refl)).
  vm_compute; reflexivity.
Defined.

Lemma protector_of_other_instance_witness :
  m_protector two_open <> None /\
  protectDial (fun _ _ => None) (Ok 7%Z) (snd (Close no_error (fun _ => false) 0 two_open)) = None.
Proof.
  split; [vm_compute; discriminate|].
  refine (proj2 (proj2 (protector_of_other_instance no_error (fun _ => false) (fun _ _ => None) 0 1 two_open
    (MkInstance 1 5 3 (XrayStack None (Some 0%nat) [1%nat; 2%nat] []) 4 false false)
    (MkInstance 1 11 9 (XrayStack None (Some 6%nat) [7%nat; 8%nat] []) 10 false false)
    (ProtectorState 1 1 true) _ eq_refl _ eq_refl _ eq_refl _ eq_refl)) (Ok 7%Z));
    [vm_compute; reflexivity | vm_compute; reflexivity | discriminate | vm_compute; reflexivity].
Defined.
