(* ===== verification/MobileTest.v ===== *)
(** * Tests of the mobile bindings: src/mobile/test.go and the checks of context.go

    A test prepares an environment ([MobileCore]), runs a batch on it in a goroutine and
    reports to a handler of the application, which may see results while the batch runs
    ([urlTestReporter]). *)

From S2P Require Import Prelude GoStr.
From S2P Require Import MobileCore.

#[local] Open Scope string_scope.
#[local] Open Scope list_scope.

(** ** The reporter *)

(** [probe.URLTestResult]: a duration in nanoseconds, and an error. *)
Record URLTestResult := MkURLTestResult { Tag : string; Duration : Z; Error : option string }.

Definition errorString (e : option string) : string := default "" e.

(** The calls of the handler: [OnResult(tag, latencyMs, err)]. *)
Record report_call := OnResult { oc_tag : string; oc_latency : Z; oc_err : string }.

Record urlTestReporter := MkReporter {
  tags : gset string;
  reported : gset string;
  calls : list report_call;
}.

Definition newURLTestReporter (ts : list string) : urlTestReporter := MkReporter (list_to_set ts) ∅ [].

(** [int32(result.Duration.Milliseconds())]. *)
Definition to_call (r : URLTestResult) : report_call :=
  OnResult (Tag r) (int32 (Z.quot (Duration r) 1000000)) (errorString (Error r)).

(** A nil result is [None]. *)
Definition report (rep : urlTestReporter) (result : option URLTestResult) : urlTestReporter :=
  match result with
  | None => rep
  | Some r =>
      if decide (Tag r ∈ tags rep) then
        if decide (Tag r ∈ reported rep) then rep
        else MkReporter (tags rep) ({[Tag r]} ∪ reported rep) (calls rep ++ [to_call r])
      else rep
  end.

(** [drain] with what the shared buffer held. *)
Definition drain (rep : urlTestReporter) (buffer : list (option URLTestResult)) : urlTestReporter :=
  foldl report rep buffer.

(** [run]: the drains at the ticks while the batch runs, the one after it, and then its
    results. *)
Definition run (rep : urlTestReporter) (ticks : list (list (option URLTestResult)))
    (last results : list (option URLTestResult)) : urlTestReporter :=
  foldl report (drain (foldl drain rep ticks) last) results.

(** Everything the run gets to see, in order. *)
Definition seen (ticks : list (list (option URLTestResult))) (last results : list (option URLTestResult)) :
    list (option URLTestResult) := mjoin ticks ++ last ++ results.

(** What should be reported of what is seen: of each asked-for tag the first result. *)
Fixpoint first_results (ours had : gset string) (l : list (option URLTestResult)) : list URLTestResult :=
  match l with
  | [] => []
  | None :: l => first_results ours had l
  | Some r :: l =>
      if decide (Tag r ∈ ours /\ Tag r ∉ had)
      then r :: first_results ours ({[Tag r]} ∪ had) l
      else first_results ours had l
  end.

Lemma run_seen rep ticks last results : run rep ticks last results = foldl report rep (seen ticks last results).
Proof.
  unfold run, drain, seen. rewrite !foldl_app. f_equal. f_equal.
  revert rep. induction ticks as [|t ticks IH]; intros rep; cbn; [done|]. by rewrite IH, foldl_app.
Qed.

Lemma foldl_report l : forall rep,
  calls (foldl report rep l) = calls rep ++ (to_call <$> first_results (tags rep) (reported rep) l).
Proof.
  induction l as [|[r|] l IH]; intros rep; cbn; [by rewrite app_nil_r| |apply IH].
  rewrite IH. destruct (decide (Tag r ∈ tags rep)) as [Ht|Ht]; [destruct (decide (Tag r ∈ reported rep)) as [Hr|Hr]|].
  - rewrite decide_False by tauto. done.
  - rewrite decide_True by done. cbn. by rewrite <- app_assoc.
  - rewrite decide_False by tauto. done.
Qed.

Lemma first_results_tags ours l : forall had t,
  t ∈ (Tag <$> first_results ours had l) <->
  t ∈ ours /\ (t ∉ had) /\ exists r, Some r ∈ l /\ Tag r = t.
Proof.
  induction l as [|[r|] l IH]; intros had t; cbn.
  - split; [by intros ?%not_elem_of_nil | intros (_ & _ & r & H & _); by apply not_elem_of_nil in H].
  - destruct (decide (Tag r ∈ ours /\ Tag r ∉ had)) as [[H1 H2]|H]; cbn.
    + rewrite elem_of_cons, IH, not_elem_of_union, not_elem_of_singleton.
      setoid_rewrite elem_of_cons. destruct (decide (t = Tag r)) as [->|Hne].
      * split; [intros _; split_and!; [done|done|]; exists r; auto | by left].
      * split.
        -- intros [?|(? & [_ ?] & r' & ? & ?)]; [done|]. split_and!; [done|done|]. exists r'. auto.
        -- intros (? & ? & r' & [?|?] & ?); [simplify_eq; done|]. right. split_and!; eauto.
    + rewrite IH. setoid_rewrite elem_of_cons. split.
      * intros (? & ? & r' & ? & ?). split_and!; [done|done|]. exists r'. auto.
      * intros (? & ? & r' & [?|?] & ?); [simplify_eq; tauto|]. split_and!; eauto.
  - rewrite IH. setoid_rewrite elem_of_cons. split.
    + intros (? & ? & r' & ? & ?). split_and!; [done|done|]. exists r'. auto.
    + intros (? & ? & r' & [?|?] & ?); [done|]. split_and!; eauto.
Qed.

Lemma first_results_nodup ours l : forall had, NoDup (Tag <$> first_results ours had l).
Proof.
  induction l as [|[r|] l IH]; intros had; cbn; [constructor| |apply IH].
  destruct (decide _) as [H|H]; [|apply IH]. cbn. apply NoDup_cons. split; [|apply IH].
  rewrite first_results_tags. set_solver.
Qed.

Lemma first_results_sub ours l : forall had r, r ∈ first_results ours had l -> Some r ∈ l.
Proof.
  induction l as [|[r|] l IH]; intros had r' H; cbn in H; [by apply not_elem_of_nil in H| |].
  - destruct (decide _); [apply elem_of_cons in H as [->|H]; [by left|]|]; right; by eapply IH.
  - right. by eapply IH.
Qed.

(** whatever the ticks saw of the shared buffer (results of other tests included), the
    handler hears of every tag asked for at most once, of no other tag, of every tag the
    batch returned a result for, and each report is the first result seen for its tag. *)
Theorem reporter_once_per_tag (ts : list string) ticks last results :
  let cs := calls (run (newURLTestReporter ts) ticks last results) in
  cs = to_call <$> first_results (list_to_set ts) ∅ (seen ticks last results) /\
  NoDup (oc_tag <$> cs) /\
  (forall t, t ∈ (oc_tag <$> cs) <-> t ∈ ts /\ exists r, Some r ∈ seen ticks last results /\ Tag r = t) /\
  (forall t, (exists r, Some r ∈ results /\ Tag r = t) -> t ∈ ts -> t ∈ (oc_tag <$> cs)).
Proof.
  cbv zeta. rewrite run_seen, foldl_report. cbn [calls newURLTestReporter tags reported app].
  assert (oc_tag <$> (to_call <$> first_results (list_to_set ts) ∅ (seen ticks last results)) =
          Tag <$> first_results (list_to_set ts) ∅ (seen ticks last results)) as E
    by (by rewrite <- list_fmap_compose).
  rewrite E. split_and!; [done | apply first_results_nodup | |].
  - intros t. rewrite first_results_tags, elem_of_list_to_set. set_solver.
  - intros t (r & Hr & Ht) Hts. rewrite first_results_tags, elem_of_list_to_set.
    split_and!; [done | set_solver|]. exists r. split; [|done]. unfold seen. rewrite !elem_of_app. auto.
Qed.

Lemma reporter_once_per_tag_witness :
  "a" ∈ ["a"; "b"] /\
  "a" ∈ (oc_tag <$> calls (run (newURLTestReporter ["a"; "b"]) [[Some (MkURLTestResult "x" 1 None)]] []
           [Some (MkURLTestResult "a" 12000000 None); None])).
Proof.
  split; [by left|].
  apply (reporter_once_per_tag ["a"; "b"] [[Some (MkURLTestResult "x" 1 None)]] []
    [Some (MkURLTestResult "a" 12000000 None); None]); [|by left].
  exists (MkURLTestResult "a" 12000000 None). split; [by left | done].
Defined.

(** ** The tests *)

(** [probe.SpeedTestResult] and what crosses the binding. *)
Record speedResult := MkSpeedResult {
  s_Tag : string; s_DlSpeed : string; s_UlSpeed : string; s_Latency : Z;
  s_ServerName : string; s_ServerCountry : string; s_Error : option string;
  s_Cancelled : bool; s_DlBytes : Z; s_UlBytes : Z
}.

Record SpeedTestResult := MkSpeedTestResult {
  r_Tag : string; r_DlSpeed : string; r_UlSpeed : string; r_Latency : Z;
  r_ServerName : string; r_ServerCountry : string; r_Error : string;
  r_Cancelled : bool; r_DlBytes : Z; r_UlBytes : Z; r_Running : bool
}.

Definition flattenSpeedTestResult (r : speedResult) (is_running : bool) : SpeedTestResult :=
  MkSpeedTestResult (s_Tag r) (s_DlSpeed r) (s_UlSpeed r) (s_Latency r) (s_ServerName r)
    (s_ServerCountry r) (errorString (s_Error r)) (s_Cancelled r) (s_DlBytes r) (s_UlBytes r) is_running.

Record ipResult := MkIPResult { ip_Tag : string; ip_IP : string; ip_CountryCode : string; ip_Error : option string }.

(** What the handlers hear. *)
Inductive event :=
| URLResult (c : report_call)
| IPResult (tag ip country err : string)
| SpeedResult (r : SpeedTestResult)
| OnDone.

Section Tests.
  #[local] Set Default Proof Using "Type".
  Context (xray_Create xray_Start : string -> result unit).
  Context (UseAutoDetect : nat -> bool) (decode box_New : string -> result unit) (box_Start : nat -> result unit).
  Context (has_outbound : nat -> string -> bool) (default_tag : nat -> string).
  (** The batches of internal/probe on a box and tags, modelled elsewhere: a URL test with
      whether it is repeated on a warm connection, and what its ticks and the drain after
      it saw of the shared buffer. *)
  Context (BatchURLTest : nat -> list string -> bool -> list (option URLTestResult)).
  Context (ticks_seen : nat -> list (list (option URLTestResult))) (last_seen : nat -> list (option URLTestResult)).
  Context (BatchIPTest : nat -> list string -> list ipResult).
  Context (BatchSpeedTest : nat -> list string -> list speedResult).

Abbreviation prepare :=
  (prepareTestEnv xray_Create xray_Start UseAutoDetect decode box_New box_Start has_outbound default_tag).

(** The goroutine of a test: what [results] the handler hears, then the environment is
    closed, then [OnDone], its deferred calls running last to first. *)
Definition finish (env : testEnv) (results : list event) : prog mob (list event) :=
  _ ← modify (unwind (te_close env));
  mret (results ++ [OnDone]).

Definition StartURLTest (current platform : option nat) (request : option TestRequest) (handler : bool) :
    prog mob (list event) :=
  match request with
  | Some r =>
      if handler then
        env ← prepare current (t_TestCurrent r) platform r;
        let twice := negb (t_TestCurrent r) in
        let rep := run (newURLTestReporter (te_tags env)) (ticks_seen (te_box env)) (last_seen (te_box env))
                     (BatchURLTest (te_box env) (te_tags env) twice) in
        finish env (URLResult <$> calls rep)
      else throw "nil request or handler"
  | None => throw "nil request or handler"
  end.

Definition StartIPTest (platform : option nat) (request : option TestRequest) (handler : bool) :
    prog mob (list event) :=
  match request with
  | Some r =>
      if handler then
        env ← prepare None false platform r;
        finish env ((fun x => IPResult (ip_Tag x) (ip_IP x) (ip_CountryCode x) (errorString (ip_Error x))) <$>
                      BatchIPTest (te_box env) (te_tags env))
      else throw "nil request or handler"
  | None => throw "nil request or handler"
  end.

Definition StartSpeedTest (current platform : option nat) (request : option TestRequest) (handler : bool) :
    prog mob (list event) :=
  match request with
  | Some r =>
      if handler then
        if negb (t_TestDownload r) && negb (t_TestUpload r) && negb (t_SimpleDownload r) && negb (t_OnlyCountry r)
        then throw "cannot run empty test"
        else
          env ← prepare current (t_TestCurrent r) platform r;
          finish env ((fun x => SpeedResult (flattenSpeedTestResult x false)) <$>
                        BatchSpeedTest (te_box env) (te_tags env))
      else throw "nil request or handler"
  | None => throw "nil request or handler"
  end.

(** [QuerySpeedTest]: the shared result, and whether a test is under way. *)
Definition QuerySpeedTest (result : speedResult) (is_running : bool) : SpeedTestResult :=
  flattenSpeedTestResult result is_running.

(** Closing an environment brings back what was alive before it was made. *)
Lemma opened_by_unwind cleanups m m' :
  opened_by (mjoin cleanups) m m' -> frame m (unwind cleanups m').
Proof. intros (m1 & Hf & Ho). eapply frame_opened; [exact Hf|]. by apply opened_unwind. Qed.

Lemma finish_frame current tc platform r (results : testEnv -> list event) m :
  pool_ok (m_objects m) ->
  match (env ← prepare current tc platform r; finish env (results env)) m with
  | (Returns es, m') => frame m m' /\ exists env, es = results env ++ [OnDone]
  | (Fails _, m') => frame m m'
  | (Panics _, _) => True
  end.
Proof.
  intros Hp. unfold mbind, prog_bind.
  pose proof (prepareTestEnv_opens xray_Create xray_Start UseAutoDetect decode box_New box_Start
    has_outbound default_tag current tc platform r m Hp) as H.
  destruct (prepare current tc platform r m) as [[env|e|e] m']; [|done|done].
  split; [by apply opened_by_unwind | by exists env].
Qed.

(** Whether an event is the end of a test. *)
Definition is_done (e : event) : bool := match e with OnDone => true | _ => false end.

Definition ends_once (es : list event) : Prop :=
  exists results, es = results ++ [OnDone] /\ Forall (fun e => is_done e = false) results.

Lemma ends_once_fmap {A} (f : A -> event) l :
  (forall x, is_done (f x) = false) -> ends_once ((f <$> l) ++ [OnDone]).
Proof. intros Hf. exists (f <$> l). split; [done|]. apply Forall_fmap, Forall_true. exact Hf. Qed.

(** every kind of test, started on any request, leaves the instances and everything
    alive as they were; a handler hears [OnDone] exactly once, after all results and with
    the environment closed, exactly when starting succeeded, and nothing at all otherwise. *)
Theorem test_leaves_no_trace current platform request handler m :
  pool_ok (m_objects m) ->
  Forall (fun test : prog mob (list event) =>
    match test m with
    | (Returns es, m') => frame m m' /\ ends_once es
    | (Fails _, m') => frame m m'
    | (Panics _, _) => True
    end)
    [StartURLTest current platform request handler; StartIPTest platform request handler;
     StartSpeedTest current platform request handler].
Proof.
  intros Hp.
  assert (frame m m) as Hm by done.
  assert (forall tc cur r (results : testEnv -> list event),
    (forall env, ends_once (results env ++ [OnDone])) ->
    match (env ← prepare cur tc platform r; finish env (results env)) m with
    | (Returns es, m') => frame m m' /\ ends_once es
    | (Fails _, m') => frame m m'
    | (Panics _, _) => True
    end) as H.
  { intros tc cur r results Hends. pose proof (finish_frame cur tc platform r results m Hp) as H.
    destruct ((env ← prepare cur tc platform r; finish env (results env)) m) as [[es|e|e] m']; [|done|done].
    destruct H as (Hf & env & ->). split; [done|apply Hends]. }
  repeat constructor; unfold StartURLTest, StartIPTest, StartSpeedTest;
    destruct request as [r|]; try done; destruct handler; try done.
  - refine (H (t_TestCurrent r) current r (fun env => URLResult <$> _) _). intros env. by apply ends_once_fmap.
  - refine (H false None r (fun env => _ <$> BatchIPTest (te_box env) (te_tags env)) _).
    intros env. by apply ends_once_fmap.
  - destruct (_ && _); [done|].
    refine (H (t_TestCurrent r) current r (fun env => _ <$> BatchSpeedTest (te_box env) (te_tags env)) _).
    intros env. by apply ends_once_fmap.
Qed.
End Tests.

Abbreviation a_request := (MkTestRequest "{}" "{}" true "" false false ["a"; "b"] ["x"] true false false false).
Abbreviation a_batch := (fun (b : nat) (ts : list string) (twice : bool) =>
  (fun t => Some (MkURLTestResult t 5000000 None)) <$> ts).

Lemma test_leaves_no_trace_witness :
  (pool_ok (m_objects nothing_yet) /\
   fst (StartURLTest all_ok all_ok (fun _ => true) all_ok all_ok no_error (fun _ _ => false) (fun _ => "a")
     a_batch (fun _ => []) (fun _ => []) None None (Some a_request) true nothing_yet) =
   Returns [URLResult (OnResult "a" 5 ""); URLResult (OnResult "b" 5 ""); OnDone]) /\
  frame nothing_yet (snd (StartURLTest all_ok all_ok (fun _ => true) all_ok all_ok no_error (fun _ _ => false)
    (fun _ => "a") a_batch (fun _ => []) (fun _ => []) None None (Some a_request) true nothing_yet)).
Proof.
  assert (pool_ok (m_objects nothing_yet)) as Hp by (intros x Hx; by apply not_elem_of_empty in Hx).
  split; [split; [exact Hp | vm_compute; reflexivity]|].
  pose proof (test_leaves_no_trace all_ok all_ok (fun _ => true) all_ok all_ok no_error (fun _ _ => false) (fun _ => "a")
    a_batch (fun _ => []) (fun _ => []) (fun _ _ => []) (fun _ _ => []) None None (Some a_request) true nothing_yet Hp) as H.
  apply Forall_cons in H as [H _].
  destruct (StartURLTest _ _ _ _ _ _ _ _ _ _ _ _ _ _ _ _) as [[es|e|e] m'] eqn:E; [apply H | apply H |].
  exfalso. vm_compute in E. discriminate.
Defined.

(** ** Checking a configuration *)

Section Check.
  (** [box.New] of a configuration: a box, an error, or a panic. *)
  Context (decode : string -> result unit) (box_New : string -> outcome unit).

(** The box is built and closed again; the deferred cancel runs on every way out. *)
Definition check_box (coreConfig : string) (ctx : nat) : prog mob unit := fun m =>
  match box_New coreConfig with
  | Returns _ =>
      let b := p_next (m_objects m) in
      (Returns tt, close_objects [b; ctx] (set_objects (alloc (m_objects m)) m))
  | Fails e => (Fails e, close_objects [ctx] m)
  | Panics e => (Panics e, close_objects [ctx] m)
  end.

(** [CheckConfig]: a panic becomes an error. *)
Definition CheckConfig (coreConfig : string) : prog mob unit := fun m =>
  match (_ ← parseConfig decode coreConfig; ctx ← open_object; check_box coreConfig ctx) m with
  | (Panics e, m) => (Fails ("check config panic: " ++ e)%string, m)
  | r => r
  end.

Lemma CheckConfig_spec c m :
  pool_ok (m_objects m) ->
  let '(r, m') := CheckConfig c m in
  frame m m' /\
  r = match decode c with
      | Err e => Fails ("decode config: " ++ e)%string
      | Ok _ => match box_New c with
                | Returns _ => Returns tt
                | Fails e => Fails e
                | Panics e => Fails ("check config panic: " ++ e)%string
                end
      end.
Proof.
  intros Hp. unfold CheckConfig, check_box, parseConfig, mbind, prog_bind, cause, lift_result.
  destruct (decode c) as [[]|e]; [|done]. unfold open_object.
  set (m1 := set_objects (alloc (m_objects m)) m).
  pose proof (opened_object m Hp) as Ho1. fold m1 in Ho1.
  assert (forall m', opened ∅ m m' -> frame m m') as Hf by (intros m' H; by eapply frame_opened).
  destruct (box_New c) as [[]|e|e]; cbn beta iota.
  - split; [|done]. apply Hf. eapply opened_close.
    + eapply opened_trans; [exact Ho1|]. apply opened_object. eauto with nunya.
    + intros x. clear. set_solver.
  - split; [|done]. apply Hf. eapply opened_close; [exact Ho1|]. clear. set_solver.
  - split; [|done]. apply Hf. eapply opened_close; [exact Ho1|]. clear. set_solver.
Qed.
End Check.
