(* ===== verification/MobileNet.v ===== *)
(** * The platform side of the mobile bindings: src/mobile/procfs.go, monitor.go, service.go
    and tun.go

    [Procfs] finds the owner of a socket in the tables under /proc/net; [Monitor] keeps the
    default interface and tells its callbacks; [Service] is what sing-box asks of the
    platform; [Tun] the options a platform opens the tunnel with. *)

From S2P Require Import Prelude GoStr GoNet.
From S2P Require MobileLog.

#[local] Open Scope string_scope.
#[local] Open Scope list_scope.

Module Procfs.

(** [hex.EncodeToString]. *)
Definition hex_byte (b : Z) : list ascii := [hex_digit (Z.to_nat (b / 16)); hex_digit (Z.to_nat (b mod 16))].
Definition hex_encode (l : list Z) : string := string_of_list_ascii (l ≫= hex_byte).

(** [PutUint16] of a port. *)
Definition port_bytes (port : Z) : list Z := [port / 256 mod 256; port mod 256]%Z.

(** [nativeEndianIP]: each group of four bytes in the machine's order. *)
Fixpoint nativeEndianIP (little : bool) (ip : list Z) : list Z :=
  match ip with
  | a :: b :: c :: d :: rest =>
      (if little then [d; c; b; a] else [a; b; c; d]) ++ nativeEndianIP little rest
  | _ => []
  end.

(** The columns of a table: [procNetIndexOfLocal] and [procNetIndexOfUid], -1 unknown. *)
Record columns := Columns { procNetIndexOfLocal : Z; procNetIndexOfUid : Z }.

Record scan := Scan { txQueue : bool; rxQueue : bool; tr : bool; tmWhen : bool; found : columns }.

(** One column of the header: two pairs of columns are printed as one field each. *)
Definition scan_column (s : scan) (idx : Z) (col : string) : scan :=
  let offset := ((if txQueue s && rxQueue s then -1 else 0) + (if tr s && tmWhen s then -1 else 0))%Z in
  let c := found s in
  if bool_decide (col = "tx_queue") then Scan true (rxQueue s) (tr s) (tmWhen s) c
  else if bool_decide (col = "rx_queue") then Scan (txQueue s) true (tr s) (tmWhen s) c
  else if bool_decide (col = "tr") then Scan (txQueue s) (rxQueue s) true (tmWhen s) c
  else if bool_decide (col = "tm->when") then Scan (txQueue s) (rxQueue s) (tr s) true c
  else if bool_decide (col = "local_address") then
    Scan (txQueue s) (rxQueue s) (tr s) (tmWhen s) (Columns (idx + offset) (procNetIndexOfUid c))
  else if bool_decide (col = "uid") then
    Scan (txQueue s) (rxQueue s) (tr s) (tmWhen s) (Columns (procNetIndexOfLocal c) (idx + offset))
  else s.

Fixpoint scan_columns (s : scan) (idx : Z) (cols : list string) : scan :=
  match cols with
  | [] => s
  | col :: cols => scan_columns (scan_column s idx col) (idx + 1) cols
  end.

(** The second [init]; a table that cannot be read leaves both unknown. *)
Definition read_header (header : option string) : columns :=
  match header with
  | None => Columns (-1) (-1)
  | Some h => found (scan_columns (Scan false false false false (Columns (-1) (-1))) 0 (fields h))
  end.

(** The header of the kernel's tables. *)
Definition header : string :=
  "  sl  local_address rem_address   st tx_queue rx_queue tr tm->when retrnsmt   uid  timeout inode".

Example header_columns : read_header (Some header) = Columns 1 7.
Proof. vm_compute. reflexivity. Qed.

Section Resolve.
  (** Whether the machine is little-endian, and the rows [ReadLine] gives of each table. *)
  Context (little : bool) (table : string -> option (list string)).

Definition local_key (addr : Addr) (port : Z) : string :=
  (hex_encode (nativeEndianIP little (AsSlice addr)) ++ ":" ++ hex_encode (port_bytes port))%string.

(** The loop over the rows. *)
Fixpoint search (c : columns) (local : string) (rows : list string) : Z :=
  match rows with
  | [] => -1
  | row :: rows =>
      let fs := fields row in
      if (Z.of_nat (length fs) <=? procNetIndexOfLocal c)%Z || (Z.of_nat (length fs) <=? procNetIndexOfUid c)%Z
      then search c local rows
      else if equal_fold local (default "" (fs !! Z.to_nat (procNetIndexOfLocal c))) then
        match atoi (default "" (fs !! Z.to_nat (procNetIndexOfUid c))) with
        | None => -1
        | Some uid => int32 uid
        end
      else search c local rows
  end.

Definition table_path (network : string) (addr : Addr) : string :=
  ("/proc/net/" ++ (if bool_decide (network = "tcp") then "tcp" else "udp") ++
   (if Is6 addr then "6" else ""))%string.

Definition resolveSocketByProcSearch (c : columns) (network : string) (addr : Addr) (port : Z) : Z :=
  if (procNetIndexOfLocal c <? 0)%Z || (procNetIndexOfUid c <? 0)%Z then -1
  else if bool_decide (AsSlice addr = []) then -1
  else
    match table (table_path network addr) with
    | None => -1
    | Some rows => search c (local_key addr port) rows
    end.
End Resolve.

(** ** The tables as the kernel prints them *)

(** A socket: its address and port, and the other columns. *)
Record socket := Socket {
  k_sl : string; k_addr : Addr; k_port : Z; k_remote : string; k_st : string;
  k_queues : string; k_timer : string; k_retrnsmt : string; k_uid : string; k_rest : list string
}.

(** Each word of an address is printed with %08X as the machine reads it, the port with %04X. *)
Definition kernel_row (little : bool) (s : socket) : string :=
  join " " ([k_sl s; to_upper (local_key little (k_addr s) (k_port s)); k_remote s; k_st s;
             k_queues s; k_timer s; k_retrnsmt s; k_uid s] ++ k_rest s).

(** A field: no white space, and not empty. *)
Definition black (s : string) : bool :=
  negb (String.eqb s EmptyString) && forallb (fun c => negb (in_string c white)) (list_ascii_of_string s).

Definition socket_ok (s : socket) : Prop :=
  Forall (fun w => black w = true)
    ([k_sl s; k_remote s; k_st s; k_queues s; k_timer s; k_retrnsmt s; k_uid s] ++ k_rest s) /\
  (k_addr s <> NoAddr) /\ (0 <= k_port s < 65536)%Z /\
  match k_addr s with
  | NoAddr => True
  | Addr4 b => (0 <= b < 2 ^ 32)%Z
  | Addr6 b _ => (0 <= b < 2 ^ 128)%Z
  end.

(** *** Fields of a row *)

Lemma string_app_nil s : (s ++ "")%string = s.
Proof. induction s as [|c s IH]; [done|]. exact (f_equal (String c) IH). Qed.

Lemma fields_from_word w s rest :
  forallb (fun c => negb (in_string c white)) (list_ascii_of_string s) = true ->
  fields_from w (s ++ rest)%string = fields_from (w ++ s)%string rest.
Proof.
  revert w. induction s as [|c s IH]; intros w Hs.
  - cbn. by rewrite string_app_nil.
  - cbn [list_ascii_of_string forallb] in Hs. apply andb_true_iff in Hs as [Hc Hs]. apply negb_true_iff in Hc.
    change (String c s ++ rest)%string with (String c (s ++ rest)). cbn [fields_from].
    rewrite Hc. rewrite IH by done.
    by rewrite string_app_assoc.
Qed.

Lemma black_spec s : black s = true ->
  String.eqb s "" = false /\ forallb (fun c => negb (in_string c white)) (list_ascii_of_string s) = true.
Proof. unfold black. intros [H1 H2]%andb_true_iff. by apply negb_true_iff in H1. Qed.

Lemma fields_join ws : Forall (fun w => black w = true) ws -> fields (join " " ws) = ws.
Proof.
  unfold fields, join. induction 1 as [|w ws Hw Hws IH]; [done|].
  apply black_spec in Hw as [Hne Hb]. destruct ws as [|w' ws].
  - cbn [String.concat]. rewrite <- (string_app_nil w) at 1. rewrite fields_from_word by done.
    change ("" ++ w)%string with w. cbn [fields_from]. by rewrite Hne.
  - rewrite concat_cons by done. rewrite fields_from_word by done.
    change ("" ++ w)%string with w. change (" " ++ String.concat " " (w' :: ws))%string
      with (String " " (String.concat " " (w' :: ws))). cbn [fields_from].
    change (in_string " " white) with true. cbn iota. rewrite Hne, IH. done.
Qed.

(** *** Keys *)

Lemma lower_upper s : to_lower (to_upper s) = to_lower s.
Proof.
  unfold to_lower, to_upper. induction s as [|c s IH]; [done|]. cbn [map_string]. rewrite IH. f_equal.
  by destruct c as [[] [] [] [] [] [] [] []].
Qed.

Lemma hex_digit_facts n : (n < 16)%nat ->
  lower_ascii (hex_digit n) = hex_digit n /\ in_string (upper_ascii (hex_digit n)) white = false /\
  hex_digit n <> "l"%char.
Proof. intros H. do 16 (destruct n as [|n]; [by split_and!|]). lia. Qed.

Lemma hex_digit_inj n m : (n < 16)%nat -> (m < 16)%nat -> hex_digit n = hex_digit m -> n = m.
Proof.
  intros Hn Hm. do 16 (destruct n as [|n]; [do 16 (destruct m as [|m]; [done|]); lia|]). lia.
Qed.

Definition byte_ok (b : Z) : Prop := (0 <= b < 256)%Z.

Lemma nibbles b : byte_ok b -> (Z.to_nat (b / 16) < 16)%nat /\ (Z.to_nat (b mod 16) < 16)%nat.
Proof.
  unfold byte_ok. intros Hb. pose proof (Z.mod_pos_bound b 16). pose proof (Z.div_pos b 16).
  pose proof (Z.div_lt_upper_bound b 16 16). lia.
Qed.

Lemma list_ascii_app s t :
  list_ascii_of_string (s ++ t)%string = list_ascii_of_string s ++ list_ascii_of_string t.
Proof. induction s as [|c s IH]; [done|]. exact (f_equal (cons c) IH). Qed.

Lemma hex_ascii l : list_ascii_of_string (hex_encode l) = l ≫= hex_byte.
Proof. apply list_ascii_of_string_of_list_ascii. Qed.

Lemma length_hex l : length (l ≫= hex_byte) = (2 * length l)%nat.
Proof. induction l as [|b l IH]; [done|]. cbn in *. lia. Qed.

Lemma hex_bytes_inj l l' : Forall byte_ok l -> Forall byte_ok l' -> l ≫= hex_byte = l' ≫= hex_byte -> l = l'.
Proof.
  intros Hl. revert l'. induction Hl as [|b l Hb Hl IH]; intros l' Hl' E.
  - destruct l' as [|b' l']; [done|]. by apply (f_equal length) in E; cbn in E.
  - destruct Hl' as [|b' l' Hb' Hl']; [done|]. cbn in E. injection E as E1 E2 E3.
    pose proof (nibbles b Hb) as [N1 N2]. pose proof (nibbles b' Hb') as [N3 N4].
    apply hex_digit_inj in E1; [|done|done]. apply hex_digit_inj in E2; [|done|done].
    f_equal; [|by apply IH]. unfold byte_ok in *.
    rewrite (Z.div_mod b 16), (Z.div_mod b' 16) by lia.
    pose proof (Z.div_pos b 16). pose proof (Z.div_pos b' 16).
    pose proof (Z.mod_pos_bound b 16). pose proof (Z.mod_pos_bound b' 16). lia.
Qed.

Lemma nativeEndianIP_twice little l n : length l = (4 * n)%nat ->
  nativeEndianIP little (nativeEndianIP little l) = l.
Proof.
  revert l. induction n as [|n IH]; intros l Hl.
  - by destruct l.
  - destruct l as [|a [|b [|c [|d l]]]]; cbn in Hl; try lia.
    cbn [nativeEndianIP]. destruct little; cbn [app nativeEndianIP]; rewrite IH by lia; done.
Qed.

Lemma nativeEndianIP_perm little l n : length l = (4 * n)%nat -> nativeEndianIP little l ≡ₚ l.
Proof.
  revert l. induction n as [|n IH]; intros l Hl.
  - by destruct l.
  - destruct l as [|a [|b [|c [|d l]]]]; cbn in Hl; try lia.
    cbn [nativeEndianIP]. rewrite IH by lia. destruct little; [|done].
    change (a :: b :: c :: d :: l) with (([a; b; c; d] : list Z) ++ l). apply Permutation_app_tail.
    change [d; c; b; a] with (rev [a; b; c; d]). symmetry. apply Permutation_rev.
Qed.

Definition addr_ok (a : Addr) : Prop :=
  match a with
  | NoAddr => False
  | Addr4 b => (0 <= b < 2 ^ 32)%Z
  | Addr6 b _ => (0 <= b < 2 ^ 128)%Z
  end.

Lemma length_be n z : length (be_bytes n z) = n.
Proof. revert z. induction n as [|n IH]; intros z; cbn; [done|]. rewrite length_app, IH. cbn. lia. Qed.

Lemma length_AsSlice a : addr_ok a -> length (AsSlice a) = if Is6 a then 16%nat else 4%nat.
Proof. destruct a; cbn [AsSlice Is6 addr_ok]; [done| |]; intros; apply length_be. Qed.

Lemma AsSlice_bytes a : Forall byte_ok (AsSlice a).
Proof. destruct a; cbn [AsSlice]; [constructor| |]; apply be_bytes_range. Qed.

Lemma native_bytes little a : addr_ok a -> Forall byte_ok (nativeEndianIP little (AsSlice a)).
Proof.
  intros Ha. pose proof (length_AsSlice a Ha) as Hl.
  assert (exists n, length (AsSlice a) = (4 * n)%nat) as [n Hn]
    by (rewrite Hl; destruct (Is6 a); [by exists 4%nat | by exists 1%nat]).
  rewrite nativeEndianIP_perm by exact Hn. apply AsSlice_bytes.
Qed.

Lemma port_bytes_ok p : Forall byte_ok (port_bytes p).
Proof. unfold port_bytes, byte_ok. repeat constructor; apply Z.mod_pos_bound; lia. Qed.

Section Lookup.
  Context (little : bool).

Lemma key_ascii a p : list_ascii_of_string (local_key little a p) =
  (nativeEndianIP little (AsSlice a) ≫= hex_byte) ++ ":"%char :: (port_bytes p ≫= hex_byte).
Proof. unfold local_key. by rewrite !list_ascii_app, !hex_ascii. Qed.

Definition key_char (c : ascii) : Prop := c = ":"%char \/ exists n, (n < 16)%nat /\ c = hex_digit n.

Lemma hex_chars l : Forall byte_ok l -> Forall key_char (l ≫= hex_byte).
Proof.
  induction 1 as [|b l Hb Hl IH]; [constructor|]. destruct (nibbles b Hb) as [H1 H2].
  constructor; [right; by exists (Z.to_nat (b `div` 16))|].
  constructor; [right; by exists (Z.to_nat (b `mod` 16))|]. exact IH.
Qed.

Lemma key_chars a p : addr_ok a -> Forall key_char (list_ascii_of_string (local_key little a p)).
Proof.
  intros Ha. rewrite key_ascii. apply Forall_app. split; [by apply hex_chars, native_bytes|].
  constructor; [by left|]. apply hex_chars, port_bytes_ok.
Qed.

Lemma key_lower a p : addr_ok a -> to_lower (local_key little a p) = local_key little a p.
Proof.
  intros Ha. pose proof (key_chars a p Ha) as H. revert H. generalize (local_key little a p). intros s.
  unfold to_lower. induction s as [|c s IH]; cbn [list_ascii_of_string map_string]; [done|].
  intros H. apply Forall_cons in H as [Hc Hs]. rewrite IH by done. f_equal.
  destruct Hc as [->|(n & Hn & ->)]; [done | by apply hex_digit_facts].
Qed.

Lemma key_black a p : addr_ok a -> black (to_upper (local_key little a p)) = true.
Proof.
  intros Ha. pose proof (key_chars a p Ha) as H.
  unfold black. apply andb_true_iff. split.
  - unfold local_key. assert (nativeEndianIP little (AsSlice a) <> []) as Hne.
    { pose proof (length_AsSlice a Ha) as Hl. intros E.
      assert (exists n, length (AsSlice a) = (4 * n)%nat) as [n Hn]
        by (rewrite Hl; destruct (Is6 a); [by exists 4%nat | by exists 1%nat]).
      pose proof (Permutation_length (nativeEndianIP_perm little (AsSlice a) n Hn)) as Hp.
      rewrite E, Hl in Hp. by destruct (Is6 a). }
    by destruct (nativeEndianIP little (AsSlice a)).
  - revert H. generalize (local_key little a p). intros s. unfold to_upper.
    induction s as [|c s IH]; cbn [list_ascii_of_string map_string forallb]; [done|].
    intros H. apply Forall_cons in H as [Hc Hs]. rewrite IH by done. rewrite andb_true_r.
    destruct Hc as [->|(n & Hn & ->)]; [done|]. destruct (hex_digit_facts n Hn) as (_ & -> & _). done.
Qed.

Lemma local_key_inj a p a' p' :
  addr_ok a -> addr_ok a' -> Is6 a = Is6 a' -> (0 <= p < 65536)%Z -> (0 <= p' < 65536)%Z ->
  local_key little a p = local_key little a' p' -> AsSlice a = AsSlice a' /\ p = p'.
Proof.
  intros Ha Ha' H6 Hp Hp' E. apply (f_equal list_ascii_of_string) in E. rewrite !key_ascii in E.
  assert (exists n, length (AsSlice a) = (4 * n)%nat) as [n Hn]
    by (rewrite (length_AsSlice a Ha); destruct (Is6 a); [by exists 4%nat | by exists 1%nat]).
  assert (length (AsSlice a') = (4 * n)%nat) as Hn'
    by (by rewrite (length_AsSlice a' Ha'), <- H6, <- (length_AsSlice a Ha)).
  apply app_inj_1 in E as [E1 E2].
  2: { by rewrite !length_hex, (Permutation_length (nativeEndianIP_perm little _ n Hn)),
         (Permutation_length (nativeEndianIP_perm little _ n Hn')), Hn, Hn'. }
  apply hex_bytes_inj in E1; [|by apply native_bytes..].
  apply (f_equal (nativeEndianIP little)) in E1. rewrite !(nativeEndianIP_twice little _ n) in E1 by done.
  split; [done|]. apply (f_equal tail) in E2. cbn [tail] in E2.
  apply hex_bytes_inj in E2; [|apply port_bytes_ok..]. pose proof E2 as E3.
  unfold port_bytes in E3. injection E3 as E3 E4.
  rewrite !Z.mod_small in E3 by (split; [apply Z.div_pos | apply Z.div_lt_upper_bound]; lia).
  rewrite (Z.div_mod p 256), (Z.div_mod p' 256) by lia. lia.
Qed.

Definition same_socket (a : Addr) (p : Z) (s : socket) : Prop := AsSlice (k_addr s) = AsSlice a /\ k_port s = p.
#[export] Instance same_socket_dec a p s : Decision (same_socket a p s).
Proof. unfold same_socket. apply _. Defined.

(** A table of one family. *)
Definition table_ok (v6 : bool) (socks : list socket) : Prop :=
  Forall (fun s => Forall (fun w => black w = true)
            ([k_sl s; k_remote s; k_st s; k_queues s; k_timer s; k_retrnsmt s; k_uid s] ++ k_rest s) /\
          addr_ok (k_addr s) /\ (0 <= k_port s < 65536)%Z /\ Is6 (k_addr s) = v6) socks.

Lemma kernel_fields s :
  addr_ok (k_addr s) ->
  Forall (fun w => black w = true)
    ([k_sl s; k_remote s; k_st s; k_queues s; k_timer s; k_retrnsmt s; k_uid s] ++ k_rest s) ->
  fields (kernel_row little s) =
    [k_sl s; to_upper (local_key little (k_addr s) (k_port s)); k_remote s; k_st s;
     k_queues s; k_timer s; k_retrnsmt s; k_uid s] ++ k_rest s.
Proof.
  intros Ha Hw. apply fields_join. apply Forall_cons in Hw as [H1 Hw].
  constructor; [done|]. constructor; [by apply key_black|]. exact Hw.
Qed.

(** The user of a socket, as its column is read. *)
Definition owner_of (s : option socket) : Z :=
  match s with
  | None => -1
  | Some s => match atoi (k_uid s) with None => -1 | Some uid => int32 uid end
  end.

Lemma search_sockets a p socks :
  addr_ok a -> (0 <= p < 65536)%Z -> table_ok (Is6 a) socks ->
  search (Columns 1 7) (local_key little a p) (kernel_row little <$> socks) =
    owner_of (head (filter (same_socket a p) socks)).
Proof.
  intros Ha Hp. induction 1 as [|s socks (Hw & Hs & Hps & H6) Hsocks IH]; [done|].
  rewrite fmap_cons. cbn [search]. rewrite kernel_fields by done.
  cbn [app length procNetIndexOfLocal procNetIndexOfUid].
  match goal with |- context [if ?b then _ else _] =>
    replace b with false by (symmetry; apply orb_false_iff; split; apply Z.leb_gt; lia) end.
  change (Z.to_nat 1) with 1%nat. change (Z.to_nat 7) with 7%nat.
  match goal with |- context [equal_fold _ (default "" (?l !! 1%nat))] =>
    change (default "" (l !! 1%nat)) with (to_upper (local_key little (k_addr s) (k_port s))) end.
  match goal with |- context [atoi (default "" (?l !! 7%nat))] =>
    change (default "" (l !! 7%nat)) with (k_uid s) end.
  rewrite filter_cons. unfold equal_fold. rewrite lower_upper, !key_lower by done.
  destruct (String.eqb_spec (local_key little a p) (local_key little (k_addr s) (k_port s))) as [E|Hne].
  - apply local_key_inj in E as [E1 E2]; [|done..]. rewrite decide_True by (split; congruence). done.
  - rewrite decide_False; [exact IH|]. intros [E1 E2]. apply Hne. unfold local_key. by rewrite E1, E2.
Qed.

Lemma header_no_key a p : addr_ok a -> equal_fold (local_key little a p) "local_address" = false.
Proof.
  intros Ha. unfold equal_fold. rewrite key_lower by done. apply String.eqb_neq. intros E.
  pose proof (key_chars a p Ha) as H. rewrite E in H. cbn in H. apply Forall_cons in H as [[?|(n & Hn & Hc)] _]; [done|].
  by destruct (hex_digit_facts n Hn) as (_ & _ & ?).
Qed.

(** on the tables as the kernel prints them, for either byte order: the owner found
    is that of the first socket with exactly the address (up to its zone) and port asked
    for, read from its uid column; -1 when there is none. *)
Theorem resolve_finds_owner (table : string -> option (list string)) network a p socks :
  table (table_path network a) = Some (header :: (kernel_row little <$> socks)) ->
  addr_ok a -> (0 <= p < 65536)%Z -> table_ok (Is6 a) socks ->
  resolveSocketByProcSearch little table (read_header (Some header)) network a p =
    owner_of (head (filter (same_socket a p) socks)).
Proof.
  intros Ht Ha Hp Hsocks. unfold resolveSocketByProcSearch. rewrite header_columns.
  cbn [procNetIndexOfLocal procNetIndexOfUid]. change ((1 <? 0)%Z || (7 <? 0)%Z) with false. cbn iota.
  rewrite bool_decide_false.
  2: { intros E. pose proof (length_AsSlice a Ha) as Hl. rewrite E in Hl. by destruct (Is6 a). }
  rewrite Ht. cbn [search].
  replace (fields header) with ["sl"; "local_address"; "rem_address"; "st"; "tx_queue"; "rx_queue"; "tr";
    "tm->when"; "retrnsmt"; "uid"; "timeout"; "inode"] by (vm_compute; reflexivity).
  cbn [length procNetIndexOfLocal procNetIndexOfUid].
  change (Z.to_nat 1) with 1%nat.
  change ((Z.of_nat 12 <=? 1)%Z || (Z.of_nat 12 <=? 7)%Z) with false. cbn iota.
  change (default "" (["sl"; "local_address"; "rem_address"; "st"; "tx_queue"; "rx_queue"; "tr";
    "tm->when"; "retrnsmt"; "uid"; "timeout"; "inode"] !! 1%nat)) with "local_address".
  rewrite header_no_key by done. by apply search_sockets.
Qed.
End Lookup.

(** 127.0.0.1:8080 of user 10123, after another socket. *)
Abbreviation loopback := (Addr4 2130706433).
Abbreviation two_sockets :=
  [Socket "0:" loopback 53 "00000000:0000" "0A" "00000000:00000000" "00:00000000" "00000000" "0" ["0"; "11"];
   Socket "1:" loopback 8080 "00000000:0000" "0A" "00000000:00000000" "00:00000000" "00000000" "10123" ["0"; "12"]].
Abbreviation loopback_table := (fun path : string =>
  if bool_decide (path = "/proc/net/tcp") then Some (header :: (kernel_row true <$> two_sockets)) else None).

Lemma resolve_finds_owner_witness :
  addr_ok loopback /\ table_ok false two_sockets /\
  resolveSocketByProcSearch true loopback_table (read_header (Some header)) "tcp" loopback 8080 = 10123%Z.
Proof.
  assert (addr_ok loopback) as Ha by (cbn; lia).
  assert (table_ok false two_sockets) as Ht.
  { repeat (apply Forall_cons; split); [..|constructor]; (split; [repeat constructor|]);
      (split; [done|]); cbn; (split; [lia | done]). }
  split; [exact Ha|]. split; [exact Ht|].
  rewrite (resolve_finds_owner true loopback_table "tcp" loopback 8080 two_sockets);
    [vm_compute; reflexivity | reflexivity | exact Ha | lia | exact Ht].
Defined.

End Procfs.

Module Monitor.

(** [control.Interface], as far as it is compared and handed on. *)
Record Interface := MkInterface { Name : string; Index : Z; Details : string }.

#[export] Instance Interface_eq_dec : EqDecision Interface.
Proof. solve_decision. Defined.

(** [platformDefaultInterfaceMonitor] with the fields of its wrapper it uses. The callbacks
    are a list whose elements are known by number; [m_told]: what each was called with last. *)
Record monitor := MkMonitor {
  defaultInterface : option Interface;
  isExpensive : bool;
  isConstrained : bool;
  callbacks : list nat;
  next_callback : nat;
  myInterfaces : list string;
  defaultInterfaceInitialized : bool;
  m_told : gmap nat (option Interface);
}.

Definition new_monitor : monitor := MkMonitor None false false [] 0 [] false ∅.

Definition set_default (i : option Interface) (init : bool) (m : monitor) : monitor :=
  MkMonitor i (isExpensive m) (isConstrained m) (callbacks m) (next_callback m) (myInterfaces m) init (m_told m).

Definition set_flags (expensive constrained : bool) (m : monitor) : monitor :=
  MkMonitor (defaultInterface m) expensive constrained (callbacks m) (next_callback m) (myInterfaces m)
    (defaultInterfaceInitialized m) (m_told m).

(** One callback of a list of them. *)
Definition tell (i : option Interface) (m : monitor) (c : nat) : monitor :=
  MkMonitor (defaultInterface m) (isExpensive m) (isConstrained m) (callbacks m) (next_callback m)
    (myInterfaces m) (defaultInterfaceInitialized m) (<[c := i]> (m_told m)).

Definition RegisterCallback (m : monitor) : nat * monitor :=
  (next_callback m,
   MkMonitor (defaultInterface m) (isExpensive m) (isConstrained m) (callbacks m ++ [next_callback m])
     (S (next_callback m)) (myInterfaces m) (defaultInterfaceInitialized m) (m_told m)).

Definition UnregisterCallback (c : nat) (m : monitor) : monitor :=
  MkMonitor (defaultInterface m) (isExpensive m) (isConstrained m) (filter (fun x => x <> c) (callbacks m))
    (next_callback m) (myInterfaces m) (defaultInterfaceInitialized m) (m_told m).

Definition RegisterMyInterface (name : string) (m : monitor) : monitor :=
  MkMonitor (defaultInterface m) (isExpensive m) (isConstrained m) (callbacks m) (next_callback m)
    (myInterfaces m ++ [name]) (defaultInterfaceInitialized m) (m_told m).

Definition MyInterfaces (m : monitor) : list string := myInterfaces m.
Definition DefaultInterface (m : monitor) : option Interface := defaultInterface m.

Section Update.
  (** [InterfaceFinder().ByIndex], after [UpdateInterfaces]. *)
  Context (ByIndex : Z -> option Interface).

(** The part of [updateDefaultInterface] under the lock: the monitor after it, and what
    the callbacks are called with, if they are. *)
Definition update_locked (interfaceIndex32 : Z) (m : monitor) : monitor * option (option Interface) :=
  if (interfaceIndex32 =? -1)%Z then (set_default None true m, Some None)
  else
    match ByIndex interfaceIndex32 with
    | None => (m, None)
    | Some new =>
        let m' := set_default (Some new) (defaultInterfaceInitialized m) m in
        match defaultInterfaceInitialized m, defaultInterface m with
        | true, Some old =>
            if bool_decide (Name old = Name new) && (Index old =? Index new)%Z then (m', None)
            else (set_default (Some new) true m, Some (Some new))
        | _, _ => (set_default (Some new) true m, Some (Some new))
        end
    end.

(** [updateDefaultInterface] after the manager is refreshed: the callbacks are called with
    the lock released. *)
Definition update_default (interfaceIndex32 : Z) (m : monitor) : monitor :=
  let '(m', call) := update_locked interfaceIndex32 m in
  match call with
  | None => m'
  | Some i => foldl (tell i) m' (callbacks m')
  end.

Definition updateDefaultInterface (interfaceIndex32 : Z) (expensive constrained : bool) (m : monitor) : monitor :=
  update_default interfaceIndex32 (set_flags expensive constrained m).
End Update.

(** The calls of sing-box and the platform, one at a time. *)
Inductive monitor_step : monitor -> monitor -> Prop :=
| step_register m : monitor_step m (snd (RegisterCallback m))
| step_unregister m c : monitor_step m (UnregisterCallback c m)
| step_my m name : monitor_step m (RegisterMyInterface name m)
| step_update m ByIndex idx e c : monitor_step m (updateDefaultInterface ByIndex idx e c m).

(** The same interface, for who compares by name and index. *)
Definition same_interface (a b : option Interface) : Prop :=
  (fun i => (Name i, Index i)) <$> a = (fun i => (Name i, Index i)) <$> b.

#[export] Instance same_interface_equiv : Equivalence same_interface.
Proof. split; [intros a | intros a b | intros a b c]; unfold same_interface; congruence. Qed.

(** Before the first update nothing is known and nobody was told; after it, whoever was
    told and is still registered was told of the present interface. *)
Record monitor_ok (m : monitor) : Prop := MonitorOk {
  ok_fresh : forall c, c ∈ callbacks m \/ is_Some (m_told m !! c) -> (c < next_callback m)%nat;
  ok_uninit : defaultInterfaceInitialized m = false -> defaultInterface m = None /\ m_told m = ∅;
  ok_told : forall c i, c ∈ callbacks m -> m_told m !! c = Some i -> same_interface i (defaultInterface m);
}.

Lemma told_by i l : forall m c, m_told (foldl (tell i) m l) !! c = if decide (c ∈ l) then Some i else m_told m !! c.
Proof.
  induction l as [|x l IH]; intros m c; cbn [foldl].
  - by rewrite decide_False by apply not_elem_of_nil.
  - rewrite IH. cbn. destruct (decide (c = x)) as [->|Hne].
    + rewrite lookup_insert_eq. rewrite (decide_True (P := x ∈ x :: l)) by (by left). by case_decide.
    + rewrite lookup_insert_ne by done. destruct (decide (c ∈ l)).
      * by rewrite decide_True by (by right).
      * rewrite decide_False; [done|]. by intros [?|?]%elem_of_cons.
Qed.

Lemma tell_frame i l : forall m,
  defaultInterface (foldl (tell i) m l) = defaultInterface m /\ callbacks (foldl (tell i) m l) = callbacks m /\
  next_callback (foldl (tell i) m l) = next_callback m /\
  defaultInterfaceInitialized (foldl (tell i) m l) = defaultInterfaceInitialized m.
Proof. induction l as [|x l IH]; intros m; cbn [foldl]; [done|]. by destruct (IH (tell i m x)) as (-> & -> & -> & ->). Qed.

(** Telling every callback of the new default. *)
Lemma ok_tell_all i m :
  monitor_ok m -> monitor_ok (foldl (tell i) (set_default i true m) (callbacks m)).
Proof.
  intros [H1 H2 H3]. destruct (tell_frame i (callbacks m) (set_default i true m)) as (E1 & E2 & E3 & E4).
  split; rewrite ?E1, ?E2, ?E3, ?E4; cbn; [| done |].
  - intros c. rewrite told_by. cbn. intros [Hc|Hc]; [by apply H1; left|].
    destruct (decide (c ∈ callbacks m)); apply H1; auto.
  - intros c j Hc. rewrite told_by, decide_True by done. by intros [= <-].
Qed.

Lemma ok_update ByIndex idx e c m : monitor_ok m -> monitor_ok (updateDefaultInterface ByIndex idx e c m).
Proof.
  intros Hm. assert (monitor_ok (set_flags e c m)) as Hf by (by destruct Hm; split).
  unfold updateDefaultInterface, update_default. revert Hf. generalize (set_flags e c m). clear Hm m. intros m Hm.
  unfold update_locked. destruct (idx =? -1)%Z; [by apply (ok_tell_all None m)|].
  destruct (ByIndex idx) as [new|]; [|done].
  destruct (defaultInterfaceInitialized m) eqn:Ei; [|by apply (ok_tell_all (Some new) m)].
  destruct (defaultInterface m) as [old|] eqn:Eo; [|by apply (ok_tell_all (Some new) m)].
  destruct (bool_decide _ && _) eqn:E; [|by apply (ok_tell_all (Some new) m)].
  apply andb_true_iff in E as [En Ex]. apply bool_decide_eq_true in En. apply Z.eqb_eq in Ex.
  destruct Hm as [H1 H2 H3]. split; cbn; [done | done |].
  intros x j Hx Hj. etransitivity; [by eapply H3|]. unfold same_interface. cbn. by rewrite Eo; cbn; rewrite En, Ex.
Qed.

Lemma ok_step m m' : monitor_ok m -> monitor_step m m' -> monitor_ok m'.
Proof.
  intros Hm Hst. revert Hm. destruct Hst as [m|m c|m n|m f idx e c]; [| | |by intros; apply ok_update];
    intros [H1 H2 H3]; split; cbn; try done.
  - intros c [Hc|Hc]; [apply elem_of_app in Hc as [Hc| ->%list_elem_of_singleton]|]; [| lia |];
      (eapply Nat.lt_trans; [apply H1; eauto | lia]).
  - intros c i [Hc| ->%list_elem_of_singleton]%elem_of_app Hi; [by eapply H3|].
    exfalso. specialize (H1 (next_callback m) ltac:(right; by exists i)). lia.
  - intros x [Hx|Hx]; apply H1; [|auto]. left. by apply list_elem_of_filter in Hx as [_ ?].
  - intros x i Hx. apply H3. by apply list_elem_of_filter in Hx as [_ ?].
Qed.

(** along every sequence of registrations and interface updates, every callback that is
    registered and has been told of an interface was last told of the one that is the
    default now (the same name and index), although an update to the same interface tells
    nobody; and an update leaves the interface it found as the default, -1 none. *)
Theorem callbacks_know_default m :
  steps monitor_step new_monitor m ->
  (forall c i, c ∈ callbacks m -> m_told m !! c = Some i -> same_interface i (DefaultInterface m)) /\
  (forall ByIndex idx e x new, ByIndex idx = Some new -> idx <> (-1)%Z ->
     DefaultInterface (updateDefaultInterface ByIndex idx e x m) = Some new) /\
  (forall ByIndex e x, DefaultInterface (updateDefaultInterface ByIndex (-1) e x m) = None).
Proof.
  intros Hm.
  assert (monitor_ok m) as Hok.
  { eapply (steps_invariant monitor_step monitor_ok); [apply ok_step | exact Hm|].
    split; cbn; [intros c [Hc|[i Hi]]; [by apply not_elem_of_nil in Hc | by rewrite lookup_empty in Hi] | done |].
    intros c i Hc. by apply not_elem_of_nil in Hc. }
  split_and!; [apply Hok | |].
  - intros f idx e x new Hf Hidx. unfold updateDefaultInterface, update_default, update_locked, DefaultInterface.
    apply Z.eqb_neq in Hidx. rewrite Hidx, Hf. cbn.
    destruct (defaultInterfaceInitialized m); [destruct (defaultInterface m); [destruct (bool_decide _ && _); [done|]|]|];
      cbn; by rewrite (proj1 (tell_frame _ _ _)).
  - intros f e x. unfold updateDefaultInterface, update_default, DefaultInterface; cbn. by rewrite (proj1 (tell_frame _ _ _)).
Qed.

Abbreviation wlan := (MkInterface "wlan0" 3 "").
Abbreviation told_once := (updateDefaultInterface (fun _ => Some wlan) 3 false false (snd (RegisterCallback new_monitor))).

Lemma callbacks_know_default_witness :
  (0%nat ∈ callbacks told_once /\ m_told told_once !! 0%nat = Some (Some wlan)) /\
  same_interface (Some wlan) (DefaultInterface told_once).
Proof.
  assert (steps monitor_step new_monitor told_once) as Hs.
  { eapply steps_step; [apply step_register|]. apply steps_one, step_update. }
  split; [split; [by left | reflexivity]|].
  by apply (proj1 (callbacks_know_default told_once Hs) 0%nat (Some wlan)); [left | reflexivity].
Defined.

(** The callbacks of two updates may run after both have released the lock: then a
    callback can be left with the older interface. *)
Lemma late_callback_is_stale :
  let m0 := snd (RegisterCallback new_monitor) in
  let cell := MkInterface "rmnet0" 4 "" in
  let '(m1, call1) := update_locked (fun _ => Some wlan) 3 m0 in
  let '(m2, call2) := update_locked (fun _ => Some cell) 4 m1 in
  let m3 := foldl (tell (default None call2)) m2 (callbacks m2) in
  let m4 := foldl (tell (default None call1)) m3 (callbacks m1) in
  defaultInterface m4 = Some cell /\ m_told m4 !! 0%nat = Some (Some wlan).
Proof. by split. Qed.

End Monitor.

Module Tun.

Record RoutePrefix := MkRoutePrefix { address : Addr; prefix : Z }.

Definition mapRoutePrefix (prefixes : list Prefix) : MobileLog.Iterator.iterator RoutePrefix :=
  MobileLog.Iterator.newIterator ((fun p => MkRoutePrefix (p_addr p) (p_bits p)) <$> prefixes).

Definition Address (print : Addr -> string) (p : RoutePrefix) : string := print (address p).
Definition prefix_length (p : RoutePrefix) : Z := int32 (prefix p).

(** [String]: what net/netip prints for the prefix. *)
Definition RoutePrefix_String (PrintPrefix : Prefix -> string) (p : RoutePrefix) : string :=
  PrintPrefix (MkPrefix (address p) (prefix p)).

(** [net.CIDRMask] as a number; no mask for a length outside the address. *)
Definition CIDRMask (ones bits : Z) : option Z :=
  if (ones <? 0)%Z || (bits <? ones)%Z then None else Some (Z.shiftl (Z.ones ones) (bits - ones)).

(** [Mask] in the dotted form for IPv4; the IPv6 form is left to [print6]. *)
Definition Mask (print6 : Z -> string) (p : RoutePrefix) : string :=
  let bits := if Is6 (address p) then 128%Z else 32%Z in
  match CIDRMask (prefix p) bits with
  | None => "<nil>"
  | Some m => if Is6 (address p) then print6 m else print_addr4 m
  end.

Example mask_24 : Mask (fun _ => "") (MkRoutePrefix (Addr4 0) 24) = "255.255.255.0".
Proof. vm_compute. reflexivity. Qed.

Record HTTPProxy := MkHTTPProxy {
  Enabled : bool; Server : string; ServerPort : Z; BypassDomain : list string; MatchDomain : list string
}.

(** [tunOptions]: what is asked of sing-tun's options, the ranges, and the platform's. *)
Record tunOptions := MkTunOptions {
  Inet4Address : list Prefix; Inet6Address : list Prefix;
  DNSMode : string; DNSServerAddress : result (list Addr); MTU : Z;
  AutoRoute : bool; StrictRoute : bool;
  Inet4RouteAddress : list Prefix; Inet6RouteAddress : list Prefix;
  Inet4RouteExcludeAddress : list Prefix; Inet6RouteExcludeAddress : list Prefix;
  IncludePackage : list string; ExcludePackage : list string;
  routeRanges : list Prefix;
  HTTPProxyOptions : option HTTPProxy;
}.

Definition GetInet4Address (o : tunOptions) := mapRoutePrefix (Inet4Address o).
Definition GetInet6Address (o : tunOptions) := mapRoutePrefix (Inet6Address o).
Definition GetDNSServerAddress (print : Addr -> string) (o : tunOptions) :
    result (MobileLog.Iterator.iterator string) :=
  servers ← DNSServerAddress o; Ok (MobileLog.Iterator.newIterator (print <$> servers)).
Definition GetDNSMode (o : tunOptions) : string := DNSMode o.
Definition GetAutoRoute (o : tunOptions) : bool := AutoRoute o.
Definition GetStrictRoute (o : tunOptions) : bool := StrictRoute o.
Definition GetMTU (o : tunOptions) : Z := int32 (MTU o).
Definition GetInet4RouteAddress (o : tunOptions) := mapRoutePrefix (Inet4RouteAddress o).
Definition GetInet6RouteAddress (o : tunOptions) := mapRoutePrefix (Inet6RouteAddress o).
Definition GetInet4RouteExcludeAddress (o : tunOptions) := mapRoutePrefix (Inet4RouteExcludeAddress o).
Definition GetInet6RouteExcludeAddress (o : tunOptions) := mapRoutePrefix (Inet6RouteExcludeAddress o).
Definition GetInet4RouteRange (o : tunOptions) :=
  mapRoutePrefix (filter (fun p => Is4 (p_addr p) = true) (routeRanges o)).
Definition GetInet6RouteRange (o : tunOptions) :=
  mapRoutePrefix (filter (fun p => Is6 (p_addr p) = true) (routeRanges o)).
Definition GetIncludePackage (o : tunOptions) := MobileLog.Iterator.newIterator (IncludePackage o).
Definition GetExcludePackage (o : tunOptions) := MobileLog.Iterator.newIterator (ExcludePackage o).

Definition IsHTTPProxyEnabled (o : tunOptions) : bool :=
  match HTTPProxyOptions o with None => false | Some h => Enabled h end.

(** The others dereference the options of the proxy: without one they panic. *)
Definition GetHTTPProxyServer (o : tunOptions) : prog unit string :=
  h ← deref (HTTPProxyOptions o); mret (Server h).
Definition GetHTTPProxyServerPort (o : tunOptions) : prog unit Z :=
  h ← deref (HTTPProxyOptions o); mret (int32 (ServerPort h)).
Definition GetHTTPProxyBypassDomain (o : tunOptions) : prog unit (list string) :=
  h ← deref (HTTPProxyOptions o); mret (BypassDomain h).
Definition GetHTTPProxyMatchDomain (o : tunOptions) : prog unit (list string) :=
  h ← deref (HTTPProxyOptions o); mret (MatchDomain h).

(** Who asks [IsHTTPProxyEnabled] first never panics. *)
Lemma enabled_proxy_answers o :
  IsHTTPProxyEnabled o = true ->
  exists h, HTTPProxyOptions o = Some h /\ GetHTTPProxyServer o tt = (Returns (Server h), tt) /\
    GetHTTPProxyServerPort o tt = (Returns (int32 (ServerPort h)), tt).
Proof. unfold IsHTTPProxyEnabled. destruct (HTTPProxyOptions o) as [h|] eqn:E; [|done].
  intros _. exists h. unfold GetHTTPProxyServer, GetHTTPProxyServerPort. by rewrite E. Qed.

(** The ranges reach the platform split by family, none lost or repeated. *)
Lemma route_ranges_split o :
  Forall (fun p => IsValid (p_addr p) = true) (routeRanges o) ->
  MobileLog.Iterator.values (GetInet4RouteRange o) ++ MobileLog.Iterator.values (GetInet6RouteRange o) ≡ₚ
    MobileLog.Iterator.values (mapRoutePrefix (routeRanges o)).
Proof.
  unfold GetInet4RouteRange, GetInet6RouteRange, mapRoutePrefix; cbn. rewrite <- fmap_app.
  intros H. apply fmap_Permutation. induction H as [|[a b] l Ha Hl IH]; [done|].
  destruct a; [done| |].
  - rewrite !filter_cons, decide_True, decide_False by done. exact (Permutation_cons eq_refl IH).
  - rewrite !filter_cons, decide_False, decide_True by done. rewrite <- Permutation_middle.
    exact (Permutation_cons eq_refl IH).
Qed.
End Tun.

Module Service.
Import Tun.

(** What sing-box asks to be opened: the options, the uid and user options it cannot
    honour, and the ranges [BuildAutoRouteRanges] gives. *)
Record open_request := OpenRequest {
  IncludeUID : nat; ExcludeUID : nat; IncludeAndroidUser : nat;
  tun_options : tunOptions;
  BuildAutoRouteRanges : result (list Prefix);
}.

(** [platformInterfaceWrapper]: [useProcFS] is asked once; the monitor holds the rest;
    [w_descriptors] are the descriptors the core has duplicated for itself. *)
Record wrapper := MkWrapper {
  useProcFS : bool;
  myTunName : string;
  myTunAddress : list Addr;
  w_monitor : Monitor.monitor;
  w_descriptors : list Z;
}.

Definition newPlatformInterfaceWrapper (UseProcFS : bool) : wrapper :=
  MkWrapper UseProcFS "" [] Monitor.new_monitor [].

Definition tun_addresses (o : tunOptions) : list Addr :=
  (p_addr <$> Inet4Address o) ++ (p_addr <$> Inet6Address o).

Definition with_ranges (o : tunOptions) (ranges : list Prefix) : tunOptions :=
  MkTunOptions (Inet4Address o) (Inet6Address o) (DNSMode o) (DNSServerAddress o) (MTU o) (AutoRoute o)
    (StrictRoute o) (Inet4RouteAddress o) (Inet6RouteAddress o) (Inet4RouteExcludeAddress o)
    (Inet6RouteExcludeAddress o) (IncludePackage o) (ExcludePackage o) ranges (HTTPProxyOptions o).

(** [getTunnelName] on Darwin: the family of the socket, the option, and the name's form. *)
Definition getTunnelName_darwin (Getsockname : Z -> result bool) (GetsockoptString : Z -> result string) (fd : Z) :
    result string :=
  match Getsockname fd with
  | Err e => Err ("failed to inspect TUN device: " ++ e)
  | Ok false => Err "descriptor is not a kernel control socket, so it is not a utun"
  | Ok true =>
      match GetsockoptString fd with
      | Err e => Err ("failed to get name of TUN device: " ++ e)
      | Ok name =>
          if has_prefix name "utun" then Ok name
          else Err ("unexpected tunnel name " ++ quote name ++ ", refusing to treat it as a utun")
      end
  end%string.

(** No other descriptor is taken for a utun. *)
Lemma darwin_names_utun f g fd name :
  getTunnelName_darwin f g fd = Ok name -> f fd = Ok true /\ g fd = Ok name /\ has_prefix name "utun" = true.
Proof.
  unfold getTunnelName_darwin. destruct (f fd) as [[]|]; try done. destruct (g fd) as [n|]; [|done].
  destruct (has_prefix n "utun") eqn:E; [|done]. by intros [= <-].
Qed.

Section Open.
  (** [OpenTun] of the platform, the descriptor's name, [dup] and [tun.New]. *)
  Context (OpenTun : tunOptions -> result Z) (getTunnelName dup_name : Z -> result string).
  Context (dup : Z -> result Z) (tun_New : tunOptions -> string -> Z -> result unit).

Definition OpenInterface (r : open_request) : prog wrapper unit :=
  if (0 <? IncludeUID r)%nat || (0 <? ExcludeUID r)%nat then throw "platform: unsupported uid options"
  else if (0 <? IncludeAndroidUser r)%nat then throw "platform: unsupported android_user option"
  else
    ranges ← lift_result (BuildAutoRouteRanges r);
    tunFd ← lift_result (OpenTun (with_ranges (tun_options r) ranges));
    name ← cause "query tun name" (lift_result (getTunnelName tunFd));
    _ ← modify (fun w => MkWrapper (useProcFS w) (myTunName w) (myTunAddress w)
                           (Monitor.RegisterMyInterface name (w_monitor w)) (w_descriptors w));
    dupFd ← cause "dup tun file descriptor" (lift_result (dup tunFd));
    _ ← modify (fun w => MkWrapper (useProcFS w) name (tun_addresses (tun_options r)) (w_monitor w)
                           (w_descriptors w ++ [dupFd]));
    lift_result (tun_New (tun_options r) name dupFd).

(** The tunnel is opened on a copy of the platform's descriptor, its name is registered
    with the monitor before anything else can fail, and a failure before the copy leaves the
    wrapper's name, addresses and descriptors as they were. *)
Lemma OpenInterface_spec r w :
  wp (OpenInterface r)
    (fun _ w' => exists tunFd name dupFd ranges, OpenTun (with_ranges (tun_options r) ranges) = Ok tunFd /\
       getTunnelName tunFd = Ok name /\ dup tunFd = Ok dupFd /\ tun_New (tun_options r) name dupFd = Ok tt /\
       myTunName w' = name /\ myTunAddress w' = tun_addresses (tun_options r) /\
       w_descriptors w' = w_descriptors w ++ [dupFd] /\
       Monitor.MyInterfaces (w_monitor w') = Monitor.MyInterfaces (w_monitor w) ++ [name])
    (fun _ w' => (myTunName w' = myTunName w /\ myTunAddress w' = myTunAddress w /\ w_descriptors w' = w_descriptors w) \/
       exists tunFd dupFd, dup tunFd = Ok dupFd /\ w_descriptors w' = w_descriptors w ++ [dupFd]) w.
Proof.
  unfold OpenInterface. destruct (_ || _); [by wp_step; left|]. destruct (0 <? _)%nat; [by wp_step; left|].
  wp_step. wp_step; [|by left]. wp_step. wp_step; [|by left]. wp_step. wp_step. wp_step; [|by left].
  wp_step. wp_step. wp_step. wp_step. wp_step; [|by left]. wp_step. wp_step. wp_step.
  - destruct a3. by exists a0, a1, a2, a.
  - right. eauto.
Qed.
End Open.

(** ** The interfaces of the machine *)

(** What the platform reports, and what sing-box is given. *)
Record NetworkInterface := MkNetworkInterface {
  n_Index : Z; n_MTU : Z; n_Name : string; n_Addresses : list string; n_Flags : Z;
  n_Type : Z; n_DNSServer : list string; n_Gateway : list string; n_Metered : bool
}.

Record adapter_interface := MkAdapterInterface {
  a_Index : Z; a_MTU : Z; a_Name : string; a_Addresses : list Prefix; a_Flags : Z; a_Type : Z;
  a_DNSServers : list string; a_Gateways : list Addr; a_Expensive : bool; a_Constrained : bool
}.

(** [linkFlags]: the kernel's bits to those of Go's net package. The value of
    IFF_MULTICAST is the platform's. *)
Definition linkFlags (multicast : Z) (rawFlags : Z) : Z :=
  let bit raw flag := if Z.testbit rawFlags raw then flag else 0%Z in
  Z.lor (bit 0 1) (Z.lor (bit 6 32) (Z.lor (bit 1 2) (Z.lor (bit 3 4) (Z.lor (bit 4 8) (bit multicast 16)))))%Z.

Lemma linkFlags_bits multicast raw :
  Z.testbit (linkFlags multicast raw) 0 = Z.testbit raw 0 /\ Z.testbit (linkFlags multicast raw) 1 = Z.testbit raw 1 /\
  Z.testbit (linkFlags multicast raw) 2 = Z.testbit raw 3 /\ Z.testbit (linkFlags multicast raw) 3 = Z.testbit raw 4 /\
  Z.testbit (linkFlags multicast raw) 4 = Z.testbit raw multicast /\ Z.testbit (linkFlags multicast raw) 5 = Z.testbit raw 6 /\
  (0 <= linkFlags multicast raw < 64)%Z.
Proof.
  unfold linkFlags. destruct (Z.testbit raw 0), (Z.testbit raw 1), (Z.testbit raw 3), (Z.testbit raw 4),
    (Z.testbit raw 6), (Z.testbit raw multicast); vm_compute; by split_and!.
Qed.

Section Interfaces.
  #[local] Set Default Proof Using "Type".
  (** [GetInterfaces], the parsers of net/netip, and sing's [UniqBy] name. *)
  Context (GetInterfaces : result (list NetworkInterface)).
  Context (ParsePrefix : string -> option Prefix) (ParseAddr : string -> option Addr).
  Context (UniqByName : list adapter_interface -> list adapter_interface) (multicast : Z).

Definition isDefault (w : wrapper) (n : NetworkInterface) : bool :=
  negb (bool_decide (n_Name n = myTunName w)) &&
  match Monitor.DefaultInterface (w_monitor w) with
  | Some d => (n_Index n =? Monitor.Index d)%Z
  | None => false
  end.

(** A gateway that does not parse becomes the invalid address, which is dropped. *)
Definition gateway (it : string) : Addr := WithZone (Unmap (default NoAddr (ParseAddr it))) "".

Definition convert (w : wrapper) (n : NetworkInterface) (addresses : list Prefix) : adapter_interface :=
  let d := isDefault w n in
  MkAdapterInterface (n_Index n) (n_MTU n) (n_Name n) addresses
    (linkFlags multicast (uint32 (n_Flags n))) (n_Type n) (n_DNSServer n)
    (filter (fun a => IsValid a = true) (gateway <$> n_Gateway n))
    (n_Metered n || (d && Monitor.isExpensive (w_monitor w)))
    (d && Monitor.isConstrained (w_monitor w)).

(** The loop; an address that is no prefix panics in [MustParsePrefix]. *)
Fixpoint convert_all (w : wrapper) (l : list NetworkInterface) (acc : list adapter_interface) :
    prog wrapper (list adapter_interface) :=
  match l with
  | [] => mret acc
  | n :: l =>
      match mapM ParsePrefix (n_Addresses n) with
      | None => panic "netip.MustParsePrefix"
      | Some addresses => convert_all w l (acc ++ [convert w n addresses])
      end
  end.

Definition NetworkInterfaces : prog wrapper (list adapter_interface) := fun w =>
  (reported ← lift_result GetInterfaces;
   interfaces ← convert_all w reported [];
   mret (UniqByName interfaces)) w.

(** What [UniqBy] does: one of each name, each of those it was given. *)
Definition uniq_law : Prop := forall l,
  NoDup (a_Name <$> UniqByName l) /\ (forall a, a ∈ UniqByName l -> a ∈ l) /\
  (forall a, a ∈ l -> a_Name a ∈ (a_Name <$> UniqByName l)).

Lemma convert_all_spec w l : forall acc w',
  Forall (fun n => is_Some (mapM ParsePrefix (n_Addresses n))) l ->
  exists out, convert_all w l acc w' = (Returns (acc ++ out), w') /\
    Forall2 (fun n a => exists addresses, mapM ParsePrefix (n_Addresses n) = Some addresses /\
               a = convert w n addresses) l out.
Proof.
  induction l as [|n l IH]; intros acc w' Hl.
  - exists []. by rewrite app_nil_r.
  - apply Forall_cons in Hl as [[addresses Ha] Hl]. cbn [convert_all]. rewrite Ha.
    destruct (IH (acc ++ [convert w n addresses]) w' Hl) as (out & E & Hf).
    exists (convert w n addresses :: out). rewrite E, <- app_assoc. split; [done|].
    constructor; [|done]. by exists addresses.
Qed.

Lemma gateway_valid g : IsValid (gateway g) = true -> Zone (gateway g) = "" /\ Is4In6 (gateway g) = false.
Proof.
  unfold gateway. destruct (ParseAddr g) as [[|b|b z]|]; cbn [default Unmap WithZone];
    [done | by split | | done].
  change (id (Addr6 b z)) with (Addr6 b z). unfold Unmap. destruct (Is4In6 (Addr6 b z)) eqn:E; intros _;
    (split; [done | done || exact E]).
Qed.

(** the interfaces given to sing-box are one per name, each made of an interface the
    platform reported under that name; the tunnel's own name never counts as the default
    interface, what is not metered is expensive only as the default, constrained only as
    the default, and gateways are valid addresses without zone or IPv4 mapping. *)
Theorem NetworkInterfaces_spec w l :
  uniq_law -> GetInterfaces = Ok l ->
  Forall (fun n => is_Some (mapM ParsePrefix (n_Addresses n))) l ->
  exists out, NetworkInterfaces w = (Returns out, w) /\ NoDup (a_Name <$> out) /\
    (forall n, n ∈ l -> n_Name n ∈ (a_Name <$> out)) /\
    Forall (fun a => exists n, n ∈ l /\ a_Name a = n_Name n /\ a_Index a = n_Index n /\
      mapM ParsePrefix (n_Addresses n) = Some (a_Addresses a) /\
      Forall (fun g => IsValid g = true /\ Zone g = "" /\ Is4In6 g = false) (a_Gateways a) /\
      (a_Constrained a = true -> isDefault w n = true /\ a_Name a <> myTunName w) /\
      (a_Expensive a = true -> n_Metered n = false -> isDefault w n = true /\ a_Name a <> myTunName w)) out.
Proof.
  intros Hu Hg Hl. unfold NetworkInterfaces, mbind, prog_bind, lift_result. rewrite Hg.
  destruct (convert_all_spec w l [] w Hl) as (all & -> & Hf). cbn [app].
  exists (UniqByName all). destruct (Hu all) as (H1 & H2 & H3).
  assert (forall n, isDefault w n = true -> n_Name n <> myTunName w) as Hd.
  { intros n [H _]%andb_true_iff. by apply negb_true_iff, bool_decide_eq_false in H. }
  split_and!; [done | done | |].
  - intros n [i Hi]%list_elem_of_lookup. eapply Forall2_lookup_l in Hf as (a & Ha & addresses & _ & ->); [|done].
    apply (H3 (convert w n addresses)). by eapply list_elem_of_lookup_2.
  - apply Forall_forall. intros a [i Hi]%H2%list_elem_of_lookup.
    eapply Forall2_lookup_r in Hf as (n & Hn & addresses & Ha & ->); [|done].
    exists n. cbn. split_and!; [by eapply list_elem_of_lookup_2 | done | done | done | | |].
    + apply Forall_forall. intros g [Hv (x & -> & _)%list_elem_of_fmap]%list_elem_of_filter.
      split; [done|]. by apply gateway_valid.
    + intros [? _]%andb_true_iff. auto.
    + intros [?|[? _]%andb_true_iff]%orb_true_iff Hm; [congruence|auto].
Qed.
End Interfaces.

(** ** The owner of a connection *)

Record owner_request := OwnerRequest {
  IpProtocol : Z; SourceAddress : string; SourcePort : Z; DestinationAddress : string; DestinationPort : Z
}.

Record ConnectionOwner := MkOwner {
  UserId : Z; UserName : string; ProcessPath : string; AndroidPackageNames : list string
}.

Section Owner.
  Context (ParseAddr : string -> option Addr) (platform_Find : owner_request -> result ConnectionOwner).
  Context (little : bool) (table : string -> option (list string)) (cols : Procfs.columns).

Definition FindConnectionOwner (w : wrapper) (r : owner_request) : result ConnectionOwner :=
  if useProcFS w then
    let source := default NoAddr (ParseAddr (SourceAddress r)) in
    match (if (IpProtocol r =? 6)%Z then Some "tcp" else if (IpProtocol r =? 17)%Z then Some "udp" else None) with
    | None => Err ("unknown protocol: " ++ itoa (IpProtocol r))
    | Some network =>
        let uid := Procfs.resolveSocketByProcSearch little table cols network source (uint16 (SourcePort r)) in
        if (uid =? -1)%Z then Err "procfs: not found" else Ok (MkOwner uid "" "" [])
    end
  else platform_Find r.

(** With procfs the owner of a TCP connection is the one its table lists, composed from
    what the table lookup does. *)
Lemma FindConnectionOwner_tcp w r a socks :
  useProcFS w = true -> IpProtocol r = 6%Z -> ParseAddr (SourceAddress r) = Some a ->
  Procfs.addr_ok a -> (0 <= SourcePort r < 65536)%Z -> Procfs.table_ok (Is6 a) socks ->
  cols = Procfs.Columns 1 7 ->
  table (Procfs.table_path "tcp" a) = Some (Procfs.kernel_row little <$> socks) ->
  FindConnectionOwner w r =
    match Procfs.owner_of (head (filter (Procfs.same_socket a (SourcePort r)) socks)) with
    | -1 => Err "procfs: not found"
    | uid => Ok (MkOwner uid "" "" [])
    end%Z.
Proof.
  intros Hw Hp Ha Hok Hport Hsocks Hc Ht. unfold FindConnectionOwner. rewrite Hw, Hp, Ha. change (default NoAddr (Some a)) with a.
  change (6 =? 6)%Z with true. cbn iota. rewrite wrap_unsigned_small by (cbn; lia).
  unfold Procfs.resolveSocketByProcSearch. rewrite Hc. cbn [Procfs.procNetIndexOfLocal Procfs.procNetIndexOfUid].
  change ((1 <? 0)%Z || (7 <? 0)%Z) with false. cbn iota.
  rewrite bool_decide_false.
  2: { intros E. pose proof (Procfs.length_AsSlice a Hok) as Hl. rewrite E in Hl. by destruct (Is6 a). }
  rewrite Ht, Procfs.search_sockets by done.
  destruct (Procfs.owner_of _) as [|p|[p|p|]]; done.
Qed.
End Owner.

(** One interface, the default; and another with its name. *)
Abbreviation keep_first := (fun l : list adapter_interface =>
  foldl (fun acc a => if decide (a_Name a ∈ (a_Name <$> acc)) then acc else acc ++ [a]) [] l).
Abbreviation wifi := (MkNetworkInterface 3 1500 "wlan0" [] 4099 0 ["1.1.1.1"] ["192.168.1.1"; "x"] false).
Abbreviation on_wifi := (MkWrapper false "tun0" [] (Monitor.MkMonitor (Some Monitor.wlan) true false [] 0 [] true ∅) []).

Lemma keep_first_law : uniq_law keep_first.
Proof.
  intros l. induction l as [|a l IH] using rev_ind; [split_and!; [constructor | done | intros a Ha; by apply not_elem_of_nil in Ha]|].
  rewrite foldl_snoc. destruct IH as (H1 & H2 & H3). case_decide as Hd.
  - split_and!; [done | intros x Hx; apply elem_of_app; left; auto |].
    intros x [Hx| ->%list_elem_of_singleton]%elem_of_app; auto.
  - split_and!.
    + rewrite fmap_app. apply NoDup_app. split_and!; [done | | apply NoDup_singleton].
      intros n Hn ->%list_elem_of_singleton. done.
    + intros x [Hx|Hx]%elem_of_app; apply elem_of_app; auto.
    + intros x [Hx|Hx]%elem_of_app; rewrite fmap_app; apply elem_of_app; [left; auto|right].
      apply list_elem_of_singleton in Hx as ->. by left.
Qed.

Lemma NetworkInterfaces_spec_witness :
  exists out, NetworkInterfaces (Ok [wifi; wifi]) (fun _ => None) parse_addr4 keep_first 12 on_wifi = (Returns out, on_wifi) /\
    NoDup (a_Name <$> out).
Proof.
  destruct (NetworkInterfaces_spec (Ok [wifi; wifi]) (fun _ => None) parse_addr4 keep_first 12 on_wifi [wifi; wifi]
    keep_first_law eq_refl) as (out & E & Hn & _); [repeat constructor; by eexists|].
  by exists out.
Defined.

End Service.
