(* ===== verification/MobileCommand.v ===== *)
(** * What the application asks of an instance: src/mobile/command.go, dns.go, platform.go,
    mobile.go, and the answers of the stub platform in context.go

    [Status] the traffic counters, [Groups] the outbound groups and what is done with
    them, [Dns] the platform's resolver, [Setup] the paths, [Answers] the features the
    bindings claim to sing-box. *)

From S2P Require Import Prelude GoStr GoNet.
From S2P Require MobileLog.

#[local] Open Scope string_scope.
#[local] Open Scope list_scope.

(** ** Status *)

Module Status.

Record sampler := Sampler { statusSampled : bool; lastUplinkTotal : Z; lastDownlinkTotal : Z }.

Definition fresh_sampler : sampler := Sampler false 0 0.

Record StatusMessage := MkStatus {
  Memory : Z; Goroutines : Z; ConnectionsIn : Z; ConnectionsOut : Z; TrafficAvailable : bool;
  Uplink : Z; Downlink : Z; UplinkTotal : Z; DownlinkTotal : Z
}.

(** What the runtime, the connection manager and the traffic manager report. *)
Record readings := Readings {
  memory_total : Z; memory_inuse : Z; goroutines : Z;
  connections : option Z;              (* [Count], with a connection manager *)
  traffic : option (Z * Z * Z)         (* [Total] up and down, [ConnectionsLen] *)
}.

(** The critical section of [Status]: what moved since the sample before. *)
Definition sample (up down : Z) (s : sampler) : (Z * Z) * sampler :=
  (if statusSampled s
   then (int64 (up - lastUplinkTotal s), int64 (down - lastDownlinkTotal s))
   else (0, 0),
   Sampler true up down)%Z.

Definition Status (running : bool) (r : readings) (s : sampler) : StatusMessage * sampler :=
  let mem := if (memory_total r =? 0)%Z then int64 (memory_inuse r) else int64 (memory_total r) in
  if running then
    let out := match connections r with Some n => int32 n | None => 0%Z end in
    match traffic r with
    | None => (MkStatus mem (int32 (goroutines r)) 0 out false 0 0 0 0, s)
    | Some (up, down, n) =>
        let '((du, dd), s) := sample up down s in
        (MkStatus mem (int32 (goroutines r)) (int32 n) out true du dd up down, s)
    end
  else (MkStatus mem (int32 (goroutines r)) 0 0 false 0 0 0 0, s).

(** A sequence of samples, in the order in which they take the lock. *)
Fixpoint samples (l : list (Z * Z)) (s : sampler) : list (Z * Z) * sampler :=
  match l with
  | [] => ([], s)
  | (up, down) :: l =>
      let '(d, s) := sample up down s in
      let '(ds, s) := samples l s in (d :: ds, s)
  end.

Definition sum (l : list Z) : Z := foldr Z.add 0%Z l.

Lemma wrap_signed_add w a b : (0 < w)%Z -> wrap_signed w (wrap_signed w a + b) = wrap_signed w (a + b).
Proof.
  intros Hw. unfold wrap_signed. f_equal.
  replace ((a + 2 ^ (w - 1)) mod 2 ^ w - 2 ^ (w - 1) + b + 2 ^ (w - 1))%Z
    with ((a + 2 ^ (w - 1)) mod 2 ^ w + b)%Z by lia.
  rewrite Zplus_mod_idemp_l. f_equal. lia.
Qed.

Lemma wrap_signed_congr w a b c :
  (0 < w)%Z -> wrap_signed w b = wrap_signed w c -> wrap_signed w (a + b) = wrap_signed w (a + c).
Proof.
  intros Hw E. rewrite (Z.add_comm a b), (Z.add_comm a c).
  by rewrite <- (wrap_signed_add w b a Hw), <- (wrap_signed_add w c a Hw), E.
Qed.

Lemma samples_telescope l : forall s, statusSampled s = true ->
  let '(ds, s') := samples l s in
  statusSampled s' = true /\
  int64 (sum ds.*1) = int64 (lastUplinkTotal s' - lastUplinkTotal s) /\
  int64 (sum ds.*2) = int64 (lastDownlinkTotal s' - lastDownlinkTotal s).
Proof.
  induction l as [|[up down] l IH]; intros s Hs; cbn.
  - by rewrite !Z.sub_diag.
  - rewrite Hs. specialize (IH (Sampler true up down) eq_refl).
    destruct (samples l (Sampler true up down)) as [ds s']. destruct IH as (H1 & H2 & H3).
    cbn in *. split_and!; [done| |].
    + rewrite wrap_signed_add, (wrap_signed_congr 64 _ _ _ ltac:(lia) H2) by lia. f_equal. lia.
    + rewrite wrap_signed_add, (wrap_signed_congr 64 _ _ _ ltac:(lia) H3) by lia. f_equal. lia.
Qed.

(** however the calls of [Status] interleave between reading the totals and taking the
    lock, the rates they report add up (in 64 bits) to what moved between the first and
    the last sample: nothing is counted twice and nothing is lost; the first reports none. *)
Theorem status_rates_add_up up down l :
  let '(ds, s) := samples ((up, down) :: l) fresh_sampler in
  head ds = Some (0, 0)%Z /\
  lastUplinkTotal s = default up (last l.*1) /\ lastDownlinkTotal s = default down (last l.*2) /\
  int64 (sum ds.*1) = int64 (default up (last l.*1) - up) /\
  int64 (sum ds.*2) = int64 (default down (last l.*2) - down).
Proof.
  cbn. pose proof (samples_telescope l (Sampler true up down) eq_refl) as H.
  assert (forall s, let '(_, s') := samples l s in
    lastUplinkTotal s' = default (lastUplinkTotal s) (last l.*1) /\
    lastDownlinkTotal s' = default (lastDownlinkTotal s) (last l.*2)) as Hlast.
  { clear. induction l as [|[u d] l IH]; intros s; cbn [samples]; [done|].
    unfold sample. specialize (IH (Sampler true u d)). destruct (samples l (Sampler true u d)) as [ds s'].
    cbn in IH. destruct IH as [-> ->].
    change ((u, d) :: l).*1 with (u :: l.*1). change ((u, d) :: l).*2 with (d :: l.*2).
    rewrite !last_cons. by destruct (last l.*1), (last l.*2). }
  specialize (Hlast (Sampler true up down)).
  destruct (samples l (Sampler true up down)) as [ds s]. destruct H as (_ & H1 & H2), Hlast as [L1 L2].
  rewrite L1 in H1. rewrite L2 in H2. split_and!; [done | exact L1 | exact L2 | exact H1 | exact H2].
Qed.

(** Samples that take the lock in another order than they read the totals report a
    negative rate, which the next sample makes up for. *)
Example overtaken_sample : fst (samples [(0, 0); (200, 0); (100, 0); (300, 0)] fresh_sampler)%Z =
  [(0, 0); (200, 0); (-100, 0); (200, 0)]%Z.
Proof. vm_compute. reflexivity. Qed.

(** [QueryOutboundStats]: the totals of a tag, by the direction's names. *)
Definition QueryOutboundStats (TotalOutbound : option (string -> Z * Z)) (tag direction : string) : Z :=
  match TotalOutbound with
  | None => 0
  | Some total =>
      let '(up, down) := total tag in
      if bool_decide (direction ∈ ["uplink"; "up"; "upload"]) then up
      else if bool_decide (direction ∈ ["downlink"; "down"; "download"]) then down
      else 0
  end.

End Status.

(** ** Groups *)

Module Groups.

(** An outbound, as far as its Go type is asked for. *)
Inductive kind := Selector | URLTestGroup | OtherGroup | Plain.

#[export] Instance kind_eq_dec : EqDecision kind.
Proof. solve_decision. Defined.

Record outbound := MkOutbound {
  o_tag : string; o_type : string; o_kind : kind; o_now : string; o_all : list string
}.

Definition is_group (o : outbound) : bool := match o_kind o with Plain => false | _ => true end.

Record OutboundGroupItem := MkItem { it_Tag : string; it_Type : string; it_URLTestTime : Z; it_URLTestDelay : Z }.

Record OutboundGroup := MkGroup {
  g_Tag : string; g_Type : string; g_Selectable : bool; g_Selected : string; g_IsExpand : bool;
  itemList : list OutboundGroupItem
}.

(** [GetItems], read back on the other side of the binding. *)
Definition GetItems (g : OutboundGroup) : MobileLog.Iterator.iterator OutboundGroupItem :=
  MobileLog.Iterator.newIterator (itemList g).

Section Instance_.
  #[local] Set Default Proof Using "Type".
  (** The outbound manager's list; the cache file's expansion of a group, where there is a
      cache file; the history by tag with its Unix time and delay; sing-box's [RealTag]. *)
  Context (outbounds : list outbound) (LoadGroupExpand : option (string -> option bool)).
  Context (history : gmap string (Z * Z)) (RealTag : outbound -> string).

(** [Outbound(tag)]: tags are unique in the manager. *)
Definition Outbound (tag : string) : option outbound := snd <$> list_find (fun o => o_tag o = tag) outbounds.

Definition group_item (tag : string) : option OutboundGroupItem :=
  match Outbound tag with
  | None => None
  | Some o =>
      let '(t, d) := match history !! RealTag o with Some (t, d) => (t, int32 d) | None => (0, 0)%Z end in
      Some (MkItem tag (o_type o) t d)
  end.

Definition make_group (o : outbound) : OutboundGroup :=
  MkGroup (o_tag o) (o_type o) (bool_decide (o_kind o = Selector)) (o_now o)
    (match LoadGroupExpand with Some load => default false (load (o_tag o)) | None => false end)
    (omap group_item (o_all o)).

(** The loop of [Groups], with the groups so far. *)
Fixpoint groups_from (acc : list OutboundGroup) (l : list outbound) : list OutboundGroup :=
  match l with
  | [] => acc
  | o :: l =>
      if is_group o then
        let g := make_group o in
        if bool_decide (itemList g = []) then groups_from acc l else groups_from (acc ++ [g]) l
      else groups_from acc l
  end.

Definition Groups (running : bool) : list OutboundGroup := if running then groups_from [] outbounds else [].

Lemma groups_from_spec l : forall acc,
  groups_from acc l = acc ++ filter (fun g => itemList g <> []) (make_group <$> filter (fun o => is_group o = true) l).
Proof.
  induction l as [|o l IH]; intros acc; cbn [groups_from]; [by rewrite app_nil_r|].
  rewrite filter_cons. destruct (is_group o) eqn:E; [|by rewrite decide_False, IH by done].
  rewrite decide_True, fmap_cons, filter_cons by done.
  destruct (bool_decide (itemList (make_group o) = [])) eqn:Eb.
  - apply bool_decide_eq_true in Eb. rewrite decide_False by tauto. apply IH.
  - apply bool_decide_eq_false in Eb. rewrite decide_True by done. by rewrite IH, <- app_assoc.
Qed.

(** [SelectOutbound] on a selector: sing-box's method decides. *)
Definition SelectOutbound (running : bool) (selector_Select : string -> string -> bool) (groupTag outboundTag : string) :
    result unit :=
  if negb running then Err "instance is not running"
  else
    match Outbound groupTag with
    | None => Err ("selector not found: " ++ groupTag)
    | Some o =>
        if bool_decide (o_kind o = Selector) then
          if selector_Select groupTag outboundTag then Ok tt
          else Err ("outbound not found in selector: " ++ outboundTag)
        else Err ("outbound is not a selector: " ++ groupTag)
    end%string.

(** What [URLTestGroup] starts in the background. *)
Inductive job :=
| CheckOutbounds (tag : string)
| TestOutbounds (members : list outbound)
| TestOne (o : outbound).

Definition start_test (running : bool) (groupTag : string) : result job :=
  if negb running then Err "instance is not running"
  else
    match Outbound groupTag with
    | None => Err ("outbound not found: " ++ groupTag)%string
    | Some o =>
        match o_kind o with
        | URLTestGroup => Ok (CheckOutbounds groupTag)
        | Selector | OtherGroup => Ok (TestOutbounds (omap Outbound (o_all o)))
        | Plain => Ok (TestOne o)
        end
    end.
End Instance_.

(** The goroutine for a plain outbound: the history of its tag is what the test gave. *)
Definition test_one (tag : string) (outcome : result Z) (now : Z) (h : gmap string (Z * Z)) : gmap string (Z * Z) :=
  match outcome with
  | Err _ => delete tag h
  | Ok delay => <[tag := (now, delay)]> h
  end.

(** [Groups] after the test of a member shows its result, and no result that failed. *)
Lemma tested_item outbounds RealTag h o outcome now :
  Outbound outbounds (o_tag o) = Some o -> RealTag o = o_tag o ->
  group_item outbounds (test_one (o_tag o) outcome now h) RealTag (o_tag o) =
    Some (MkItem (o_tag o) (o_type o) (if is_ok outcome then now else 0)
            (match outcome with Ok d => int32 d | Err _ => 0 end)%Z).
Proof.
  intros Ho Hr. unfold group_item, test_one. rewrite Ho, Hr. destruct outcome as [d|e]; cbn.
  - by rewrite lookup_insert_eq.
  - by rewrite lookup_delete_eq.
Qed.

(** Clash modes: nothing without the manager. *)
Definition ClashMode (mode : option string) : string := default "" mode.
Definition ClashModeList (modes : option (list string)) : MobileLog.Iterator.iterator string :=
  MobileLog.Iterator.newIterator (default [] modes).
Definition SetClashMode (mode : string) (current : option string) : result (option string) :=
  match current with
  | None => Err "clash mode not available"
  | Some _ => Ok (Some mode)
  end.

End Groups.

(** ** The platform's resolver *)

Module Dns.

(** What the platform calls on an [ExchangeContext] while it resolves. *)
Inductive answer :=
| Success (result : string)
| RawSuccess (result : string)
| ErrorCode (code : Z)
| ErrnoCode (code : Z).

Section Transport.
  #[local] Set Default Proof Using "Type".
  (** Messages and their wire form (miekg/dns), sing's parser of a host without port, the
      text of DNS and system error codes, [FixedResponse]. *)
  Context {Msg : Type} (empty_msg : Msg) (Pack : Msg -> result string) (Unpack : string -> result Msg).
  Context (parse_host : string -> Addr) (RcodeError Errno : Z -> string).
  Context (FixedResponse : Msg -> list Addr -> Msg).

Record ExchangeContext := MkExchange { message : Msg; addresses : list Addr; error : option string }.

Definition new_exchange : ExchangeContext := MkExchange empty_msg [] None.

(** [Success], [RawSuccess], [ErrorCode] and [ErrnoCode]. *)
Definition on_answer (c : ExchangeContext) (a : answer) : ExchangeContext :=
  match a with
  | Success text =>
      MkExchange (message c) (parse_host <$> filter (fun it => it <> "") (split_by "010"%char text)) (error c)
  | RawSuccess bytes =>
      match Unpack bytes with
      | Ok m => MkExchange m (addresses c) (error c)
      | Err e => MkExchange (message c) (addresses c) (Some ("parse response: " ++ e)%string)
      end
  | ErrorCode code => MkExchange (message c) (addresses c) (Some (RcodeError code))
  | ErrnoCode code => MkExchange (message c) (addresses c) (Some (Errno code))
  end.

(** The query type of the first question; sing-box asks one. *)
Inductive qtype := TypeA | TypeAAAA | OtherType.

(** The platform's side: its preference, and the answers and error of a call. *)
Record platform_side := PlatformSide {
  Raw : bool;
  Exchange_call : string -> list answer * option string;
  Lookup_call : string -> string -> list answer * option string
}.

(** The goroutine's result: the platform's error, or else the one it was told. *)
Definition finish (call : list answer * option string) : ExchangeContext * option string :=
  let c := foldl on_answer new_exchange (fst call) in
  (c, match snd call with Some e => Some e | None => error c end).

(** [Exchange]; [late]: the context ends before the platform has answered. *)
Definition Exchange (iif : platform_side) (preferred : option Msg) (late : option string)
    (query : Msg) (question : option (qtype * string)) : outcome Msg :=
  match preferred with
  | Some m => Returns m
  | None =>
      if Raw iif then
        match Pack query with
        | Err e => Fails e
        | Ok bytes =>
            match late with
            | Some e => Fails e
            | None =>
                let '(c, err) := finish (Exchange_call iif bytes) in
                match err with Some e => Fails e | None => Returns (message c) end
            end
        end
      else
        match question with
        | None => Panics "index out of range"
        | Some (OtherType, _) => Fails "only IP queries are supported by current version of Android"
        | Some (t, name) =>
            match late with
            | Some e => Fails e
            | None =>
                let '(c, err) := finish (Lookup_call iif (match t with TypeA => "ip4" | _ => "ip6" end) name) in
                match err with Some e => Fails e | None => Returns (FixedResponse query (addresses c)) end
            end
        end
  end.

(** The errors the platform reports, in order. *)
Definition told_error (a : answer) : option string :=
  match a with
  | Success _ => None
  | RawSuccess bytes => match Unpack bytes with Ok _ => None | Err e => Some ("parse response: " ++ e)%string end
  | ErrorCode code => Some (RcodeError code)
  | ErrnoCode code => Some (Errno code)
  end.

Lemma error_sticks l : forall c,
  error (foldl on_answer c l) = match last (omap told_error l) with Some e => Some e | None => error c end.
Proof.
  induction l as [|a l IH]; intros c; cbn [foldl]; [done|].
  rewrite IH. change (omap told_error (a :: l)) with
    (match told_error a with Some e => e :: omap told_error l | None => omap told_error l end).
  destruct a; cbn [told_error on_answer].
  - done.
  - destruct (Unpack result); [done|]. rewrite last_cons. by destruct (last (omap told_error l)).
  - rewrite last_cons. by destruct (last (omap told_error l)).
  - rewrite last_cons. by destruct (last (omap told_error l)).
Qed.

(** a query is answered by the preferred resolver if that has an answer, fails with
    the context's error when it ends first, and otherwise fails with the platform's own
    error or the last one it reported, whatever it reported besides; only address queries
    reach a platform that is not raw. *)
Theorem Exchange_outcome iif preferred late query question :
  match Exchange iif preferred late query question with
  | Returns m =>
      preferred = Some m \/
      (preferred = None /\ late = None /\
       exists call, (if Raw iif then exists bytes, Pack query = Ok bytes /\ call = Exchange_call iif bytes
                     else exists t name, question = Some (t, name) /\ t <> OtherType /\
                            call = Lookup_call iif (match t with TypeA => "ip4" | _ => "ip6" end) name) /\
         snd call = None /\ Forall (fun a => told_error a = None) (fst call))
  | Fails e => preferred = None /\ (forall e', late = Some e' -> e = e' \/ Raw iif = true \/
                 exists name, question = Some (OtherType, name))
  | Panics _ => preferred = None /\ Raw iif = false /\ question = None
  end.
Proof.
  unfold Exchange. destruct preferred as [m|]; [by left|].
  assert (forall call c, finish call = (c, None) -> snd call = None /\ Forall (fun a => told_error a = None) (fst call)) as Hok.
  { intros [l [e|]] c; unfold finish; cbn [fst snd]; [done|]. intros [= _ E]. split; [done|].
    rewrite error_sticks in E. destruct (last (omap told_error l)) eqn:El; [done|]. apply last_None in El.
    clear - El. induction l as [|a l IH]; [constructor|].
    change (omap told_error (a :: l)) with
      (match told_error a with Some e => e :: omap told_error l | None => omap told_error l end) in El.
    destruct (told_error a) eqn:Ea; [done|]. constructor; auto. }
  destruct (Raw iif) eqn:ER.
  - destruct (Pack query) as [bytes|e]; [|split; [done|]; auto].
    destruct late as [e|]; [split; [done|]; intros e' [= ->]; by left|].
    destruct (finish (Exchange_call iif bytes)) as [c [e|]] eqn:E; [done|].
    right. split; [done|]. split; [done|]. exists (Exchange_call iif bytes). split; [by exists bytes|]. by eapply Hok.
  - destruct question as [[t name]|]; [|done]. destruct t.
    3: { split; [done|]. intros e' _. right. right. by exists name. }
    all: destruct late as [e|]; [split; [done|]; intros e' [= ->]; by left|].
    all: destruct (finish _) as [c [e|]] eqn:E; [done|].
    all: right; split; [done|]; split; [done|]; eexists; split; [|by eapply Hok].
    + by exists TypeA, name.
    + by exists TypeAAAA, name.
Qed.

(** [Environment]: the DNS servers of the default interface. *)
Definition Environment (network_manager : option (option (list string))) : list string :=
  match network_manager with Some (Some servers) => servers | _ => [] end.
End Transport.

End Dns.

(** ** Owners and paths *)

Module Setup.
Import MobileLog.Iterator.

Record ConnectionOwner := MkOwner { UserId : Z; UserName : string; ProcessPath : string; androidPackageNames : list string }.

Definition SetAndroidPackageNames (fuel : nat) (names : option (MobileLog.Iterator.iterator string))
    (c : ConnectionOwner) : option ConnectionOwner :=
  (fun l => MkOwner (UserId c) (UserName c) (ProcessPath c) l) <$> MobileLog.Iterator.iteratorToArray fuel names.
Definition get_AndroidPackageNames (c : ConnectionOwner) : MobileLog.Iterator.iterator string :=
  MobileLog.Iterator.newIterator (androidPackageNames c).

(** What is set on an owner is what is read from it. *)
Lemma package_names_kept c names fuel :
  (length names < fuel)%nat ->
  get_AndroidPackageNames <$> SetAndroidPackageNames fuel (Some (MobileLog.Iterator.newIterator names)) c =
    Some (MobileLog.Iterator.newIterator names).
Proof.
  intros Hf. unfold SetAndroidPackageNames, MobileLog.Iterator.iteratorToArray.
  by rewrite MobileLog.Iterator.collect_iterator.
Qed.

Record SetupOptions := MkSetup { BasePath : string; WorkingPath : string; TempPath : string; LogMaxLines : Z; Debug : bool }.

(** The package's variables, the log pump and the directories there are. *)
Record globals := Globals {
  sBasePath : string; sWorkingPath : string; sTempPath : string; sDebug : bool;
  log_pump : MobileLog.LogPump.logPump;
  directories : list string
}.

Section Paths.
  Context (MkdirAll : string -> result unit).

(** The loop over the directories. *)
Fixpoint make_dirs (dirs : list string) : prog globals unit :=
  match dirs with
  | [] => mret tt
  | dir :: dirs =>
      if bool_decide (dir = "") then make_dirs dirs
      else
        _ ← cause ("create " ++ dir)%string (lift_result (MkdirAll dir));
        _ ← modify (fun g => Globals (sBasePath g) (sWorkingPath g) (sTempPath g) (sDebug g) (log_pump g)
                               (directories g ++ [dir]));
        make_dirs dirs
  end.

Definition Setup (options : option SetupOptions) : prog globals unit :=
  match options with
  | None => throw "nil setup options"
  | Some o =>
      _ ← modify (fun g => Globals (BasePath o) (WorkingPath o) (TempPath o) (Debug o)
                             (MobileLog.LogPump.setLimit (int64 (LogMaxLines o)) (log_pump g)) (directories g));
      make_dirs [BasePath o; WorkingPath o; TempPath o]
  end.

Lemma make_dirs_spec dirs : forall g,
  wp (make_dirs dirs)
    (fun _ g' => directories g' = directories g ++ filter (fun d => d <> "") dirs /\
       Forall (fun d => d = "" \/ MkdirAll d = Ok tt) dirs /\ sBasePath g' = sBasePath g /\ log_pump g' = log_pump g)
    (fun e g' => exists d, d ∈ dirs /\ (exists e', MkdirAll d = Err e' /\ e = (("create " ++ d) ++ ": " ++ e')%string) /\
       sBasePath g' = sBasePath g /\ log_pump g' = log_pump g) g.
Proof.
  induction dirs as [|d dirs IH]; intros g; cbn [make_dirs].
  - wp_step. by rewrite app_nil_r.
  - rewrite filter_cons. destruct (bool_decide (d = "")) eqn:E.
    + apply bool_decide_eq_true in E. rewrite decide_False by tauto.
      eapply wp_mono; [apply IH | |].
      * intros _ g' (-> & H & ? & ?). split_and!; auto.
      * intros e g' (d' & ? & H & ? & ?). exists d'. split_and!; auto. by right.
    + apply bool_decide_eq_false in E. rewrite decide_True by done.
      wp_step. wp_step. wp_step.
      * wp_step. wp_step. eapply wp_mono; [apply IH | |].
        -- intros _ g' (-> & Hd & ? & ?). cbn. rewrite <- app_assoc. split_and!; auto. constructor; [|done].
           right. by destruct a.
        -- intros e g' (d' & ? & Hd & ? & ?). exists d'. split_and!; auto. by right.
      * exists d. split_and!; [by left | | done | done]. by exists e.
Qed.
End Paths.
End Setup.

(** ** The features claimed to sing-box *)

Module Answers.

Inductive feature :=
| AutoDetectInterfaceControl | PlatformInterface | DefaultInterfaceMonitor | NetworkInterfaces
| WIFIMonitor | ConnectionOwnerFinder | Notifications | NeighborResolver | Shell | Bridge.

Inductive operation :=
| DoAutoDetectInterfaceControl | OpenInterface | StartInterfaceMonitor | ListNetworkInterfaces
| ReadWIFIState | FindConnectionOwner | SendNotification | CancelNotification
| StartNeighborMonitor | CloseNeighborMonitor | CheckPlatformShell | OpenShellSession | LookupUser
| LookupSFTPServer | ReadSystemSSHHostKey | CreateBridge.

(** An operation is refused with [os.ErrInvalid], does nothing and succeeds, or is passed on
    to the platform. *)
Inductive reply := Refused | Nothing | Passed.

(** The feature an operation belongs to. *)
Definition feature_of (o : operation) : feature :=
  match o with
  | DoAutoDetectInterfaceControl => AutoDetectInterfaceControl
  | OpenInterface => PlatformInterface
  | StartInterfaceMonitor => DefaultInterfaceMonitor
  | ListNetworkInterfaces => NetworkInterfaces
  | ReadWIFIState => WIFIMonitor
  | FindConnectionOwner => ConnectionOwnerFinder
  | SendNotification | CancelNotification => Notifications
  | StartNeighborMonitor | CloseNeighborMonitor => NeighborResolver
  | CheckPlatformShell | OpenShellSession | LookupUser | LookupSFTPServer | ReadSystemSSHHostKey => Shell
  | CreateBridge => Bridge
  end.

Record answers := MkAnswers {
  uses : feature -> bool;
  answer_to : operation -> reply;
  UnderNetworkExtension : bool;
  NetworkExtensionIncludeAllNetworks : bool;
  TailscaleHostname : string
}.

(** [interfaceMonitorStub]: started or closed it refuses; it knows no interface, and
    neither takes nor forgets a callback. *)
Definition interfaceMonitorStub (o : operation) : reply := Refused.

(** What [CheckConfig] builds a box with. *)
Definition platformInterfaceStub : answers :=
  MkAnswers
    (fun f => match f with
              | AutoDetectInterfaceControl => true
              | PlatformInterface => false
              | DefaultInterfaceMonitor => true
              | NetworkInterfaces => false
              | WIFIMonitor => false
              | ConnectionOwnerFinder => false
              | Notifications => false
              | NeighborResolver => false
              | Shell => false
              | Bridge => false
              end)
    (fun o => match o with
              | DoAutoDetectInterfaceControl => Nothing
              | OpenInterface => Refused
              | StartInterfaceMonitor => interfaceMonitorStub o
              | ListNetworkInterfaces => Refused
              | ReadWIFIState => Nothing
              | FindConnectionOwner => Refused
              | SendNotification => Nothing
              | CancelNotification => Nothing
              | StartNeighborMonitor => Refused
              | CloseNeighborMonitor => Nothing
              | CheckPlatformShell => Nothing
              | OpenShellSession => Refused
              | LookupUser => Refused
              | LookupSFTPServer => Refused
              | ReadSystemSSHHostKey => Refused
              | CreateBridge => Refused
              end)
    false false "".

(** What a box that runs is built with; [auto] is the platform's own answer. *)
Definition wrapper_answers (auto : bool) : answers :=
  MkAnswers
    (fun f => match f with
              | AutoDetectInterfaceControl => auto
              | PlatformInterface | DefaultInterfaceMonitor | NetworkInterfaces => true
              | WIFIMonitor | ConnectionOwnerFinder | Notifications => true
              | NeighborResolver | Shell | Bridge => false
              end)
    (fun o => match o with
              | DoAutoDetectInterfaceControl | OpenInterface | StartInterfaceMonitor | ListNetworkInterfaces => Passed
              | ReadWIFIState | FindConnectionOwner | SendNotification | CancelNotification => Passed
              | CloseNeighborMonitor | CheckPlatformShell => Nothing
              | StartNeighborMonitor | OpenShellSession | LookupUser | LookupSFTPServer
              | ReadSystemSSHHostKey | CreateBridge => Refused
              end)
    false false "".

(** A running box is never refused an operation of a feature it was told to use, and no
    operation of another feature reaches the platform. *)
Lemma wrapper_consistent auto o :
  (uses (wrapper_answers auto) (feature_of o) = true -> answer_to (wrapper_answers auto) o = Passed) /\
  (feature_of o <> AutoDetectInterfaceControl ->
   uses (wrapper_answers auto) (feature_of o) = false -> answer_to (wrapper_answers auto) o <> Passed).
Proof. by destruct o, auto. Qed.

(** The stub passes nothing on; of the features it claims, only the interface monitor is
    refused, when a box is started, which [CheckConfig] never does. *)
Lemma stub_consistent o :
  answer_to platformInterfaceStub o <> Passed /\
  (uses platformInterfaceStub (feature_of o) = true -> answer_to platformInterfaceStub o = Refused ->
   o = StartInterfaceMonitor).
Proof. by destruct o. Qed.

End Answers.
