(* ===== verification/MobilePlatform.v ===== *)
(** * Boxes and their platform: src/mobile/service.go, monitor.go, context.go, dns.go,
    log.go, platform.go

    [Boxes] puts the wrapper of [MobileNet.Service] and the monitor of [MobileNet.Monitor]
    together with the network managers of the boxes they belong to: which box an update of
    the default interface refreshes, and what the refreshed box sees. [Forwards] has the
    calls that are passed on to the platform, [Context] what a box is built over, [StdLog]
    the redirection of Go's own log. *)

From S2P Require Import Prelude GoStr GoNet.
From S2P Require MobileLog MobileNet MobileCommand.
Import MobileNet.

#[local] Open Scope string_scope.
#[local] Open Scope list_scope.

Module Boxes.

Definition with_monitor (f : Monitor.monitor -> Monitor.monitor) (w : Service.wrapper) : Service.wrapper :=
  Service.MkWrapper (Service.useProcFS w) (Service.myTunName w) (Service.myTunAddress w)
    (f (Service.w_monitor w)) (Service.w_descriptors w).

Section Boxes.
  (** sing-box's [NetworkManager]: what it keeps, [UpdateInterfaces], which asks the platform
      interface of its own context for the interfaces, and the finder's [ByIndex]. *)
  Context {Kept : Type} (new_manager : Kept).
  Context (UpdateInterfaces : Service.wrapper -> Kept -> result unit * Kept).
  Context (ByIndex : Kept -> Z -> option Monitor.Interface).

(** A manager with the wrapper in its context, by number; a wrapper with its field
    [networkManager]. *)
Record manager := Manager { m_platform : nat; m_kept : Kept }.
Record side := Side { s_wrapper : Service.wrapper; networkManager : option nat }.
Record world := World { sides : gmap nat side; managers : gmap nat manager; next : nat }.

Definition nothing : world := World ∅ ∅ 0.

(** [newPlatformInterfaceWrapper] as a new object, and [box.New] over a wrapper. *)
Definition new_wrapper (UseProcFS : bool) (s : world) : world :=
  World (<[next s := Side (Service.newPlatformInterfaceWrapper UseProcFS) None]> (sides s)) (managers s) (S (next s)).
Definition box_New (w : nat) (s : world) : world :=
  World (sides s) (<[next s := Manager w new_manager]> (managers s)) (S (next s)).

Definition Initialize (w m : nat) (s : world) : world :=
  World (alter (fun sd => Side (s_wrapper sd) (Some m)) w (sides s)) (managers s) (next s).

(** Building a box, in [NewInstance] and [newTestEnv]: a wrapper of its own. *)
Definition build (UseProcFS : bool) (s : world) : world := box_New (next s) (new_wrapper UseProcFS s).

Definition on_monitor (w : nat) (f : Monitor.monitor -> Monitor.monitor) (s : world) : world :=
  World (alter (fun sd => Side (with_monitor f (s_wrapper sd)) (networkManager sd)) w (sides s)) (managers s) (next s).

Definition the_side (w : nat) : prog world side := r ← gets (fun s => sides s !! w); deref r.

(** A manager's [UpdateInterfaces]; its error is only logged. *)
Definition refresh (m : nat) : prog world manager :=
  r ← gets (fun s => managers s !! m);
  mgr ← deref r;
  platform ← the_side (m_platform mgr);
  let mgr' := Manager (m_platform mgr) (snd (UpdateInterfaces (s_wrapper platform) (m_kept mgr))) in
  _ ← modify (fun s => World (sides s) (<[m := mgr']> (managers s)) (next s));
  mret mgr'.

(** [UpdateDefaultInterface] on the monitor of wrapper [w]: the caller waits for the
    goroutine that does it. Without a manager the goroutine panics. *)
Definition UpdateDefaultInterface (w : nat) (interfaceIndex32 : Z) (isExpensive isConstrained : bool) :
    prog world unit :=
  _ ← modify (on_monitor w (Monitor.set_flags isExpensive isConstrained));
  sd ← the_side w;
  m ← deref (networkManager sd);
  mgr ← refresh m;
  modify (on_monitor w (Monitor.update_default (ByIndex (m_kept mgr)) interfaceIndex32)).

(** What happens to the boxes: they are built, sing-box initialises the wrapper in its
    context, registers with and asks the monitor, and the platform reports interfaces. *)
Inductive box_step : world -> world -> Prop :=
| step_build procfs s : box_step s (build procfs s)
| step_initialize m mgr s : managers s !! m = Some mgr -> box_step s (Initialize (m_platform mgr) m s)
| step_monitor w mo' s sd : sides s !! w = Some sd -> Monitor.monitor_step (Service.w_monitor (s_wrapper sd)) mo' ->
    box_step s (on_monitor w (fun _ => mo') s)
| step_update w idx e c s s' : UpdateDefaultInterface w idx e c s = (Returns tt, s') -> box_step s s'.

(** A wrapper's manager was built over that wrapper, and no two were built over the same. *)
Record boxes_ok (s : world) : Prop := BoxesOk {
  ok_own : forall w sd m, sides s !! w = Some sd -> networkManager sd = Some m ->
             exists mgr, managers s !! m = Some mgr /\ m_platform mgr = w;
  ok_one : forall m m' mgr mgr', managers s !! m = Some mgr -> managers s !! m' = Some mgr' ->
             m_platform mgr = m_platform mgr' -> m = m';
  ok_wrapped : forall m mgr, managers s !! m = Some mgr -> is_Some (sides s !! m_platform mgr);
  ok_below : forall n, is_Some (sides s !! n) \/ is_Some (managers s !! n) -> (n < next s)%nat;
}.

Lemma boxes_ok_nothing : boxes_ok nothing.
Proof.
  split; cbn; try (intros *; by rewrite ?lookup_empty).
  intros n [H|H]; rewrite lookup_empty in H; by destruct H.
Qed.

Lemma boxes_ok_build p s : boxes_ok s -> boxes_ok (build p s).
Proof.
  intros [H1 H2 H3 H4].
  assert (sides s !! next s = None) as Hs by (apply eq_None_not_Some; intros H; specialize (H4 _ (or_introl H)); lia).
  assert (forall m mgr, managers s !! m = Some mgr -> m_platform mgr <> next s) as Hp.
  { intros m mgr Hm E. apply H3 in Hm. rewrite E, Hs in Hm. by destruct Hm. }
  split; cbn.
  - intros w sd m. destruct (decide (w = next s)) as [->|Hw]; [rewrite lookup_insert_eq; by intros [= <-]|].
    rewrite lookup_insert_ne by done. intros Hsd Hm. destruct (H1 _ _ _ Hsd Hm) as (mgr & Hmgr & E).
    exists mgr. split; [|done]. rewrite lookup_insert_ne; [done|]. intros <-.
    assert (S (next s) < next s)%nat; [apply H4; right; by exists mgr | lia].
  - intros m m' mgr mgr'. rewrite !lookup_insert_Some.
    intros [[<- <-]|[Hn Hm]] [[<- <-]|[Hn' Hm']]; cbn; [done | | |by apply H2].
    + intros E. by apply Hp in Hm'.
    + intros E. by apply Hp in Hm.
  - intros m mgr [[<- <-]|[_ Hm]]%lookup_insert_Some; cbn; [rewrite lookup_insert_eq; by eexists|].
    rewrite lookup_insert_ne; [by eapply H3|]. intros E. by eapply Hp.
  - intros n [Hn|Hn]; apply lookup_insert_is_Some in Hn as [<-|[_ Hn]]; [lia | | lia|].
    + specialize (H4 n (or_introl Hn)). lia.
    + specialize (H4 n (or_intror Hn)). lia.
Qed.

Lemma boxes_ok_initialize m mgr s :
  managers s !! m = Some mgr -> boxes_ok s -> boxes_ok (Initialize (m_platform mgr) m s).
Proof.
  intros Hm [H1 H2 H3 H4]. split; cbn; [| done | |].
  - intros w sd m'. rewrite lookup_alter_Some. intros [(<- & old & Ho & ->)|[_ Hsd]]; [|by eapply H1].
    intros [= <-]. by exists mgr.
  - intros m' mgr' Hm'. apply lookup_alter_is_Some. by eapply H3.
  - intros n. rewrite lookup_alter_is_Some. apply H4.
Qed.

Lemma boxes_ok_monitor w f s : boxes_ok s -> boxes_ok (on_monitor w f s).
Proof.
  intros [H1 H2 H3 H4]. split; cbn; [| done | |].
  - intros w' sd m'. rewrite lookup_alter_Some. intros [(<- & old & Ho & ->)|[_ Hsd]]; [cbn; by eapply H1 | by eapply H1].
  - intros m' mgr' Hm'. apply lookup_alter_is_Some. by eapply H3.
  - intros n. rewrite lookup_alter_is_Some. apply H4.
Qed.

(** What an update does to a wrapper that has a manager: the manager is refreshed by what
    its own wrapper answers, with the flags set and the default as it was. *)
Lemma UpdateDefaultInterface_run w idx e c s sd m mgr p :
  sides s !! w = Some sd -> networkManager sd = Some m -> managers s !! m = Some mgr ->
  sides (on_monitor w (Monitor.set_flags e c) s) !! m_platform mgr = Some p ->
  let kept := snd (UpdateInterfaces (s_wrapper p) (m_kept mgr)) in
  UpdateDefaultInterface w idx e c s =
    (Returns tt, World (alter (fun sd => Side (with_monitor (Monitor.update_default (ByIndex kept) idx)
                                 (s_wrapper sd)) (networkManager sd)) w
                         (sides (on_monitor w (Monitor.set_flags e c) s)))
                   (<[m := Manager (m_platform mgr) kept]> (managers s)) (next s)).
Proof.
  intros Hw Hm Hmgr Hp. unfold UpdateDefaultInterface, the_side, refresh.
  unfold mbind, prog_bind, modify, gets, deref, mret, prog_ret. cbn [fst snd].
  assert (sides (on_monitor w (Monitor.set_flags e c) s) !! w =
          Some (Side (with_monitor (Monitor.set_flags e c) (s_wrapper sd)) (networkManager sd))) as ->
    by (cbn; by rewrite lookup_alter_eq, Hw).
  cbn [networkManager]. rewrite Hm. cbn [managers on_monitor]. rewrite Hmgr.
  unfold the_side, mbind, prog_bind, gets, deref.
  change (World (alter _ w (sides s)) (managers s) (next s)) with (on_monitor w (Monitor.set_flags e c) s).
  by rewrite Hp.
Qed.

(** Without a manager the update panics: the wrapper's field is read unguarded. *)
Lemma UpdateDefaultInterface_early w idx e c s sd :
  sides s !! w = Some sd -> networkManager sd = None ->
  exists msg s', UpdateDefaultInterface w idx e c s = (Panics msg, s').
Proof.
  intros Hw Hm. unfold UpdateDefaultInterface, the_side, mbind, prog_bind, modify, gets.
  assert (sides (on_monitor w (Monitor.set_flags e c) s) !! w =
          Some (Side (with_monitor (Monitor.set_flags e c) (s_wrapper sd)) (networkManager sd))) as ->
    by (cbn; by rewrite lookup_alter_eq, Hw).
  cbn. rewrite Hm. by do 2 eexists.
Qed.

(** An update changes one wrapper and the kept state of its manager. *)
Lemma update_frame w idx e c s s' :
  boxes_ok s -> UpdateDefaultInterface w idx e c s = (Returns tt, s') ->
  exists sd m mgr, sides s !! w = Some sd /\ networkManager sd = Some m /\
    managers s !! m = Some mgr /\ m_platform mgr = w /\
    let w1 := with_monitor (Monitor.set_flags e c) (s_wrapper sd) in
    let kept := snd (UpdateInterfaces w1 (m_kept mgr)) in
    s' = World (<[w := Side (with_monitor (Monitor.update_default (ByIndex kept) idx) w1) (Some m)]> (sides s))
           (<[m := Manager w kept]> (managers s)) (next s).
Proof.
  intros Hok. destruct (sides s !! w) as [sd|] eqn:Hw.
  2: { unfold UpdateDefaultInterface, the_side, mbind, prog_bind, modify, gets. cbn.
       by rewrite lookup_alter_eq, Hw. }
  destruct (networkManager sd) as [m|] eqn:Hm.
  2: { destruct (UpdateDefaultInterface_early w idx e c s sd Hw Hm) as (msg & s1 & ->). done. }
  destruct (ok_own s Hok w sd m Hw Hm) as (mgr & Hmgr & Hp).
  rewrite (UpdateDefaultInterface_run w idx e c s sd m mgr
             (Side (with_monitor (Monitor.set_flags e c) (s_wrapper sd)) (Some m))); [| done | done | done |].
  2: { rewrite Hp. cbn. by rewrite lookup_alter_eq, Hw, <- Hm. }
  intros [= <-]. exists sd, m, mgr. split_and!; [done | done | done | done |].
  cbn. rewrite Hp. f_equal. apply map_eq. intros i. destruct (decide (i = w)) as [->|Hi].
  - by rewrite !lookup_alter_eq, lookup_insert_eq, Hw; cbn; rewrite Hm.
  - by rewrite !lookup_alter_ne, lookup_insert_ne.
Qed.

Lemma boxes_ok_update w idx e c s s' :
  boxes_ok s -> UpdateDefaultInterface w idx e c s = (Returns tt, s') -> boxes_ok s'.
Proof.
  intros Hok E. destruct (update_frame w idx e c s s' Hok E) as (sd & m & mgr & Hw & Hm & Hmgr & Hp & ->).
  destruct Hok as [H1 H2 H3 H4]. split; cbn.
  - assert (forall w' m', (exists mgr', managers s !! m' = Some mgr' /\ m_platform mgr' = w') ->
              exists mgr', <[m := Manager w (snd (UpdateInterfaces (with_monitor (Monitor.set_flags e c) (s_wrapper sd))
                             (m_kept mgr)))]> (managers s) !! m' = Some mgr' /\ m_platform mgr' = w') as Hk.
    { intros w' m' (mgr' & Hm' & E'). destruct (decide (m = m')) as [<-|Hne].
      - rewrite lookup_insert_eq. eexists. split; [done|]. cbn. congruence.
      - rewrite lookup_insert_ne by done. eauto. }
    intros w' sd' m'. rewrite lookup_insert_Some. intros [[<- <-]|[Hne Hsd]] Hm'; cbn in *; apply Hk; eapply H1; eauto.
    congruence.
  - intros m1 m2 mgr1 mgr2. rewrite !lookup_insert_Some.
    intros [[<- <-]|[Hn1 Hm1]] [[<- <-]|[Hn2 Hm2]]; cbn; [done | | |by apply H2].
    + intros E'. eapply H2; [done..|]. by rewrite Hp.
    + intros E'. eapply H2; [done..|]. by rewrite Hp.
  - intros m' mgr' [[<- <-]|[Hne Hm']]%lookup_insert_Some; cbn; apply lookup_insert_is_Some'; [by left|].
    right. by eapply H3.
  - intros n. rewrite !lookup_insert_is_Some'. intros [[<-|Hn]|[<-|Hn]]; apply H4; eauto.
Qed.

Lemma boxes_ok_reachable s : steps box_step nothing s -> boxes_ok s.
Proof.
  intros H. eapply (steps_invariant box_step boxes_ok); [| exact H | apply boxes_ok_nothing].
  intros a b Ha Hst. revert Ha.
  destruct Hst; eauto using boxes_ok_build, boxes_ok_initialize, boxes_ok_monitor, boxes_ok_update.
Qed.

(** however boxes are built, initialised and told of interfaces, an update of the default
    interface through the monitor of a box refreshes that box's manager, once, from that
    box's wrapper: no other manager was built over the wrapper, and every other wrapper and
    manager is left as it was. *)
Theorem update_refreshes_own_box s w idx e c s' :
  steps box_step nothing s -> UpdateDefaultInterface w idx e c s = (Returns tt, s') ->
  exists sd m mgr, sides s !! w = Some sd /\ networkManager sd = Some m /\ managers s !! m = Some mgr /\
    (forall m' mgr', managers s !! m' = Some mgr' -> m_platform mgr' = w <-> m' = m) /\
    managers s' !! m = Some (Manager w (snd (UpdateInterfaces
                         (with_monitor (Monitor.set_flags e c) (s_wrapper sd)) (m_kept mgr)))) /\
    (forall m', m' <> m -> managers s' !! m' = managers s !! m') /\
    (forall w', w' <> w -> sides s' !! w' = sides s !! w').
Proof.
  intros Hs E. pose proof (boxes_ok_reachable s Hs) as Hok.
  destruct (update_frame w idx e c s s' Hok E) as (sd & m & mgr & Hw & Hm & Hmgr & Hp & ->).
  exists sd, m, mgr. split_and!; try done; cbn.
  - intros m' mgr' Hm'. split; [|intros ->; congruence].
    intros E'. eapply (ok_one s Hok); [done..|]. by rewrite Hp.
  - by rewrite lookup_insert_eq.
  - intros m' Hne. by rewrite lookup_insert_ne.
  - intros w' Hne. by rewrite lookup_insert_ne.
Qed.
End Boxes.

(** ** What the refreshed manager lists *)

Section Listing.
  Context (reported : list Service.NetworkInterface) (ParsePrefix : string -> option Prefix).
  Context (ParseAddr : string -> option Addr) (UniqByName : list Service.adapter_interface -> list Service.adapter_interface).
  Context (multicast : Z).
  Hypothesis uniq : Service.uniq_law UniqByName.
  Hypothesis parses : Forall (fun n => is_Some (mapM ParsePrefix (Service.n_Addresses n))) reported.

  #[local] Abbreviation NetworkInterfaces :=
    (Service.NetworkInterfaces (Ok reported) ParsePrefix ParseAddr UniqByName multicast).

  (** A manager lists interfaces its platform answered with when it was refreshed. *)
  Context {Kept : Type} (listed : Kept -> list Service.adapter_interface).
  Context (UpdateInterfaces : Service.wrapper -> Kept -> result unit * Kept).
  Hypothesis lists_answers : forall w kept out a,
    NetworkInterfaces w = (Returns out, w) -> a ∈ listed (snd (UpdateInterfaces w kept)) -> a ∈ out.

(** What an unmetered interface is marked with, by the wrapper as it is when asked. *)
Lemma expensive_is_default w out a :
  NetworkInterfaces w = (Returns out, w) -> a ∈ out ->
  exists n, n ∈ reported /\ Service.a_Name a = Service.n_Name n /\ Service.a_Index a = Service.n_Index n /\
    Service.a_Expensive a = (Service.n_Metered n || (Service.isDefault w n && Monitor.isExpensive (Service.w_monitor w))) /\
    Service.a_Constrained a = (Service.isDefault w n && Monitor.isConstrained (Service.w_monitor w)).
Proof.
  unfold Service.NetworkInterfaces, mbind, prog_bind, lift_result.
  destruct (Service.convert_all_spec ParsePrefix ParseAddr multicast w reported [] w parses) as (all & -> & Hf).
  intros [= <-] Ha. apply (uniq all) in Ha as [i Hi]%list_elem_of_lookup.
  eapply Forall2_lookup_r in Hf as (n & Hn & addresses & _ & ->); [|done].
  exists n. split_and!; [by eapply list_elem_of_lookup_2 | done..].
Qed.

Lemma answers w : exists out, NetworkInterfaces w = (Returns out, w).
Proof.
  unfold Service.NetworkInterfaces, mbind, prog_bind, lift_result.
  destruct (Service.convert_all_spec ParsePrefix ParseAddr multicast w reported [] w parses) as (all & -> & _).
  by eexists.
Qed.

(** The manager is refreshed before the default interface is replaced: an unmetered
    interface it lists as expensive after an update, or one it lists as constrained, is the
    default of before the update, whatever the update was to. *)
Lemma refreshed_with_old_default (w : Service.wrapper) (kept : Kept) e c a :
  a ∈ listed (snd (UpdateInterfaces (with_monitor (Monitor.set_flags e c) w) kept)) ->
  exists n, n ∈ reported /\ Service.a_Name a = Service.n_Name n /\ Service.a_Index a = Service.n_Index n /\
    ((Service.a_Expensive a = true /\ Service.n_Metered n = false) \/ Service.a_Constrained a = true ->
     Monitor.Index <$> Monitor.defaultInterface (Service.w_monitor w) = Some (Service.n_Index n)).
Proof.
  intros Ha. destruct (answers (with_monitor (Monitor.set_flags e c) w)) as [out Hout].
  destruct (expensive_is_default _ _ _ Hout (lists_answers _ _ _ _ Hout Ha)) as (n & Hn & En & Ei & -> & ->).
  exists n. split_and!; [done..|].
  assert (Service.isDefault (with_monitor (Monitor.set_flags e c) w) n = true ->
          Monitor.Index <$> Monitor.defaultInterface (Service.w_monitor w) = Some (Service.n_Index n)) as Hd.
  { intros [_ H]%andb_true_iff. cbn in H. unfold Monitor.DefaultInterface in H. cbn in H.
    destruct (Monitor.defaultInterface (Service.w_monitor w)); [|done]. apply Z.eqb_eq in H. cbn. by rewrite H. }
  intros [[He Hm]|[Hc _]%andb_true_iff]; [|auto]. rewrite Hm in He. apply andb_true_iff in He as [He _]. auto.
Qed.
End Listing.

(** ** A concrete manager: it keeps what it was answered *)

Abbreviation cell := (Service.MkNetworkInterface 4 1500 "rmnet0" [] 65 1 [] [] false).
Definition keep_answer (w : Service.wrapper) (kept : list Service.adapter_interface) :
    result unit * list Service.adapter_interface :=
  match fst (Service.NetworkInterfaces (Ok [Service.wifi; cell]) (fun _ => None) parse_addr4 Service.keep_first 12 w) with
  | Returns l => (Ok tt, l)
  | Fails e | Panics e => (Err e, kept)
  end.
Definition find_index (kept : list Service.adapter_interface) (i : Z) : option Monitor.Interface :=
  head (omap (fun a => if (Service.a_Index a =? i)%Z then Some (Monitor.MkInterface (Service.a_Name a) i "") else None) kept).

Abbreviation update := (UpdateDefaultInterface keep_answer find_index).
Abbreviation kept0 := ([] : list Service.adapter_interface).
Definition one_box : world (Kept := list Service.adapter_interface) := Initialize 0 1 (build kept0 false nothing).
Definition two_boxes : world (Kept := list Service.adapter_interface) := Initialize 2 3 (build kept0 true one_box).
Definition on_wifi : world (Kept := list Service.adapter_interface) := snd (update 0 3 false false two_boxes).
Definition on_cell : world (Kept := list Service.adapter_interface) := snd (update 0 4 true false on_wifi).

Lemma on_cell_reached : steps (box_step [] keep_answer find_index) nothing on_cell.
Proof.
  eapply steps_step; [apply (step_build kept0 keep_answer find_index false)|].
  eapply steps_step; [apply (step_initialize kept0 keep_answer find_index 1 (Manager 0 kept0)); by vm_compute|].
  eapply steps_step; [apply (step_build kept0 keep_answer find_index true)|].
  eapply steps_step; [apply (step_initialize kept0 keep_answer find_index 3 (Manager 2 kept0)); by vm_compute|].
  change (steps (box_step kept0 keep_answer find_index) two_boxes on_cell).
  eapply steps_step; [apply (step_update _ _ _ 0 3 false false two_boxes on_wifi); by vm_compute|].
  apply steps_one, (step_update _ _ _ 0 4 true false on_wifi on_cell). by vm_compute.
Qed.

Lemma update_refreshes_own_box_witness :
  exists s', (steps (box_step [] keep_answer find_index) nothing on_cell /\ update 2 3 false true on_cell = (Returns tt, s')) /\
    managers s' !! 1%nat = managers on_cell !! 1%nat.
Proof.
  exists (snd (update 2 3 false true on_cell)).
  assert (update 2 3 false true on_cell = (Returns tt, snd (update 2 3 false true on_cell))) as E by (by vm_compute).
  split; [exact (conj on_cell_reached E)|].
  destruct (update_refreshes_own_box [] keep_answer find_index on_cell 2 3 false true _ on_cell_reached E)
    as (sd & m & mgr & Hw & Hm & _ & _ & _ & Hother & _).
  apply Hother. intros <-. revert Hw Hm. vm_compute. intros [= <-]. done.
Defined.

(** The marks of a list of interfaces. *)
Definition marks (l : list Service.adapter_interface) : list (string * bool) :=
  map (fun a => (Service.a_Name a, Service.a_Expensive a)) l.

(** From wifi to an expensive mobile network: the manager lists wifi as expensive and the
    mobile network as not, while a question asked after the update has it right. *)
Lemma flags_on_the_wrong_interface :
  option_map (fun m => marks (m_kept m)) (managers on_cell !! 1%nat) = Some [("wlan0", true); ("rmnet0", false)] /\
  option_map (fun sd => marks (snd (keep_answer (s_wrapper sd) []))) (sides on_cell !! 0%nat) =
    Some [("wlan0", false); ("rmnet0", true)].
Proof. by vm_compute. Qed.

(** The comment on the wrapper: were the test's box built over the instance's wrapper, the
    update would refresh the test's manager and not the instance's. *)
Lemma shared_wrapper_refreshes_probe :
  let shared := Initialize 0 2 (box_New [] 0 (Initialize 0 1 (build [] false nothing))) in
  let s' := snd (update 0 3 false false shared) in
  managers s' !! 1%nat = managers shared !! 1%nat /\ managers s' !! 2%nat <> managers shared !! 2%nat.
Proof. vm_compute. split; [done | by intros [=]]. Qed.

End Boxes.

(** ** The calls passed on *)

Module Forwards.

Record WIFIState := MkWIFIState { SSID : string; BSSID : string }.
Definition NewWIFIState (wifiSSID wifiBSSID : string) : option WIFIState := Some (MkWIFIState wifiSSID wifiBSSID).

Record Notification := MkNotification {
  Identifier : string; TypeName : string; TypeID : Z; Title : string; Subtitle : string;
  Body : string; OpenURL : string
}.

(** What the application implements, over a state of its own: methods that fail are
    programs. The listener and the resolver are known by number. *)
Class PlatformInterface (P : Type) := {
  LocalDNSTransport : P -> option nat;
  UsePlatformAutoDetectInterfaceControl : P -> bool;
  AutoDetectInterfaceControl : Z -> prog P unit;
  OpenTun : Tun.tunOptions -> prog P Z;
  UseProcFS : P -> bool;
  FindConnectionOwner : Service.owner_request -> prog P Service.ConnectionOwner;
  StartDefaultInterfaceMonitor : nat -> prog P unit;
  CloseDefaultInterfaceMonitor : nat -> prog P unit;
  GetInterfaces : prog P (list Service.NetworkInterface);
  ReadWIFIState : P -> option WIFIState;
  ClearDNSCache : P -> P;
  SendNotification : Notification -> prog P unit;
  CancelNotification : string -> Z -> prog P unit
}.

Section Wrapper.
  Context `{PlatformInterface P}.

(** The methods of the wrapper and of its monitor [m]. *)
Definition w_AutoDetectInterfaceControl (fd : Z) : prog P unit := AutoDetectInterfaceControl (int32 fd).
Definition w_ReadWIFIState (p : P) : WIFIState :=
  match ReadWIFIState p with None => MkWIFIState "" "" | Some s => s end.
Definition w_ClearDNSCache : prog P unit := modify ClearDNSCache.
Definition w_SendNotification (n : Notification) : prog P unit := SendNotification n.
Definition w_CancelNotification (identifier : string) (typeID : Z) : prog P unit := CancelNotification identifier typeID.
Definition m_Start (m : nat) : prog P unit := StartDefaultInterfaceMonitor m.
Definition m_Close (m : nat) : prog P unit := CloseDefaultInterfaceMonitor m.
Definition MyInterfaceAddress (w : Service.wrapper) : list Addr := Service.myTunAddress w.

(** A descriptor reaches the platform as it is: descriptors fit in 32 bits. *)
Lemma descriptor_kept fd : (0 <= fd < 2 ^ 31)%Z -> w_AutoDetectInterfaceControl fd = AutoDetectInterfaceControl fd.
Proof. intros Hfd. unfold w_AutoDetectInterfaceControl. by rewrite wrap_signed_small by (cbn; lia). Qed.

(** With a platform that keeps the listeners it is given until they are taken back, a
    monitor that was started and closed is no longer called. *)
Lemma closed_monitor_not_called (listeners : P -> list nat) m p p1 p2 :
  (forall m p p', StartDefaultInterfaceMonitor m p = (Returns tt, p') -> listeners p' ≡ₚ m :: listeners p) ->
  (forall m p p', CloseDefaultInterfaceMonitor m p = (Returns tt, p') ->
     listeners p' = filter (fun n => n <> m) (listeners p)) ->
  m_Start m p = (Returns tt, p1) -> m_Close m p1 = (Returns tt, p2) ->
  (m ∉ listeners p2) /\ (forall n, n <> m -> n ∈ listeners p2 <-> n ∈ listeners p).
Proof.
  intros Hs Hc H1%Hs ->%Hc. split; [by intros [? _]%list_elem_of_filter|].
  intros n Hn. rewrite list_elem_of_filter, H1, elem_of_cons. naive_solver.
Qed.
End Wrapper.
End Forwards.

(** ** What a box is built over *)

Module Context.

(** The context of a box: the resolver its registry makes the [local] transport of, the
    file manager's paths and owner, and the wrapper. *)
Record box_context := BoxContext {
  local_transport : option nat;
  files : string * string * Z * Z;
  platform_interface : option nat;
}.

(** [newBoxContext]; [platform]: none, or the platform with the resolver it has, if any. *)
Definition newBoxContext (platform : option (option nat)) (platformInterface : option nat)
    (sWorkingPath sTempPath : string) (uid gid : Z) : box_context :=
  BoxContext (match platform with
              | Some (Some localTransport) => Some localTransport
              | _ => None
              end) (sWorkingPath, sTempPath, uid, gid) platformInterface.

(** [platformTransport] and its constructor: the resolver for preferred domains is made
    from the options or fails. *)
Record platformTransport {Resolver : Type} := PlatformTransport {
  iif : nat; preferredResolver : Resolver; tag : string
}.
Arguments platformTransport : clear implicits.

Definition newPlatformTransport {Resolver Options} (NewPreferredDomainResolver : Options -> result Resolver)
    (localTransport : nat) (tag : string) (options : Options) : result (platformTransport Resolver) :=
  resolver ← NewPreferredDomainResolver options; Ok (PlatformTransport Resolver localTransport resolver tag).

(** What the registry of a box makes for a server of type local. *)
Definition make_local {Resolver Options} (NewPreferredDomainResolver : Options -> result Resolver)
    (own : string -> Options -> result (platformTransport Resolver)) (ctx : box_context) (tag : string) (o : Options) :
    result (platformTransport Resolver) :=
  match local_transport ctx with
  | Some t => newPlatformTransport NewPreferredDomainResolver t tag o
  | None => own tag o
  end.

(** Checking a configuration, or running without a platform's resolver, leaves sing-box's
    own transport in place; with one, every local server of that box asks it. *)
Lemma local_transport_of {Resolver Options} (mk : Options -> result Resolver) own w work tmp u g tag o t :
  make_local mk own (newBoxContext None w work tmp u g) tag o = own tag o /\
  make_local mk own (newBoxContext (Some None) w work tmp u g) tag o = own tag o /\
  (forall r, make_local mk own (newBoxContext (Some (Some t)) w work tmp u g) tag o = Ok r -> iif r = t).
Proof. split_and!; [done..|]. intros r. cbn. unfold newPlatformTransport. destruct (mk o); [by intros [= <-] | done]. Qed.
End Context.

(** ** Go's own log *)

Module StdLog.

Inductive output := Stderr | Pump.

(** The log package: its flags ([LstdFlags] is 3) and output; and the pump's world. *)
Record logs := Logs { flags : Z; out : output; pump_world : MobileLog.LogPump.world }.

Definition SetLogSink (sink : option nat) (l : logs) : logs :=
  let w := MobileLog.LogPump.do_setSink sink (pump_world l) in
  match sink with
  | None => Logs 3 Stderr w
  | Some _ => Logs 0 Pump (MobileLog.LogPump.setSink_start w)
  end.

(** A line Go logs: to standard error, or, without its newline, into the pump. *)
Definition std_line (LevelInfo : Z) (b : string) (l : logs) : logs :=
  match out l, fst (MobileLog.LogPump.stdLogWriter_Write LevelInfo b) with
  | Pump, Some e => Logs (flags l) (out l) (MobileLog.LogPump.do_push e (pump_world l))
  | _, _ => l
  end.

(** The pump has a sink exactly while Go's log goes there, so that no line is lost between
    the two, and its lines then carry no time of their own. *)
Lemma redirected_with_sink sinks l :
  let l' := foldl (fun l s => SetLogSink s l) l sinks in
  sinks <> [] -> MobileLog.LogPump.sink (MobileLog.LogPump.w_pump (pump_world l')) = default None (last sinks) /\
    (out l' = Pump <-> is_Some (default None (last sinks))) /\ (flags l' = 0%Z <-> out l' = Pump).
Proof.
  cbn. destruct sinks as [|s0 sinks] using rev_ind; [done|]. intros _. rewrite last_snoc, foldl_snoc. cbn.
  generalize (foldl (fun l s => SetLogSink s l) l sinks). intros l'. destruct s0 as [s|]; cbn.
  - split_and!; [done | split; [by eexists | done] | done].
  - split_and!; [done | split; [done | by intros []] | done].
Qed.
End StdLog.
