(* ===== verification/Diagnostics.v ===== *)
(** * Diagnostics: src/internal/rpc/diagnostics.go

    A capture keeps profilers running for a while and packs what they recorded. The state
    is what the process shares: the guard of captures, the stop function, the profilers'
    settings; an archive is a list of entries. Any step may panic, as dispatch recovers
    panics and goes on. *)

From S2P Require Import Prelude GoStr.

#[local] Open Scope string_scope.
#[local] Open Scope list_scope.

(** ** Names of attachments *)

Definition slash : ascii := "/"%char.
Definition backslash : ascii := ascii_of_nat 92.

(** Go's [path.Base]: the last element, after any slashes at the end. *)
Definition path_Base (p : string) : string :=
  if bool_decide (p = "") then "."
  else
    let trimmed := trim_right p (String slash "") in
    if bool_decide (trimmed = "") then "/"
    else List.last (split_by slash trimmed) "".

Definition attachmentName (name : string) : string :=
  let base := path_Base (replace_byte backslash slash name) in
  if bool_decide (base ∈ ["."; ".."; "/"]) then "" else base.

Lemma replace_byte_lacks a b s : a <> b -> lacks a (replace_byte a b s) = true.
Proof.
  intros Hab. unfold replace_byte. induction s as [|c s IH]; [done|]. cbn [map_string lacks].
  unfold lacks in *. cbn. rewrite IH, andb_true_r.
  destruct (Ascii.eqb_spec c a) as [->|Hc].
  - destruct (Ascii.eqb_spec b a); [congruence | done].
  - destruct (Ascii.eqb_spec c a); done.
Qed.

(** Taking a text apart brings in no byte it lacks. *)
Lemma lacks_cons b c s : lacks b (String c s) = negb (Ascii.eqb c b) && lacks b s.
Proof. done. Qed.

Lemma trim_right_lacks b s cs : lacks b s = true -> lacks b (trim_right s cs) = true.
Proof.
  induction s as [|c s IH]; [done|]. rewrite lacks_cons. intros [Hc Hs]%andb_true_iff. cbn [trim_right].
  specialize (IH Hs). destruct (trim_right s cs) as [|c' s'].
  - destruct (in_string c cs); [done|]. by rewrite lacks_cons, Hc.
  - by rewrite lacks_cons, Hc, IH.
Qed.

Lemma split_by_pieces sep b s :
  (b = sep \/ lacks b s = true) -> Forall (fun w => lacks b w = true) (split_by sep s).
Proof.
  induction s as [|c s IH]; intros H; cbn [split_by]; [by repeat constructor|].
  assert (b = sep \/ lacks b s = true) as Hs
    by (destruct H as [?|H]; [by left|]; rewrite lacks_cons in H; apply andb_true_iff in H as [_ ?]; by right).
  specialize (IH Hs). destruct (split_by sep s) as [|w ws]; [by repeat constructor|].
  apply Forall_cons in IH as [Hw Hws]. destruct (Ascii.eqb_spec c sep) as [->|Hc].
  - by repeat constructor.
  - constructor; [|done]. rewrite lacks_cons, Hw, andb_true_r.
    destruct H as [->|H]; [by destruct (Ascii.eqb_spec c sep)|].
    rewrite lacks_cons in H. by apply andb_true_iff in H as [? _].
Qed.

Lemma last_lacks b (l : list string) : Forall (fun w => lacks b w = true) l -> lacks b (List.last l "") = true.
Proof. induction 1 as [|w l Hw Hl IH]; [done|]. by destruct l. Qed.

Lemma path_Base_lacks b p : (b = slash \/ lacks b p = true) -> path_Base p <> "/" -> path_Base p <> "." ->
  lacks b (path_Base p) = true.
Proof.
  unfold path_Base. intros Hb. case_bool_decide; [done|]. case_bool_decide; [done|]. intros _ _.
  apply last_lacks, split_by_pieces. destruct Hb as [->|Hb]; [by left|]. right. by apply trim_right_lacks.
Qed.

Lemma map_string_id f s : (forall c, in_string c s = true -> f c = c) -> map_string f s = s.
Proof.
  induction s as [|c s IH]; intros H; [done|]. cbn [map_string]. rewrite IH.
  - f_equal. apply H. unfold in_string. cbn. by rewrite Ascii.eqb_refl.
  - intros x Hx. apply H. unfold in_string in *. cbn. rewrite Hx. apply orb_true_r.
Qed.

Lemma lacks_in b c s : lacks b s = true -> in_string c s = true -> c <> b.
Proof.
  unfold lacks, in_string. rewrite forallb_forall, existsb_exists. intros H (x & Hx & Ex).
  apply Ascii.eqb_eq in Ex as <-. specialize (H c Hx). intros ->. by rewrite Ascii.eqb_refl in H.
Qed.

Lemma trim_right_id c s : lacks c s = true -> trim_right s (String c "") = s.
Proof.
  induction s as [|x s IH]; [done|]. rewrite lacks_cons. intros [Hx Hs]%andb_true_iff. cbn [trim_right].
  rewrite IH by done. destruct s; [|done]. unfold in_string; cbn. rewrite orb_false_r.
  by destruct (Ascii.eqb x c).
Qed.

(** whatever an attachment is called, it is stored under a plain name or not at all: a
    stored name has no slash or backslash and is none of the directories, so it cannot
    leave app/; and a name that is plain already is kept as it is. *)
Theorem attachmentName_plain name :
  (attachmentName name = "" \/
   lacks slash (attachmentName name) = true /\ lacks backslash (attachmentName name) = true /\
   (attachmentName name ∉ ["."; ".."; "/"])) /\
  (name <> "" -> lacks slash name = true -> lacks backslash name = true -> (name ∉ ["."; ".."; "/"]) ->
   attachmentName name = name).
Proof.
  split.
  - unfold attachmentName. case_bool_decide as H; [by left|]. right.
    assert (path_Base (replace_byte backslash slash name) <> "/" /\
            path_Base (replace_byte backslash slash name) <> ".") as [H1 H2]
      by (split; intros E; apply H; rewrite E; set_solver).
    split_and!; [| |done].
    + apply path_Base_lacks; auto.
    + apply path_Base_lacks; [|done..]. right. by apply replace_byte_lacks.
  - intros Hne Hs Hb Hd.
    assert (replace_byte backslash slash name = name) as E1.
    { apply map_string_id. intros c Hc. destruct (Ascii.eqb_spec c backslash) as [->|]; [|done].
      by destruct (lacks_in backslash backslash name Hb Hc). }
    assert (path_Base name = name) as E2.
    { unfold path_Base. rewrite bool_decide_false by done. rewrite trim_right_id by done.
      rewrite bool_decide_false by done. by rewrite split_by_lacks. }
    unfold attachmentName. rewrite E1, E2. by rewrite bool_decide_false.
Qed.

Lemma attachmentName_plain_witness :
  attachmentName "..\..\logs/core.log" = "core.log" /\ attachmentName "core.log" = "core.log".
Proof.
  split; [reflexivity|]. apply (proj2 (attachmentName_plain "core.log")); [done | reflexivity | reflexivity |].
  apply (bool_decide_unpack _). vm_compute. exact I.
Defined.

(** ** Quantiles of a histogram *)

Abbreviation uint64 := (wrap_unsigned 64).

Section Histogram.
  #[local] Set Default Proof Using "Type".
  (** The floats of the bounds, of which only whether one is +Inf is asked. *)
  Context {F : Type} (IsInf : F -> bool) (NaN : F).

(** [Buckets] has one bound more than there are counts. *)
Record Float64Histogram := MkHistogram { Counts : list Z; Buckets : list F }.

(** The total wraps as a uint64 does. *)
Definition total_count (h : Float64Histogram) : Z := foldl (fun t c => uint64 (t + c)) 0%Z (Counts h).

(** The loop of [histogramQuantile] from bucket [i]; [rank] is what the quantile of the
    total is rounded up to. *)
Fixpoint quantile_from (buckets : list F) (rank seen : Z) (i : nat) (counts : list Z) : F :=
  match counts with
  | [] => NaN
  | count :: counts =>
      let seen := uint64 (seen + count) in
      if (seen <? rank)%Z then quantile_from buckets rank seen (S i) counts
      else
        let upper := nth (S i) buckets NaN in
        if negb (IsInf upper) then upper else nth i buckets NaN
  end.

Definition histogramQuantile (h : Float64Histogram) (rank : Z) : F :=
  quantile_from (Buckets h) rank 0 0 (Counts h).

(** [histogramSummary], the quantiles by their ranks. *)
Definition histogramSummary (print : F -> string) (rank_of : Z -> string -> Z) (h : Float64Histogram) : string :=
  let total := total_count h in
  if (total =? 0)%Z then "count=0"
  else ("count=" ++ itoa total ++ " p50=" ++ print (histogramQuantile h (rank_of total "0.5")) ++
        " p99=" ++ print (histogramQuantile h (rank_of total "0.99")) ++
        " max=" ++ print (histogramQuantile h (rank_of total "1")))%string.

(** A sample of runtime/metrics by its kind; other kinds are passed over. *)
Inductive metric := KindUint64 (v : Z) | KindFloat64 (v : F) | KindFloat64Histogram (h : Float64Histogram) | KindBad.

Definition newline : string := String (ascii_of_nat 10) "".

Definition metric_line (print : F -> string) (rank_of : Z -> string -> Z) (s : string * metric) : option string :=
  match snd s with
  | KindUint64 v => Some (fst s ++ " " ++ itoa v ++ newline)%string
  | KindFloat64 v => Some (fst s ++ " " ++ print v ++ newline)%string
  | KindFloat64Histogram h => Some (fst s ++ " " ++ histogramSummary print rank_of h ++ newline)%string
  | KindBad => None
  end.

(** [writeRuntimeMetrics]: a line per sample, up to the first that cannot be written. *)
Definition writeRuntimeMetrics {S} (print : F -> string) (rank_of : Z -> string -> Z) (Fprintf : string -> prog S unit)
    (samples : list (string * metric)) : prog S unit :=
  for_each (fun s => match metric_line print rank_of s with Some l => Fprintf l | None => mret tt end) samples.

Lemma writeRuntimeMetrics_lines print rank_of samples out :
  writeRuntimeMetrics print rank_of (fun l => modify (fun out => out ++ [l])) samples out =
    (Returns tt, out ++ omap (metric_line print rank_of) samples).
Proof.
  unfold writeRuntimeMetrics. revert out. induction samples as [|s samples IH]; intros out; cbn [for_each omap list_omap].
  - by rewrite app_nil_r.
  - unfold mbind, prog_bind. destruct (metric_line print rank_of s) as [l|].
    + unfold modify. rewrite IH. by rewrite <- app_assoc.
    + apply IH.
Qed.

(** The observations in order, each as the bucket it fell into: the reference. *)
Fixpoint observations (i : nat) (counts : list Z) : list nat :=
  match counts with
  | [] => []
  | c :: counts => replicate (Z.to_nat c) i ++ observations (S i) counts
  end.

(** What is reported of a bucket. *)
Definition bucket_value (h : Float64Histogram) (i : nat) : F :=
  let upper := nth (S i) (Buckets h) NaN in
  if negb (IsInf upper) then upper else nth i (Buckets h) NaN.

Definition sum (l : list Z) : Z := foldr Z.add 0%Z l.

Lemma sum_nonneg l : Forall (fun c => 0 <= c)%Z l -> (0 <= sum l)%Z.
Proof. induction 1 as [|c l Hc Hl IH]; unfold sum in *; cbn; lia. Qed.

Lemma quantile_reference h rank : forall counts seen i,
  Forall (fun c => 0 <= c)%Z counts -> (0 <= seen < rank)%Z -> (seen + sum counts < 2 ^ 64)%Z ->
  quantile_from (Buckets h) rank seen i counts =
    match observations i counts !! Z.to_nat (rank - seen - 1) with
    | Some b => bucket_value h b
    | None => NaN
    end.
Proof.
  induction counts as [|c counts IH]; intros seen i Hc Hr Hs; cbn [quantile_from observations]; [done|].
  apply Forall_cons in Hc as [Hc Hcs]. cbn [sum foldr] in Hs.
  pose proof (sum_nonneg counts Hcs) as Hp. unfold sum in Hp.
  rewrite wrap_unsigned_small by lia. destruct (Z.ltb_spec (seen + c) rank) as [H|H].
  - rewrite IH; [|done|lia|unfold sum in *; lia].
    rewrite lookup_app_r by (rewrite length_replicate; lia). rewrite length_replicate.
    replace (Z.to_nat (rank - seen - 1) - Z.to_nat c)%nat with (Z.to_nat (rank - (seen + c) - 1)) by lia. done.
  - rewrite lookup_app_l by (rewrite length_replicate; lia).
    rewrite lookup_replicate_2 by lia. done.
Qed.

(** a quantile is read off the bucket that holds the observation of its rank: the same
    as listing all observations bucket by bucket and taking the one at that rank (a bucket
    is reported by its upper bound, the last by its lower). A rank beyond the total is NaN. *)
Theorem histogramQuantile_reference h rank :
  Forall (fun c => 0 <= c)%Z (Counts h) -> (sum (Counts h) < 2 ^ 64)%Z -> (1 <= rank)%Z ->
  histogramQuantile h rank =
    match observations 0 (Counts h) !! Z.to_nat (rank - 1) with
    | Some b => bucket_value h b
    | None => NaN
    end.
Proof.
  intros Hc Hs Hr. unfold histogramQuantile. rewrite quantile_reference by (done || lia).
  by rewrite Z.sub_0_r.
Qed.

Lemma total_count_sum h :
  Forall (fun c => 0 <= c)%Z (Counts h) -> (sum (Counts h) < 2 ^ 64)%Z -> total_count h = sum (Counts h).
Proof.
  unfold total_count. intros Hc Hs.
  enough (forall l t, Forall (fun c => 0 <= c)%Z l -> (0 <= t)%Z -> (t + sum l < 2 ^ 64)%Z ->
    foldl (fun t c => uint64 (t + c)) t l = (t + sum l)%Z) as H by (rewrite H; [lia | done | lia | lia]).
  clear. induction l as [|c l IH]; intros t Hl Ht Hs; cbn [foldl sum foldr]; [cbn in *; lia|].
  apply Forall_cons in Hl as [Hc Hl]. pose proof (sum_nonneg l Hl). cbn [sum foldr] in Hs.
  rewrite wrap_unsigned_small by (unfold sum in *; lia). rewrite IH by (done || unfold sum in *; lia). unfold sum. lia.
Qed.
End Histogram.

(** Bounds as numbers, with -1 for +Inf and -2 for NaN. *)
Lemma histogramQuantile_reference_witness :
  let h := MkHistogram [2; 0; 3]%Z [0; 10; 20; -1]%Z in
  (Forall (fun c => 0 <= c)%Z (Counts h) /\ (sum (Counts h) < 2 ^ 64)%Z /\ (1 <= 5)%Z) /\
  histogramQuantile (fun x => Z.eqb x (-1)) (-2)%Z h 5 = 20%Z.
Proof.
  cbv zeta. split; [split; [repeat constructor; lia | split; [cbn; lia | lia]]|].
  rewrite histogramQuantile_reference; [reflexivity | repeat constructor; cbn; lia | cbn; lia | lia].
Defined.

(** ** A capture *)

Module Capture.

(** What the process shares: [diagnosticsMu], [diagnosticsStop] (the captures by number),
    the profilers' settings, and the archive under construction. *)
Record diag := Diag {
  locked : bool;
  diagnosticsStop : option nat;
  cancelled : list nat;               (* the captures whose stop was called *)
  mutexFraction : Z;
  blockRate : Z;
  cpu_on : bool;
  recorder_on : bool;
  entries : list string;              (* of the archive *)
  failures : list string
}.

Definition set_locked b d := Diag b (diagnosticsStop d) (cancelled d) (mutexFraction d) (blockRate d) (cpu_on d) (recorder_on d) (entries d) (failures d).
Definition setDiagnosticsStop s d := Diag (locked d) s (cancelled d) (mutexFraction d) (blockRate d) (cpu_on d) (recorder_on d) (entries d) (failures d).
Definition set_rates f b d := Diag (locked d) (diagnosticsStop d) (cancelled d) f b (cpu_on d) (recorder_on d) (entries d) (failures d).
Definition set_cpu b d := Diag (locked d) (diagnosticsStop d) (cancelled d) (mutexFraction d) (blockRate d) b (recorder_on d) (entries d) (failures d).
Definition set_recorder b d := Diag (locked d) (diagnosticsStop d) (cancelled d) (mutexFraction d) (blockRate d) (cpu_on d) b (entries d) (failures d).
Definition set_archive e f d := Diag (locked d) (diagnosticsStop d) (cancelled d) (mutexFraction d) (blockRate d) (cpu_on d) (recorder_on d) e f.

(** The stop function of capture [n] is called. *)
Definition stop (n : nat) (d : diag) : diag :=
  Diag (locked d) (diagnosticsStop d) (cancelled d ++ [n]) (mutexFraction d) (blockRate d)
    (cpu_on d) (recorder_on d) (entries d) (failures d).

(** [StopDiagnostics]. *)
Definition StopDiagnostics (d : diag) : diag :=
  match diagnosticsStop d with Some n => stop n d | None => d end.

Definition diagnosticsMaxWindow : Z := 60 * 1000000000.
Definition diagnosticsMaxAttachmentBytes : Z := Z.shiftl 32 20.
Definition diagnosticsMutexFraction : Z := 10.
Definition diagnosticsBlockRate : Z := 100 * 1000.

Record attachment := Attachment { at_name : string; at_data : string }.

Record request := Request {
  duration_ms : Z; contention : bool; with_trace : bool; attachments : list attachment
}.

(** [diagnosticsMeta], part by part. *)
Record capture_meta := CaptureMeta {
  RequestedMs : Z; ActualMs : Z; StoppedEarly : bool; Contention : bool; Trace : bool; Errors : list string
}.
Record versions := Versions { v_SingBox : string; v_Xray : string; v_Go : string }.
Record build := Build { b_Path : string; b_Version : string; b_Settings : gmap string string }.
Record runtime_meta := RuntimeMeta {
  GOOS : string; GOARCH : string; NumCPU : Z; GOMAXPROCS : Z; GOMEMLIMIT : Z;
  GoroutinesStart : Z; GoroutinesEnd : Z; PID : Z; EUID : Z; UptimeSeconds : Z
}.
Record diagnosticsMeta := Meta {
  Created : string; m_Capture : capture_meta; m_Versions : versions; m_Build : build;
  m_Runtime : runtime_meta; Box_Running : bool
}.

(** What the runtime answers when the capture begins, and how many goroutines it counts
    when it ends; the time the window took. *)
Record facts := Facts {
  f_Now : string; f_Versions : versions; ReadBuildInfo : option (string * string * list (string * string));
  f_GOOS : string; f_GOARCH : string; f_NumCPU : Z; f_GOMAXPROCS : Z; f_MemoryLimit : Z;
  f_Getpid : Z; f_Geteuid : Z; f_Uptime : Z; currentBox : option nat;
  NumGoroutine_start : Z; NumGoroutine_end : Z; elapsed_ms : Z
}.

(** [newDiagnosticsMeta]: of the settings with one key the last counts. *)
Definition newDiagnosticsMeta (f : facts) : diagnosticsMeta :=
  Meta (f_Now f) (CaptureMeta 0 0 false false false []) (f_Versions f)
    (match ReadBuildInfo f with
     | Some (path, version, settings) => Build path version (foldl (fun m s => <[s.1 := s.2]> m) ∅ settings)
     | None => Build "" "" ∅
     end)
    (RuntimeMeta (f_GOOS f) (f_GOARCH f) (f_NumCPU f) (f_GOMAXPROCS f) (f_MemoryLimit f) 0 0
       (f_Getpid f) (f_Geteuid f) (f_Uptime f))
    (bool_decide (is_Some (currentBox f))).

(** What is filled in by the time it is encoded. *)
Definition finish_meta (f : facts) (requested : Z) (contention trace stoppedEarly : bool) (errors : list string) :
    diagnosticsMeta :=
  let m := newDiagnosticsMeta f in
  let r := m_Runtime m in
  Meta (Created m) (CaptureMeta requested (elapsed_ms f) stoppedEarly contention trace errors) (m_Versions m) (m_Build m)
    (RuntimeMeta (GOOS r) (GOARCH r) (NumCPU r) (GOMAXPROCS r) (GOMEMLIMIT r) (NumGoroutine_start f)
       (NumGoroutine_end f) (PID r) (EUID r) (UptimeSeconds r)) (Box_Running m).

(** [DiagnosticsResponse]: an error, or the entries of the archive, with what is encoded in
    its meta.json. *)
Definition response := (string + (list string * diagnosticsMeta))%type.

Section Server.
  #[local] Set Default Proof Using "Type".
  (** How writing an entry goes: the zip header, and what is written into it, which may
      panic. Starting the recorder and the CPU profile, and the recorder's [WriteTo];
      whether the wait is cut short; the runtime's leak profile; the last calls. *)
  Context (CreateHeader : string -> result unit) (write : string -> outcome unit).
  Context (recorder_Start StartCPUProfile recorder_WriteTo : result unit) (ctx_done : bool).
  Context (has_goroutineleak : bool) (runtime : facts) (MarshalIndent : diagnosticsMeta -> result unit) (zip_Close : result unit).

Definition fail (name : string) (err : string) : prog diag unit :=
  modify (fun d => set_archive (entries d) (failures d ++ [(name ++ ": " ++ err)%string]) d).

Definition add (name : string) : prog diag unit := fun d =>
  match CreateHeader name with
  | Err e => fail name e d
  | Ok _ =>
      let d := set_archive (entries d ++ [name]) (failures d) d in
      match write name with
      | Returns _ => (Returns tt, d)
      | Fails e => fail name e d
      | Panics e => (Panics e, d)
      end
  end.

(** The part of the window while the CPU profile is taken; [have_recorder], [have_cpu]:
    what could be started. *)
Definition window_body (req : request) (have_recorder have_cpu : bool) : prog diag bool :=
  _ ← when have_cpu (_ ← modify (set_cpu false); add "cpu.pprof");
  _ ← when have_recorder
        (_ ← match recorder_WriteTo with Err e => fail "trace.out" e | Ok _ => add "trace.out" end;
         modify (set_recorder false));
  _ ← when (contention req) (_ ← add "mutex-end.pprof"; add "block-end.pprof");
  mret ctx_done.

Definition window_cpu (req : request) (have_recorder : bool) : prog diag bool :=
  match StartCPUProfile with
  | Err e => _ ← fail "cpu.pprof" e; window_body req have_recorder false
  | Ok _ => _ ← modify (set_cpu true); deferred (set_cpu false) (window_body req have_recorder true)
  end.

Definition window_trace (req : request) : prog diag bool :=
  if with_trace req then
    match recorder_Start with
    | Err e => _ ← fail "trace.out" e; window_cpu req false
    | Ok _ => _ ← modify (set_recorder true); deferred (set_recorder false) (window_cpu req true)
    end
  else window_cpu req false.

(** [captureDiagnosticsWindow]: whether it was cut short. *)
Definition captureDiagnosticsWindow (req : request) : prog diag bool :=
  if contention req then
    previousFraction ← gets mutexFraction;
    _ ← modify (set_rates diagnosticsMutexFraction diagnosticsBlockRate);
    deferred (set_rates previousFraction 0)
      (_ ← add "mutex-start.pprof"; _ ← add "block-start.pprof"; window_trace req)
  else window_trace req.

Fixpoint add_attachments (l : list attachment) : prog diag unit :=
  match l with
  | [] => mret tt
  | a :: l =>
      let name := attachmentName (at_name a) in
      _ ← when (negb (bool_decide (name = ""))) (add ("app/" ++ name)%string);
      add_attachments l
  end.

(** The entries up to the attachments, and whether the window was cut short. *)
Definition capture_entries (req : request) : prog diag bool :=
  _ ← add "README.txt";
  _ ← add "metrics-start.txt";
  _ ← add "heap-start.pprof";
  stoppedEarly ← captureDiagnosticsWindow req;
  _ ← add "goroutines.pprof";
  _ ← add "goroutines.txt";
  _ ← when has_goroutineleak (add "goroutineleak.pprof");
  _ ← add "heap-end.pprof";
  _ ← add "metrics-end.txt";
  _ ← add_attachments (attachments req);
  mret stoppedEarly.

(** The window asked for, at most a minute. *)
Definition window_of (req : request) : Z := Z.min (duration_ms req * 1000000) diagnosticsMaxWindow.

(** The archive, once the guard is held and the stop function set. *)
Definition capture_body (req : request) : prog diag response :=
  _ ← modify (set_archive [] []);
  stoppedEarly ← capture_entries req;
  errors ← gets failures;
  let meta := finish_meta runtime (window_of req `quot` 1000000) (contention req) (with_trace req) stoppedEarly errors in
  _ ← lift_result (MarshalIndent meta);
  _ ← add "meta.json";
  _ ← lift_result zip_Close;
  es ← gets entries;
  mret (inr (es, meta)).

Definition attached_bytes (req : request) : Z :=
  foldl (fun n a => n + Z.of_nat (String.length (at_data a)))%Z 0%Z (attachments req).

(** [CaptureDiagnostics]; [n] is this capture. *)
Definition CaptureDiagnostics (n : nat) (req : request) : prog diag response := fun d =>
  if (window_of req <=? 0)%Z then (Returns (inl "duration_ms must be positive"), d)
  else if locked d then (Returns (inl "a diagnostics capture is already running"), d)
  else
    deferred (set_locked false)
      (fun d =>
         if (diagnosticsMaxAttachmentBytes <? attached_bytes req)%Z
         then (Returns (inl ("attachments exceed " ++ itoa (Z.shiftr diagnosticsMaxAttachmentBytes 20) ++ " MiB")%string), d)
         else deferred (stop n)
           (fun d => deferred (setDiagnosticsStop None) (capture_body req) (setDiagnosticsStop (Some n) d)) d)
      (set_locked true d).

(** ** However it ends *)

(** [leaves f m]: where [m] ends, however it does, [f] is what it was. *)
#[local] Instance same_preorder {X} (f : diag -> X) : PreOrder (fun d d' => f d' = f d).
Proof. split; [done|]. intros x y z H1 H2. congruence. Qed.

#[local] Abbreviation leaves f m := (keeps (fun d d' : diag => f d' = f d) m).

(** What a deferred call sets is set. *)
Lemma deferred_sets {X A} (f : diag -> X) g (m : prog diag A) x d :
  (forall d, f (g d) = x) -> f (snd (deferred g m d)) = x.
Proof. intros Hg. unfold deferred. destruct (m d). cbn. apply Hg. Qed.

(** A projection that does not look at the archive. *)
Definition not_archive {X} (f : diag -> X) : Prop := forall e l d, f (set_archive e l d) = f d.

Section Archive.
  Context {X : Type} (f : diag -> X) (Hf : not_archive f).

Lemma keeps_fail name e : leaves f (fail name e).
Proof using Hf. intros d. apply Hf. Qed.

Lemma keeps_add name : leaves f (add name).
Proof using Hf.
  intros d. unfold add. destruct (CreateHeader name); [|apply Hf].
  destruct (write name); cbn; [apply Hf | by rewrite !Hf | apply Hf].
Qed.

Lemma keeps_attachments l : leaves f (add_attachments l).
Proof using Hf.
  induction l as [|a l IH]; [by intros d|]. cbn. apply keeps_bind; [apply _| |intros ?; exact IH].
  apply keeps_when; [apply _|]. intros _. apply keeps_add.
Qed.
End Archive.

Ltac keep := repeat first
  [ assumption | discriminate | apply same_preorder
  | match goal with |- forall _, _ => intros ? end
  | apply keeps_bind | apply keeps_when | (apply keeps_add; by intros ???) | (apply keeps_fail; by intros ???)
  | (apply keeps_attachments; by intros ???) | apply keeps_lift_result | apply keeps_ret | (apply keeps_modify; by intros ?)
  | (apply keeps_deferred; [apply same_preorder | by intros ?|])
  | match goal with |- leaves _ (match ?x with _ => _ end) => destruct x end ].

(** The guard, the stop function and the profilers' rates. *)
Definition shared (d : diag) := (locked d, diagnosticsStop d, cancelled d).
Definition rates (d : diag) := (mutexFraction d, blockRate d).

(** [off f m]: a profiler that is off before [m] is off after it, however it ends. *)
Definition off {A} (f : diag -> bool) (m : prog diag A) : Prop := forall d, f d = false -> f (snd (m d)) = false.

Lemma off_keeps {A} f (m : prog diag A) : leaves f m -> off f m.
Proof. intros H d Hd. specialize (H d). cbn in H. congruence. Qed.

Lemma off_bind {A B} f (m : prog diag A) (k : A -> prog diag B) :
  off f m -> (forall a, off f (k a)) -> off f (m ≫= k).
Proof.
  intros Hm Hk d Hd. unfold mbind, prog_bind. specialize (Hm d Hd).
  destruct (m d) as [[a|e|e] d']; cbn in *; [|done..]. by apply Hk.
Qed.

Lemma off_when f b (m : prog diag unit) : off f m -> off f (when b m).
Proof. intros Hm d Hd. unfold when. destruct b; [by apply Hm | done]. Qed.

Lemma off_modify f g : (forall d, f d = false -> f (g d) = false) -> off f (modify g).
Proof. intros Hg d. apply Hg. Qed.

Lemma off_deferred {A} f g (m : prog diag A) :
  (forall d, f d = false -> f (g d) = false) -> off f m -> off f (deferred g m).
Proof. intros Hg Hm d Hd. unfold deferred. specialize (Hm d Hd). destruct (m d). by apply Hg. Qed.

(** Switched on, and off again by a deferred call. *)
Lemma off_switched {A} f g h (m : prog diag A) : (forall d, f (g d) = false) -> off f (_ ← modify h; deferred g m).
Proof. intros Hg d _. unfold mbind, prog_bind, modify. by apply deferred_sets. Qed.

Ltac stay_off := repeat first
  [ assumption | apply same_preorder
  | match goal with |- forall _, _ => intros ? end
  | (apply off_switched; by intros ?)
  | apply off_bind | apply off_when | (apply off_modify; by intros ?) | (apply off_deferred; [by intros ?|])
  | (apply off_keeps, keeps_add; by intros ???) | (apply off_keeps, keeps_fail; by intros ???)
  | apply off_keeps, keeps_ret
  | match goal with |- off _ (match ?x with _ => _ end) => destruct x end ].

Lemma window_body_keeps req r c :
  leaves shared (window_body req r c) /\ leaves rates (window_body req r c) /\
  off cpu_on (window_body req r c) /\ off recorder_on (window_body req r c).
Proof. unfold window_body. split_and!; [keep | keep | stay_off | stay_off]. Qed.

Lemma window_cpu_keeps req r :
  leaves shared (window_cpu req r) /\ leaves rates (window_cpu req r) /\
  off cpu_on (window_cpu req r) /\ off recorder_on (window_cpu req r).
Proof.
  unfold window_cpu.
  destruct (window_body_keeps req r true) as (? & ? & ? & ?), (window_body_keeps req r false) as (? & ? & ? & ?).
  split_and!; [keep | keep | stay_off | stay_off].
Qed.

Lemma window_trace_keeps req :
  leaves shared (window_trace req) /\ leaves rates (window_trace req) /\
  off cpu_on (window_trace req) /\ off recorder_on (window_trace req).
Proof.
  unfold window_trace.
  destruct (window_cpu_keeps req true) as (? & ? & ? & ?), (window_cpu_keeps req false) as (? & ? & ? & ?).
  split_and!; [keep | keep | stay_off | stay_off].
Qed.

(** The window puts the rates back: the fraction as it was, block profiling off. *)
Lemma window_rates req d :
  mutexFraction (snd (captureDiagnosticsWindow req d)) = mutexFraction d /\
  (blockRate d = 0%Z -> blockRate (snd (captureDiagnosticsWindow req d)) = 0%Z).
Proof.
  destruct (window_trace_keeps req) as (_ & H2 & _ & _).
  unfold captureDiagnosticsWindow. destruct (contention req).
  - unfold mbind at 1 3, prog_bind at 1 3, gets. cbn beta iota.
    unfold mbind at 1 3, prog_bind at 1 3, modify. cbn beta iota.
    split; [|intros _]; apply deferred_sets; by intros ?.
  - specialize (H2 d). injection H2 as -> ->. by split.
Qed.

Lemma window_keeps req :
  leaves shared (captureDiagnosticsWindow req) /\
  off cpu_on (captureDiagnosticsWindow req) /\ off recorder_on (captureDiagnosticsWindow req).
Proof.
  destruct (window_trace_keeps req) as (? & ? & ? & ?).
  assert (forall X (f : diag -> X), leaves f (gets mutexFraction)) as Hg by (by intros X f d).
  unfold captureDiagnosticsWindow. split_and!; destruct (contention req); try done.
  - apply keeps_bind; [apply _ | apply Hg|]. keep.
  - apply off_bind; [apply off_keeps, Hg|]. stay_off.
  - apply off_bind; [apply off_keeps, Hg|]. stay_off.
Qed.

(** ** What the archive says of itself *)

(** The entry [n] is in the archive, or the errors say why it is not or not whole. *)
Definition accounted (n : string) (d : diag) : Prop :=
  n ∈ entries d \/ exists e, (n ++ ": " ++ e)%string ∈ failures d.

(** Every entry, and every error, is of a name in [P]. *)
Definition only (P : string -> Prop) (d : diag) : Prop :=
  Forall P (entries d) /\ Forall (fun f => exists n e, P n /\ f = (n ++ ": " ++ e)%string) (failures d).

(** Where [m] returns, all of [names] are accounted for, what was is still, and nothing but
    [names] was added. *)
Definition accounts {A} (names : list string) (m : prog diag A) : Prop := forall d a d',
  m d = (Returns a, d') ->
  (forall n, n ∈ names \/ accounted n d -> accounted n d') /\
  (forall P, (forall n, n ∈ names -> P n : Prop) -> only P d -> only P d').

Lemma accounts_bind {A B} l1 l2 (m : prog diag A) (k : A -> prog diag B) :
  accounts l1 m -> (forall a, accounts l2 (k a)) -> accounts (l1 ++ l2) (m ≫= k).
Proof.
  intros Hm Hk d b d' (a & d1 & E1 & E2)%bind_returns.
  destruct (Hm _ _ _ E1) as [H1 H2], (Hk _ _ _ _ E2) as [H3 H4]. split.
  - intros n. rewrite elem_of_app. intros [[Hn|Hn]|Hn]; apply H3; [right; apply H1; by left | by left | right; apply H1; by right].
  - intros P HP Hd. apply H4; [intros n Hn; apply HP, elem_of_app; auto|].
    apply H2; [intros n Hn; apply HP, elem_of_app; auto | done].
Qed.

Lemma accounts_quiet {A} (m : prog diag A) :
  leaves entries m -> leaves failures m -> accounts [] m.
Proof.
  intros He Hf d a d' E. specialize (He d). specialize (Hf d). rewrite E in He, Hf. cbn in *.
  unfold accounted, only. rewrite He, Hf. split; [|done]. intros n [Hn|?]; [by apply not_elem_of_nil in Hn | done].
Qed.

Lemma accounts_when (b : bool) l (m : prog diag unit) :
  accounts l m -> accounts (if b then l else []) (when b m).
Proof. intros Hm. destruct b; [exact Hm|]. by apply accounts_quiet; intros d. Qed.

Lemma accounts_fail n e : accounts [n] (fail n e).
Proof.
  intros d a d' [= <- <-]. unfold accounted, only; cbn. split.
  - intros n'. rewrite list_elem_of_singleton. intros [->|[?|[e' ?]]].
    + right. exists e. apply elem_of_app. right. by left.
    + by left.
    + right. exists e'. apply elem_of_app. by left.
  - intros P HP [H1 H2]. split; [done|]. apply Forall_app. split; [done|].
    apply Forall_singleton. exists n, e. split; [|done]. apply HP. by left.
Qed.

Lemma accounts_add n : accounts [n] (add n).
Proof.
  intros d a d'. unfold add. destruct (CreateHeader n) as [u|e]; [|by intros E; eapply accounts_fail].
  set (d1 := set_archive (entries d ++ [n]) (failures d) d).
  assert ((forall n', n' ∈ [n] \/ accounted n' d -> accounted n' d1) /\
          (forall P, (forall n', n' ∈ [n] -> P n' : Prop) -> only P d -> only P d1)) as [H1 H2].
  { unfold accounted, only; cbn. split.
    - intros n'. rewrite list_elem_of_singleton. intros [->|[?|?]]; [left|left|by right]; apply elem_of_app; [right; by left | by left].
    - intros P HP [Ha Hb]. split; [|done]. apply Forall_app. split; [done|]. apply Forall_singleton, HP. by left. }
  destruct (write n) as [u'|e|e]; [by intros [= <- <-] | | done].
  intros E. destruct (accounts_fail n e _ _ _ E) as [H3 H4]. split; [intros n' [Hn|Hn]; auto | auto].
Qed.

Lemma accounts_deferred {A} l g (m : prog diag A) :
  (forall d, entries (g d) = entries d) -> (forall d, failures (g d) = failures d) ->
  accounts l m -> accounts l (deferred g m).
Proof.
  intros He Hf Hm d a d'. unfold deferred. destruct (m d) as [r d1] eqn:E. intros [= -> <-].
  specialize (Hm _ _ _ E). unfold accounted, only in *. by rewrite He, Hf.
Qed.

Lemma accounts_same {A} l l' (m : prog diag A) : accounts l m -> (forall n, n ∈ l <-> n ∈ l') -> accounts l' m.
Proof.
  intros Hm Hl d a d' E. destruct (Hm d a d' E) as [H1 H2]. split.
  - intros n. rewrite <- Hl. apply H1.
  - intros P HP. apply H2. intros n. rewrite Hl. apply HP.
Qed.

(** The names of the attachments that are stored. *)
Definition attached (l : list attachment) : list string :=
  (fun n => ("app/" ++ n)%string) <$> filter (fun n => n <> "") (attachmentName <$> (at_name <$> l)).

Lemma accounts_attachments l : accounts (attached l) (add_attachments l).
Proof.
  induction l as [|a l IH]; [by apply accounts_quiet; intros d|]. cbn [add_attachments].
  unfold attached in *. rewrite !fmap_cons, filter_cons.
  eapply accounts_same.
  - apply accounts_bind; [apply accounts_when, accounts_add | intros _; exact IH].
  - intros n. destruct (decide (attachmentName (at_name a) = "")) as [->|Hn].
    + rewrite bool_decide_true, decide_False by tauto. done.
    + rewrite bool_decide_false, decide_True by done. done.
Qed.

Ltac account := repeat first
  [ eassumption
  | match goal with |- forall _, _ => intros ? end
  | apply accounts_bind | apply accounts_when | apply accounts_add | apply accounts_fail | apply accounts_attachments
  | (apply accounts_quiet; by intros ?)
  | (apply accounts_deferred; [by intros ?|by intros ?|])
  | match goal with |- accounts _ (lift_result ?r) => destruct r; apply accounts_quiet; by intros ? end ].

Definition mutex_block (which : string) : list string := [("mutex-" ++ which ++ ".pprof")%string; ("block-" ++ which ++ ".pprof")%string].
Definition trace_names (req : request) : list string := if with_trace req then ["trace.out"] else [].

(** What a capture is asked for. *)
Definition window_wanted (req : request) : list string :=
  "cpu.pprof" :: trace_names req ++ (if contention req then mutex_block "start" ++ mutex_block "end" else []).
Definition wanted (req : request) : list string :=
  ["README.txt"; "metrics-start.txt"; "heap-start.pprof"] ++ window_wanted req ++
  ["goroutines.pprof"; "goroutines.txt"] ++ (if has_goroutineleak then ["goroutineleak.pprof"] else []) ++
  ["heap-end.pprof"; "metrics-end.txt"] ++ attached (attachments req).

Lemma accounts_window_body req (r c : bool) :
  accounts ((if c then ["cpu.pprof"] else []) ++ (if r then ["trace.out"] else []) ++
            (if contention req then mutex_block "end" else [])) (window_body req r c).
Proof.
  unfold window_body. eapply accounts_same; [account|].
  - destruct recorder_WriteTo; account.
  - intros n. destruct c, r, (contention req); cbn; rewrite ?app_nil_r; done.
Qed.

(** The same names, in whatever order. *)
Ltac same_names := intros ?n; repeat case_match; cbn; rewrite ?elem_of_app, ?elem_of_cons, ?elem_of_nil; tauto.

Definition window_names (req : request) (r c : bool) : list string :=
  (if c then ["cpu.pprof"] else []) ++ (if r then ["trace.out"] else []) ++
  (if contention req then mutex_block "end" else []).

Lemma accounts_window_cpu req r : accounts (window_names req r true) (window_cpu req r).
Proof.
  pose proof (accounts_window_body req r true). pose proof (accounts_window_body req r false).
  unfold window_cpu. destruct StartCPUProfile as [u|e]; (eapply accounts_same; [account|]); by intros n.
Qed.

Lemma accounts_window_trace req : accounts (window_names req (with_trace req) true) (window_trace req).
Proof.
  pose proof (accounts_window_cpu req true). pose proof (accounts_window_cpu req false).
  unfold window_trace. destruct (with_trace req); [|done].
  destruct recorder_Start as [u|e]; (eapply accounts_same; [account|]); [by intros n|].
  unfold window_names, mutex_block. same_names.
Qed.

Lemma accounts_window req : accounts (window_wanted req) (captureDiagnosticsWindow req).
Proof.
  pose proof (accounts_window_trace req).
  unfold captureDiagnosticsWindow, window_wanted, trace_names. destruct (contention req) eqn:Hc.
  - eapply accounts_same; [account|]. unfold window_names, mutex_block. rewrite Hc. same_names.
  - eapply accounts_same; [done|]. unfold window_names. rewrite Hc. same_names.
Qed.


Lemma accounts_entries req : accounts (wanted req) (capture_entries req).
Proof.
  pose proof (accounts_window req). unfold capture_entries, wanted.
  eapply accounts_same; [account|]. intros n. cbn. rewrite ?app_nil_r. done.
Qed.

(** The window says whether it was cut short. *)
Lemma window_body_early req r c d b d' : window_body req r c d = (Returns b, d') -> b = ctx_done.
Proof. unfold window_body. by intros (? & ? & _ & (? & ? & _ & (? & ? & _ & [= <- _])%bind_returns)%bind_returns)%bind_returns. Qed.

Lemma deferred_returns {A} g (m : prog diag A) d a d' :
  deferred g m d = (Returns a, d') -> exists d1, m d = (Returns a, d1).
Proof. unfold deferred. destruct (m d) as [r d1]. intros [= -> _]. by exists d1. Qed.

Lemma window_early req d b d' : captureDiagnosticsWindow req d = (Returns b, d') -> b = ctx_done.
Proof.
  assert (forall r d b d', window_cpu req r d = (Returns b, d') -> b = ctx_done) as Hcpu.
  { intros r d0 b0 d0'. unfold window_cpu. destruct StartCPUProfile.
    - intros (? & ? & _ & [? ?]%deferred_returns)%bind_returns. by eapply window_body_early.
    - intros (? & ? & _ & ?)%bind_returns. by eapply window_body_early. }
  assert (forall d b d', window_trace req d = (Returns b, d') -> b = ctx_done) as Htrace.
  { intros d0 b0 d0'. unfold window_trace. destruct (with_trace req); [|apply Hcpu]. destruct recorder_Start.
    - intros (? & ? & _ & [? ?]%deferred_returns)%bind_returns. by eapply Hcpu.
    - intros (? & ? & _ & ?)%bind_returns. by eapply Hcpu. }
  unfold captureDiagnosticsWindow. destruct (contention req); [|apply Htrace].
  intros (? & ? & _ & (? & ? & _ & [? (? & ? & _ & (? & ? & _ & ?)%bind_returns)%bind_returns]%deferred_returns)%bind_returns)%bind_returns.
  by eapply Htrace.
Qed.

Lemma entries_early req d b d' : capture_entries req d = (Returns b, d') -> b = ctx_done.
Proof.
  unfold capture_entries.
  intros (? & ? & _ & (? & ? & _ & (? & ? & _ & (b0 & ? & Hw & H)%bind_returns)%bind_returns)%bind_returns)%bind_returns.
  apply window_early in Hw as ->. revert H.
  intros (? & ? & _ & (? & ? & _ & (? & ? & _ & (? & ? & _ & (? & ? & _ & (? & ? & _ & [= <- _])%bind_returns)%bind_returns)%bind_returns)%bind_returns)%bind_returns)%bind_returns.
  done.
Qed.

Lemma lift_result_same {A} (r : result A) (d d' : diag) a : lift_result r d = (Returns a, d') -> d' = d.
Proof. unfold lift_result. destruct r; congruence. Qed.

(** The archive of a body that returns, and its record. *)
Lemma capture_body_accounts req d r d' :
  capture_body req d = (Returns r, d') ->
  exists es errors, r = inr (es, finish_meta runtime (window_of req `quot` 1000000) (contention req) (with_trace req) ctx_done errors) /\
    (forall n, n ∈ wanted req -> n ∈ es \/ exists e, (n ++ ": " ++ e)%string ∈ errors) /\
    (forall n, n ∈ es -> n ∈ wanted req \/ n = "meta.json") /\
    Forall (fun f => exists n e, n ∈ wanted req /\ f = (n ++ ": " ++ e)%string) errors.
Proof.
  unfold capture_body. intros (? & d0 & [= _ <-] & (b & d1 & He & (errors & d2 & [= <- <-] & H)%bind_returns)%bind_returns)%bind_returns.
  rewrite (entries_early _ _ _ _ He) in H. destruct (accounts_entries req _ _ _ He) as [H1 H2].
  specialize (H2 (fun n => n ∈ wanted req) (fun n Hn => Hn)) as [H2 H3]; [by split; cbn|].
  revert H. intros (? & ? & Hl & (? & d4 & Hadd & (? & ? & Hz & (es & d5 & [= <- <-] & [= <- _])%bind_returns)%bind_returns)%bind_returns)%bind_returns.
  apply lift_result_same in Hl as ->. apply lift_result_same in Hz as ->.
  assert (entries d4 = entries d1 \/ entries d4 = entries d1 ++ ["meta.json"]) as Hd4.
  { revert Hadd. unfold add, fail, modify. destruct (CreateHeader "meta.json"); [|by intros [= _ <-]; left].
    destruct (write "meta.json"); intros [= _ <-]; by right. }
  eexists _, _. split; [done|]. split_and!; [| | done].
  - intros n Hn. destruct (H1 n (or_introl Hn)) as [Hin|[e Hin]]; [|right; by exists e].
    left. destruct Hd4 as [-> | ->]; [done|]. apply elem_of_app. by left.
  - intros n Hn. assert (n ∈ entries d1 \/ n = "meta.json") as [Hin|Hin]; [| |by right].
    + destruct Hd4 as [E|E]; rewrite E in Hn; [by left|]. apply elem_of_app in Hn as [?|?%list_elem_of_singleton]; auto.
    + left. by eapply Forall_forall in H2.
Qed.

(** No capture under way and no profiler running. *)
Definition at_rest (d : diag) : Prop :=
  locked d = false /\ diagnosticsStop d = None /\ blockRate d = 0%Z /\ cpu_on d = false /\ recorder_on d = false.

Lemma capture_body_rest req d :
  let d' := snd (capture_body req d) in
  mutexFraction d' = mutexFraction d /\
  (blockRate d = 0%Z -> blockRate d' = 0%Z) /\ (cpu_on d = false -> cpu_on d' = false) /\
  (recorder_on d = false -> recorder_on d' = false).
Proof.
  destruct (window_keeps req) as (_ & H2 & H3).
  assert (forall X (f : diag -> X) Y (g : diag -> Y), leaves f (gets g)) as Hg by (by intros X f Y g x).
  assert (forall f, not_archive f -> off f (captureDiagnosticsWindow req) -> off f (capture_body req)) as Hoff.
  { intros f Hf Hw. unfold capture_body, capture_entries.
    repeat first [apply same_preorder | apply off_bind; [|intros ?] | apply off_when | exact Hw | apply off_keeps, keeps_ret
      | apply off_keeps, keeps_lift_result | (apply off_keeps, keeps_add; exact Hf)
      | (apply off_keeps, keeps_attachments; exact Hf) | apply off_keeps, Hg
      | (apply off_modify; intros d1; by rewrite Hf)]. }
  assert (forall f : diag -> bool, not_archive f -> off f (captureDiagnosticsWindow req) ->
    f d = false -> f (snd (capture_body req d)) = false) as Hb by (intros f Hf Hw Hd; by apply Hoff).
  cbn zeta. split_and!.
  - pose proof (Hb (fun x => negb (mutexFraction x =? mutexFraction d)%Z) ltac:(by intros ???)) as Hm.
    apply Z.eqb_eq, negb_false_iff, Hm; [|by rewrite Z.eqb_refl].
    intros x Hx. by rewrite (proj1 (window_rates req x)).
  - intros Hd. pose proof (Hb (fun x => negb (blockRate x =? 0)%Z) ltac:(by intros ???)) as Hm.
    apply Z.eqb_eq, negb_false_iff, Hm; [|by rewrite Hd].
    intros x Hx. apply negb_false_iff, Z.eqb_eq in Hx. by rewrite (proj2 (window_rates req x) Hx).
  - intros Hd. by apply (Hb cpu_on).
  - intros Hd. by apply (Hb recorder_on).
Qed.

(** C26: a capture leaves nothing running however it ends, with its archive, an error or a
    panic on the way: the guard is free, the stop function gone, the mutex profile's
    fraction as it was, block profiling off, no CPU profile and no recorder; a request that
    is refused (no time, a capture under way) changes nothing at all. *)
Theorem capture_leaves_nothing_running n req d :
  (at_rest d ->
   let d' := snd (CaptureDiagnostics n req d) in at_rest d' /\ mutexFraction d' = mutexFraction d) /\
  ((window_of req <= 0)%Z \/ locked d = true ->
   exists e, CaptureDiagnostics n req d = (Returns (inl e), d)) /\
  (window_of req <= diagnosticsMaxWindow)%Z.
Proof.
  split_and!.
  - intros (Hl & Hs & Hb & Hc & Hr). unfold CaptureDiagnostics. cbn zeta.
    destruct (window_of req <=? 0)%Z; [by split_and!|]. rewrite Hl.
    unfold deferred at 1 3. cbn beta.
    destruct (diagnosticsMaxAttachmentBytes <? attached_bytes req)%Z; [by split_and!|].
    unfold deferred. pose proof (capture_body_rest req (setDiagnosticsStop (Some n) (set_locked true d))) as H.
    cbn zeta in H. destruct (capture_body req (setDiagnosticsStop (Some n) (set_locked true d))) as [r d1].
    cbn in *. destruct H as (H1 & H2 & H3 & H4). unfold at_rest; cbn. split_and!; auto.
  - unfold CaptureDiagnostics. intros [H|H].
    + apply Z.leb_le in H. rewrite H. by eexists.
    + destruct (window_of req <=? 0)%Z; [by eexists|]. rewrite H. by eexists.
  - unfold window_of. lia.
Qed.

(** an archive accounts for itself: every file the capture was asked for, and the runtime
    has, is in it or its record says what went wrong with it; it holds nothing else but that
    record, whose errors are all of such files; and the record says what was asked for (at
    most a minute) and whether the window was cut short. *)
Theorem archive_accounts_for_itself n req d es m d' :
  CaptureDiagnostics n req d = (Returns (inr (es, m)), d') ->
  (forall name, name ∈ wanted req -> name ∈ es \/ exists e, (name ++ ": " ++ e)%string ∈ Errors (m_Capture m)) /\
  (forall name, name ∈ es -> name ∈ wanted req \/ name = "meta.json") /\
  Forall (fun f => exists name e, name ∈ wanted req /\ f = (name ++ ": " ++ e)%string) (Errors (m_Capture m)) /\
  StoppedEarly (m_Capture m) = ctx_done /\ (0 <= RequestedMs (m_Capture m) <= 60000)%Z /\
  ((RequestedMs (m_Capture m) < 60000)%Z -> RequestedMs (m_Capture m) = duration_ms req) /\
  Contention (m_Capture m) = contention req /\ Trace (m_Capture m) = with_trace req.
Proof.
  unfold CaptureDiagnostics. destruct (Z.leb_spec (window_of req) 0) as [|Hw]; [by intros [=]|].
  destruct (locked d); [by intros [=]|]. intros [d1 H]%deferred_returns.
  destruct (diagnosticsMaxAttachmentBytes <? attached_bytes req)%Z; [by injection H|].
  apply deferred_returns in H as [d2 H]. apply deferred_returns in H as [d3 H].
  destruct (capture_body_accounts _ _ _ _ H) as (es' & errors & [= -> ->] & H1 & H2 & H3). cbn [finish_meta m_Capture Errors StoppedEarly RequestedMs Contention Trace].
  split_and!; try done; unfold window_of, diagnosticsMaxWindow in *.
  - apply Z.quot_pos; lia.
  - apply (Z.quot_le_mono _ (60 * 1000000000) 1000000); lia.
  - destruct (Z.min_spec (duration_ms req * 1000000) (60 * 1000000000)) as [[Hlt ->]|[Hle ->]].
    + intros _. apply Z.quot_mul. lia.
    + intros Hlt. by vm_compute in Hlt.
Qed.
End Server.

Abbreviation some_facts := (Facts "now" (Versions "" "" "") (Some ("core", "v1", [("vcs", "a"); ("vcs", "b")])) "linux" "amd64"
  4 4 0 1 0 3 (Some 1%nat) 10 11 5000).
Abbreviation idle := (Diag false None [] 0 0 false false [] []).
Abbreviation an_entry_panics := (fun name : string => if bool_decide (name = "cpu.pprof") then Panics "boom" else Returns tt).

Lemma capture_leaves_nothing_running_witness :
  at_rest idle /\
  at_rest (snd (CaptureDiagnostics (fun _ => Ok tt) an_entry_panics (Ok tt) (Ok tt) (Ok tt) false true some_facts (fun _ => Ok tt) (Ok tt) 0
    (Request 5000 true true []) idle)).
Proof.
  assert (at_rest idle) as H by (by split_and!). split; [exact H|].
  exact (proj1 (proj1 (capture_leaves_nothing_running (fun _ => Ok tt) an_entry_panics (Ok tt) (Ok tt) (Ok tt)
    false true some_facts (fun _ => Ok tt) (Ok tt) 0 (Request 5000 true true []) idle) H)).
Defined.

(** A capture whose last heap profile fails. *)
Abbreviation heap_fails := (fun name : string => if bool_decide (name = "heap-end.pprof") then Fails "no heap" else Returns tt).
Abbreviation troubled := (CaptureDiagnostics (fun _ => Ok tt) heap_fails (Ok tt) (Ok tt) (Ok tt) true false some_facts
  (fun _ => Ok tt) (Ok tt) 0 (Request 5000 true true []) idle).

Definition troubled_archive : list string * diagnosticsMeta :=
  match fst troubled with Returns (inr a) => a | _ => ([], newDiagnosticsMeta some_facts) end.

Lemma troubled_run :
  troubled = (Returns (inr (fst troubled_archive, snd troubled_archive)), snd troubled) /\
  Errors (m_Capture (snd troubled_archive)) = ["heap-end.pprof: no heap"].
Proof. split; by vm_compute. Qed.

Lemma archive_accounts_for_itself_witness :
  (troubled = (Returns (inr (fst troubled_archive, snd troubled_archive)), snd troubled) /\
   Errors (m_Capture (snd troubled_archive)) = ["heap-end.pprof: no heap"]) /\
  StoppedEarly (m_Capture (snd troubled_archive)) = true.
Proof.
  split; [exact troubled_run|].
  exact (proj1 (proj2 (proj2 (proj2 (archive_accounts_for_itself (fun _ => Ok tt) heap_fails (Ok tt) (Ok tt) (Ok tt) true false
    some_facts (fun _ => Ok tt) (Ok tt) 0 (Request 5000 true true []) idle _ _ _ (proj1 troubled_run)))))).
Defined.

(** An untroubled capture, and its archive. *)
Example archive_of_a_capture :
  match fst (CaptureDiagnostics (fun _ => Ok tt) (fun _ => Returns tt) (Ok tt) (Ok tt) (Ok tt) false false some_facts
    (fun _ => Ok tt) (Ok tt) 0
    (Request 5000 false true [Attachment "../a.log" "x"; Attachment ".." "y"]) idle) with
  | Returns (inr (es, m)) =>
      es = ["README.txt"; "metrics-start.txt"; "heap-start.pprof"; "cpu.pprof"; "trace.out"; "goroutines.pprof";
            "goroutines.txt"; "heap-end.pprof"; "metrics-end.txt"; "app/a.log"; "meta.json"] /\
      Errors (m_Capture m) = [] /\ RequestedMs (m_Capture m) = 5000%Z /\ b_Settings (m_Build m) = {["vcs" := "b"]}
  | _ => False
  end.
Proof. by vm_compute. Qed.

End Capture.
