(* ===== verification/RpcMisc.v ===== *)
(** * Handlers that read or poke the running box: autoselector.go, connections.go, stats.go,
    rulesets.go, system.go and privilege_linux.go of src/internal/rpc

    A module per file. The box's managers are parameters or, where the handler changes
    them, the state. *)

From S2P Require Import Prelude GoStr.

#[local] Open Scope string_scope.
#[local] Open Scope list_scope.

(** ** Auto selectors *)

Module AutoSelector.

(** What is called on the selectors, in order. *)
Inductive call := CheckOutbounds (tag : string) | SelectOutbound (tag member : string).

(** An outbound of the running box, and whether it is an auto selector. *)
Record outbound := MkOutbound { o_tag : string; o_auto : bool }.

Section Action.
  #[local] Set Default Proof Using "Type".
  (** The outbounds of the running box, with its manager; whether a group takes a member;
      the order in which a map is ranged over. *)
  Context (box : option (option (list outbound))) (accepts : string -> string -> bool).
  Context (order : gset string -> list string).

(** [autoSelectors]: by tag. *)
Definition autoSelectors : gset string :=
  match box with
  | Some (Some outbounds) => list_to_set (o_tag <$> filter (fun o => o_auto o = true) outbounds)
  | _ => ∅
  end.

(** [ErrorResp]: the empty text is success. *)
Definition ErrorResp := string.

Definition recheck_all (targets : list string) : prog (list call) unit :=
  for_each (fun tag => modify (fun cs => cs ++ [CheckOutbounds tag])) targets.

(** The loop of "select": the first group without the member ends it. *)
Fixpoint select_all (member : string) (targets : list string) : prog (list call) ErrorResp :=
  match targets with
  | [] => mret ""
  | tag :: targets =>
      _ ← modify (fun cs => cs ++ [SelectOutbound tag member]);
      if accepts tag member then select_all member targets
      else mret ("no member " ++ member ++ " in group " ++ tag)%string
  end.

Definition AutoSelectorAction (tag action member : string) : prog (list call) ErrorResp :=
  let selectors := autoSelectors in
  if bool_decide (selectors = ∅) then mret "no auto selector is running"
  else if negb (bool_decide (tag = "")) && negb (bool_decide (tag ∈ selectors))
  then mret ("no auto selector with tag " ++ tag)%string
  else
    let targets := if bool_decide (tag = "") then order selectors else [tag] in
    if bool_decide (action = "recheck") then _ ← recheck_all targets; mret ""
    else if bool_decide (action = "select") then select_all member targets
    else throw ("unknown auto selector action: " ++ action)%string.

Definition order_law : Prop := forall X, NoDup (order X) /\ forall t, t ∈ order X <-> t ∈ X.

Lemma recheck_all_calls targets cs :
  recheck_all targets cs = (Returns tt, cs ++ (CheckOutbounds <$> targets)).
Proof.
  unfold recheck_all. revert cs. induction targets as [|t ts IH]; intros cs; cbn [for_each].
  - by rewrite app_nil_r.
  - unfold mbind, prog_bind, modify. rewrite IH. by rewrite <- app_assoc.
Qed.

Lemma select_all_calls member targets : forall cs,
  exists tried, (exists rest, targets = tried ++ rest /\
    select_all member targets cs =
      (Returns (match rest with
                | [] => if bool_decide (Forall (fun t => accepts t member = true) tried) then ""
                        else default "" ((fun t => ("no member " ++ member ++ " in group " ++ t)%string) <$> last tried)
                | _ => default "" ((fun t => ("no member " ++ member ++ " in group " ++ t)%string) <$> last tried)
                end), cs ++ ((fun t => SelectOutbound t member) <$> tried)) /\
    (rest <> [] -> exists t, last tried = Some t /\ accepts t member = false)).
Proof.
  induction targets as [|t ts IH]; intros cs.
  - exists [], []. cbn. rewrite app_nil_r. split_and!; [done | done | done].
  - cbn [select_all]. unfold mbind, prog_bind, modify. destruct (accepts t member) eqn:E.
    + destruct (IH (cs ++ [SelectOutbound t member])) as (tried & rest & -> & Hc & Hr).
      exists (t :: tried), rest. split_and!; [done| |].
      * rewrite Hc, <- app_assoc. cbn. f_equal. f_equal. destruct rest as [|r rest].
        -- destruct (decide (Forall (fun t => accepts t member = true) tried)) as [Hf|Hf].
           ++ rewrite !bool_decide_true; [done| |done]. by constructor.
           ++ rewrite !bool_decide_false; [|intros Hx; apply Forall_cons in Hx as [_ ?]; done|done].
              destruct tried; [by destruct Hf|]. by rewrite last_cons_cons.
        -- destruct (Hr ltac:(done)) as (x & Hx & _). rewrite last_cons, Hx. done.
      * intros Hne. destruct (Hr Hne) as (x & Hx & Ha). exists x. by rewrite last_cons, Hx.
    + exists [t], ts. split_and!; [done| |intros _; by exists t].
      cbn. f_equal. f_equal. destruct ts; [|done]. rewrite bool_decide_false; [done|].
      intros Hx. apply Forall_cons in Hx as [Hx _]. congruence.
Qed.

(** an action reaches exactly the groups it names, each once: a recheck all of them, a
    selection those up to the first that has no such member, which the answer names; an
    unknown action or tag, and no selector running, reach none. *)
Theorem AutoSelectorAction_spec tag action member :
  order_law ->
  let targets := if bool_decide (tag = "") then order autoSelectors else [tag] in
  match AutoSelectorAction tag action member [] with
  | (Returns e, cs) =>
      (cs = [] /\ (autoSelectors = ∅ \/ (tag <> "" /\ tag ∉ autoSelectors)) /\ e <> "") \/
      (action = "recheck" /\ e = "" /\ cs = CheckOutbounds <$> targets) \/
      (action = "select" /\ exists tried rest, targets = tried ++ rest /\
         cs = (fun t => SelectOutbound t member) <$> tried /\
         (e = "" -> rest = [] /\ Forall (fun t => accepts t member = true) targets))
  | (Fails _, cs) => cs = [] /\ action <> "recheck" /\ action <> "select"
  | (Panics _, _) => False
  end.
Proof.
  intros Ho. cbn zeta. unfold AutoSelectorAction. case_bool_decide as H0; [left; auto|].
  destruct (negb (bool_decide (tag = "")) && negb (bool_decide (tag ∈ autoSelectors))) eqn:E.
  { apply andb_true_iff in E as [E1 E2]. apply negb_true_iff, bool_decide_eq_false in E1, E2. left. cbn. auto. }
  set (targets := if bool_decide (tag = "") then order autoSelectors else [tag]).
  clearbody targets.
  destruct (bool_decide (action = "recheck")) eqn:Er.
  { apply bool_decide_eq_true in Er. unfold mbind, prog_bind. rewrite recheck_all_calls. right; left. done. }
  apply bool_decide_eq_false in Er.
  destruct (bool_decide (action = "select")) eqn:Es; [|apply bool_decide_eq_false in Es; done].
  apply bool_decide_eq_true in Es.
  destruct (select_all_calls member targets []) as (tried & rest & Ht & Hc & Hrest).
  rewrite Hc. right; right. split; [done|]. exists tried, rest. split; [done|]. split; [done|].
  rewrite Ht. destruct rest as [|r rest].
  - case_bool_decide as Hf; [by rewrite app_nil_r|]. intros He.
    destruct (last tried) as [x|] eqn:El; [done|]. apply last_None in El as ->. by destruct Hf.
  - destruct (Hrest ltac:(done)) as (x & -> & _). done.
Qed.
End Action.

Abbreviation two_groups := (Some (Some [MkOutbound "a" true; MkOutbound "plain" false; MkOutbound "b" true])).
Abbreviation only_a := (fun tag member : string => bool_decide (tag = "a") && bool_decide (member = "m")).
Abbreviation backwards := (fun X : gset string => reverse (elements X)).

Lemma AutoSelectorAction_spec_witness :
  AutoSelectorAction two_groups only_a elements "a" "select" "m" [] = (Returns "", [SelectOutbound "a" "m"]) /\
  match AutoSelectorAction two_groups only_a elements "" "recheck" "" [] with
  | (Panics _, _) => False
  | _ => True
  end.
Proof.
  split; [vm_compute; reflexivity|].
  assert (order_law elements) as Ho by (intros X; split; [apply NoDup_elements | intros t; apply elem_of_elements]).
  pose proof (AutoSelectorAction_spec two_groups only_a elements "" "recheck" "" Ho) as H. cbn zeta in H.
  destruct (AutoSelectorAction two_groups only_a elements "" "recheck" "" []) as [[e|e|e] cs]; [exact I | exact I | exact H].
Defined.

(** Selecting for all groups stops where the map's order has the first group without the
    member: which groups are pinned differs from call to call. *)
Example select_depends_on_order :
  snd (AutoSelectorAction two_groups only_a elements "" "select" "m" []) <>
  snd (AutoSelectorAction two_groups only_a backwards "" "select" "m" []).
Proof. vm_compute. discriminate. Qed.

(** [unixMilliOrZero]. *)
Definition unixMilliOrZero (t : option Z) : Z := default 0%Z t.

(** What a selector says of itself and of its members; a time is in milliseconds, [None]
    the zero time. The message has the numbers as int32. *)
Record MemberStatus := MkMemberStatus {
  ms_Tag : string; ms_Rank : Z; ms_State : string; ms_Selected : bool; ms_SelectedUDP : bool;
  ms_Qualified : bool; ms_Active : bool; ms_AverageMs : Z; ms_DeviationMs : Z; ms_MinMs : Z;
  ms_MaxMs : Z; ms_Samples : Z; ms_Failures : Z; ms_Probes : Z; ms_DialTotal : Z; ms_DialFail : Z;
  ms_LastOK : option Z; ms_LastProbe : option Z; ms_CooldownUntil : option Z; ms_LastError : string
}.

Record AutoSelectorStatus := MkStatus {
  st_Tag : string; st_Phase : string; st_Selected : string; st_SelectedUDP : string;
  st_Pinned : string; st_Balance : bool; st_BalanceMode : string; st_Suspended : bool;
  st_SuspendedSince : option Z; st_MembersTotal : Z; st_MembersProbed : Z; st_MembersAlive : Z;
  st_MembersQualified : Z; st_MembersCooldown : Z; st_ProbesInFlight : Z; st_RoundsCompleted : Z;
  st_LastRoundAt : option Z; st_NextRoundAt : option Z; st_LastSwitchAt : option Z;
  st_LastSwitchReason : string; st_Members : list MemberStatus
}.

Record AutoSelectorMember := MkMember {
  am_Tag : string; am_Rank : Z; am_State : string; am_Selected : bool; am_SelectedUdp : bool;
  am_Qualified : bool; am_Active : bool; am_AverageMs : Z; am_DeviationMs : Z; am_MinMs : Z;
  am_MaxMs : Z; am_Samples : Z; am_Failures : Z; am_Probes : Z; am_DialTotal : Z; am_DialFail : Z;
  am_LastOkMs : Z; am_LastProbeMs : Z; am_CooldownUntilMs : Z; am_LastError : string
}.

Record AutoSelectorStatusMessage := MkMessage {
  as_Tag : string; as_Phase : string; as_Selected : string; as_SelectedUdp : string;
  as_Pinned : string; as_Balance : bool; as_BalanceMode : string; as_Suspended : bool;
  as_SuspendedSinceMs : Z; as_MembersTotal : Z; as_MembersProbed : Z; as_MembersAlive : Z;
  as_MembersQualified : Z; as_MembersCooldown : Z; as_ProbesInFlight : Z; as_RoundsCompleted : Z;
  as_LastRoundMs : Z; as_NextRoundMs : Z; as_LastSwitchMs : Z; as_LastSwitchReason : string;
  as_Members : list AutoSelectorMember
}.

Definition member_to_proto (member : MemberStatus) : AutoSelectorMember :=
  MkMember
    (ms_Tag member) (int32 (ms_Rank member)) (ms_State member) (ms_Selected member)
    (ms_SelectedUDP member) (ms_Qualified member) (ms_Active member) (int32 (ms_AverageMs member))
    (int32 (ms_DeviationMs member)) (int32 (ms_MinMs member)) (int32 (ms_MaxMs member))
    (int32 (ms_Samples member)) (int32 (ms_Failures member)) (int32 (ms_Probes member))
    (int32 (ms_DialTotal member)) (int32 (ms_DialFail member)) (unixMilliOrZero (ms_LastOK member))
    (unixMilliOrZero (ms_LastProbe member)) (unixMilliOrZero (ms_CooldownUntil member))
    (ms_LastError member).

Definition autoSelectorStatusToProto (status : AutoSelectorStatus) : AutoSelectorStatusMessage :=
  MkMessage
    (st_Tag status) (st_Phase status) (st_Selected status) (st_SelectedUDP status)
    (st_Pinned status) (st_Balance status) (st_BalanceMode status) (st_Suspended status)
    (unixMilliOrZero (st_SuspendedSince status)) (int32 (st_MembersTotal status))
    (int32 (st_MembersProbed status)) (int32 (st_MembersAlive status))
    (int32 (st_MembersQualified status)) (int32 (st_MembersCooldown status))
    (int32 (st_ProbesInFlight status)) (int32 (st_RoundsCompleted status))
    (unixMilliOrZero (st_LastRoundAt status)) (unixMilliOrZero (st_NextRoundAt status))
    (unixMilliOrZero (st_LastSwitchAt status)) (st_LastSwitchReason status)
    (member_to_proto <$> st_Members status).

(** [QueryAutoSelectors]: the status of each selector of the running box, in the order of
    the map. *)
Definition QueryAutoSelectors (box : option (option (list outbound))) (order : gset string -> list string)
    (Status : string -> AutoSelectorStatus) : list AutoSelectorStatusMessage :=
  (fun tag => autoSelectorStatusToProto (Status tag)) <$> order (autoSelectors box).

(** One message per selector, whatever the order, and none without a box. *)
Lemma QueryAutoSelectors_each box order Status :
  order_law order ->
  QueryAutoSelectors box order Status ≡ₚ (fun tag => autoSelectorStatusToProto (Status tag)) <$> elements (autoSelectors box) /\
  (box = None -> QueryAutoSelectors box order Status = []).
Proof.
  intros Ho. unfold QueryAutoSelectors. destruct (Ho (autoSelectors box)) as [Hnd Hin].
  assert (order (autoSelectors box) ≡ₚ elements (autoSelectors box)) as E.
  { apply NoDup_Permutation; [done | apply NoDup_elements |]. intros t. by rewrite Hin, elem_of_elements. }
  split; [by rewrite E|]. intros ->. cbn in *. rewrite elements_empty in E.
  by apply Permutation_nil_r in E as ->.
Qed.

End AutoSelector.

(** ** Connections *)

Module Connections.

(** The tracker of a connection, as far as it is reported; times in milliseconds. *)
Record TrackerMetadata := MkTracker {
  ID : string; CreatedAt : Z; ClosedAt : option Z; Upload : Z; Download : Z; Outbound : string;
  Network : string; Destination : string; Protocol : string; Domain : string;
  ProcessInfo : option string; Chain : list string; Source : option string
}.

Record ConnectionMetaData := MkConnection {
  c_Id : string; c_CreatedAt : Z; c_Upload : Z; c_Download : Z; c_Outbound : string; c_Network : string;
  c_Dest : string; c_Protocol : string; c_Domain : string; c_Process : string; c_ProcessPath : string;
  c_Chain : list string; c_ClosedAt : Z; c_Source : string
}.

(** The name of a process: what follows the last separator of its path. *)
Definition process_name (sep : ascii) (path : string) : string := List.last (split_by sep path) "".

Definition connMetaToProto (sep : ascii) (c : TrackerMetadata) : ConnectionMetaData :=
  let processPath := default "" (ProcessInfo c) in
  let process := match ProcessInfo c with Some p => process_name sep p | None => "" end in
  MkConnection (ID c) (CreatedAt c) (Upload c) (Download c) (Outbound c) (Network c) (Destination c)
    (Protocol c) (Domain c) process processPath (Chain c) (default 0%Z (ClosedAt c)) (default "" (Source c)).

Lemma process_name_last sep dir name :
  lacks sep name = true -> process_name sep (dir ++ String sep name)%string = name.
Proof.
  intros Hn. unfold process_name. induction dir as [|c dir IH].
  - change ("" ++ String sep name)%string with (String sep name). cbn [split_by].
    rewrite split_by_lacks by done. by rewrite Ascii.eqb_refl.
  - change (String c dir ++ String sep name)%string with (String c (dir ++ String sep name)). cbn [split_by].
    destruct (split_by sep (dir ++ String sep name)) as [|w ws] eqn:E; [by apply split_by_not_nil in E|].
    destruct (Ascii.eqb c sep); [done|].
    destruct ws as [|w' ws]; [|done]. exfalso.
    (* the separator splits: there is more than one piece *)
    clear IH. revert w E. induction dir as [|x dir IHd]; intros w E.
    + change ("" ++ String sep name)%string with (String sep name) in E. cbn [split_by] in E.
      rewrite split_by_lacks in E by done. by rewrite Ascii.eqb_refl in E.
    + change (String x dir ++ String sep name)%string with (String x (dir ++ String sep name)) in E.
      cbn [split_by] in E.
      destruct (split_by sep (dir ++ String sep name)) as [|y ys] eqn:E'; [by apply split_by_not_nil in E'|].
      destruct (Ascii.eqb x sep); [done|]. injection E as _ ->. by apply (IHd y).
Qed.

(** [QueryConnections]: nothing without a box, an error without a traffic manager. *)
Definition QueryConnections (sep : ascii)
    (box : option (option (list TrackerMetadata * list TrackerMetadata))) :
    result (list ConnectionMetaData * list ConnectionMetaData) :=
  match box with
  | None => Ok ([], [])
  | Some None => Err "no traffic manager found"
  | Some (Some (active, closed)) => Ok (connMetaToProto sep <$> active, connMetaToProto sep <$> closed)
  end.

(** The connections a manager has open, by id; a tracker that is closed leaves it. *)
Section Close.
  Context {Id : Type} `{Countable Id} (FromString : string -> option Id).

Fixpoint close_all (ids : list string) (live : gset Id) (closed : Z) : Z * gset Id :=
  match ids with
  | [] => (closed, live)
  | raw :: ids =>
      match FromString raw with
      | None => close_all ids live closed
      | Some id =>
          if decide (id ∈ live) then close_all ids (live ∖ {[id]}) (int32 (closed + 1))
          else close_all ids live closed
      end
  end.

(** [CloseConnections]: how many were closed, or an error text. *)
Definition CloseConnections (ids : list string) (box : option (option (gset Id))) :
    (Z + string) * option (option (gset Id)) :=
  if bool_decide (ids = []) then (inl 0%Z, box)
  else
    match box with
    | None => (inr "no instance is running", box)
    | Some None => (inr "no traffic manager found", box)
    | Some (Some live) => let '(n, live) := close_all ids live 0 in (inl n, Some (Some live))
    end.

Lemma size_add (x : Id) (X : gset Id) : x ∉ X -> size ({[x]} ∪ X) = S (size X).
Proof. intros Hx. rewrite size_union by set_solver. by rewrite size_singleton. Qed.

Definition named (ids : list string) : gset Id := list_to_set (omap FromString ids).

Lemma close_all_spec ids : forall live closed,
  (0 <= closed)%Z -> (closed + Z.of_nat (length ids) < 2 ^ 31)%Z ->
  close_all ids live closed = ((closed + Z.of_nat (size (live ∩ named ids)))%Z, live ∖ named ids).
Proof.
  induction ids as [|raw ids IH]; intros live closed Hc Hb; cbn [close_all].
  - unfold named; cbn. f_equal.
    + replace (live ∩ ∅) with (∅ : gset Id) by (apply leibniz_equiv; set_solver). rewrite size_empty. lia.
    + apply leibniz_equiv. set_solver.
  - cbn [length] in Hb. destruct (FromString raw) as [id|] eqn:E.
    + assert (named (raw :: ids) = {[id]} ∪ named ids) as Hn.
      { unfold named, omap at 1. cbn [list_omap]. rewrite E. done. }
      rewrite Hn. destruct (decide (id ∈ live)) as [Hin|Hin].
      * rewrite wrap_signed_small by (cbn; lia). rewrite IH by lia. f_equal.
        -- replace (live ∩ ({[id]} ∪ named ids)) with ({[id]} ∪ ((live ∖ {[id]}) ∩ named ids)).
           2: { apply leibniz_equiv. intros x. rewrite !elem_of_intersection, !elem_of_union, !elem_of_intersection,
                  !elem_of_difference, !elem_of_singleton. destruct (decide (x = id)) as [->|]; tauto. }
           rewrite size_add by set_solver. lia.
        -- apply leibniz_equiv. set_solver.
      * rewrite IH by lia. f_equal.
        -- replace (live ∩ ({[id]} ∪ named ids)) with (live ∩ named ids); [done|].
           apply leibniz_equiv. set_solver.
        -- apply leibniz_equiv. set_solver.
    + assert (named (raw :: ids) = named ids) as -> by (unfold named, omap at 1; cbn [list_omap]; by rewrite E).
      apply IH; lia.
Qed.

(** closing connections closes exactly those named that are open, each once however
    often it is named, ignores what is no id or already closed, and counts what it closed;
    asking again closes nothing. *)
Theorem CloseConnections_exact ids live :
  (Z.of_nat (length ids) < 2 ^ 31)%Z ->
  CloseConnections ids (Some (Some live)) =
    (inl (Z.of_nat (size (live ∩ named ids))), Some (Some (live ∖ named ids))) /\
  CloseConnections ids (snd (CloseConnections ids (Some (Some live)))) =
    (inl 0%Z, Some (Some (live ∖ named ids))).
Proof.
  intros Hb.
  assert (forall l, CloseConnections ids (Some (Some l)) =
    (inl (Z.of_nat (size (l ∩ named ids))), Some (Some (l ∖ named ids)))) as E.
  { intros l. unfold CloseConnections. destruct (decide (ids = [])) as [->|Hne].
    - rewrite bool_decide_true by done. unfold named; cbn.
      replace (l ∩ ∅) with (∅ : gset Id) by (apply leibniz_equiv; set_solver). rewrite size_empty.
      replace (l ∖ ∅) with (l : gset Id) by (apply leibniz_equiv; set_solver). done.
    - rewrite bool_decide_false by done. rewrite close_all_spec by lia. done. }
  split; [apply E|]. rewrite E. cbn [snd]. rewrite E.
  replace ((live ∖ named ids) ∩ named ids) with (∅ : gset Id) by (apply leibniz_equiv; set_solver).
  replace (live ∖ named ids ∖ named ids) with (live ∖ named ids : gset Id) by (apply leibniz_equiv; set_solver).
  done.
Qed.
End Close.

Lemma CloseConnections_exact_witness :
  (Z.of_nat (length ["7"; "x"; "7"; "9"]) < 2 ^ 31)%Z /\
  fst (CloseConnections (parse_uint 8) ["7"; "x"; "7"; "9"] (Some (Some {[7; 8]}%Z))) = inl 1%Z.
Proof.
  split; [cbn; lia|].
  pose proof (proj1 (CloseConnections_exact (parse_uint 8) ["7"; "x"; "7"; "9"] ({[7; 8]}%Z) ltac:(cbn; lia))) as H.
  rewrite H. vm_compute. reflexivity.
Defined.

End Connections.

(** ** Counters *)

Module Stats.

Section Query.
  (** [TotalOutbound] of the traffic manager. *)
  Context (TotalOutbound : string -> Z * Z).

Definition add_totals (tags : list string) (acc : gmap string Z * gmap string Z) : gmap string Z * gmap string Z :=
  foldl (fun acc tag => let '(u, d) := TotalOutbound tag in (<[tag := u]> (fst acc), <[tag := d]> (snd acc))) acc tags.

(** The managers of a running box: traffic, outbounds, endpoints. *)
Record managers := Managers { m_traffic : bool; m_outbounds : option (list string); m_endpoints : option (list string) }.

(** [QueryStats]: the counters so far come with an error. *)
Definition QueryStats (box : option managers) : (gmap string Z * gmap string Z) * option string :=
  match box with
  | None => ((∅, ∅), None)
  | Some m =>
      if m_traffic m then
        match m_outbounds m with
        | None => ((∅, ∅), Some "nil outbound manager")
        | Some outbounds =>
            match m_endpoints m with
            | None => ((∅, ∅), Some "nil endpoint manager")
            | Some endpoints => (add_totals endpoints (add_totals outbounds (∅, ∅)), None)
            end
        end
      else ((∅, ∅), None)
  end.

Lemma add_totals_lookup tags : forall acc tag,
  fst (add_totals tags acc) !! tag = (if decide (tag ∈ tags) then Some (fst (TotalOutbound tag)) else fst acc !! tag) /\
  snd (add_totals tags acc) !! tag = (if decide (tag ∈ tags) then Some (snd (TotalOutbound tag)) else snd acc !! tag).
Proof.
  unfold add_totals. induction tags as [|t ts IH]; intros acc tag; cbn [foldl].
  - rewrite decide_False by apply not_elem_of_nil. done.
  - destruct (TotalOutbound t) as [u d] eqn:E. destruct (IH (<[t := u]> (fst acc), <[t := d]> (snd acc)) tag) as [-> ->].
    cbn [fst snd]. destruct (decide (tag = t)) as [->|Hne].
    + rewrite !lookup_insert_eq, !(decide_True (P := t ∈ t :: ts)) by (by left).
      rewrite E. by case_decide.
    + rewrite !lookup_insert_ne by done. destruct (decide (tag ∈ ts)).
      * by rewrite !decide_True by (by right).
      * by rewrite !(decide_False (P := tag ∈ t :: ts)) by (by intros [?|?]%elem_of_cons).
Qed.

(** Each tag of an outbound or endpoint has its totals, and no other tag any. *)
Lemma QueryStats_totals outbounds endpoints tag :
  let '((ups, downs), err) := QueryStats (Some (Managers true (Some outbounds) (Some endpoints))) in
  err = None /\
  ups !! tag = (if decide (tag ∈ outbounds ++ endpoints) then Some (fst (TotalOutbound tag)) else None) /\
  downs !! tag = (if decide (tag ∈ outbounds ++ endpoints) then Some (snd (TotalOutbound tag)) else None).
Proof.
  cbn. destruct (add_totals endpoints (add_totals outbounds (∅, ∅))) as [ups downs] eqn:E.
  destruct (add_totals_lookup endpoints (add_totals outbounds (∅, ∅)) tag) as [H1 H2].
  destruct (add_totals_lookup outbounds (∅, ∅) tag) as [H3 H4]. rewrite E in H1, H2. cbn [fst snd] in *.
  rewrite H1, H2, H3, H4. split; [done|]. cbn. rewrite !lookup_empty.
  destruct (decide (tag ∈ endpoints)), (decide (tag ∈ outbounds));
    (rewrite !decide_True by (apply elem_of_app; auto)) || (rewrite !decide_False by (rewrite elem_of_app; tauto)); done.
Qed.
End Query.

End Stats.

(** ** Rule sets *)

Module RuleSets.

Definition ruleSetUpdateConcurrency : nat := 5.

(** A rule set of the router: whether it can be updated, and how its update would go. *)
Record rule_set := MkRuleSet { rs_name : string; rs_updatable : bool; rs_update : result unit }.

(** The goroutines of [UpdateRuleSets]: those waiting for a slot, those that have one; and
    what they have recorded under [resultMu]. *)
Record updates := Updates { waiting : list rule_set; running : list rule_set; updated : Z; failures : list string }.

Definition start (rule_sets : list rule_set) : updates :=
  Updates (filter (fun r => rs_updatable r = true) rule_sets) [] 0 [].

Definition record_result (r : rule_set) (u : updates) : updates :=
  match rs_update r with
  | Ok _ => Updates (waiting u) (running u) (int32 (updated u + 1)) (failures u)
  | Err e => Updates (waiting u) (running u) (updated u) (failures u ++ [(rs_name r ++ ": " ++ e)%string])
  end.

Inductive update_step : updates -> updates -> Prop :=
| update_acquire r w1 w2 run n f :
    (length run < ruleSetUpdateConcurrency)%nat ->
    update_step (Updates (w1 ++ r :: w2) run n f) (Updates (w1 ++ w2) (r :: run) n f)
| update_finish r w r1 r2 n f :
    update_step (Updates w (r1 ++ r :: r2) n f) (record_result r (Updates w (r1 ++ r2) n f)).

(** The answer once [wg.Wait] returns: failures sorted, one to a line. *)
Definition newline : string := String (ascii_of_nat 10) "".
Definition answer (u : updates) : Z * string := (updated u, join newline (merge_sort String.le (failures u))).

Definition UpdateRuleSets (box : option unit) (u : updates) : (Z * string) + string :=
  match box with None => inr "no instance is running" | Some _ => inl (answer u) end.

(** What should come of it. *)
Definition failure_of (r : rule_set) : option string :=
  match rs_update r with Ok _ => None | Err e => Some (rs_name r ++ ": " ++ e)%string end.
Definition expected (rule_sets : list rule_set) : Z * string :=
  let l := filter (fun r => rs_updatable r = true) rule_sets in
  (Z.of_nat (length (filter (fun r => is_ok (rs_update r) = true) l)),
   join newline (merge_sort String.le (omap failure_of l))).

(** How many updates of a list succeed. *)
Definition successes (l : list rule_set) : nat := length (omap (fun r => if is_ok (rs_update r) then Some r else None) l).

Record updates_ok (all : list rule_set) (u : updates) : Prop := UpdatesOk {
  up_slots : (length (running u) <= ruleSetUpdateConcurrency)%nat;
  up_count : (0 <= updated u)%Z /\
    (updated u + Z.of_nat (successes (waiting u) + successes (running u)) = Z.of_nat (successes all))%Z;
  up_failures : failures u ++ omap failure_of (waiting u ++ running u) ≡ₚ omap failure_of all;
}.

Lemma successes_middle l1 l2 r :
  successes (l1 ++ r :: l2) = ((if is_ok (rs_update r) then 1 else 0) + successes (l1 ++ l2))%nat.
Proof.
  unfold successes. rewrite !omap_app, !length_app. cbn. destruct (is_ok (rs_update r)); cbn; lia.
Qed.

Lemma successes_le l : (successes l <= length l)%nat.
Proof. unfold successes. induction l as [|r l IH]; [done|]. cbn. destruct (is_ok (rs_update r)); cbn; lia. Qed.

Lemma failures_middle l1 l2 r :
  omap failure_of (l1 ++ r :: l2) ≡ₚ option_list (failure_of r) ++ omap failure_of (l1 ++ l2).
Proof.
  rewrite !omap_app. change (omap failure_of (r :: l2)) with
    (match failure_of r with Some x => x :: omap failure_of l2 | None => omap failure_of l2 end).
  destruct (failure_of r); cbn; [by rewrite Permutation_middle | done].
Qed.

Lemma updates_ok_step all u u' :
  (Z.of_nat (length all) < 2 ^ 31)%Z -> updates_ok all u -> update_step u u' -> updates_ok all u'.
Proof.
  intros Hb Hu Hst. revert Hu. destruct Hst as [r w1 w2 run n f Hr | r w r1 r2 n f];
    intros [H1 [Hn H2] H3]; cbn [waiting running updated failures] in *.
  - rewrite successes_middle in H2.
    split; cbn [waiting running updated failures length]; [lia| |].
    + split; [done|]. pose proof (successes_middle [] run r) as E. cbn [app] in E. lia.
    + rewrite <- H3. apply Permutation_app_head.
      rewrite (failures_middle (w1 ++ w2) run r), <- (app_assoc w1 (r :: w2) run).
      cbn [app]. by rewrite (failures_middle w1 (w2 ++ run) r), <- app_assoc.
  - pose proof (successes_le all) as Hle. rewrite successes_middle in H2. rewrite length_app in H1. cbn in H1.
    rewrite app_assoc, failures_middle, <- app_assoc in H3.
    unfold record_result. unfold failure_of in H3 at 1. destruct (rs_update r) as [[]|e] eqn:E; cbn [is_ok] in H2.
    + assert (int32 (n + 1) = n + 1)%Z as Ei by (apply wrap_signed_small; cbn; lia).
      split; cbn [waiting running updated failures]; [rewrite length_app; lia | rewrite Ei; lia | exact H3].
    + split; cbn [waiting running updated failures]; [rewrite length_app; lia | lia |].
      rewrite <- H3. cbn [option_list]. by rewrite <- app_assoc.
Qed.

Lemma filter_ok_length l :
  length (filter (fun r => is_ok (rs_update r) = true) l) = successes l.
Proof.
  unfold successes. induction l as [|r l IH]; [done|]. rewrite filter_cons. cbn.
  destruct (is_ok (rs_update r)) eqn:E.
  - rewrite decide_True by done. cbn. by rewrite IH.
  - rewrite decide_False by done. exact IH.
Qed.

(** whatever the order in which rule sets get a slot and finish, no more than five
    updates run at a time, and the answer is the same: every updatable rule set is updated
    once, the successes are counted and the failures reported in sorted order. *)
Theorem UpdateRuleSets_deterministic rule_sets u :
  (Z.of_nat (length rule_sets) < 2 ^ 31)%Z -> steps update_step (start rule_sets) u ->
  (length (running u) <= ruleSetUpdateConcurrency)%nat /\
  (waiting u = [] -> running u = [] -> UpdateRuleSets (Some tt) u = inl (expected rule_sets)) /\
  (waiting u <> [] \/ running u <> [] -> exists u', update_step u u').
Proof.
  intros Hb Hs. set (all := filter (fun r => rs_updatable r = true) rule_sets).
  assert (Z.of_nat (length all) < 2 ^ 31)%Z as Hb'.
  { pose proof (length_filter (fun r => rs_updatable r = true) rule_sets). unfold all. lia. }
  assert (updates_ok all u) as [H1 [Hn H2] H3].
  { eapply (steps_invariant update_step (updates_ok all)); [by eauto using updates_ok_step | exact Hs |].
    split; cbn; [unfold ruleSetUpdateConcurrency; lia | fold all; unfold successes; cbn; lia | by rewrite app_nil_r]. }
  split_and!; [done| |].
  - intros Ew Er. rewrite Ew, Er in *. cbn in H2, H3. rewrite app_nil_r in H3.
    unfold UpdateRuleSets, answer, expected. fold all. rewrite filter_ok_length.
    do 2 f_equal; [unfold successes in *; cbn in *; lia|]. f_equal.
    apply (StronglySorted_unique String.le); [apply (StronglySorted_merge_sort String.le) .. |].
    by rewrite !(merge_sort_Permutation String.le), H3.
  - intros H. destruct u as [w run n f]. cbn in *. destruct run as [|r run].
    + destruct H as [H|H]; [|done]. destruct w as [|r w]; [done|].
      eexists. apply (update_acquire r [] w). unfold ruleSetUpdateConcurrency. cbn. lia.
    + eexists. apply (update_finish r w [] run).
Qed.

Abbreviation some_sets := [MkRuleSet "b" true (Err "404"); MkRuleSet "local" false (Ok tt); MkRuleSet "a" true (Err "timeout");
  MkRuleSet "c" true (Ok tt)].

Lemma UpdateRuleSets_deterministic_witness :
  (Z.of_nat (length some_sets) < 2 ^ 31)%Z /\
  exists u, steps update_step (start some_sets) u /\ UpdateRuleSets (Some tt) u = inl (expected some_sets).
Proof.
  split; [cbn; lia|].
  exists (Updates [] [] 1 ["b: 404"; "a: timeout"]).
  assert (steps update_step (start some_sets) (Updates [] [] 1 ["b: 404"; "a: timeout"])) as Hs.
  { eapply steps_step; [apply (update_acquire (MkRuleSet "b" true (Err "404")) []); cbn; unfold ruleSetUpdateConcurrency; lia|].
    eapply steps_step; [apply (update_finish (MkRuleSet "b" true (Err "404")) _ [] [])|].
    eapply steps_step; [apply (update_acquire (MkRuleSet "a" true (Err "timeout")) []); cbn; unfold ruleSetUpdateConcurrency; lia|].
    eapply steps_step; [apply (update_acquire (MkRuleSet "c" true (Ok tt)) []); cbn; unfold ruleSetUpdateConcurrency; lia|].
    eapply steps_step; [apply (update_finish (MkRuleSet "c" true (Ok tt)) _ [] [_])|].
    apply steps_one. apply (update_finish (MkRuleSet "a" true (Err "timeout")) _ [] []). }
  split; [exact Hs|].
  destruct (UpdateRuleSets_deterministic some_sets _ ltac:(cbn; lia) Hs) as (_ & H & _).
  by apply H.
Defined.

End RuleSets.

(** ** Privileges *)

Module Privilege.

(** The capabilities of the kernel, by their numbers. *)
Definition CAP_DAC_READ_SEARCH : Z := 2.
Definition CAP_NET_BIND_SERVICE : Z := 10.
Definition CAP_NET_ADMIN : Z := 12.
Definition CAP_NET_RAW : Z := 13.
Definition CAP_SYS_PTRACE : Z := 19.

Definition tunCapabilities : list Z :=
  [CAP_NET_ADMIN; CAP_NET_RAW; CAP_NET_BIND_SERVICE; CAP_SYS_PTRACE; CAP_DAC_READ_SEARCH].

(** [hasTunCapabilities] on what [Capget] gives: two words of effective capabilities. *)
Definition has_all (data : Z -> Z) (caps : list Z) : bool :=
  forallb (fun c => negb (Z.land (data (c / 32)) (Z.shiftl 1 (c mod 32)) =? 0)%Z) caps.

Definition hasTunCapabilities (Capget : option (Z * Z)) : bool :=
  match Capget with
  | None => false
  | Some (low, high) => has_all (fun w => if (w =? 0)%Z then low else high) tunCapabilities
  end.

(** [IsPrivileged] *)
Definition IsPrivileged (goos : string) (euid : Z) (Capget : option (Z * Z)) : bool :=
  if bool_decide (goos = "windows") then false else (euid =? 0)%Z || hasTunCapabilities Capget.

Lemma land_bit x k : (0 <= k)%Z -> negb (Z.land x (Z.shiftl 1 k) =? 0)%Z = Z.testbit x k.
Proof.
  intros Hk. rewrite Z.shiftl_1_l. destruct (Z.testbit x k) eqn:E.
  - apply negb_true_iff, Z.eqb_neq. intros H. apply (f_equal (fun z => Z.testbit z k)) in H.
    rewrite Z.land_spec, Z.pow2_bits_true, E, Z.bits_0 in H by done. done.
  - apply negb_false_iff, Z.eqb_eq. apply Z.bits_inj'. intros n Hn.
    rewrite Z.land_spec, Z.bits_0. destruct (decide (n = k)) as [->|Hne]; [by rewrite E|].
    rewrite Z.pow2_bits_false by done. apply andb_false_r.
Qed.

(** Only the whole set counts: each of the five bits of the low word. *)
Lemma hasTunCapabilities_bits low high :
  hasTunCapabilities (Some (low, high)) = true <->
  Forall (fun c => Z.testbit low c = true) tunCapabilities.
Proof.
  unfold hasTunCapabilities, has_all. rewrite forallb_forall, Forall_forall.
  setoid_rewrite list_elem_of_In.
  assert (forall c, In c tunCapabilities -> negb (Z.land (if (c / 32 =? 0)%Z then low else high) (Z.shiftl 1 (c mod 32)) =? 0)%Z
    = Z.testbit low c) as E.
  { intros c Hc. cbn in Hc. destruct Hc as [<-|[<-|[<-|[<-|[<-|[]]]]]]; by rewrite land_bit. }
  split; intros H c Hc; specialize (H c Hc); rewrite E in * by done; done.
Qed.

End Privilege.
