(* ===== verification/XrayDns.v ===== *)
(** * Xray instances and their resolver: src/internal/xraydns/resolver.go and
    src/internal/xray/constructor.go

    It answers Xray through the DNS router of the sing-box instance in the same process,
    which is asked for at each lookup. *)

From S2P Require Import Prelude GoStr GoNet.

#[local] Open Scope string_scope.
#[local] Open Scope list_scope.

Definition directTransportTag : string := "dns-direct".
Definition lookupTimeout : Z := 5 * 1000000000.

Record IPOption := MkIPOption { IPv4Enable : bool; IPv6Enable : bool }.

(** sing-box's strategies, those the resolver names and the ones a config may. *)
Inductive DomainStrategy := AsIS | PreferIPv4 | PreferIPv6 | IPv4Only | IPv6Only.

#[export] Instance DomainStrategy_eq_dec : EqDecision DomainStrategy.
Proof. solve_decision. Defined.

(** What a box's context has registered; a transport is known by number. *)
Record context := MkContext {
  dns_router : bool;
  transport_manager : option (string -> option nat);
  network_manager : option DomainStrategy          (* the default resolver's strategy *)
}.

(** [resolver]: the transport it found once. *)
Record resolver := MkResolver { transport : option nat }.

Definition New : resolver := MkResolver None.

Definition strategyFor (o : IPOption) (res : DomainStrategy) : DomainStrategy :=
  if IPv4Enable o && IPv6Enable o then res
  else if IPv4Enable o then IPv4Only
  else IPv6Only.

Definition resolverStrategy (ctx : context) : DomainStrategy :=
  match network_manager ctx with None => AsIS | Some s => s end.

(** [directTransport]; nothing found is not remembered. *)
Definition directTransport (ctx : context) (r : resolver) : option nat * resolver :=
  match transport r with
  | Some t => (Some t, r)
  | None =>
      match transport_manager ctx with
      | None => (None, r)
      | Some manager =>
          match manager directTransportTag with
          | None => (None, r)
          | Some t => (Some t, MkResolver (Some t))
          end
      end
  end.

Record query := MkQuery { q_domain : string; q_transport : option nat; q_strategy : DomainStrategy; q_timeout : Z }.

Definition ErrEmptyResponse : string := "empty response".

Section Lookup.
  #[local] Set Default Proof Using "Type".
  (** The provider, and the router's lookup. *)
  Context (provider : option context) (router_Lookup : query -> result (list Addr)).

(** [LookupIP]: the addresses as bytes, and the resolver after it; queries to the router
    are in the third component. *)
Definition LookupIP (domain : string) (o : IPOption) (r : resolver) : result (list (list Z)) * resolver * list query :=
  if negb (IPv4Enable o) && negb (IPv6Enable o) then (Err ErrEmptyResponse, r, [])
  else
    match provider with
    | None => (Err "nunya-dns: sing-box instance is not up yet", r, [])
    | Some ctx =>
        if dns_router ctx then
          let '(t, r) := directTransport ctx r in
          let q := MkQuery domain t (strategyFor o (resolverStrategy ctx)) lookupTimeout in
          match router_Lookup q with
          | Err e => (Err e, r, [q])
          | Ok [] => (Err ErrEmptyResponse, r, [q])
          | Ok addresses => (Ok ((fun a => AsSlice (Unmap a)) <$> addresses), r, [q])
          end
        else (Err "nunya-dns: sing-box DNS router is not registered", r, [])
    end.

(** The router honours a strategy that allows one family only. *)
Definition router_law : Prop := forall q l, router_Lookup q = Ok l ->
  Forall (fun a => IsValid a = true) l /\
  (q_strategy q = IPv4Only -> Forall (fun a => Is4 (Unmap a) = true) l) /\
  (q_strategy q = IPv6Only -> Forall (fun a => Is6 (Unmap a) = true) l).

Lemma slice_length a : IsValid a = true ->
  length (AsSlice (Unmap a)) = if Is4 (Unmap a) then 4%nat else 16%nat.
Proof.
  assert (forall n z, length (be_bytes n z) = n) as Hbe.
  { induction n as [|n IH]; intros z; cbn [be_bytes]; [done|]. rewrite length_app, IH. cbn. lia. }
  destruct a as [|b|b z]; [done| |]; intros _.
  - cbn [Unmap AsSlice Is4]. apply Hbe.
  - unfold Unmap. destruct (Is4In6 (Addr6 b z)); cbn [AsSlice Is4]; apply Hbe.
Qed.


(** The transport is the one pinned by its tag, and stays the one first found. *)
Lemma transport_pinned ctx r t r' :
  directTransport ctx r = (Some t, r') -> transport r' = Some t /\
  forall ctx', directTransport ctx' r' = (Some t, r').
Proof.
  unfold directTransport. destruct r as [[t0|]]; cbn [transport].
  - by intros [= -> <-].
  - destruct (transport_manager ctx) as [f|]; [|done]. destruct (f directTransportTag); [|done].
    by intros [= -> <-].
Qed.
End Lookup.

Abbreviation box_context := (MkContext true (Some (fun tag => if bool_decide (tag = "dns-direct") then Some 7%nat else None)) (Some PreferIPv4)).
Abbreviation a_router := (fun q => Ok (match q_strategy q with
  | IPv4Only => [Addr6 281473913979137 ""] | IPv6Only => [Addr6 1 ""] | _ => [Addr4 16843009; Addr6 1 ""] end)).


(** ** Making and checking an instance *)

Section Construct.
  #[local] Set Default Proof Using "Type".
  (** Xray's loader, the build of a config, and [core.New], which may register what is
      global to Xray. *)
  Context {S Json Config Instance_ : Type}.
  Context (DecodeJSONConfig : string -> result Json) (Build : Json -> result Config)
    (core_New : Config -> prog S Instance_).

Definition CreateXrayInstance (config : string) : prog S Instance_ :=
  conf ← lift_result (DecodeJSONConfig config);
  b ← lift_result (Build conf);
  core_New b.

Definition CheckXrayConfig (config : string) : prog S unit :=
  conf ← lift_result (DecodeJSONConfig config);
  _ ← lift_result (Build conf);
  mret tt.

(** Checking touches nothing, and accepts what creating would hand to [core.New]. *)
Lemma CheckXrayConfig_pure config s :
  snd (CheckXrayConfig config s) = s /\
  match CheckXrayConfig config s with
  | (Returns _, _) => exists b, CreateXrayInstance config s = core_New b s
  | (Fails e, _) => CreateXrayInstance config s = (Fails e, s)
  | (Panics _, _) => False
  end.
Proof.
  unfold CheckXrayConfig, CreateXrayInstance, mbind, prog_bind, lift_result.
  destruct (DecodeJSONConfig config) as [conf|e]; [|done]. destruct (Build conf) as [b|e]; [|done].
  split; [done|]. by exists b.
Qed.
End Construct.
