(* ===== verification/Parent.v ===== *)
(** * Who the core serves: src/internal/parentcheck, src/internal/ipc and src/main.go

    The core serves one connection, to the process that started it. [ParentCheck] decides
    whether that process is the client's, [Ipc] whether it is the one at the other end, and
    [Main] runs them; a [log.Fatal] ends the process. [Memory] is the watchdog. *)

From S2P Require Import Prelude GoStr.
From S2P Require Diagnostics.

#[local] Open Scope string_scope.
#[local] Open Scope list_scope.

(** ** The parent's executable *)

Module ParentCheck.

(** The buffer [GetLogicalDriveStrings] fills: names that end in a zero, until an empty
    one; [word] is the name begun. *)
Section Drives.
  Context (UTF16ToString : list Z -> string).

Definition backslash : string := String (ascii_of_nat 92) "".

Fixpoint parse_drives (word buf : list Z) : list string :=
  match buf with
  | [] => []
  | c :: buf =>
      if (c =? 0)%Z then
        match word with
        | [] => []
        | _ =>
            let drive := trim_suffix (UTF16ToString word) backslash in
            if bool_decide (drive = "") then parse_drives [] buf else drive :: parse_drives [] buf
        end
      else parse_drives (word ++ [c]) buf
  end.

(** Every name of the list is found, whatever follows its end. *)
Lemma parse_drives_all names rest :
  Forall (fun n => n <> [] /\ Forall (fun c => c <> 0%Z) n) names ->
  parse_drives [] ((names ≫= (fun n => n ++ [0%Z])) ++ 0%Z :: rest) =
    filter (fun d => d <> "") ((fun n => trim_suffix (UTF16ToString n) backslash) <$> names).
Proof.
  assert (forall n w buf, Forall (fun c => c <> 0%Z) n -> parse_drives w (n ++ buf) = parse_drives (w ++ n) buf) as Hw.
  { induction n as [|c n IH]; intros w buf Hn; [by rewrite app_nil_r|].
    apply Forall_cons in Hn as [Hc Hn]. cbn [app parse_drives]. apply Z.eqb_neq in Hc as ->.
    rewrite IH by done. by rewrite <- app_assoc. }
  induction 1 as [|n names [Hne Hn] Hns IH]; [done|].
  rewrite bind_cons, <- !app_assoc, Hw by done. cbn [app parse_drives].
  change (0 =? 0)%Z with true. cbn iota. destruct n as [|c n]; [done|].
  rewrite fmap_cons, filter_cons. destruct (bool_decide _) eqn:E.
  - apply bool_decide_eq_true in E. rewrite decide_False by tauto. exact IH.
  - apply bool_decide_eq_false in E. rewrite decide_True by done. f_equal. exact IH.
Qed.
End Drives.

Section DrivePath.
  (** The drives there are, and the device behind one. *)
  Context (drives : option (list string)) (QueryDosDevice : string -> option string).

Definition drive_form (path : string) : bool :=
  match path with
  | String _ (String c1 (String c2 _)) => Ascii.eqb c1 ":" && Ascii.eqb c2 (ascii_of_nat 92)
  | _ => false
  end.

(** The loop over the drives. *)
Fixpoint replace_device (devicePath : string) (l : list string) : string :=
  match l with
  | [] => devicePath
  | drive :: l =>
      match QueryDosDevice drive with
      | None => replace_device devicePath l
      | Some target =>
          if has_prefix devicePath target then (drive ++ trim_prefix devicePath target)%string
          else replace_device devicePath l
      end
  end.

Definition getDrivePath (devicePath : string) : string :=
  if drive_form devicePath then devicePath
  else match drives with None => devicePath | Some l => replace_device devicePath l end.

Lemma replace_device_first l drive target path rest :
  drive ∈ l -> QueryDosDevice drive = Some target -> path = (target ++ rest)%string ->
  (forall d t, d ∈ l -> d <> drive -> QueryDosDevice d = Some t -> has_prefix path t = false) ->
  has_prefix path target = true -> trim_prefix path target = rest ->
  replace_device path l = (drive ++ rest)%string.
Proof.
  intros Hin Hq Hp Hother Hpre Htrim. induction l as [|d l IH]; [by apply not_elem_of_nil in Hin|].
  cbn [replace_device]. destruct (decide (d = drive)) as [->|Hne].
  - by rewrite Hq, Hpre, Htrim.
  - apply elem_of_cons in Hin as [?|Hin]; [done|].
    destruct (QueryDosDevice d) as [t|] eqn:E; [rewrite (Hother d t) by (done || by left)|];
      (apply IH; [done|]; intros d' t' Hd'; apply Hother; by right).
Qed.
End DrivePath.

(** A device whose name is the beginning of another's is taken for it: a program on the
    tenth volume is placed on the drive of the first. *)
Example tenth_volume :
  getDrivePath (Some ["C:"; "D:"])
    (fun d => if bool_decide (d = "C:") then Some "\Device\HarddiskVolume1"
              else if bool_decide (d = "D:") then Some "\Device\HarddiskVolume10" else None)
    "\Device\HarddiskVolume10\Nunya\Nunya.exe" = "C:0\Nunya\Nunya.exe".
Proof. vm_compute. reflexivity. Qed.

(** [resolveFinalPath] on Windows: [GetFinalPathNameByHandle] with a buffer of [n] units
    gives the path, or the size it needs; the path itself when anything fails. *)
Inductive final_path := Path (s : string) | Needs (n : Z) | Failed.

Definition MAX_PATH : Z := 260.
Definition strip_unc : string := "\\?\UNC\".
Definition strip_dos : string := "\\?\".

Definition resolveFinalPath_windows (open : string -> bool) (final : string -> Z -> final_path) (path : string) : string :=
  if open path then
    match (match final path MAX_PATH with
           | Path s => Some s
           | Failed => None
           | Needs n => if (MAX_PATH <? n)%Z then (match final path n with Path s => Some s | _ => None end) else None
           end) with
    | None => path
    | Some resolved =>
        if has_prefix resolved strip_unc then ("\\" ++ drop_str (String.length strip_unc) resolved)%string
        else trim_prefix resolved strip_dos
    end
  else path.

Example resolve_junction :
  resolveFinalPath_windows (fun _ => true) (fun _ n => if (n <? 300)%Z then Needs 300 else Path "\\?\C:\Apps\Nunya\Nunya.exe")
    "C:\scoop\current\Nunya.exe" = "C:\Apps\Nunya\Nunya.exe".
Proof. vm_compute. reflexivity. Qed.

Example resolve_share :
  resolveFinalPath_windows (fun _ => true) (fun _ _ => Path "\\?\UNC\host\share\a") "x" = "\\host\share\a".
Proof. vm_compute. reflexivity. Qed.

(** [getParentExePath] there: [OpenProcess], then the image's name as a device path. *)
Definition getParentExePath_windows (OpenProcess : Z -> result nat) (QueryFullProcessImageName : nat -> result string)
    (drives : option (list string)) (QueryDosDevice : string -> option string) (pid : Z) : result string :=
  match OpenProcess pid with
  | Err e => Err ("OpenProcess: " ++ e)%string
  | Ok h =>
      match QueryFullProcessImageName h with
      | Err e => Err ("QueryFullProcessImageName: " ++ e)%string
      | Ok name => Ok (getDrivePath drives QueryDosDevice name)
      end
  end.

(** On the others a link that cannot be resolved leaves the path. *)
Definition resolveFinalPath_unix (EvalSymlinks : string -> result string) (path : string) : string :=
  match EvalSymlinks path with Ok resolved => resolved | Err _ => path end.

(** [getParentExePath] on Linux. *)
Definition getParentExePath_linux (Readlink : string -> result string) (pid : Z) : result string :=
  path ← Readlink ("/proc/" ++ itoa pid ++ "/exe")%string; Ok (trim_suffix path " (deleted)").

(** A process that goes on, or [log.Fatal] with its message. *)
Inductive exit (A : Type) := Continue (a : A) | Fatal (message : string).
Arguments Continue {A} a.
Arguments Fatal {A} message.

(** A debug build, and one told so, checks nothing. *)
Definition CheckParentProcess_debug (ParentPID : Z) : exit unit := Continue tt.

(** [getParentExePath] on macOS: [proc_pidpath] gives a length, and the name it wrote. *)
Definition getParentExePath_darwin (proc_pidpath : Z -> Z * string) (pid : Z) : result string :=
  let '(ret, buf) := proc_pidpath pid in
  if (ret <=? 0)%Z then Err ("proc_pidpath failed for pid " ++ itoa pid)%string
  else Ok (String.substring 0 (Z.to_nat ret) buf).

Section Check.
  (** The platform, the two executables, its resolver, and path/filepath. *)
  Context (goos : string) (getParentExePath : Z -> result string) (Executable : result string).
  Context (resolveFinalPath Dir Base : string -> string).

Definition CheckParentProcess (ParentPID : Z) : exit unit :=
  match getParentExePath ParentPID with
  | Err e => Fatal ("parent check: cannot read parent executable: " ++ e)
  | Ok parentPath =>
      let parentPath := resolveFinalPath parentPath in
      match Executable with
      | Err e => Fatal ("parent check: cannot read own executable: " ++ e)
      | Ok selfPath =>
          let selfPath := resolveFinalPath selfPath in
          let ok :=
            if bool_decide (goos = "windows")
            then equal_fold (Dir parentPath) (Dir selfPath) && equal_fold (Base parentPath) "Nunya.exe"
            else bool_decide (Dir parentPath = Dir selfPath) && bool_decide (Base parentPath = "Nunya") in
          if ok then Continue tt
          else Fatal ("parent check failed: unexpected parent " ++ quote parentPath ++ ", selfPath is " ++ quote selfPath)
      end
  end%string.

(** The parent as it is accepted. *)
Definition trusted_parent (ParentPID : Z) : Prop :=
  exists parent self, getParentExePath ParentPID = Ok parent /\ Executable = Ok self /\
    let parent := resolveFinalPath parent in let self := resolveFinalPath self in
    if bool_decide (goos = "windows")
    then to_lower (Dir parent) = to_lower (Dir self) /\ to_lower (Base parent) = "nunya.exe"
    else Dir parent = Dir self /\ Base parent = "Nunya".

Lemma CheckParentProcess_trusted pid : CheckParentProcess pid = Continue tt <-> trusted_parent pid.
Proof.
  unfold CheckParentProcess, trusted_parent. destruct (getParentExePath pid) as [parent|e].
  2: { split; [done|]. by intros (? & ? & ? & _). }
  destruct Executable as [self|e].
  2: { split; [done|]. by intros (? & ? & _ & ? & _). }
  cbn zeta. destruct (bool_decide (goos = "windows")).
  - unfold equal_fold. destruct (String.eqb_spec (to_lower (Dir (resolveFinalPath parent))) (to_lower (Dir (resolveFinalPath self)))) as [E|E];
      [destruct (String.eqb_spec (to_lower (Base (resolveFinalPath parent))) (to_lower "Nunya.exe")) as [E'|E']|]; cbn [andb].
    + split; [|done]. intros _. exists parent, self. done.
    + split; [done|]. intros (? & ? & [= <-] & [= <-] & _ & ?). by destruct E'.
    + split; [done|]. intros (? & ? & [= <-] & [= <-] & ? & _). by destruct E.
  - case_bool_decide as E; [case_bool_decide as E'|]; cbn [andb].
    + split; [|done]. intros _. exists parent, self. done.
    + split; [done|]. intros (? & ? & [= <-] & [= <-] & _ & ?). by destruct E'.
    + split; [done|]. intros (? & ? & [= <-] & [= <-] & ? & _). by destruct E.
Qed.
End Check.

End ParentCheck.

Arguments ParentCheck.Continue {A} a.
Arguments ParentCheck.Fatal {A} message.

(** ** The connection *)

Module Ipc.
Import ParentCheck.

(** What the socket of a connection says of its peer: each call of [ConnectIPC] that can
    fail, and the pid. *)
Inductive unix_peer := NotUnixConn (type : string) | NoSyscallConn (e : string) | NoControl (e : string)
  | NoPid (e : string) | PeerPid (pid : Z).

(** [ConnectIPC] on Linux and macOS: an error of the dial is returned and may be tried
    again; a peer that is not the one expected, or not known, ends the process, with the
    connection closed first. *)
Definition ConnectIPC_unix (expectedPid : Z) (a : result nat * unix_peer) (closed : list nat) :
    exit (result nat) * list nat :=
  match a with
  | (Err e, _) => (Continue (Err e), closed)
  | (Ok conn, NotUnixConn t) =>
      (Fatal ("ipc: dial returned " ++ t ++ ", expected *net.UnixConn")%string, closed ++ [conn])
  | (Ok conn, NoSyscallConn e) => (Fatal ("ipc: SyscallConn: " ++ e)%string, closed ++ [conn])
  | (Ok conn, NoControl e) => (Fatal ("ipc: Control: " ++ e)%string, closed ++ [conn])
  | (Ok conn, NoPid e) => (Fatal ("ipc: get peer pid: " ++ e)%string, closed ++ [conn])
  | (Ok conn, PeerPid pid) =>
      if (pid =? expectedPid)%Z then (Continue (Ok conn), closed)
      else (Fatal ("ipc: socket peer pid " ++ itoa pid ++ " does not match expected parent pid " ++ itoa expectedPid)%string,
            closed ++ [conn])
  end.

Inductive pipe_peer := NoFd (type : string) | NoServer (e : string) | ServerPid (pid : Z).

(** [ConnectIPC] on Windows, to a named pipe. *)
Definition ConnectIPC_windows (expectedPid : Z) (a : result nat * pipe_peer) (closed : list nat) :
    exit (result nat) * list nat :=
  match a with
  | (Err e, _) => (Continue (Err e), closed)
  | (Ok conn, NoFd t) =>
      (Fatal ("ipc: pipe connection does not expose Fd() (type " ++ t ++ ")")%string, closed ++ [conn])
  | (Ok conn, NoServer e) => (Fatal ("ipc: GetNamedPipeServerProcessId: " ++ e)%string, closed ++ [conn])
  | (Ok conn, ServerPid pid) =>
      if (pid =? expectedPid)%Z then (Continue (Ok conn), closed)
      else (Fatal ("ipc: pipe server pid " ++ itoa pid ++ " does not match expected parent pid " ++ itoa expectedPid)%string,
            closed ++ [conn])
  end.

(** What either promises to [RunCore]: [dial] and [peer] are what the attempt found. *)
Class Connector (A : Type) := {
  ConnectIPC : Z -> A -> list nat -> exit (result nat) * list nat;
  dial : A -> result nat;
  peer : A -> option Z;
  ConnectIPC_law expectedPid a closed :
    match ConnectIPC expectedPid a closed with
    | (Continue (Ok conn), closed') => closed' = closed /\ dial a = Ok conn /\ peer a = Some expectedPid
    | (Continue (Err e), closed') => closed' = closed /\ dial a = Err e
    | (Fatal _, closed') => exists conn, closed' = closed ++ [conn] /\ dial a = Ok conn /\ peer a <> Some expectedPid
    end }.

Definition unix_peer_pid (a : result nat * unix_peer) : option Z :=
  match a.2 with PeerPid pid => Some pid | _ => None end.

Lemma unix_law expectedPid a closed :
  match ConnectIPC_unix expectedPid a closed with
  | (Continue (Ok conn), closed') => closed' = closed /\ fst a = Ok conn /\ unix_peer_pid a = Some expectedPid
  | (Continue (Err e), closed') => closed' = closed /\ fst a = Err e
  | (Fatal _, closed') =>
      exists conn, closed' = closed ++ [conn] /\ fst a = Ok conn /\ unix_peer_pid a <> Some expectedPid
  end.
Proof.
  destruct a as [[conn|e] p]; [|done].
  destruct p as [t|e|e|e|pid]; cbn; [exists conn; done..|].
  destruct (Z.eqb_spec pid expectedPid) as [->|Hne]; [done|]. exists conn. split_and!; [done..|congruence].
Qed.

#[export] Instance unix_connector : Connector (result nat * unix_peer) := {|
  ConnectIPC_law := unix_law |}.

Definition windows_peer_pid (a : result nat * pipe_peer) : option Z :=
  match a.2 with ServerPid pid => Some pid | _ => None end.

Lemma windows_law expectedPid a closed :
  match ConnectIPC_windows expectedPid a closed with
  | (Continue (Ok conn), closed') => closed' = closed /\ fst a = Ok conn /\ windows_peer_pid a = Some expectedPid
  | (Continue (Err e), closed') => closed' = closed /\ fst a = Err e
  | (Fatal _, closed') =>
      exists conn, closed' = closed ++ [conn] /\ fst a = Ok conn /\ windows_peer_pid a <> Some expectedPid
  end.
Proof.
  destruct a as [[conn|e] p]; [|done].
  destruct p as [t|e|pid]; cbn; [exists conn; done..|].
  destruct (Z.eqb_spec pid expectedPid) as [->|Hne]; [done|]. exists conn. split_and!; [done..|congruence].
Qed.

#[export] Instance windows_connector : Connector (result nat * pipe_peer) := {|
  ConnectIPC_law := windows_law |}.

(** [GetsockoptUcred] on Linux: the pid of the credentials. *)
Definition getServerPid (ucred : result (Z * Z * Z)) : result Z :=
  '(pid, _, _) ← ucred; Ok pid.

End Ipc.

(** ** The program *)

Module Main.
Import ParentCheck Ipc.

Section Run.
  Context {A : Type} {C : Connector A}.

(** Up to ten attempts, half a second apart; [fuel] is how many are left. *)
Fixpoint connect_loop (fuel : nat) (ParentPID : Z) (attempts : nat -> A) (i : nat) (last_error : string)
    (closed : list nat) : exit nat * list nat * nat :=
  match fuel with
  | 0%nat => (Fatal ("failed to connect to GUI socket after 10 attempts: " ++ last_error)%string, closed, i)
  | S fuel =>
      match ConnectIPC ParentPID (attempts i) closed with
      | (Fatal m, closed) => (Fatal m, closed, S i)
      | (Continue (Ok conn), closed) => (Continue conn, closed, S i)
      | (Continue (Err e), closed) => connect_loop fuel ParentPID attempts (S i) e closed
      end
  end.

(** [RunCore] up to [rpc.Serve]: the connection served and whether in debug mode. *)
Definition RunCore (env : string -> string) (check : Z -> exit unit) (ParentPID : Z) (attempts : nat -> A) :
    exit (nat * bool) * list nat * nat :=
  let socketName := env "NUNYA_CORE_SOCKET" in
  if bool_decide (socketName = "") then (Fatal "NUNYA_CORE_SOCKET not set", [], 0%nat)
  else
    let debug := bool_decide (env "NUNYA_CORE_DEBUG" = "1") in
    match check ParentPID with
    | Fatal m => (Fatal m, [], 0%nat)
    | Continue _ =>
        match connect_loop 10 ParentPID attempts 0 "" [] with
        | (Fatal m, closed, n) => (Fatal m, closed, n)
        | (Continue conn, closed, n) => (Continue (conn, debug), closed, n)
        end
    end.

(** The goroutine beside it: the process ends with its parent. [signals] are the answers of
    the null signals, ten seconds apart. *)
Fixpoint signal_parent (signals : list (result unit)) : option string :=
  match signals with
  | [] => None
  | Ok _ :: signals => signal_parent signals
  | Err e :: _ => Some ("parent exited: " ++ e)%string
  end.

Definition watch_parent (goos : string) (find : result unit) (wait : string) (signals : list (result unit)) : option string :=
  match find with
  | Err e => Some ("find parent: " ++ e)%string
  | Ok _ => if bool_decide (goos = "windows") then Some ("parent exited: " ++ wait)%string else signal_parent signals
  end.

Lemma connect_loop_spec fuel pid attempts : forall i e closed,
  match connect_loop fuel pid attempts i e closed with
  | (Continue conn, closed', n) =>
      closed' = closed /\ (i < n <= i + fuel)%nat /\
      dial (attempts (pred n)) = Ok conn /\ peer (attempts (pred n)) = Some pid /\
      (forall j, (i <= j < pred n)%nat -> exists m, dial (attempts j) = Err m)
  | (Fatal _, closed', n) =>
      (n <= i + fuel)%nat /\
      (closed' = closed \/ exists conn, closed' = closed ++ [conn] /\ dial (attempts (pred n)) = Ok conn /\
         peer (attempts (pred n)) <> Some pid)
  end.
Proof.
  induction fuel as [|fuel IH]; intros i e closed; cbn [connect_loop]; [split; [lia|by left]|].
  pose proof (ConnectIPC_law pid (attempts i) closed) as Hlaw.
  destruct (ConnectIPC pid (attempts i) closed) as [[[conn|m]|m] closed'].
  - destruct Hlaw as (-> & Hd & Hp). split_and!; try done; [lia..|]. cbn. intros j Hj. lia.
  - destruct Hlaw as [-> Hd]. specialize (IH (S i) m closed).
    destruct (connect_loop fuel pid attempts (S i) m closed) as [[[conn|f] closed'] n].
    + destruct IH as (H1 & H2 & H3 & H4 & H5). split_and!; try done; [lia..|].
      intros j Hj. destruct (decide (j = i)) as [->|]; [by exists m|]. apply H5. lia.
    + destruct IH as [H1 H2]. split; [lia|done].
  - split; [lia|]. by right.
Qed.

(** What it takes to serve a connection. *)
Lemma RunCore_serves env check pid attempts conn debug closed n :
  RunCore env check pid attempts = (Continue (conn, debug), closed, n) ->
  check pid = Continue tt /\ dial (attempts (pred n)) = Ok conn /\ peer (attempts (pred n)) = Some pid /\
  debug = bool_decide (env "NUNYA_CORE_DEBUG" = "1").
Proof.
  unfold RunCore. destruct (bool_decide (env "NUNYA_CORE_SOCKET" = "")); [done|].
  destruct (check pid) as [[]|m]; [|done].
  pose proof (connect_loop_spec 10 pid attempts 0 "" []) as H.
  destruct (connect_loop 10 pid attempts 0 "" []) as [[[c|m] cl] k]; [|done].
  destruct H as (_ & _ & Hd & Hp & _). intros [= -> <- _ <-]. done.
Qed.

(** C12: on either platform the core serves a connection only when the process that started
    it is the client in the core's own directory and the other end of that very connection
    is that process; it tries at most ten times, and a connection to anybody else is closed
    before it exits. *)
Theorem served_only_to_parent env goos getParentExePath Executable resolveFinalPath Dir Base pid attempts :
  match RunCore env (CheckParentProcess goos getParentExePath Executable resolveFinalPath Dir Base) pid attempts with
  | (Continue (conn, debug), closed, n) =>
      trusted_parent goos getParentExePath Executable resolveFinalPath Dir Base pid /\
      (n <= 10)%nat /\ dial (attempts (pred n)) = Ok conn /\ peer (attempts (pred n)) = Some pid /\
      (forall j, (j < pred n)%nat -> exists e, dial (attempts j) = Err e) /\
      closed = [] /\ debug = bool_decide (env "NUNYA_CORE_DEBUG" = "1")
  | (Fatal _, closed, n) =>
      (n <= 10)%nat /\
      (closed = [] \/ exists conn, closed = [conn] /\ dial (attempts (pred n)) = Ok conn /\ peer (attempts (pred n)) <> Some pid)
  end.
Proof.
  unfold RunCore. destruct (bool_decide (env "NUNYA_CORE_SOCKET" = "")); [split; [lia|by left]|].
  destruct (CheckParentProcess goos getParentExePath Executable resolveFinalPath Dir Base pid) as [[]|m] eqn:E;
    [|split; [lia|by left]].
  apply CheckParentProcess_trusted in E.
  pose proof (connect_loop_spec 10 pid attempts 0 "" []) as H.
  destruct (connect_loop 10 pid attempts 0 "" []) as [[[conn|m] closed] n].
  - destruct H as (H1 & H2 & H3 & H4 & H5). split_and!; try done; [lia|]. intros j Hj. apply H5. lia.
  - destruct H as [H1 H2]. split; [lia|]. destruct H2 as [?|(conn & ? & ? & ?)]; [by left|].
    right. by exists conn.
Qed.
End Run.

(** A client that listens at the second attempt, on Linux. *)
Abbreviation listening :=
  (RunCore (A := result nat * unix_peer) (fun v => if bool_decide (v = "NUNYA_CORE_SOCKET") then "sock" else "1")
    (CheckParentProcess "linux" (fun _ => Ok "/opt/nunya/Nunya") (Ok "/opt/nunya/NunyaCore") (fun p => p)
       (fun _ => "/opt/nunya") Diagnostics.path_Base) 42
    (fun i => match i with 0%nat => (Err "refused", PeerPid 0) | _ => (Ok 3%nat, PeerPid 42%Z) end)).

Lemma served_only_to_parent_witness :
  listening = (Continue (3%nat, true), [], 2%nat) /\
  trusted_parent "linux" (fun _ => Ok "/opt/nunya/Nunya") (Ok "/opt/nunya/NunyaCore") (fun p => p)
    (fun _ => "/opt/nunya") Diagnostics.path_Base 42.
Proof.
  split; [vm_compute; reflexivity|].
  exact (proj1 (served_only_to_parent (A := result nat * unix_peer)
    (fun v => if bool_decide (v = "NUNYA_CORE_SOCKET") then "sock" else "1") "linux" (fun _ => Ok "/opt/nunya/Nunya")
    (Ok "/opt/nunya/NunyaCore") (fun p => p) (fun _ => "/opt/nunya") Diagnostics.path_Base 42
    (fun i => match i with 0%nat => (Err "refused", PeerPid 0) | _ => (Ok 3%nat, PeerPid 42%Z) end))).
Defined.

(** Another process that holds the name is not served, and is let go. *)
Example impostor :
  RunCore (A := result nat * pipe_peer) (fun _ => "pipe") (fun _ => Continue tt) 42 (fun _ => (Ok 3%nat, ServerPid 7%Z)) =
  (Fatal "ipc: pipe server pid 7 does not match expected parent pid 42", [3%nat], 1%nat).
Proof. vm_compute. reflexivity. Qed.

End Main.

(** ** The memory watchdog *)

Module Memory.

Definition memoryLimit : Z := 2 * 1024 * 1024 * 1024.
Definition memoryPanicThreshold : Z := 1536 * 1024 * 1024.
Definition memoryCheckInterval : Z := 2 * 1000000000.
Definition memoryForcedGCBackoff : Z := 30 * 1000000000.

Inductive event := Sleep (d : Z) | FreeOSMemory | Panic (live : Z).

(** One turn of [watchMemory]: what is live, and what is after a forced collection. *)
Definition turn (live after : Z) : list event * bool :=
  if (live <? memoryPanicThreshold)%Z then ([Sleep memoryCheckInterval], true)
  else if (after <? memoryPanicThreshold)%Z
  then ([Sleep memoryCheckInterval; FreeOSMemory; Sleep memoryForcedGCBackoff], true)
  else ([Sleep memoryCheckInterval; FreeOSMemory; Panic after], false).

(** The loop on the readings of its turns. *)
Fixpoint watchMemory (readings : list (Z * Z)) : list event :=
  match readings with
  | [] => []
  | (live, after) :: readings =>
      let '(es, go_on) := turn live after in
      if go_on : bool then es ++ watchMemory readings else es
  end.

(** [writeHeapProfile]: the file's name, the error, and the files closed by the deferred
    call; an error of the last sync comes with the name. *)
Definition writeHeapProfile (CreateTemp : result string) (WriteHeapProfile Sync : result unit) :
    string * option string * list string :=
  match CreateTemp with
  | Err e => ("", Some e, [])
  | Ok name =>
      match WriteHeapProfile with
      | Err e => ("", Some e, [name])
      | Ok _ => (name, result_error Sync, [name])
      end
  end.

(** How long the events take, the collections apart. *)
Definition slept (es : list event) : Z :=
  foldr (fun e n => match e with Sleep d => d + n | _ => n end)%Z 0%Z es.

Definition is_gc (e : event) : bool := match e with FreeOSMemory => true | _ => false end.

Lemma watch_starts readings : readings = [] \/ exists es, watchMemory readings = Sleep memoryCheckInterval :: es.
Proof.
  destruct readings as [|[l a] r]; [by left|right]. cbn [watchMemory]. unfold turn.
  destruct (l <? _)%Z; [by eexists|]. destruct (a <? _)%Z; by eexists.
Qed.

Lemma slept_nonneg readings es1 es es2 : watchMemory readings = es1 ++ es ++ es2 -> (0 <= slept es)%Z.
Proof.
  intros H.
  assert (Forall (fun e => match e with Sleep d => 0 <= d | _ => True end)%Z (watchMemory readings)) as HF.
  { clear. induction readings as [|[l a] r IH]; cbn [watchMemory]; [done|]. unfold turn.
    destruct (l <? _)%Z; [|destruct (a <? _)%Z]; repeat constructor; try (unfold memoryCheckInterval, memoryForcedGCBackoff; lia);
      exact IH. }
  rewrite H in HF. apply Forall_app in HF as [_ HF]. apply Forall_app in HF as [HF _]. clear H.
  unfold slept. induction HF as [|[d| |v] es Hd _ IH]; cbn [foldr]; lia.
Qed.

(** What follows a forced collection: the pause and a later turn, or the panic. *)
Lemma after_gc readings : forall es1 es2, watchMemory readings = es1 ++ FreeOSMemory :: es2 ->
  (exists r, es2 = Sleep memoryForcedGCBackoff :: watchMemory r) \/ exists live, es2 = [Panic live].
Proof.
  induction readings as [|[l a] r IH]; intros es1 es2 H; cbn [watchMemory] in H; [by destruct es1|].
  unfold turn in H. destruct (l <? memoryPanicThreshold)%Z.
  - destruct es1 as [|e es1]; [done|]. cbn in H. injection H as _ H. by eapply IH.
  - destruct (a <? memoryPanicThreshold)%Z; destruct es1 as [|e1 [|e2 [|e3 es1]]]; try done; cbn in H.
    + injection H as _ H. left. by exists r.
    + injection H as _ _ _ H. by eapply IH.
    + injection H as _ H. right. by exists a.
    + injection H as _ _ _ H. by destruct es1.
Qed.

(** A panic is the last event, and both readings of its turn were over the threshold. *)
Lemma panic_last readings : forall live es1 es2, watchMemory readings = es1 ++ Panic live :: es2 ->
  es2 = [] /\ (memoryPanicThreshold <= live)%Z /\
  exists before, (before, live) ∈ readings /\ (memoryPanicThreshold <= before)%Z.
Proof.
  induction readings as [|[l a] r IH]; intros live es1 es2 H; cbn [watchMemory] in H; [by destruct es1|].
  unfold turn in H. destruct (Z.ltb_spec l memoryPanicThreshold) as [Hl|Hl].
  - destruct es1 as [|e es1]; [done|]. cbn in H. injection H as _ H.
    destruct (IH _ _ _ H) as (? & ? & b & ? & ?). split_and!; [done|done|]. exists b. split; [by right|done].
  - destruct (Z.ltb_spec a memoryPanicThreshold) as [Ha|Ha]; destruct es1 as [|e1 [|e2 [|e3 es1]]]; try done; cbn in H.
    + injection H as _ _ _ H.
      destruct (IH _ _ _ H) as (? & ? & b & ? & ?). split_and!; [done|done|]. exists b. split; [by right|done].
    + injection H as _ _ <- <-. split_and!; [done|done|]. exists l. split; [by left|done].
    + injection H as _ _ _ H. by destruct es1.
Qed.

(** the watchdog panics only when the heap is over the threshold, which is under the
    limit, both before and after a forced collection, and then stops; and two forced
    collections in a row are at least thirty-two seconds apart. *)
Theorem watchdog_spacing readings :
  (forall live es1 es2, watchMemory readings = es1 ++ Panic live :: es2 ->
     es2 = [] /\ (memoryPanicThreshold <= live)%Z /\
     exists before, (before, live) ∈ readings /\ (memoryPanicThreshold <= before)%Z) /\
  (forall es1 es2 es3, watchMemory readings = es1 ++ FreeOSMemory :: es2 ++ FreeOSMemory :: es3 ->
     (memoryForcedGCBackoff + memoryCheckInterval <= slept es2)%Z) /\
  (memoryPanicThreshold < memoryLimit)%Z.
Proof.
  split_and!; [apply panic_last| |done].
  intros es1 es2 es3 H. destruct (after_gc _ _ _ H) as [[r E]|[live E]].
  - destruct es2 as [|e es2]; [done|]. injection E as -> E.
    destruct (watch_starts r) as [->|[es Er]]; [by destruct es2|]. rewrite <- E in Er.
    destruct es2 as [|e es2]; [done|]. injection Er as -> _.
    pose proof (slept_nonneg r [Sleep memoryCheckInterval] es2 (FreeOSMemory :: es3) (eq_sym E)).
    change (memoryForcedGCBackoff + memoryCheckInterval <= memoryForcedGCBackoff + (memoryCheckInterval + slept es2))%Z. lia.
  - by destruct es2 as [|e [|e2 es2]].
Qed.

Lemma watchdog_spacing_witness :
  watchMemory [(memoryPanicThreshold, 5); (memoryPanicThreshold, memoryPanicThreshold)]%Z =
    [Sleep memoryCheckInterval] ++ FreeOSMemory ::
    [Sleep memoryForcedGCBackoff; Sleep memoryCheckInterval] ++ FreeOSMemory :: [Panic memoryPanicThreshold] /\
  (memoryForcedGCBackoff + memoryCheckInterval <= slept [Sleep memoryForcedGCBackoff; Sleep memoryCheckInterval])%Z.
Proof.
  split; [reflexivity|].
  apply (proj1 (proj2 (watchdog_spacing [(memoryPanicThreshold, 5); (memoryPanicThreshold, memoryPanicThreshold)]%Z))
    [Sleep memoryCheckInterval] _ [Panic memoryPanicThreshold]).
  reflexivity.
Defined.

End Memory.
