(* ===== verification/Core.v ===== *)
(** * The core as a process: src/main.go over its parts

    [RunCore] of [Parent] finds the connection, [Serve] of [System] runs on it against the
    lifecycle handlers; the process ends when the read loop returns, when the watch of the
    parent sees it gone, or when the memory watchdog panics. Nothing but the core's own
    memory goes with it: what the system holds for it stays. *)

From S2P Require Import Prelude GoStr GoNet Frames Process Lifecycle System.
From S2P Require Parent Diagnostics.
Import Parent.ParentCheck Parent.Ipc Parent.Main Parent.Memory.
#[local] Open Scope string_scope.
#[local] Open Scope list_scope.
#[local] Open Scope Z_scope.

Section Core.
  Context {A : Type} {C : Connector A}.
  (** The handlers, which log what they are asked for in debug mode. *)
  Context (service : bool -> ProfileService).
  Context (load_of : list byte -> result LoadConfigReq) (empty_of : list byte -> result unit).
  Context (error_resp : option string -> result (list byte)).
  (** The environment, the parent, what the attempts to connect find and what a connection
      delivers. *)
  Context (goos : string) (getParentExePath : Z -> result string) (Executable : result string)
    (resolveFinalPath Dir Base : string -> string).
  Context (env : string -> string) (ParentPID : Z) (attempts : nat -> A) (input_of : nat -> list byte).

Inductive process :=
| Serving (conn : nat) (debug : bool) (y : system)
| Exited (code : Z) (message : string) (c : core).

(** [main] as far as [rpc.Serve]; a [log.Fatal] exits with status 1. *)
Definition launch (c : core) : process :=
  match RunCore env (CheckParentProcess goos getParentExePath Executable resolveFinalPath Dir Base) ParentPID attempts with
  | (Fatal m, _, _) => Exited 1 m c
  | (Continue (conn, debug), _, _) => Serving conn debug (sys_init c (input_of conn))
  end.

(** The text of the watchdog's panic; nothing recovers it on that goroutine, and the Go
    runtime exits with status 2. *)
Definition watchdog_panic (live : Z) : string :=
  ("Live heap reached " ++ itoa (Z.shiftr live 20) ++ " MiB after a forced GC, this is not normal")%string.

Inductive process_step : process -> process -> Prop :=
| p_serve conn debug y e y' :
    @sys_step (service debug) load_of empty_of error_resp y e y' ->
    process_step (Serving conn debug y) (Serving conn debug y')
| p_dropped conn debug y :
    y_open y = false ->
    process_step (Serving conn debug y) (Exited 1 "IPC connection dropped, exiting" (y_core y))
| p_parent conn debug y find wait signals m :
    watch_parent goos find wait signals = Some m ->
    process_step (Serving conn debug y) (Exited 1 m (y_core y))
| p_memory conn debug y readings live :
    Panic live ∈ watchMemory readings ->
    process_step (Serving conn debug y) (Exited 2 (watchdog_panic live) (y_core y)).

(** The connection is the parent's: it is the client, and it is at the other end. *)
Definition parents_connection (conn : nat) : Prop :=
  trusted_parent goos getParentExePath Executable resolveFinalPath Dir Base ParentPID /\
  exists n, dial (attempts n) = Ok conn /\ peer (attempts n) = Some ParentPID.

(** A core some run of the handlers on that connection's requests has come to. *)
Definition served (c0 : core) (conn : nat) (debug : bool) (y : system) : Prop :=
  parents_connection conn /\ debug = bool_decide (env "NUNYA_CORE_DEBUG" = "1") /\
  exists tr, @runs (service debug) load_of empty_of error_resp (sys_init c0 (input_of conn)) tr y.

Definition process_ok (c0 : core) (p : process) : Prop :=
  match p with
  | Serving conn debug y => served c0 conn debug y
  | Exited code m c =>
      (code = 1 \/ code = 2) /\ (c = c0 \/ exists conn debug y, served c0 conn debug y /\ y_core y = c)
  end.

Lemma launch_ok c0 : process_ok c0 (launch c0).
Proof.
  unfold launch. destruct (RunCore env _ ParentPID attempts) as [[[[conn debug]|m] closed] n] eqn:E; [|cbn; auto].
  apply RunCore_serves in E as (Hc & Hd & Hp & Hdebug). split_and!; [|done|by exists []; constructor].
  split; [by apply CheckParentProcess_trusted | by eexists].
Qed.

Lemma process_ok_step c0 p1 p2 : process_step p1 p2 -> process_ok c0 p1 -> process_ok c0 p2.
Proof.
  intros Hs Hok. destruct Hs; cbn in *; try (split; [auto|]; right; eauto).
  destruct Hok as (Hp & Hd & tr & Hr). split_and!; [done|done|]. eexists. by eapply runs_snoc.
Qed.

(** A run of the handlers is one of the process. *)
Lemma serve_runs conn debug y tr y' :
  @runs (service debug) load_of empty_of error_resp y tr y' -> steps process_step (Serving conn debug y) (Serving conn debug y').
Proof.
  induction 1 as [|tr y1 e y2 _ IH Hs]; [constructor|]. eapply steps_trans; [exact IH|]. apply steps_one. by econstructor.
Qed.

End Core.

(** ** A client that hangs up *)

Module HangUp.
Import Session.
#[local] Existing Instance Session.service.

(** The client of [Session] connects at the second attempt and hangs up after [input]. *)
Definition env (v : string) : string := if bool_decide (v = "NUNYA_CORE_SOCKET") then "sock" else "".
Definition attempts (i : nat) : result nat * unix_peer :=
  match i with 0%nat => (Err "refused", PeerPid 0) | _ => (Ok 3%nat, PeerPid 42) end.

#[local] Abbreviation process_step := (process_step (fun _ => service) load empty error_resp "linux").
Definition launched (input : list byte) : process := (launch "linux" (fun _ => Ok "/opt/nunya/Nunya") (Ok "/opt/nunya/NunyaCore") (fun p => p)
  (fun _ => "/opt/nunya") Diagnostics.path_Base env 42 attempts (fun _ => input) Sample.core0).

Lemma launched_serves input : launched input = Serving 3 false (sys_init Sample.core0 input).
Proof. vm_compute. reflexivity. Qed.

Lemma dropped : steps process_step (launched (encode_request start_request))
  (Exited 1 "IPC connection dropped, exiting" started).
Proof.
  rewrite launched_serves. eapply steps_trans; [eapply serve_runs|].
  - eapply (runs_app _ _ _ _ [Accepted 0; Finished 0 others; Written 0] _
      (one_request Sample.core0 (encode_request start_request) 0 [] start_request [] ltac:(vm_compute; reflexivity) eq_refl) []).
    apply (runs_cons _ _ _ _ None _ [] _ (sys_return _ _ _ _ [] _ _ _ _ _ _ ltac:(vm_compute; reflexivity))). apply runs_nil.
  - apply steps_one. by apply p_dropped.
Qed.

(** the core exits without a stop when its client goes: the helper process of the
    profile that runs stays, and its configuration stays on the disk. *)
Theorem dropped_peer_orphans_helper :
  exists c, steps process_step (launched (encode_request start_request))
      (Exited 1 "IPC connection dropped, exiting" c) /\
    bool_decide (o_running (c_os c) = {[ 0%nat ]}) = true /\
    bool_decide (dom (o_files (c_os c)) = dom (o_files (c_os Sample.core0))) = false.
Proof. exists started. split; [exact dropped|]. split; vm_compute; reflexivity. Qed.

End HangUp.
